(** * Gallery: the presentation state machine, checked against its JavaScript

    A shallow embedding of the parts of [js/controls.js] (the [Controls],
    [Gallery3D] and [ModelLoader] classes) and [js/mouseInteraction.js]
    (the [MouseInteraction] class) that decide the properties stated for the
    presentation state machine: model activation and cross-fade, pointer and
    idle rotation, camera transitions and spotlight configuration.  The
    further properties at the end also cover the callers and callees of that
    code: the keyboard handler of [Gallery3D], the touch handlers of
    [MouseInteraction], the navigation of [js/scrollHandler.js] and the
    message queue of [js/uiManager.js].

    Conventions of the embedding.
    - A JavaScript number is a rational [Q]: every finite double is a
      rational, and the arithmetic is the exact one (no rounding).  Where a
      JavaScript operation would leave the finite numbers (a division by
      zero) the embedded function returns [None].
    - An object used as a dictionary ([modelStates], [spotlights]) is a
      [gmap string _]; [null] and [undefined] are [None].  A lookup of an
      absent key is [undefined] in JavaScript only for a key that does not
      name a member of [Object.prototype] ([JS.inherited]); where the code
      looks up a key that may be absent and the difference decides what
      happens, it is modelled ([ModelLoader.updateSpotlightThrows]).
    - Methods mutate [this]; here they are functions from the state before to
      the state after, with the values read from the environment
      ([Date.now()], [Math.random()], [Math.sin(..)], [window.innerWidth])
      passed as arguments.
    - Callbacks handed to [requestAnimationFrame] are kept in the state as
      the list of closures waiting for the next frame. *)

From Stdlib Require Import QArith Qabs Qround Lqa Lia ZArith List.
From stdpp Require Import gmap strings.

Open Scope Q_scope.

(** ** JavaScript primitives *)

Module JS.

(** [x < y] on numbers. *)
Definition Qltb (x y : Q) : bool := negb (Qle_bool y x).

Definition Math_max (a b : Q) : Q := if Qle_bool a b then b else a.
Definition Math_min (a b : Q) : Q := if Qle_bool a b then a else b.

(** [Math.PI] is the double 3.141592653589793, that is
    884279719003555 / 2^48. *)
Definition Math_PI : Q := 884279719003555 # 281474976710656.

(** Truthiness of a number: every number but [0] (and [NaN]). *)
Definition truthy (v : Q) : bool := negb (Qeq_bool v 0).

(** Truthiness of a string: every string but the empty one. *)
Definition truthy_string (s : string) : bool :=
  match s with EmptyString => false | String _ _ => true end.

(** [v || d] where [v] is a property that may be absent. *)
Definition or_else (v : option Q) (d : Q) : Q :=
  match v with
  | Some n => if truthy n then n else d
  | None => d
  end.

(** [a ?? d]-like default of a parameter: [f(x = d)]. *)
Definition default_arg (v : option Q) (d : Q) : Q :=
  match v with Some n => n | None => d end.

(** The names [Object.prototype] hands down to every object literal.  On
    an object used as a dictionary, [obj[key]] finds one of these members
    when [obj] has no property of its own under such a [key]: a function
    (for [__proto__], the prototype object), which is truthy. *)
Definition inherited (key : string) : bool :=
  existsb (String.eqb key)
    ["constructor"; "hasOwnProperty"; "isPrototypeOf"; "propertyIsEnumerable";
     "toLocaleString"; "toString"; "valueOf"; "__defineGetter__";
     "__defineSetter__"; "__lookupGetter__"; "__lookupSetter__"; "__proto__"].

End JS.

(** ** three.js values used by the code *)

Module Vector3.

Record t := mk { x : Q; y : Q; z : Q }.

Definition zero : t := mk 0 0 0.

(** [this.lerpVectors(v1, v2, alpha)]: [v1 + (v2 - v1) * alpha]. *)
Definition lerpVectors (v1 v2 : t) (alpha : Q) : t :=
  mk (x v1 + (x v2 - x v1) * alpha)
     (y v1 + (y v2 - y v1) * alpha)
     (z v1 + (z v2 - z v1) * alpha).

Definition add (a b : t) : t := mk (x a + x b) (y a + y b) (z a + z b).

Definition set_x (v : t) (q : Q) : t := mk q (y v) (z v).
Definition set_y (v : t) (q : Q) : t := mk (x v) q (z v).

End Vector3.

Module MathUtils.

(** [THREE.MathUtils.lerp(x, y, t)] is [(1 - t) * x + t * y]. *)
Definition lerp (x y t : Q) : Q := (1 - t) * x + t * y.

End MathUtils.

(** ** Controls (js/controls.js, class Controls) *)

Module Controls.

(** The closure [animate] built by [animateCameraTo]: the values it
    captures. *)
Record Animation := mkAnimation {
  startPosition : Vector3.t;
  targetPosition : Vector3.t;
  startLookAt : Vector3.t;
  targetLookAt : Vector3.t;
  startTime : Z;
  duration : Q
}.

Record t := mk {
  camera_position : Vector3.t;
  camera_zoom : Q;
  orbit_target : Vector3.t;
  orbit_autoRotate : bool;
  orbit_autoRotateSpeed : Q;
  isAutoRotating : bool;
  rotationSpeed : Q;
  isAnimatingCamera : bool;
  (** closures registered with [requestAnimationFrame], oldest first *)
  frameCallbacks : list Animation
}.

Definition set_camera_position (c : t) (p : Vector3.t) : t :=
  mk p (camera_zoom c) (orbit_target c) (orbit_autoRotate c)
     (orbit_autoRotateSpeed c) (isAutoRotating c) (rotationSpeed c)
     (isAnimatingCamera c) (frameCallbacks c).

Definition set_camera_zoom (c : t) (q : Q) : t :=
  mk (camera_position c) q (orbit_target c) (orbit_autoRotate c)
     (orbit_autoRotateSpeed c) (isAutoRotating c) (rotationSpeed c)
     (isAnimatingCamera c) (frameCallbacks c).

Definition set_orbit_target (c : t) (p : Vector3.t) : t :=
  mk (camera_position c) (camera_zoom c) p (orbit_autoRotate c)
     (orbit_autoRotateSpeed c) (isAutoRotating c) (rotationSpeed c)
     (isAnimatingCamera c) (frameCallbacks c).

Definition set_autoRotate (c : t) (auto : bool) (speed : Q) (flag : bool)
    (rs : Q) : t :=
  mk (camera_position c) (camera_zoom c) (orbit_target c) auto speed flag rs
     (isAnimatingCamera c) (frameCallbacks c).

Definition set_isAnimatingCamera (c : t) (b : bool) : t :=
  mk (camera_position c) (camera_zoom c) (orbit_target c)
     (orbit_autoRotate c) (orbit_autoRotateSpeed c) (isAutoRotating c)
     (rotationSpeed c) b (frameCallbacks c).

Definition set_frameCallbacks (c : t) (l : list Animation) : t :=
  mk (camera_position c) (camera_zoom c) (orbit_target c)
     (orbit_autoRotate c) (orbit_autoRotateSpeed c) (isAutoRotating c)
     (rotationSpeed c) (isAnimatingCamera c) l.

Section WithOrbitControls.

(** [OrbitControls.update()] belongs to three.js.  It may move the camera
    (damping, distance and polar limits) and reads the orbit target and
    the auto-rotate settings; it does not know the fields of [Controls].
    It is taken as a parameter: the camera position after the call. *)
Variable orbitControls_update : t -> Vector3.t.

Definition orbit_update (c : t) : t :=
  set_camera_position c (orbitControls_update c).

(** [constructor], lines 5-24: auto-rotation enabled, zoom disabled.
    [setupOrbitControls] runs first and leaves the orbit auto-rotation
    off with target (0,0,0). *)
Definition constructor (camera : Vector3.t) : t :=
  mk camera 1 Vector3.zero false 0 true 0.5 true [].

(** [constructor] of the orbit variant of the class, lines 277-295.
    [setupOrbitControls] reads [this.isAutoRotating] and
    [this.rotationSpeed] before they are assigned: both are
    [undefined] there, modelled as [false] and [0]. *)
Definition constructor_orbit (camera : Vector3.t) : t :=
  mk camera 1 Vector3.zero false 0 true 0.5 false [].

Definition easeInOutCubic (p : Q) : Q :=
  if JS.Qltb p 0.5 then 4 * p * p * p
  else 1 - (-2 * p + 2) ^ 3 / 2.

(** [Math.min(elapsed / duration, 1)].  With [duration = 0] the quotient
    is [Infinity] for a positive [elapsed] (the minimum is then 1) and is
    not a finite number otherwise. *)
Definition progress_of (elapsed dur : Q) : option Q :=
  if Qeq_bool dur 0 then
    if JS.Qltb 0 elapsed then Some 1 else None
  else Some (JS.Math_min (elapsed / dur) 1).

(** [animateCameraTo(targetPosition, targetLookAt, duration = 1500)],
    called when [Date.now()] is [now]. *)
Definition animateCameraTo (tp tl : Vector3.t) (dur : option Q) (now : Z)
    (c : t) : t :=
  if isAnimatingCamera c then c
  else
    let a := mkAnimation (camera_position c) tp (orbit_target c) tl now
               (JS.default_arg dur 1500) in
    set_frameCallbacks (set_isAnimatingCamera c true)
      (frameCallbacks c ++ [a]).

(** One run of the closure [animate] at time [now]. *)
Definition animate (a : Animation) (now : Z) (c : t) : option t :=
  let elapsed := inject_Z (now - startTime a) in
  match progress_of elapsed (duration a) with
  | None => None
  | Some progress =>
      let eased := easeInOutCubic progress in
      let c1 := set_camera_position c
                  (Vector3.lerpVectors (startPosition a) (targetPosition a) eased) in
      let c2 := set_orbit_target c1
                  (Vector3.lerpVectors (startLookAt a) (targetLookAt a) eased) in
      let c3 := orbit_update c2 in
      if JS.Qltb progress 1
      then Some (set_frameCallbacks c3 (frameCallbacks c3 ++ [a]))
      else Some (set_isAnimatingCamera c3 false)
  end.

(** The browser runs, at a frame, the callbacks registered before it;
    what they register runs at the next frame. *)
Fixpoint run_callbacks (l : list Animation) (now : Z) (c : t) : option t :=
  match l with
  | [] => Some c
  | a :: l' =>
      match animate a now c with
      | None => None
      | Some c' => run_callbacks l' now c'
      end
  end.

Definition frame (now : Z) (c : t) : option t :=
  run_callbacks (frameCallbacks c) now (set_frameCallbacks c []).

(** [resetView(currentIndex = 0)], lines 138-154 (the call into
    [ModelLoader.resetManualRotation] is made by [Gallery3D]). *)
Definition resetView (now : Z) (c : t) : t :=
  let targetPosition := Vector3.mk 0 1 0 in
  let targetLookAt := Vector3.mk 0 0 0 in
  let c1 := animateCameraTo targetPosition targetLookAt None now c in
  orbit_update (set_orbit_target c1 targetLookAt).

(** [updateCameraForModel(modelIndex)], lines 156-163. *)
Definition updateCameraForModel (modelIndex : Z) (now : Z) (c : t) : t :=
  let targetPosition := camera_position c in
  let targetLookAt := Vector3.mk 0 0 0 in
  animateCameraTo targetPosition targetLookAt (Some 800) now c.

(** The same two methods in the orbit variant, lines 459-489;
    [modelPosition] is [modelLoader.getModelPosition(index)]. *)
Definition resetView_orbit (modelPosition innerWidth : Q) (now : Z)
    (c : t) : t :=
  let isMobile := Qle_bool innerWidth 768 in
  let cameraOffset := if isMobile then 0 else modelPosition * 0.2 in
  let targetPosition := Vector3.mk cameraOffset 1 8 in
  let targetLookAt := Vector3.mk modelPosition 0 0 in
  let c1 := animateCameraTo targetPosition targetLookAt None now c in
  orbit_update (set_orbit_target c1 targetLookAt).

Definition updateCameraForModel_orbit (modelPosition innerWidth : Q)
    (totalModels : Z) (now : Z) (c : t) : t :=
  let isMobile := Qle_bool innerWidth 768 in
  let cameraOffset := if isMobile then 0 else modelPosition * 0.2 in
  let targetPosition :=
    Vector3.mk cameraOffset (Vector3.y (camera_position c))
      (Vector3.z (camera_position c)) in
  let targetLookAt := Vector3.mk modelPosition 0 0 in
  let dur := if (6 <? totalModels)%Z then 1500 else 1000 in
  animateCameraTo targetPosition targetLookAt (Some dur) now c.

(** [setAutoRotateSpeed(speed)]. *)
Definition setAutoRotateSpeed (speed : Q) (c : t) : t :=
  set_autoRotate c (JS.Qltb 0 speed) speed (JS.Qltb 0 speed) speed.

(** [toggleAutoRotate()], lines 81-96. *)
Definition toggleAutoRotate (c : t) : t :=
  let flag := negb (isAutoRotating c) in
  let c1 := set_autoRotate c flag
              (if flag then rotationSpeed c else 0) flag (rotationSpeed c) in
  orbit_update c1.

(** [setCameraState(state)]: each present (truthy) part is copied. *)
Definition setCameraState (position target : option Vector3.t)
    (zoom : option Q) (c : t) : t :=
  let c1 := match position with Some p => set_camera_position c p | None => c end in
  let c2 := match target with Some p => set_orbit_target c1 p | None => c1 end in
  let c3 := set_camera_zoom c2 (JS.or_else zoom (camera_zoom c2)) in
  orbit_update c3.

(** [update(delta)]; [sin2t] is the value of [Math.sin(time * 2)]. *)
Definition update (sin2t : Q) (c : t) : t :=
  let c1 := orbit_update c in
  if isAutoRotating c1 && negb (isAnimatingCamera c1) then
    let shake := sin2t * 0.002 in
    set_camera_position c1
      (Vector3.set_y (camera_position c1) (Vector3.y (camera_position c1) + shake))
  else c1.

(** What can happen to a [Controls] object.  [focusOnPoint] computes a
    destination (with a square root) and calls [animateCameraTo]: it is an
    instance of the first step. *)
Inductive step : t -> t -> Prop :=
| step_animateCameraTo tp tl dur now c :
    step c (animateCameraTo tp tl dur now c)
| step_frame now c c' :
    frame now c = Some c' -> step c c'
| step_resetView now c : step c (resetView now c)
| step_updateCameraForModel i now c : step c (updateCameraForModel i now c)
| step_resetView_orbit mp w now c : step c (resetView_orbit mp w now c)
| step_updateCameraForModel_orbit mp w n now c :
    step c (updateCameraForModel_orbit mp w n now c)
| step_setAutoRotateSpeed speed c : step c (setAutoRotateSpeed speed c)
| step_toggleAutoRotate c : step c (toggleAutoRotate c)
| step_setCameraState p tg zm c : step c (setCameraState p tg zm c)
| step_update s c : step c (update s c).

Inductive reachable : t -> Prop :=
| reachable_constructor camera : reachable (constructor camera)
| reachable_constructor_orbit camera :
    reachable (constructor_orbit camera)
| reachable_step c c' : reachable c -> step c c' -> reachable c'.

(** A transition is in flight when its closure waits for a frame. *)
Definition inFlight (c : t) : Prop := frameCallbacks c <> [].

End WithOrbitControls.

End Controls.

(** ** ModelLoader (js/controls.js, class ModelLoader with manual rotation,
       lines 1746-2620): data *)

(** The scene-graph object of a loaded model ([gltf.scene]).  [opacity] is
    the [material.opacity] that [setupModelMaterials] and
    [updateModelAppearance] write to every mesh of the model. *)
Module Object3D.
Record t := mk {
  position : Vector3.t;
  rotation : Vector3.t;
  visible : bool;
  opacity : Q
}.
Definition set_position (o : t) (p : Vector3.t) : t :=
  mk p (rotation o) (visible o) (opacity o).
Definition set_rotation (o : t) (r : Vector3.t) : t :=
  mk (position o) r (visible o) (opacity o).
Definition set_visible (o : t) (b : bool) : t :=
  mk (position o) (rotation o) b (opacity o).
Definition set_opacity (o : t) (q : Q) : t :=
  mk (position o) (rotation o) (visible o) q.
End Object3D.

(** [state.manualRotation] of one model. *)
Module ModelManualRotation.
Record t := mk {
  rotationX : Q;
  rotationY : Q;
  baseRotationX : Q;
  baseRotationY : Q;
  baseRotationZ : Q
}.
End ModelManualRotation.

(** [state.autoRotation] of one model. *)
Module ModelAutoRotation.
Record t := mk {
  currentRotationX : Q;
  currentRotationY : Q;
  baseRotationX : Q;
  baseRotationY : Q;
  baseRotationZ : Q
}.
Definition set_currentRotationY (a : t) (q : Q) : t :=
  mk (currentRotationX a) q (baseRotationX a) (baseRotationY a)
     (baseRotationZ a).
Definition set_current (a : t) (qx qy : Q) : t :=
  mk qx qy (baseRotationX a) (baseRotationY a) (baseRotationZ a).
End ModelAutoRotation.

(** One entry of [this.modelStates]. *)
Module ModelState.
Record t := mk {
  modelObject : option Object3D.t;
  targetOpacity : Q;
  currentOpacity : Q;
  visible : bool;
  targetX : Q;
  currentX : Q;
  scale : Vector3.t;
  mixer : bool;   (* an animation mixer is attached *)
  manualRotation : ModelManualRotation.t;
  autoRotation : ModelAutoRotation.t
}.
Definition set_modelObject (s : t) (o : option Object3D.t) : t :=
  mk o (targetOpacity s) (currentOpacity s) (visible s) (targetX s)
     (currentX s) (scale s) (mixer s) (manualRotation s) (autoRotation s).
Definition set_targetOpacity (s : t) (q : Q) : t :=
  mk (modelObject s) q (currentOpacity s) (visible s) (targetX s)
     (currentX s) (scale s) (mixer s) (manualRotation s) (autoRotation s).
Definition set_currentOpacity (s : t) (q : Q) : t :=
  mk (modelObject s) (targetOpacity s) q (visible s) (targetX s)
     (currentX s) (scale s) (mixer s) (manualRotation s) (autoRotation s).
Definition set_visible (s : t) (b : bool) : t :=
  mk (modelObject s) (targetOpacity s) (currentOpacity s) b (targetX s)
     (currentX s) (scale s) (mixer s) (manualRotation s) (autoRotation s).
Definition set_targetX (s : t) (q : Q) : t :=
  mk (modelObject s) (targetOpacity s) (currentOpacity s) (visible s) q
     (currentX s) (scale s) (mixer s) (manualRotation s) (autoRotation s).
Definition set_currentX (s : t) (q : Q) : t :=
  mk (modelObject s) (targetOpacity s) (currentOpacity s) (visible s)
     (targetX s) q (scale s) (mixer s) (manualRotation s) (autoRotation s).
Definition set_mixer (s : t) (b : bool) : t :=
  mk (modelObject s) (targetOpacity s) (currentOpacity s) (visible s)
     (targetX s) (currentX s) (scale s) b (manualRotation s) (autoRotation s).
Definition set_autoRotation (s : t) (a : ModelAutoRotation.t) : t :=
  mk (modelObject s) (targetOpacity s) (currentOpacity s) (visible s)
     (targetX s) (currentX s) (scale s) (mixer s) (manualRotation s) a.
End ModelState.

(** [light.color]: set by [setHSL] at creation, by [setHex] later. *)
Inductive Color :=
| HSL (h s l : Q)
| Hex (c : Q).

Module SpotLight.
Record t := mk {
  color : Color;
  intensity : Q;
  distance : Q;
  angle : Q;
  penumbra : Q;
  decay : Q;
  position : Vector3.t
}.
Definition set_intensity (l : t) (q : Q) : t :=
  mk (color l) q (distance l) (angle l) (penumbra l) (decay l) (position l).
Definition set_position (l : t) (p : Vector3.t) : t :=
  mk (color l) (intensity l) (distance l) (angle l) (penumbra l) (decay l) p.
Definition set_color (l : t) (c : Color) : t :=
  mk c (intensity l) (distance l) (angle l) (penumbra l) (decay l) (position l).
End SpotLight.

(** One entry of [this.spotlights]; [target] is the position of the target
    object of the light. *)
Module SpotlightData.
Record t := mk {
  light : SpotLight.t;
  target : Vector3.t;
  originalIntensity : Q;
  currentIntensity : Q;
  targetIntensity : Q
}.
Definition set_light (d : t) (l : SpotLight.t) : t :=
  mk l (target d) (originalIntensity d) (currentIntensity d) (targetIntensity d).
Definition set_target (d : t) (p : Vector3.t) : t :=
  mk (light d) p (originalIntensity d) (currentIntensity d) (targetIntensity d).
Definition set_currentIntensity (d : t) (q : Q) : t :=
  mk (light d) (target d) (originalIntensity d) q (targetIntensity d).
Definition set_targetIntensity (d : t) (q : Q) : t :=
  mk (light d) (target d) (originalIntensity d) (currentIntensity d) q.
End SpotlightData.

(** [this.spotlightConfig]. *)
Module SpotlightConfig.
Record t := mk {
  color : Q;
  intensity : Q;
  distance : Q;
  angle : Q;
  penumbra : Q;
  decay : Q;
  height : Q;
  targetOffset : Vector3.t
}.
End SpotlightConfig.

(** The argument of [updateSpotlightConfig]: an object in which each
    property is present (with a number) or absent. *)
Module SpotlightSettings.
Record t := mk {
  color : option Q;
  intensity : option Q;
  distance : option Q;
  angle : option Q;
  penumbra : option Q;
  decay : option Q;
  height : option Q;
  targetOffset : option Vector3.t
}.
Definition empty : t := mk None None None None None None None None.
End SpotlightSettings.

(** [this.manualRotation]. *)
Module ManualRotation.
Record t := mk {
  enabled : bool;
  sensitivity : Q;
  dampening : Q;
  maxSpeed : Q;
  isDragging : bool;
  lastMouseX : Q;
  lastMouseY : Q;
  velocityX : Q;
  velocityY : Q;
  targetRotationX : Q;
  targetRotationY : Q;
  currentRotationX : Q;
  currentRotationY : Q;
  rotateActiveOnly : bool
}.
Definition set_enabled (m : t) (b : bool) : t :=
  mk b (sensitivity m) (dampening m) (maxSpeed m) (isDragging m)
     (lastMouseX m) (lastMouseY m) (velocityX m) (velocityY m)
     (targetRotationX m) (targetRotationY m) (currentRotationX m)
     (currentRotationY m) (rotateActiveOnly m).
Definition set_sensitivity (m : t) (q : Q) : t :=
  mk (enabled m) q (dampening m) (maxSpeed m) (isDragging m)
     (lastMouseX m) (lastMouseY m) (velocityX m) (velocityY m)
     (targetRotationX m) (targetRotationY m) (currentRotationX m)
     (currentRotationY m) (rotateActiveOnly m).
Definition set_dampening (m : t) (q : Q) : t :=
  mk (enabled m) (sensitivity m) q (maxSpeed m) (isDragging m)
     (lastMouseX m) (lastMouseY m) (velocityX m) (velocityY m)
     (targetRotationX m) (targetRotationY m) (currentRotationX m)
     (currentRotationY m) (rotateActiveOnly m).
Definition set_isDragging (m : t) (b : bool) : t :=
  mk (enabled m) (sensitivity m) (dampening m) (maxSpeed m) b
     (lastMouseX m) (lastMouseY m) (velocityX m) (velocityY m)
     (targetRotationX m) (targetRotationY m) (currentRotationX m)
     (currentRotationY m) (rotateActiveOnly m).
Definition set_lastMouse (m : t) (mx my : Q) : t :=
  mk (enabled m) (sensitivity m) (dampening m) (maxSpeed m) (isDragging m)
     mx my (velocityX m) (velocityY m)
     (targetRotationX m) (targetRotationY m) (currentRotationX m)
     (currentRotationY m) (rotateActiveOnly m).
Definition set_velocity (m : t) (vx vy : Q) : t :=
  mk (enabled m) (sensitivity m) (dampening m) (maxSpeed m) (isDragging m)
     (lastMouseX m) (lastMouseY m) vx vy
     (targetRotationX m) (targetRotationY m) (currentRotationX m)
     (currentRotationY m) (rotateActiveOnly m).
Definition set_targetRotation (m : t) (rx ry : Q) : t :=
  mk (enabled m) (sensitivity m) (dampening m) (maxSpeed m) (isDragging m)
     (lastMouseX m) (lastMouseY m) (velocityX m) (velocityY m)
     rx ry (currentRotationX m) (currentRotationY m) (rotateActiveOnly m).
Definition set_currentRotation (m : t) (rx ry : Q) : t :=
  mk (enabled m) (sensitivity m) (dampening m) (maxSpeed m) (isDragging m)
     (lastMouseX m) (lastMouseY m) (velocityX m) (velocityY m)
     (targetRotationX m) (targetRotationY m) rx ry (rotateActiveOnly m).
End ManualRotation.

(** [this.autoRotation]. *)
Module AutoRotation.
Record t := mk {
  enabled : bool;
  speed : Q;
  direction : Q;
  rotateActiveOnly : bool
}.
End AutoRotation.

(** A gallery item of the configuration ([urls.json]). *)
Module GalleryItem.
Record t := mk {
  id : string;
  title : string;
  modelScale : Vector3.t
}.
End GalleryItem.

(** What the loader delivers for a model that loads: the position of
    [gltf.scene], the centre of its bounding box and whether it carries
    animation clips. *)
Module Gltf.
Record t := mk {
  scene_position : Vector3.t;
  center : Vector3.t;
  animated : bool
}.
End Gltf.

(** ** ModelLoader: operations *)

Module ModelLoader.

Record t := mk {
  modelStates : gmap string ModelState.t;
  activeModelId : option string;
  modelXOffset : Q;
  totalModels : Z;
  scaleMultiplier : Q;
  spotlights : gmap string SpotlightData.t;
  spotlightConfig : SpotlightConfig.t;
  manualRotation : ManualRotation.t;
  autoRotation : AutoRotation.t
}.

Definition set_modelStates (s : t) (m : gmap string ModelState.t) : t :=
  mk m (activeModelId s) (modelXOffset s) (totalModels s) (scaleMultiplier s)
     (spotlights s) (spotlightConfig s) (manualRotation s) (autoRotation s).
Definition set_activeModelId (s : t) (a : option string) : t :=
  mk (modelStates s) a (modelXOffset s) (totalModels s) (scaleMultiplier s)
     (spotlights s) (spotlightConfig s) (manualRotation s) (autoRotation s).
Definition set_layout (s : t) (off : Q) (n : Z) (mult : Q) : t :=
  mk (modelStates s) (activeModelId s) off n mult
     (spotlights s) (spotlightConfig s) (manualRotation s) (autoRotation s).
Definition set_spotlights (s : t) (m : gmap string SpotlightData.t) : t :=
  mk (modelStates s) (activeModelId s) (modelXOffset s) (totalModels s)
     (scaleMultiplier s) m (spotlightConfig s) (manualRotation s)
     (autoRotation s).
Definition set_spotlightConfig (s : t) (c : SpotlightConfig.t) : t :=
  mk (modelStates s) (activeModelId s) (modelXOffset s) (totalModels s)
     (scaleMultiplier s) (spotlights s) c (manualRotation s) (autoRotation s).
Definition set_manualRotation (s : t) (m : ManualRotation.t) : t :=
  mk (modelStates s) (activeModelId s) (modelXOffset s) (totalModels s)
     (scaleMultiplier s) (spotlights s) (spotlightConfig s) m (autoRotation s).
Definition set_autoRotation (s : t) (a : AutoRotation.t) : t :=
  mk (modelStates s) (activeModelId s) (modelXOffset s) (totalModels s)
     (scaleMultiplier s) (spotlights s) (spotlightConfig s)
     (manualRotation s) a.

(** [constructor], lines 1747-1812. *)
Definition constructor : t :=
  mk ∅ None 6 0 1 ∅
     (SpotlightConfig.mk 16777215 2 30 (JS.Math_PI / 6) 0.3 1.5 8 Vector3.zero)
     (ManualRotation.mk true 0.05 0.95 0.05 false 0 0 0 0 0 0 0 0 true)
     (AutoRotation.mk true 0.5 (-1) true).

(** *** Pointer events, lines 1843-1922 *)

Definition onMouseDown (button : Z) (clientX clientY : Q) (s : t) : t :=
  let m := manualRotation s in
  if negb (ManualRotation.enabled m) || negb (button =? 0)%Z then s
  else
    let m1 := ManualRotation.set_isDragging m true in
    let m2 := ManualRotation.set_lastMouse m1 clientX clientY in
    set_manualRotation s (ManualRotation.set_velocity m2 0 0).

(** [Math.max(-maxSpeed, Math.min(maxSpeed, v))]. *)
Definition clampVelocity (m : ManualRotation.t) (v : Q) : Q :=
  JS.Math_max (- ManualRotation.maxSpeed m)
    (JS.Math_min (ManualRotation.maxSpeed m) v).

Definition onMouseMove (clientX clientY : Q) (s : t) : t :=
  let m := manualRotation s in
  if negb (ManualRotation.enabled m) || negb (ManualRotation.isDragging m)
  then s
  else
    let deltaX := clientX - ManualRotation.lastMouseX m in
    let deltaY := clientY - ManualRotation.lastMouseY m in
    let m1 := ManualRotation.set_velocity m
                (deltaX * ManualRotation.sensitivity m)
                (deltaY * ManualRotation.sensitivity m) in
    let m2 := ManualRotation.set_velocity m1
                (clampVelocity m1 (ManualRotation.velocityX m1))
                (clampVelocity m1 (ManualRotation.velocityY m1)) in
    set_manualRotation s (ManualRotation.set_lastMouse m2 clientX clientY).

Definition onMouseUp (s : t) : t :=
  let m := manualRotation s in
  if negb (ManualRotation.enabled m) then s
  else set_manualRotation s (ManualRotation.set_isDragging m false).

Definition onMouseLeave (s : t) : t :=
  let m := manualRotation s in
  if negb (ManualRotation.enabled m) then s
  else set_manualRotation s (ManualRotation.set_isDragging m false).

(** [touches] is [event.touches], each touch with its [clientX] and
    [clientY]. *)
Definition onTouchStart (touches : list (Q * Q)) (s : t) : t :=
  let m := manualRotation s in
  match touches with
  | [(tx, ty)] =>
      if negb (ManualRotation.enabled m) then s
      else
        let m1 := ManualRotation.set_isDragging m true in
        let m2 := ManualRotation.set_lastMouse m1 tx ty in
        set_manualRotation s (ManualRotation.set_velocity m2 0 0)
  | _ => s
  end.

Definition onTouchMove (touches : list (Q * Q)) (s : t) : t :=
  let m := manualRotation s in
  match touches with
  | [(tx, ty)] =>
      if negb (ManualRotation.enabled m) || negb (ManualRotation.isDragging m)
      then s
      else
        let deltaX := tx - ManualRotation.lastMouseX m in
        let deltaY := ty - ManualRotation.lastMouseY m in
        let m1 := ManualRotation.set_velocity m
                    (deltaX * ManualRotation.sensitivity m)
                    (deltaY * ManualRotation.sensitivity m) in
        set_manualRotation s (ManualRotation.set_lastMouse m1 tx ty)
  | _ => s
  end.

Definition onTouchEnd (s : t) : t :=
  let m := manualRotation s in
  if negb (ManualRotation.enabled m) then s
  else set_manualRotation s (ManualRotation.set_isDragging m false).

(** *** Layout and loading, lines 1928-2064 *)

Definition calculateSceneLayout (total : Z) (s : t) : t :=
  if (total <=? 3)%Z then set_layout s 6 total 1
  else if (total <=? 6)%Z then set_layout s 5 total 0.9
  else if (total <=? 10)%Z then set_layout s 4.5 total 0.8
  else set_layout s 4 total 0.7.

(** The six values [Math.random()] returns while [loadModel] builds the
    state of a model, in the order of the calls. *)
Record BaseRandoms := mkBaseRandoms {
  manualX : Q; manualY : Q; manualZ : Q;
  autoX : Q; autoY : Q; autoZ : Q
}.

(** The object literal assigned to [this.modelStates[item.id]]. *)
Definition initialModelState (item : GalleryItem.t) (index : Z)
    (r : BaseRandoms) : ModelState.t :=
  ModelState.mk None
    (if (index =? 0)%Z then 1 else 0)
    (if (index =? 0)%Z then 1 else 0)
    (index =? 0)%Z
    0 0 (GalleryItem.modelScale item) false
    (ModelManualRotation.mk 0 0
       ((manualX r - 0.5) * 0.2) (manualY r * JS.Math_PI * 2)
       ((manualZ r - 0.5) * 0.2))
    (ModelAutoRotation.mk 0 0
       ((autoX r - 0.5) * 0.2) (autoY r * JS.Math_PI * 2)
       ((autoZ r - 0.5) * 0.2)).

(** [index % 2 === 0]. *)
Definition isContentOnLeft (index : Z) : bool := Z.even index.

Definition isMobile (innerWidth : Q) : bool := Qle_bool innerWidth 768.

(** [positionModel(model, modelId, index)], on the model and its state;
    [randomY] is the value of [Math.random()]. *)
Definition positionModel (innerWidth randomY xOffset : Q) (index : Z)
    (model : Object3D.t) (st : ModelState.t) : Object3D.t * ModelState.t :=
  let tX :=
    if isMobile innerWidth then 0
    else if isContentOnLeft index then xOffset else - xOffset in
  let st1 := ModelState.set_currentX (ModelState.set_targetX st tX) tX in
  let p := Object3D.position model in
  let p1 := Vector3.set_y (Vector3.set_x p tX) ((randomY - 0.5) * 0.5) in
  (Object3D.set_position model p1, st1).

(** [(index * 0.15) % 1]: the remainder has the sign of the dividend. *)
Definition hueOf (index : Z) : Q :=
  let v := inject_Z index * 0.15 in
  if JS.Qltb v 0 then v - inject_Z (Qceiling v) else v - inject_Z (Qfloor v).

(** [createSpotlightForModel(model, modelId, index)]. *)
Definition createSpotlightForModel (modelPosition : Vector3.t)
    (modelId : string) (index : Z) (s : t) : t :=
  let cfg := spotlightConfig s in
  let current := if (index =? 0)%Z then SpotlightConfig.intensity cfg else 0 in
  let spotlight :=
    SpotLight.mk (HSL (hueOf index) 0.3 0.9)
      current
      (SpotlightConfig.distance cfg) (SpotlightConfig.angle cfg)
      (SpotlightConfig.penumbra cfg) (SpotlightConfig.decay cfg)
      (Vector3.mk (Vector3.x modelPosition) (SpotlightConfig.height cfg)
         (Vector3.z modelPosition + 5)) in
  let data :=
    SpotlightData.mk spotlight
      (Vector3.add modelPosition (SpotlightConfig.targetOffset cfg))
      (SpotlightConfig.intensity cfg) current current in
  set_spotlights s (<[modelId := data]> (spotlights s)).

(** [processModel(gltf, item, index)]: the success callback of the
    loader.  The state of the item was stored by [loadModel] just before;
    were it missing the callback would throw, which cannot happen here. *)
Definition processModel (innerWidth randomY : Q) (gltf : Gltf.t)
    (item : GalleryItem.t) (index : Z) (s : t) : t :=
  let id := GalleryItem.id item in
  match modelStates s !! id with
  | None => s
  | Some st =>
      let mr := ModelState.manualRotation st in
      let model0 :=
        Object3D.mk
          (Vector3.mk
             (Vector3.x (Gltf.scene_position gltf) - Vector3.x (Gltf.center gltf))
             (Vector3.y (Gltf.scene_position gltf) - Vector3.y (Gltf.center gltf))
             (Vector3.z (Gltf.scene_position gltf) - Vector3.z (Gltf.center gltf)))
          (Vector3.mk (ModelManualRotation.baseRotationX mr)
             (ModelManualRotation.baseRotationY mr)
             (ModelManualRotation.baseRotationZ mr))
          true
          (ModelState.currentOpacity st) in
      let st1 := if Gltf.animated gltf then ModelState.set_mixer st true else st in
      let '(model1, st2) :=
        positionModel innerWidth randomY (modelXOffset s) index model0 st1 in
      let s1 := createSpotlightForModel (Object3D.position model1) id index s in
      let model2 :=
        if (index =? 0)%Z then model1 else Object3D.set_visible model1 false in
      let st3 := ModelState.set_modelObject st2 (Some model2) in
      let s2 := set_modelStates s1 (<[id := st3]> (modelStates s1)) in
      if (index =? 0)%Z then set_activeModelId s2 (Some id) else s2
  end.

(** The environment of one [loadModel]: the random draws, the width of
    the window, and what the loader answers ([None]: the error callback
    runs and the promise is rejected). *)
Record LoadEnv := mkLoadEnv {
  randoms : BaseRandoms;
  randomY : Q;
  innerWidth : Q;
  outcome : option Gltf.t
}.

(** [loadModel(item, index)] up to the settlement of its promise; the
    boolean tells whether the promise was fulfilled. *)
Definition loadModel (env : LoadEnv) (item : GalleryItem.t) (index : Z)
    (s : t) : t * bool :=
  let s1 :=
    set_modelStates s
      (<[GalleryItem.id item := initialModelState item index (randoms env)]>
         (modelStates s)) in
  match outcome env with
  | Some gltf =>
      (processModel (innerWidth env) (randomY env) gltf item index s1, true)
  | None => (s1, false)
  end.

(** *** Spotlights, lines 2166-2211 *)

Definition updateSpotlightForModel (modelId : string)
    (modelPosition : Vector3.t) (s : t) : t :=
  let cfg := spotlightConfig s in
  set_spotlights s
    (alter (fun d =>
              let l := SpotLight.set_position (SpotlightData.light d)
                         (Vector3.mk (Vector3.x modelPosition)
                            (SpotlightConfig.height cfg)
                            (Vector3.z modelPosition + 5)) in
              SpotlightData.set_target (SpotlightData.set_light d l)
                (Vector3.add modelPosition (SpotlightConfig.targetOffset cfg)))
       modelId (spotlights s)).

(** The last statement of [updateSpotlightForModel], lines 2180-2182:
    [if (this.spotlightHelpers[modelId]) this.spotlightHelpers[modelId].update()].
    A helper stored under [modelId] is a [SpotLightHelper], whose [update]
    returns.  When [modelId] names a member of [Object.prototype] no helper
    is ever stored under it ([showHelpers] starts [false], and the test
    [!this.spotlightHelpers[modelId]] of [toggleSpotlightHelpers] finds the
    inherited member): the lookup finds that member, which has no [update],
    and the call throws a [TypeError].  (For such a [modelId] without a
    light of its own the lookup [this.spotlights[modelId]] finds the
    inherited member too, and [light.position] throws a few lines
    earlier.) *)
Definition updateSpotlightThrows (modelId : string) : bool :=
  JS.inherited modelId.

Definition activateSpotlight (modelId : string) (s : t) : t :=
  let off := (fun d => SpotlightData.set_targetIntensity d 0) <$> spotlights s in
  set_spotlights s
    (alter (fun d => SpotlightData.set_targetIntensity d
                       (SpotlightData.originalIntensity d))
       modelId off).

(** [animateSpotlights(delta)]; [sinTime id] is the value of
    [Math.sin(time)] when the light of [id] is visited. *)
Definition animateSpotlight (delta sinT : Q) (d : SpotlightData.t)
    : SpotlightData.t :=
  let cur := MathUtils.lerp (SpotlightData.currentIntensity d)
               (SpotlightData.targetIntensity d) (delta * 3) in
  let d1 := SpotlightData.set_currentIntensity d cur in
  let l1 := SpotLight.set_intensity (SpotlightData.light d1) cur in
  let l2 :=
    if JS.Qltb 0 (SpotlightData.targetIntensity d1)
    then SpotLight.set_intensity l1 (cur * (sinT * 0.1 + 1))
    else l1 in
  SpotlightData.set_light d1 l2.

Definition animateSpotlights (delta : Q) (sinTime : string -> Q) (s : t) : t :=
  set_spotlights s
    (map_imap (fun id d => Some (animateSpotlight delta (sinTime id) d))
       (spotlights s)).

(** *** Activation, lines 2231-2249 *)

(** Truthiness of [this.activeModelId]: not [null] and not the empty
    string. *)
Definition truthy_id (a : option string) : bool :=
  match a with Some i => JS.truthy_string i | None => false end.

Definition hideState (st : ModelState.t) : ModelState.t :=
  ModelState.set_visible (ModelState.set_targetOpacity st 0) false.

Definition showState (st : ModelState.t) : ModelState.t :=
  let st1 := ModelState.set_visible (ModelState.set_targetOpacity st 1) true in
  match ModelState.modelObject st1 with
  | Some o => ModelState.set_modelObject st1 (Some (Object3D.set_visible o true))
  | None => st1
  end.

Definition showModel (modelId : string) (index : Z) (s : t) : t :=
  let ms1 :=
    match activeModelId s with
    | Some a =>
        if JS.truthy_string a then alter hideState a (modelStates s)
        else modelStates s
    | None => modelStates s
    end in
  let s1 := set_activeModelId (set_modelStates s ms1) (Some modelId) in
  let s2 := set_modelStates s1 (alter showState modelId (modelStates s1)) in
  activateSpotlight modelId s2.

Definition updateModelAppearance (st : ModelState.t) : ModelState.t :=
  match ModelState.modelObject st with
  | Some o =>
      ModelState.set_modelObject st
        (Some (Object3D.set_opacity
                 (Object3D.set_visible o (ModelState.visible st))
                 (ModelState.currentOpacity st)))
  | None => st
  end.

(** *** Manual and automatic rotation, lines 2289-2439 *)

Definition manualRotationOf (m : ManualRotation.t) (st : ModelState.t)
    : Vector3.t :=
  let mr := ModelState.manualRotation st in
  Vector3.mk
    (ModelManualRotation.baseRotationX mr + ManualRotation.currentRotationX m)
    (ModelManualRotation.baseRotationY mr + ManualRotation.currentRotationY m)
    (ModelManualRotation.baseRotationZ mr).

(** The body of [applyManualRotationToModel] once the state is found. *)
Definition applyManualRotation (m : ManualRotation.t) (st : ModelState.t)
    : ModelState.t :=
  match ModelState.modelObject st with
  | None => st
  | Some o =>
      ModelState.set_modelObject st
        (Some (Object3D.set_rotation o (manualRotationOf m st)))
  end.

Definition applyManualRotationToModel (modelId : string) (s : t) : t :=
  set_modelStates s
    (alter (applyManualRotation (manualRotation s)) modelId (modelStates s)).

Definition updateManualRotation (delta : Q) (s : t) : t :=
  let m := manualRotation s in
  let m1 := ManualRotation.set_velocity m
              (ManualRotation.velocityX m * ManualRotation.dampening m)
              (ManualRotation.velocityY m * ManualRotation.dampening m) in
  let m2 := ManualRotation.set_targetRotation m1
              (ManualRotation.targetRotationX m1 + ManualRotation.velocityY m1)
              (ManualRotation.targetRotationY m1 + ManualRotation.velocityX m1) in
  let m3 := ManualRotation.set_currentRotation m2
              (MathUtils.lerp (ManualRotation.currentRotationX m2)
                 (ManualRotation.targetRotationX m2) (delta * 8))
              (MathUtils.lerp (ManualRotation.currentRotationY m2)
                 (ManualRotation.targetRotationY m2) (delta * 8)) in
  let s1 := set_manualRotation s m3 in
  if ManualRotation.rotateActiveOnly m3 then
    match activeModelId s1 with
    | Some a =>
        if JS.truthy_string a then applyManualRotationToModel a s1 else s1
    | None => s1
    end
  else
    set_modelStates s1
      ((fun st => if ModelState.visible st then applyManualRotation m3 st else st)
         <$> modelStates s1).

(** The body of [applyAutoRotationToModel] once the state is found. *)
Definition applyAutoRotation (a : AutoRotation.t) (delta : Q)
    (st : ModelState.t) : ModelState.t :=
  match ModelState.modelObject st with
  | None => st
  | Some o =>
      let ar := ModelState.autoRotation st in
      let ar1 := ModelAutoRotation.set_currentRotationY ar
                   (ModelAutoRotation.currentRotationY ar
                    + AutoRotation.speed a * AutoRotation.direction a * delta) in
      let o1 := Object3D.set_rotation o
                  (Vector3.mk (ModelAutoRotation.baseRotationX ar1)
                     (ModelAutoRotation.baseRotationY ar1
                      + ModelAutoRotation.currentRotationY ar1)
                     (ModelAutoRotation.baseRotationZ ar1)) in
      ModelState.set_modelObject (ModelState.set_autoRotation st ar1) (Some o1)
  end.

Definition applyAutoRotationToModel (modelId : string) (delta : Q) (s : t) : t :=
  set_modelStates s
    (alter (applyAutoRotation (autoRotation s) delta) modelId (modelStates s)).

Definition updateAutoRotation (delta : Q) (s : t) : t :=
  if AutoRotation.rotateActiveOnly (autoRotation s) then
    match activeModelId s with
    | Some a =>
        if JS.truthy_string a then applyAutoRotationToModel a delta s else s
    | None => s
    end
  else
    set_modelStates s
      ((fun st => if ModelState.visible st
                  then applyAutoRotation (autoRotation s) delta st else st)
         <$> modelStates s).

Definition enableManualRotation (s : t) : t :=
  set_manualRotation s (ManualRotation.set_enabled (manualRotation s) true).

Definition disableManualRotation (s : t) : t :=
  set_manualRotation s
    (ManualRotation.set_isDragging
       (ManualRotation.set_enabled (manualRotation s) false) false).

Definition setRotationSensitivity (v : Q) (s : t) : t :=
  set_manualRotation s
    (ManualRotation.set_sensitivity (manualRotation s)
       (JS.Math_max 0.001 (JS.Math_min 0.1 v))).

Definition setRotationDampening (v : Q) (s : t) : t :=
  set_manualRotation s
    (ManualRotation.set_dampening (manualRotation s)
       (JS.Math_max 0.8 (JS.Math_min 0.99 v))).

Definition resetManualRotation (s : t) : t :=
  let m := manualRotation s in
  set_manualRotation s
    (ManualRotation.set_velocity
       (ManualRotation.set_currentRotation
          (ManualRotation.set_targetRotation m 0 0) 0 0) 0 0).

Definition enableAutoRotation (s : t) : t :=
  let a := autoRotation s in
  set_autoRotation s
    (AutoRotation.mk true (AutoRotation.speed a) (AutoRotation.direction a)
       (AutoRotation.rotateActiveOnly a)).

Definition disableAutoRotation (s : t) : t :=
  let a := autoRotation s in
  set_autoRotation s
    (AutoRotation.mk false (AutoRotation.speed a) (AutoRotation.direction a)
       (AutoRotation.rotateActiveOnly a)).

Definition setAutoRotationSpeed (v : Q) (s : t) : t :=
  let a := autoRotation s in
  set_autoRotation s
    (AutoRotation.mk (AutoRotation.enabled a) (JS.Math_max 0 (JS.Math_min 5 v))
       (AutoRotation.direction a) (AutoRotation.rotateActiveOnly a)).

Definition setAutoRotationDirection (v : Q) (s : t) : t :=
  let a := autoRotation s in
  set_autoRotation s
    (AutoRotation.mk (AutoRotation.enabled a) (AutoRotation.speed a)
       (if JS.Qltb 0 v then 1 else -1) (AutoRotation.rotateActiveOnly a)).

Definition resetAutoRotation (s : t) : t :=
  set_modelStates s
    ((fun st => ModelState.set_autoRotation st
                  (ModelAutoRotation.set_current (ModelState.autoRotation st) 0 0))
       <$> modelStates s).

Definition getActiveModel (s : t) : option ModelState.t :=
  match activeModelId s with
  | Some a => if JS.truthy_string a then modelStates s !! a else None
  | None => None
  end.

Definition getModelPosition (innerWidth : Q) (index : Z) (s : t) : Q :=
  if isMobile innerWidth then 0
  else if isContentOnLeft index then modelXOffset s else - modelXOffset s.

(** *** The frame update, lines 2465-2529 *)

(** The opacity part of the loop body: the interpolated opacity, then the
    hide/show test; the result is the new [currentOpacity] and [visible]. *)
Definition fadeOpacity (delta : Q) (current target : Q) (vis : bool)
    : Q * bool :=
  let cur := MathUtils.lerp current target (delta * 3) in
  if JS.Qltb cur 0.01 && Qeq_bool target 0 then (0, false)
  else if JS.Qltb 0 target then (cur, true)
  else (cur, vis).

(** The position of the model after the horizontal interpolation, as
    handed to [updateSpotlightForModel]. *)
Definition slidPosition (delta : Q) (st : ModelState.t) (o : Object3D.t)
    : Vector3.t :=
  Vector3.set_x (Object3D.position o)
    (MathUtils.lerp (ModelState.currentX st) (ModelState.targetX st) (delta * 4)).

(** The body of the loop over [this.modelStates] for one model;
    [active] is [modelId === this.activeModelId], [sinT] the value of
    [Math.sin(time)]. *)
Definition updateModel (delta : Q) (active dragging : bool) (sinT : Q)
    (st : ModelState.t) : ModelState.t :=
  match ModelState.modelObject st with
  | None => st
  | Some o =>
      let '(cur, vis) :=
        fadeOpacity delta (ModelState.currentOpacity st)
          (ModelState.targetOpacity st) (ModelState.visible st) in
      let p := slidPosition delta st o in
      let st1 := ModelState.set_currentX st (Vector3.x p) in
      let st2 := ModelState.set_visible (ModelState.set_currentOpacity st1 cur) vis in
      let st3 := updateModelAppearance
                   (ModelState.set_modelObject st2
                      (Some (Object3D.set_position o p))) in
      if active && ModelState.visible st3 && negb dragging then
        match ModelState.modelObject st3 with
        | Some o3 =>
            let floatingY := sinT * 0.001 in
            let p3 := Object3D.position o3 in
            ModelState.set_modelObject st3
              (Some (Object3D.set_position o3
                       (Vector3.set_y p3 (Vector3.y p3 + floatingY))))
        | None => st3
        end
      else st3
  end.

(** The spotlight of a model follows the model in the same iteration:
    the lines of [updateSpotlightForModel] that move the light and its
    target.  Its last statement, the helper lookup, writes nothing; when it
    throws is [updateSpotlightThrows]. *)
Definition followModel (delta : Q) (cfg : SpotlightConfig.t)
    (states : gmap string ModelState.t) (id : string) (d : SpotlightData.t)
    : SpotlightData.t :=
  match states !! id with
  | Some st =>
      match ModelState.modelObject st with
      | Some o =>
          let p := slidPosition delta st o in
          let l := SpotLight.set_position (SpotlightData.light d)
                     (Vector3.mk (Vector3.x p) (SpotlightConfig.height cfg)
                        (Vector3.z p + 5)) in
          SpotlightData.set_target (SpotlightData.set_light d l)
            (Vector3.add p (SpotlightConfig.targetOffset cfg))
      | None => d
      end
  | None => d
  end.

(** The loop [for (const modelId in this.modelStates)], run to its end.
    An iteration reads [activeModelId] and [isDragging] and writes the state
    and the spotlight of its own model only, so the order of the iterations
    does not matter for the result.  Whether the loop gets to its end is
    [updateThrows] below. *)
Definition updateModels (delta : Q) (sinTime : string -> Q) (s : t) : t :=
  let dragging := ManualRotation.isDragging (manualRotation s) in
  let states :=
    map_imap (fun id st =>
                Some (updateModel delta
                        (bool_decide (activeModelId s = Some id))
                        dragging (sinTime id) st))
      (modelStates s) in
  let lights :=
    map_imap (fun id d =>
                Some (followModel delta (spotlightConfig s) (modelStates s) id d))
      (spotlights s) in
  set_spotlights (set_modelStates s states) lights.

(** [update(delta)] when it returns; [sinTime] and [sinPulse] give the
    values of [Math.sin(time)] in the loop over the models and in
    [animateSpotlights]. *)
Definition update (delta : Q) (sinTime sinPulse : string -> Q) (s : t) : t :=
  let s1 :=
    if ManualRotation.enabled (manualRotation s)
    then updateManualRotation delta s else s in
  let s2 :=
    if AutoRotation.enabled (autoRotation s1)
       && negb (ManualRotation.isDragging (manualRotation s1))
    then updateAutoRotation delta s1 else s1 in
  animateSpotlights delta sinPulse (updateModels delta sinTime s2).

(** Whether the loop over [this.modelStates] throws: the iteration of a
    model that has its scene-graph object calls
    [updateSpotlightForModel(modelId, ..)], after the interpolations and
    before the hide/show test and [updateModelAppearance].  The exception
    leaves the loop, so the models enumerated later are not visited and
    [animateSpotlights] does not run; which models come later depends on the
    order in which [for ... in] enumerates the ids, and the state an aborted
    frame leaves behind is not modelled. *)
Definition updateThrows (s : t) : bool :=
  bool_decide
    (map_Exists
       (fun id st => is_Some (ModelState.modelObject st) /\
                     updateSpotlightThrows id = true)
       (modelStates s)).

(** [update(delta)] with its exception: [None] when the loop throws. *)
Definition tryUpdate (delta : Q) (sinTime sinPulse : string -> Q) (s : t)
    : option t :=
  let s1 :=
    if ManualRotation.enabled (manualRotation s)
    then updateManualRotation delta s else s in
  let s2 :=
    if AutoRotation.enabled (autoRotation s1)
       && negb (ManualRotation.isDragging (manualRotation s1))
    then updateAutoRotation delta s1 else s1 in
  if updateThrows s2 then None
  else Some (animateSpotlights delta sinPulse (updateModels delta sinTime s2)).

(** *** [updateSpotlightConfig(config)], lines 2604-2619 *)

(** [{ ...this.spotlightConfig, ...config }]. *)
Definition mergeConfig (cfg : SpotlightConfig.t) (config : SpotlightSettings.t)
    : SpotlightConfig.t :=
  SpotlightConfig.mk
    (default (SpotlightConfig.color cfg) (SpotlightSettings.color config))
    (default (SpotlightConfig.intensity cfg) (SpotlightSettings.intensity config))
    (default (SpotlightConfig.distance cfg) (SpotlightSettings.distance config))
    (default (SpotlightConfig.angle cfg) (SpotlightSettings.angle config))
    (default (SpotlightConfig.penumbra cfg) (SpotlightSettings.penumbra config))
    (default (SpotlightConfig.decay cfg) (SpotlightSettings.decay config))
    (default (SpotlightConfig.height cfg) (SpotlightSettings.height config))
    (default (SpotlightConfig.targetOffset cfg)
       (SpotlightSettings.targetOffset config)).

(** The body of the [forEach] over the existing spotlights. *)
Definition reconfigureLight (config : SpotlightSettings.t) (light : SpotLight.t)
    : SpotLight.t :=
  SpotLight.mk
    (match SpotlightSettings.color config with
     | Some c => if JS.truthy c then Hex c else SpotLight.color light
     | None => SpotLight.color light
     end)
    (JS.or_else (SpotlightSettings.intensity config) (SpotLight.intensity light))
    (JS.or_else (SpotlightSettings.distance config) (SpotLight.distance light))
    (JS.or_else (SpotlightSettings.angle config) (SpotLight.angle light))
    (JS.or_else (SpotlightSettings.penumbra config) (SpotLight.penumbra light))
    (JS.or_else (SpotlightSettings.decay config) (SpotLight.decay light))
    (SpotLight.position light).

Definition updateSpotlightConfig (config : SpotlightSettings.t) (s : t) : t :=
  let s1 := set_spotlightConfig s (mergeConfig (spotlightConfig s) config) in
  set_spotlights s1
    ((fun d => SpotlightData.set_light d
                 (reconfigureLight config (SpotlightData.light d)))
       <$> spotlights s1).

End ModelLoader.

(** ** MouseInteraction (js/mouseInteraction.js) *)

Module MouseInteraction.

Record t := mk {
  isInteracting : bool;
  isDragging : bool;
  isHovering : bool;
  activeModel : option string;
  mouseStart : Q * Q;
  mouseCurrent : Q * Q;
  rotationSpeed : Q;
  touchStartDistance : Q
}.

Definition constructor : t := mk false false false None (0, 0) (0, 0) 0.01 0.

Definition set_mouseStart (m : t) (p : Q * Q) : t :=
  mk (isInteracting m) (isDragging m) (isHovering m) (activeModel m) p
     (mouseCurrent m) (rotationSpeed m) (touchStartDistance m).
Definition set_mouseCurrent (m : t) (p : Q * Q) : t :=
  mk (isInteracting m) (isDragging m) (isHovering m) (activeModel m)
     (mouseStart m) p (rotationSpeed m) (touchStartDistance m).
Definition set_isHovering (m : t) (b : bool) : t :=
  mk (isInteracting m) (isDragging m) b (activeModel m)
     (mouseStart m) (mouseCurrent m) (rotationSpeed m) (touchStartDistance m).
Definition set_drag (m : t) (interacting dragging : bool)
    (a : option string) : t :=
  mk interacting dragging (isHovering m) a
     (mouseStart m) (mouseCurrent m) (rotationSpeed m) (touchStartDistance m).

(** The three assignments to [model.rotation] in [rotateActiveModel]. *)
Definition rotateObject (speed deltaX deltaY : Q) (o : Object3D.t)
    : Object3D.t :=
  let r := Object3D.rotation o in
  let ry := Vector3.y r + deltaX * speed in
  let rx := Vector3.x r + deltaY * speed in
  let rx' := JS.Math_max (- JS.Math_PI / 3) (JS.Math_min (JS.Math_PI / 3) rx) in
  Object3D.set_rotation o (Vector3.mk rx' ry (Vector3.z r)).

(** [rotateActiveModel(deltaX, deltaY)], lines 223-239, on
    [this.modelLoader.modelStates]. *)
Definition rotateActiveModel (deltaX deltaY : Q) (m : t)
    (states : gmap string ModelState.t) : gmap string ModelState.t :=
  match activeModel m with
  | Some a =>
      if JS.truthy_string a then
        alter (fun st =>
                 match ModelState.modelObject st with
                 | Some o =>
                     ModelState.set_modelObject st
                       (Some (rotateObject (rotationSpeed m) deltaX deltaY o))
                 | None => st
                 end) a states
      else states
  | None => states
  end.

(** [onMouseDown(event)]; [hit] is the id that [performRaycast] and
    [findModelIdFromObject] find under the pointer, [active] is
    [this.modelLoader.activeModelId].  The boolean tells whether
    [onModelInteract('startInteraction', modelId)] is called. *)
Definition onMouseDown (button : Z) (clientX clientY : Q)
    (hit active : option string) (m : t) : t * bool :=
  if negb (button =? 0)%Z then (m, false)
  else
    let m1 := set_mouseStart m (clientX, clientY) in
    match hit with
    | Some id =>
        if JS.truthy_string id && bool_decide (Some id = active)
        then (set_drag m1 true true (Some id), true)
        else (m1, false)
    | None => (m1, false)
    end.

(** The drag branch and the hover branch of [onMouseMove(event)]. *)
Definition onMouseMove (clientX clientY : Q) (hit active : option string)
    (m : t) (states : gmap string ModelState.t)
    : t * gmap string ModelState.t :=
  let m1 := set_mouseCurrent m (clientX, clientY) in
  if isDragging m1 && ModelLoader.truthy_id (activeModel m1) then
    let deltaX := fst (mouseCurrent m1) - fst (mouseStart m1) in
    let deltaY := snd (mouseCurrent m1) - snd (mouseStart m1) in
    (set_mouseStart m1 (mouseCurrent m1),
     rotateActiveModel deltaX deltaY m1 states)
  else
    match hit with
    | Some id =>
        (set_isHovering m1
           (JS.truthy_string id && bool_decide (Some id = active)), states)
    | None => (set_isHovering m1 false, states)
    end.

(** [onMouseUp(event)]; the boolean tells whether
    [onModelInteract('endInteraction')] is called. *)
Definition onMouseUp (m : t) : t * bool :=
  if isDragging m then (set_drag m false false None, true) else (m, false).

Definition reset (m : t) : t :=
  set_drag (set_isHovering m false) false false None.

Definition set_touchStartDistance (m : t) (q : Q) : t :=
  mk (isInteracting m) (isDragging m) (isHovering m) (activeModel m)
     (mouseStart m) (mouseCurrent m) (rotationSpeed m) q.

(** [onTouchStart(event)], lines 274-302; [touches] is [event.touches],
    [dist] the value of [Math.sqrt(dx * dx + dy * dy)] for two touches,
    [hit] and [active] are as in [onMouseDown].  The boolean tells whether
    [onModelInteract('startInteraction', modelId)] is called. *)
Definition onTouchStart (touches : list (Q * Q)) (dist : Q)
    (hit active : option string) (m : t) : t * bool :=
  match touches with
  | [(tx, ty)] =>
      let m1 := set_mouseStart m (tx, ty) in
      match hit with
      | Some id =>
          if JS.truthy_string id && bool_decide (Some id = active)
          then (set_drag m1 true true (Some id), true)
          else (m1, false)
      | None => (m1, false)
      end
  | [_; _] => (set_touchStartDistance m dist, false)
  | _ => (m, false)
  end.

(** [onTouchMove(event)], lines 304-334.  The last component is the
    [deltaY] of the wheel event that the two-finger branch hands to
    [onMouseWheel], when it does. *)
Definition onTouchMove (touches : list (Q * Q)) (dist : Q) (m : t)
    (states : gmap string ModelState.t)
    : t * gmap string ModelState.t * option Q :=
  match touches with
  | [(tx, ty)] =>
      if isDragging m then
        let m1 := set_mouseCurrent m (tx, ty) in
        let deltaX := fst (mouseCurrent m1) - fst (mouseStart m1) in
        let deltaY := snd (mouseCurrent m1) - snd (mouseStart m1) in
        (set_mouseStart m1 (mouseCurrent m1),
         rotateActiveModel deltaX deltaY m1 states, None)
      else (m, states, None)
  | [_; _] =>
      let wheel :=
        if JS.Qltb 0 (touchStartDistance m)
        then Some (- ((dist / touchStartDistance m - 1) * 100))
        else None in
      (set_touchStartDistance m dist, states, wheel)
  | _ => (m, states, None)
  end.

(** [onTouchEnd(event)], lines 336-349; [remaining] is
    [event.touches.length].  The boolean tells whether
    [onModelInteract('endInteraction')] is called. *)
Definition onTouchEnd (remaining : nat) (m : t) : t * bool :=
  match remaining with
  | O => (set_touchStartDistance (set_drag m false false None) 0, true)
  | S _ => (m, false)
  end.

(** [disableInteraction()], lines 361-367, on the fields of the object. *)
Definition disableInteraction (m : t) : t :=
  set_drag (set_isHovering m false) false false None.

(** What the canvas can send to a [MouseInteraction] object, with what
    the raycast finds and the active id of the loader at that time. *)
Inductive Input :=
| InMouseDown (button : Z) (clientX clientY : Q) (hit active : option string)
| InMouseMove (clientX clientY : Q) (hit active : option string)
| InMouseUp
| InTouchStart (touches : list (Q * Q)) (dist : Q) (hit active : option string)
| InTouchMove (touches : list (Q * Q)) (dist : Q)
| InTouchEnd (remaining : nat)
| InReset
| InDisable.

(** The handlers act on the object and on the model states of the loader. *)
Definition handle (ms : t * gmap string ModelState.t) (i : Input)
    : t * gmap string ModelState.t :=
  let '(m, states) := ms in
  match i with
  | InMouseDown button x y hit active =>
      (fst (onMouseDown button x y hit active m), states)
  | InMouseMove x y hit active => onMouseMove x y hit active m states
  | InMouseUp => (fst (onMouseUp m), states)
  | InTouchStart touches dist hit active =>
      (fst (onTouchStart touches dist hit active m), states)
  | InTouchMove touches dist => fst (onTouchMove touches dist m states)
  | InTouchEnd remaining => (fst (onTouchEnd remaining m), states)
  | InReset => (reset m, states)
  | InDisable => (disableInteraction m, states)
  end.

End MouseInteraction.

(** ** Gallery3D (js/controls.js, class Gallery3D, lines 619-1154) *)

Module Gallery3D.

(** What the gallery does to the page: the calls into [UIManager] and the
    DOM, in the order they are made. *)
Inductive UiEffect :=
| UpdateProgress (percent : Q)
| ShowError (message : string)
| ScrollIntoView (id : string)
| UpdateProgressDots (activeIndex : Z)
| UpdateModelInfo (title : string)
| UpdateInteractionArea (index : Z)
| SetButtonActive (button : string) (active : bool).

Record t := mk {
  galleryData : list GalleryItem.t;
  autoRotateSpeed : Q;          (* [settings.autoRotateSpeed] *)
  currentIndex : Z;
  modelLoader : ModelLoader.t;
  controls : Controls.t;
  mouseInteraction : MouseInteraction.t;
  ui : list UiEffect;
  (** due times of the pending [setTimeout] of [endInteraction] *)
  timers : list Z
}.

Definition set_currentIndex (g : t) (i : Z) : t :=
  mk (galleryData g) (autoRotateSpeed g) i (modelLoader g) (controls g)
     (mouseInteraction g) (ui g) (timers g).
Definition set_modelLoader (g : t) (l : ModelLoader.t) : t :=
  mk (galleryData g) (autoRotateSpeed g) (currentIndex g) l (controls g)
     (mouseInteraction g) (ui g) (timers g).
Definition set_controls (g : t) (c : Controls.t) : t :=
  mk (galleryData g) (autoRotateSpeed g) (currentIndex g) (modelLoader g) c
     (mouseInteraction g) (ui g) (timers g).
Definition set_mouseInteraction (g : t) (m : MouseInteraction.t) : t :=
  mk (galleryData g) (autoRotateSpeed g) (currentIndex g) (modelLoader g)
     (controls g) m (ui g) (timers g).
Definition emit (g : t) (e : list UiEffect) : t :=
  mk (galleryData g) (autoRotateSpeed g) (currentIndex g) (modelLoader g)
     (controls g) (mouseInteraction g) (ui g ++ e) (timers g).
Definition set_timers (g : t) (l : list Z) : t :=
  mk (galleryData g) (autoRotateSpeed g) (currentIndex g) (modelLoader g)
     (controls g) (mouseInteraction g) (ui g) l.

(** [this.galleryData[index]]. *)
Definition item_at (g : t) (index : Z) : option GalleryItem.t :=
  if (index <? 0)%Z then None else galleryData g !! Z.to_nat index.

Definition length_of (g : t) : Z := Z.of_nat (length (galleryData g)).

(** [switchToItem(newIndex)], lines 991-1016, called when [Date.now()]
    is [now]. *)
Definition switchToItem (now : Z) (newIndex : Z) (g : t) : t :=
  if negb (newIndex =? currentIndex g)%Z && (0 <=? newIndex)%Z
     && (newIndex <? length_of g)%Z
  then
    match item_at g newIndex with
    | None => g
    | Some item =>
        let g1 := set_currentIndex g newIndex in
        let g2 := set_modelLoader g1
                    (ModelLoader.showModel (GalleryItem.id item) newIndex
                       (modelLoader g1)) in
        let g3 := emit g2 [UpdateProgressDots newIndex;
                           UpdateModelInfo (GalleryItem.title item);
                           UpdateInteractionArea newIndex] in
        let g4 := set_controls g3
                    (Controls.updateCameraForModel newIndex now (controls g3)) in
        set_mouseInteraction g4 (MouseInteraction.reset (mouseInteraction g4))
    end
  else g.

(** [navigateToItem(index)], lines 974-989; [hasElement id] tells whether
    [document.getElementById(id)] finds an element. *)
Definition navigateToItem (hasElement : string -> bool) (now : Z) (index : Z)
    (g : t) : t :=
  if (0 <=? index)%Z && (index <? length_of g)%Z
     && negb (index =? currentIndex g)%Z
  then
    match item_at g index with
    | None => g
    | Some item =>
        if hasElement (GalleryItem.id item)
        then switchToItem now index (emit g [ScrollIntoView (GalleryItem.id item)])
        else g
    end
  else g.

(** [onItemChange(newIndex)]: the callback of the scroll handler. *)
Definition onItemChange (now : Z) (newIndex : Z) (g : t) : t :=
  switchToItem now newIndex g.

(** The loop of [loadModels()] from index [i] on; [envOf i] is the
    environment of the load of item [i]. *)
Fixpoint loadFrom (envOf : Z -> ModelLoader.LoadEnv) (i : Z)
    (items : list GalleryItem.t) (loaded : Z) (total : Z) (g : t) : t :=
  match items with
  | [] => g
  | item :: rest =>
      let '(l, ok) := ModelLoader.loadModel (envOf i) item i (modelLoader g) in
      let g1 := set_modelLoader g l in
      let g2 :=
        if ok
        then emit g1 [UpdateProgress (inject_Z (loaded + 1) / inject_Z total * 100)]
        else emit g1 [ShowError ("Failed to load 3D model: " ++ GalleryItem.title item)] in
      loadFrom envOf (i + 1) rest (loaded + 1) total g2
  end.

(** [loadModels()], lines 835-867. *)
Definition loadModels (envOf : Z -> ModelLoader.LoadEnv) (g : t) : t :=
  let total := length_of g in
  let g1 := set_modelLoader g
              (ModelLoader.calculateSceneLayout total (modelLoader g)) in
  let g2 := loadFrom envOf 0 (galleryData g1) 0 total g1 in
  match galleryData g2 with
  | item0 :: _ =>
      set_currentIndex
        (set_modelLoader g2
           (ModelLoader.showModel (GalleryItem.id item0) 0 (modelLoader g2)))
        0
  | [] => g2
  end.

(** The state when [init()] has loaded the models: the configuration is
    [items] and [settings], the camera stands at [(0, 0, cameraDistance)]. *)
Definition init (items : list GalleryItem.t) (autoSpeed cameraDistance : Q)
    (spotlightConfig : option SpotlightSettings.t)
    (envOf : Z -> ModelLoader.LoadEnv) : t :=
  let loader :=
    match spotlightConfig with
    | Some cfg => ModelLoader.updateSpotlightConfig cfg ModelLoader.constructor
    | None => ModelLoader.constructor
    end in
  loadModels envOf
    (mk items autoSpeed 0 loader
        (Controls.constructor (Vector3.mk 0 0 cameraDistance))
        MouseInteraction.constructor [] []).

(** [onModelInteract(action, modelId, data)], lines 907-931; [now] is the
    time of the call, which only the timer of [endInteraction] depends on. *)
Inductive Action := startInteraction | endInteraction | zoom.

Definition onModelInteract (action : Action) (now : Z) (g : t) : t :=
  match action with
  | startInteraction =>
      emit (set_controls g (Controls.setAutoRotateSpeed 0 (controls g)))
        [SetButtonActive "autoRotateBtn" false]
  | endInteraction => set_timers g (timers g ++ [(now + 2000)%Z])
  | zoom => g
  end.

(** The callback of the [setTimeout] of [endInteraction]. *)
Definition resumeAutoRotate (g : t) : t :=
  if Controls.isAutoRotating (controls g)
  then set_controls g
         (Controls.setAutoRotateSpeed (autoRotateSpeed g) (controls g))
  else g.

(** [animate()], lines 1136-1153: one frame with clock delta [delta], when
    [ModelLoader.update] returns. *)
Definition animate (orbitControls_update : Controls.t -> Vector3.t)
    (delta sin2t : Q) (sinTime sinPulse : string -> Q) (g : t) : t :=
  let g1 := set_controls g
              (Controls.update orbitControls_update sin2t (controls g)) in
  set_modelLoader g1
    (ModelLoader.update delta sinTime sinPulse (modelLoader g1)).

(** What happens to the gallery once it is initialised: an activation
    request ([switchToItem], reached from the scroll handler and from
    [navigateToItem]), an animation frame, a pointer event on the canvas, or
    the timer of [endInteraction] firing.  [ModelLoader] registers its
    listeners on the canvas before [MouseInteraction] does, so a pointer
    event runs the handler of the loader first; [hit] is the model the
    raycast of [MouseInteraction] finds under the pointer.  (The wheel
    handler of [MouseInteraction] moves the camera only and is left out.) *)
Inductive Event :=
| Activate (now : Z) (index : Z)
| Frame (delta sin2t : Q) (sinTime sinPulse : string -> Q)
| MouseDown (button : Z) (clientX clientY : Q) (hit : option string)
| MouseMove (clientX clientY : Q) (hit : option string)
| MouseUp (now : Z)
| Timeout.

Definition pointerDown (button : Z) (clientX clientY : Q) (hit : option string)
    (g : t) : t :=
  let g1 := set_modelLoader g
              (ModelLoader.onMouseDown button clientX clientY (modelLoader g)) in
  let '(mi, started) :=
    MouseInteraction.onMouseDown button clientX clientY hit
      (ModelLoader.activeModelId (modelLoader g1)) (mouseInteraction g1) in
  let g2 := set_mouseInteraction g1 mi in
  if started then onModelInteract startInteraction 0 g2 else g2.

Definition pointerMove (clientX clientY : Q) (hit : option string) (g : t) : t :=
  let g1 := set_modelLoader g
              (ModelLoader.onMouseMove clientX clientY (modelLoader g)) in
  let '(mi, states) :=
    MouseInteraction.onMouseMove clientX clientY hit
      (ModelLoader.activeModelId (modelLoader g1)) (mouseInteraction g1)
      (ModelLoader.modelStates (modelLoader g1)) in
  set_mouseInteraction
    (set_modelLoader g1 (ModelLoader.set_modelStates (modelLoader g1) states))
    mi.

Definition pointerUp (now : Z) (g : t) : t :=
  let g1 := set_modelLoader g (ModelLoader.onMouseUp (modelLoader g)) in
  let '(mi, ended) := MouseInteraction.onMouseUp (mouseInteraction g1) in
  let g2 := set_mouseInteraction g1 mi in
  if ended then onModelInteract endInteraction now g2 else g2.

(** The oldest pending timer fires. *)
Definition timeout (g : t) : t :=
  match timers g with
  | [] => g
  | _ :: rest => resumeAutoRotate (set_timers g rest)
  end.

Definition handle (orbitControls_update : Controls.t -> Vector3.t)
    (g : t) (e : Event) : t :=
  match e with
  | Activate now index => switchToItem now index g
  | Frame delta sin2t sinTime sinPulse =>
      animate orbitControls_update delta sin2t sinTime sinPulse g
  | MouseDown button clientX clientY hit => pointerDown button clientX clientY hit g
  | MouseMove clientX clientY hit => pointerMove clientX clientY hit g
  | MouseUp now => pointerUp now g
  | Timeout => timeout g
  end.

Definition run (orbitControls_update : Controls.t -> Vector3.t)
    (events : list Event) (g : t) : t :=
  fold_left (handle orbitControls_update) events g.

(** [this.controls.resetView(this.currentIndex)] as the gallery calls it:
    the camera part, and the call into the loader that [resetView] makes
    (lines 150-153). *)
Definition resetView (orbitControls_update : Controls.t -> Vector3.t)
    (now : Z) (g : t) : t :=
  set_modelLoader
    (set_controls g (Controls.resetView orbitControls_update now (controls g)))
    (ModelLoader.resetManualRotation (modelLoader g)).

(** [event.key] as [onKeyDown] distinguishes it; [KeyR] is ['r'] or ['R']. *)
Inductive Key := ArrowUp | ArrowDown | Space | KeyR | OtherKey.

(** [onKeyDown(event)], lines 1066-1087; the boolean tells whether the class
    [active] of the auto-rotate button is toggled (where the button
    exists). *)
Definition onKeyDown (orbitControls_update : Controls.t -> Vector3.t)
    (hasElement : string -> bool) (now : Z) (key : Key) (g : t) : t * bool :=
  match key with
  | ArrowUp => (navigateToItem hasElement now (currentIndex g - 1) g, false)
  | ArrowDown => (navigateToItem hasElement now (currentIndex g + 1) g, false)
  | Space =>
      (set_controls g (Controls.toggleAutoRotate orbitControls_update (controls g)),
       true)
  | KeyR => (resetView orbitControls_update now g, false)
  | OtherKey => (g, false)
  end.

End Gallery3D.

(** ** ScrollHandler (js/scrollHandler.js) *)

Module ScrollHandler.

(** What the handler does to the page, in the order of the calls. *)
Inductive Effect :=
| AddClass (id cls : string)
| RemoveClass (id cls : string)
| ScrollIntoView (id : string)
| SmoothScrollTo (id : string)
| Vibrate (ms : Z).

(** What the handler reads from the browser. *)
Record Env := mkEnv {
  hasElement : string -> bool;  (* [document.getElementById(id)] finds one *)
  smoothScroll : bool;          (* ['scrollBehavior' in ...style] *)
  canVibrate : bool;            (* ['vibrate' in navigator] *)
  innerWidth : Q;
  innerHeight : Q
}.

(** [galleryData] is the array the gallery holds as well. *)
Record t := mk {
  galleryData : list GalleryItem.t;
  currentIndex : Z;
  page : list Effect
}.

Definition constructor (data : list GalleryItem.t) : t := mk data 0 [].

Definition emit (sh : t) (e : list Effect) : t :=
  mk (galleryData sh) (currentIndex sh) (page sh ++ e).

Definition set_currentIndex (sh : t) (i : Z) : t :=
  mk (galleryData sh) i (page sh).

(** [this.galleryData[index]]. *)
Definition item_at (sh : t) (index : Z) : option GalleryItem.t :=
  if (index <? 0)%Z then None else galleryData sh !! Z.to_nat index.

Definition length_of (sh : t) : Z := Z.of_nat (length (galleryData sh)).

(** [this.galleryData.findIndex(item => item.id === id)]. *)
Fixpoint findIndexFrom (i : Z) (data : list GalleryItem.t) (id : string) : Z :=
  match data with
  | [] => (-1)%Z
  | item :: rest =>
      if bool_decide (GalleryItem.id item = id) then i
      else findIndexFrom (i + 1) rest id
  end.

Definition findIndex (sh : t) (id : string) : Z :=
  findIndexFrom 0 (galleryData sh) id.

(** [setActiveItem(index)], lines 133-161, with the callback that
    [Gallery3D.init] hands over; [None]: reading [.id] of a missing entry of
    [galleryData] throws a [TypeError]. *)
Definition setActiveItem (env : Env) (now : Z) (index : Z)
    (p : t * Gallery3D.t) : option (t * Gallery3D.t) :=
  let '(sh, g) := p in
  if (index =? currentIndex sh)%Z then Some (sh, g)
  else
    let removed :=
      if (0 <=? currentIndex sh)%Z then
        match item_at sh (currentIndex sh) with
        | None => None
        | Some prev =>
            Some (if hasElement env (GalleryItem.id prev)
                  then [RemoveClass (GalleryItem.id prev) "active"] else [])
        end
      else Some [] in
    match removed with
    | None => None
    | Some e1 =>
        match item_at sh index with
        | None => None
        | Some item =>
            let e2 := if hasElement env (GalleryItem.id item)
                      then [AddClass (GalleryItem.id item) "active"] else [] in
            let sh1 := set_currentIndex (emit sh (e1 ++ e2)) index in
            let g1 := Gallery3D.onItemChange now index g in
            let e3 := if canVibrate env && Qle_bool (innerWidth env) 768
                      then [Vibrate 10] else [] in
            Some (emit sh1 e3, g1)
        end
    end.

(** An [IntersectionObserverEntry]: the id of [entry.target], the ratio,
    the flag, [boundingClientRect.top] and [boundingClientRect.height]. *)
Record Entry := mkEntry {
  targetId : string;
  intersectionRatio : Q;
  isIntersecting : bool;
  top : Q;
  height : Q
}.

(** The state of the loop of [handleIntersection]: the index of the most
    visible entry so far, and its visibility. *)
Definition visit (env : Env) (sh : t)
    (acc : t * option Z * Q) (entry : Entry) : t * option Z * Q :=
  let '(page1, mostVisible, maxVisibility) := acc in
  let itemIndex := findIndex sh (targetId entry) in
  if (itemIndex =? -1)%Z then acc
  else
    let visibility :=
      if isIntersecting entry then
        let viewportCenter := innerHeight env / 2 in
        let elementCenter := top entry + height entry / 2 in
        let distanceFromCenter := Qabs (elementCenter - viewportCenter) in
        let maxDistance := innerHeight env / 2 in
        let centerBoost := 1 - distanceFromCenter * maxDistance in
        intersectionRatio entry * (1 + centerBoost)
      else intersectionRatio entry in
    let page2 :=
      emit page1
        [if isIntersecting entry && JS.Qltb 0.2 (intersectionRatio entry)
         then AddClass (targetId entry) "visible"
         else RemoveClass (targetId entry) "visible"] in
    if JS.Qltb maxVisibility visibility
    then (page2, Some itemIndex, visibility)
    else (page2, mostVisible, maxVisibility).

(** [handleIntersection(entries)], lines 40-82. *)
Definition handleIntersection (env : Env) (now : Z) (entries : list Entry)
    (p : t * Gallery3D.t) : option (t * Gallery3D.t) :=
  let '(sh, g) := p in
  let '(sh1, mostVisible, _) := fold_left (visit env sh) entries (sh, None, 0) in
  match mostVisible with
  | Some itemIndex =>
      if negb (itemIndex =? currentIndex sh1)%Z
      then setActiveItem env now itemIndex (sh1, g)
      else Some (sh1, g)
  | None => Some (sh1, g)
  end.

(** [scrollToItem(index)], lines 174-195. *)
Definition scrollToItem (env : Env) (index : Z) (sh : t) : t :=
  if (0 <=? index)%Z && (index <? length_of sh)%Z then
    match item_at sh index with
    | None => sh
    | Some item =>
        let id := GalleryItem.id item in
        if hasElement env id
        then emit sh [ScrollIntoView id;
                      if smoothScroll env then ScrollIntoView id
                      else SmoothScrollTo id]
        else sh
    end
  else sh.

Definition getPreviousIndex (sh : t) : Z := Z.max 0 (currentIndex sh - 1).

Definition getNextIndex (sh : t) : Z :=
  Z.min (length_of sh - 1) (currentIndex sh + 1).

Definition navigatePrevious (env : Env) (sh : t) : t :=
  let prevIndex := getPreviousIndex sh in
  if negb (prevIndex =? currentIndex sh)%Z then scrollToItem env prevIndex sh
  else sh.

Definition navigateNext (env : Env) (sh : t) : t :=
  let nextIndex := getNextIndex sh in
  if negb (nextIndex =? currentIndex sh)%Z then scrollToItem env nextIndex sh
  else sh.

(** One tick of the interval of [startAutoScroll], lines 252-255.  With an
    empty gallery the remainder is [NaN], which [scrollToItem] discards. *)
Definition autoScrollTick (env : Env) (sh : t) : t :=
  if (length_of sh =? 0)%Z then sh
  else scrollToItem env (Z.rem (currentIndex sh + 1) (length_of sh)) sh.

End ScrollHandler.

(** ** UIManager (js/uiManager.js): progress and the message queue *)

Module UIManager.

(** An entry of [this.errorQueue]. *)
Record Message := mkMessage {
  message : string;
  type : string;
  duration : Q
}.

Record t := mk {
  isShowingError : bool;
  errorQueue : list Message;
  errors : Z;                    (* [performanceMetrics.errors] *)
  errorTimeout : option Q;       (* the pending auto-hide timer, its delay *)
  hideCallbacks : nat;           (* pending 300 ms callbacks of [hideError] *)
  (** the messages [showError] put on display (text and class, where the
      elements exist), oldest first *)
  displayed : list Message;
  (** the widths written to the progress bar, where it exists *)
  progress : list Q
}.

Definition constructor : t := mk false [] 0 None 0 [] [].

(** [showError(message, type = 'error', duration = 5000)], lines 99-131. *)
Definition showError (m : Message) (u : t) : t :=
  if isShowingError u then
    mk true (errorQueue u ++ [m]) (errors u) (errorTimeout u)
       (hideCallbacks u) (displayed u) (progress u)
  else
    mk true (errorQueue u) (errors u + 1) (Some (duration m))
       (hideCallbacks u) (displayed u ++ [m]) (progress u).

(** [showSuccess(message, duration = 3000)], lines 40-42. *)
Definition showSuccess (text : string) (dur : option Q) (u : t) : t :=
  showError (mkMessage text "success" (JS.default_arg dur 3000)) u.

(** [hideError()], lines 133-153; [hasErrorMessage] tells whether the
    element [errorMessage] exists. *)
Definition hideError (hasErrorMessage : bool) (u : t) : t :=
  mk (isShowingError u) (errorQueue u) (errors u) None
     (if hasErrorMessage then S (hideCallbacks u) else hideCallbacks u)
     (displayed u) (progress u).

(** The callback that [hideError] hands to [setTimeout(.., 300)]. *)
Definition hideDone (u : t) : t :=
  match hideCallbacks u with
  | O => u
  | S n =>
      let u1 := mk false (errorQueue u) (errors u) (errorTimeout u) n
                  (displayed u) (progress u) in
      match errorQueue u1 with
      | [] => u1
      | next :: rest =>
          showError next
            (mk (isShowingError u1) rest (errors u1) (errorTimeout u1)
                (hideCallbacks u1) (displayed u1) (progress u1))
      end
  end.

(** The auto-hide timer set by [showError] fires. *)
Definition autoHide (hasErrorMessage : bool) (u : t) : t :=
  match errorTimeout u with
  | Some _ => hideError hasErrorMessage u
  | None => u
  end.

(** [updateProgress(percentage)], lines 81-96, on the width of the bar. *)
Definition clampPercentage (percentage : Q) : Q :=
  JS.Math_max 0 (JS.Math_min 100 percentage).

Definition updateProgress (hasProgressFill : bool) (percentage : Q) (u : t) : t :=
  if hasProgressFill then
    mk (isShowingError u) (errorQueue u) (errors u) (errorTimeout u)
       (hideCallbacks u) (displayed u) (progress u ++ [clampPercentage percentage])
  else u.

(** What happens to the manager: a message is submitted, the close button
    is clicked, the auto-hide timer fires, a 300 ms callback runs. *)
Inductive Event :=
| Submit (m : Message)
| CloseClick
| AutoHide
| HideDone.

Definition handle (hasErrorMessage : bool) (u : t) (e : Event) : t :=
  match e with
  | Submit m => showError m u
  | CloseClick => hideError hasErrorMessage u
  | AutoHide => autoHide hasErrorMessage u
  | HideDone => hideDone u
  end.

Definition run (hasErrorMessage : bool) (events : list Event) (u : t) : t :=
  fold_left (handle hasErrorMessage) events u.

(** The messages submitted by a list of events, in order. *)
Definition submitted (events : list Event) : list Message :=
  flat_map (fun e => match e with Submit m => [m] | _ => [] end) events.

End UIManager.

(** * Vocabulary of the properties *)

Section Vocabulary.

Implicit Types (s : ModelLoader.t) (st : ModelState.t) (g : Gallery3D.t)
  (m : ManualRotation.t).

(** The closure list is empty, or holds the single running transition and
    the busy flag is set. *)
Definition camera_inv (c : Controls.t) : Prop :=
  Controls.frameCallbacks c = [] \/
  (Controls.isAnimatingCamera c = true /\
   exists a, Controls.frameCallbacks c = [a]).

(** The two opacities of a model state are left as they are. *)
Definition same_fade st st' : Prop :=
  ModelState.targetOpacity st' = ModelState.targetOpacity st /\
  ModelState.currentOpacity st' = ModelState.currentOpacity st.

(** The loader [l'] has the active id of [l], and each of its model states
    comes from the state of [l] under the same id with the same opacities. *)
Definition fade_kept (l l' : ModelLoader.t) : Prop :=
  ModelLoader.activeModelId l' = ModelLoader.activeModelId l /\
  forall id st',
    ModelLoader.modelStates l' !! id = Some st' ->
    exists st, ModelLoader.modelStates l !! id = Some st /\ same_fade st st'.

(** The state of the loader when the loop over the models starts. *)
Definition rotated (delta : Q) s : ModelLoader.t :=
  let s1 :=
    if ManualRotation.enabled (ModelLoader.manualRotation s)
    then ModelLoader.updateManualRotation delta s else s in
  if AutoRotation.enabled (ModelLoader.autoRotation s1)
     && negb (ManualRotation.isDragging (ModelLoader.manualRotation s1))
  then ModelLoader.updateAutoRotation delta s1 else s1.

(** Every model state but the one of the active id has target opacity 0. *)
Definition others_faded s : Prop :=
  forall id st,
    ModelLoader.modelStates s !! id = Some st ->
    ModelLoader.activeModelId s <> Some id ->
    ModelState.targetOpacity st = 0.

Definition at_most_one_opaque_target (m : gmap string ModelState.t) : Prop :=
  forall id1 id2 st1 st2,
    m !! id1 = Some st1 -> m !! id2 = Some st2 ->
    ModelState.targetOpacity st1 == 1 -> ModelState.targetOpacity st2 == 1 ->
    id1 = id2.

(** The active id, when there is one, passes the test
    [this.activeModelId && ...] of [showModel]. *)
Definition active_truthy s : Prop :=
  forall a, ModelLoader.activeModelId s = Some a -> JS.truthy_string a = true.

Definition ids_truthy (items : list GalleryItem.t) : Prop :=
  Forall (fun it => JS.truthy_string (GalleryItem.id it) = true) items.

(** The states before the new model is shown: the active one is hidden. *)
Definition hidden_states s : gmap string ModelState.t :=
  match ModelLoader.activeModelId s with
  | Some a =>
      if JS.truthy_string a
      then alter ModelLoader.hideState a (ModelLoader.modelStates s)
      else ModelLoader.modelStates s
  | None => ModelLoader.modelStates s
  end.

(** While the models load, only the first item's id can have a target
    opacity other than 0. *)
Definition only_first_opaque (id0 : string) s : Prop :=
  forall id st,
    ModelLoader.modelStates s !! id = Some st -> id <> id0 ->
    ModelState.targetOpacity st = 0.

(** What holds of the gallery between two activation calls. *)
Record gallery_inv (items : list GalleryItem.t) g : Prop := {
  inv_data : Gallery3D.galleryData g = items;
  inv_faded : others_faded (Gallery3D.modelLoader g);
  inv_truthy : active_truthy (Gallery3D.modelLoader g)
}.

Definition in_unit (q : Q) : Prop := 0 <= q <= 1.

(** Both opacities of every model state lie in [0, 1]. *)
Definition opacities_in_unit s : Prop :=
  forall id st,
    ModelLoader.modelStates s !! id = Some st ->
    in_unit (ModelState.currentOpacity st) /\ in_unit (ModelState.targetOpacity st).

(** The frames of a run keep the lerp factor [delta * 3] within [0, 1]. *)
Definition frame_within_third (e : Gallery3D.Event) : Prop :=
  match e with
  | Gallery3D.Frame delta _ _ _ => 0 <= delta /\ delta * 3 <= 1
  | _ => True
  end.

(** [n] frames of one model at the fixed time step [delta]; [env k] gives,
    for frame [k], whether the model is the active one, whether a drag is in
    progress and the value of [Math.sin(time)]. *)
Fixpoint fadeFrames (delta : Q) (env : nat -> bool * bool * Q) (n : nat) st
    : ModelState.t :=
  match n with
  | O => st
  | S k =>
      let '(active, dragging, sinT) := env k in
      ModelLoader.updateModel delta active dragging sinT (fadeFrames delta env k st)
  end.

(** A number of frames after which the opacity is within [eps] of its
    target. *)
Definition fadeBound st (delta eps : Q) : nat :=
  Z.to_nat
    (Qceiling
       (Qabs (ModelState.currentOpacity st - ModelState.targetOpacity st)
        / (eps * (delta * 3)))).

(** From some frame on the opacity stays within [eps] of the target. *)
Definition fade_settles st (delta : Q) (env : nat -> bool * bool * Q) (eps : Q)
    : Prop :=
  exists N, forall n, (N <= n)%nat ->
    ModelState.targetOpacity st - eps
      < ModelState.currentOpacity (fadeFrames delta env n st)
      < ModelState.targetOpacity st + eps.

(** What [updateManualRotation] does to [this.manualRotation]. *)
Definition advanceManual (delta : Q) m : ManualRotation.t :=
  let m1 := ManualRotation.set_velocity m
              (ManualRotation.velocityX m * ManualRotation.dampening m)
              (ManualRotation.velocityY m * ManualRotation.dampening m) in
  let m2 := ManualRotation.set_targetRotation m1
              (ManualRotation.targetRotationX m1 + ManualRotation.velocityY m1)
              (ManualRotation.targetRotationY m1 + ManualRotation.velocityX m1) in
  ManualRotation.set_currentRotation m2
    (MathUtils.lerp (ManualRotation.currentRotationX m2)
       (ManualRotation.targetRotationX m2) (delta * 8))
    (MathUtils.lerp (ManualRotation.currentRotationY m2)
       (ManualRotation.targetRotationY m2) (delta * 8)).

(** One pointer-move sample whose screen-space delta since the last sample
    is [(dx, dy)], followed by one frame with time delta [frameDelta]. *)
Record DragSample := mkDragSample { dx : Q; dy : Q; frameDelta : Q }.






(** The idle-rotation record of a model state is left as it is, and the
    state keeps or lacks its scene-graph object as before. *)
Definition same_idle st st' : Prop :=
  ModelState.autoRotation st' = ModelState.autoRotation st /\
  (ModelState.modelObject st' = None <-> ModelState.modelObject st = None).

(** Every item of the configuration has a model state, and so has the
    active id. *)
Definition every_item_has_state (items : list GalleryItem.t) s : Prop :=
  forall item, In item items ->
    is_Some (ModelLoader.modelStates s !! GalleryItem.id item).

Definition active_has_state s : Prop :=
  forall a, ModelLoader.activeModelId s = Some a ->
    is_Some (ModelLoader.modelStates s !! a).

(** No model id names a member of [Object.prototype]: the ids are keys of
    object literals as the code takes them to be.  (An assignment to
    [obj["__proto__"]] does not even add a key.) *)
Definition plain_keys s : Prop :=
  forall id, is_Some (ModelLoader.modelStates s !! id) -> JS.inherited id = false.

Definition plain_keysb s : bool :=
  bool_decide
    (map_Forall (fun id _ => JS.inherited id = false) (ModelLoader.modelStates s)).

(** [n] frames of the loader at the fixed time step [delta]; [env k] gives
    the values of [Math.sin(..)] in frame [k].  [None] when a frame
    throws. *)
Fixpoint framesAtStep (delta : Q) (env : nat -> (string -> Q) * (string -> Q))
    (n : nat) s : option ModelLoader.t :=
  match n with
  | O => Some s
  | S k =>
      match framesAtStep delta env k s with
      | Some s' => ModelLoader.tryUpdate delta (fst (env k)) (snd (env k)) s'
      | None => None
      end
  end.

(** What the fade of a model reads is left as it is: the two opacities and
    the visibility of the state, and whether the model is loaded. *)
Definition same_look st st' : Prop :=
  ModelState.targetOpacity st' = ModelState.targetOpacity st /\
  ModelState.currentOpacity st' = ModelState.currentOpacity st /\
  ModelState.visible st' = ModelState.visible st /\
  (is_Some (ModelState.modelObject st') <-> is_Some (ModelState.modelObject st)).

End Vocabulary.

(** ** Vocabulary of the further properties *)

Section FurtherVocabulary.

Implicit Types (s : ModelLoader.t) (g : Gallery3D.t) (m : ManualRotation.t).

(** Two vectors have equal components (as numbers). *)
Definition same_vector (a b : Vector3.t) : Prop :=
  Vector3.x a == Vector3.x b /\ Vector3.y a == Vector3.y b /\
  Vector3.z a == Vector3.z b.



(** The active model of the loader is the model of the current item. *)
Definition shows_current g : Prop :=
  exists item,
    Gallery3D.item_at g (Gallery3D.currentIndex g) = Some item /\
    ModelLoader.activeModelId (Gallery3D.modelLoader g)
    = Some (GalleryItem.id item).

(** A list of frames, one for each time step of [deltas]. *)
Definition frames (sinTime sinPulse : string -> Q) (deltas : list Q) s
    : ModelLoader.t :=
  fold_left (fun s1 delta => ModelLoader.update delta sinTime sinPulse s1)
    deltas s.

Definition sumQ (l : list Q) : Q := fold_right Qplus 0 l.

(** Both components of the velocity lie within [-top, top]. *)
Definition velocity_within (top : Q) m : Prop :=
  - top <= ManualRotation.velocityX m <= top /\
  - top <= ManualRotation.velocityY m <= top.

(** The settings of the constructor are in force and the velocity is
    within the clamp. *)
Definition clamped_drag m : Prop :=
  ManualRotation.dampening m = 0.95 /\ ManualRotation.maxSpeed m = 0.05 /\
  velocity_within 0.05 m.

(** One touch-move sample whose delta since the last sample is
    [(dx, dy)], followed by one frame. *)
Definition touchBy (p : DragSample) s : ModelLoader.t :=
  let m := ModelLoader.manualRotation s in
  ModelLoader.onTouchMove
    [(ManualRotation.lastMouseX m + dx p, ManualRotation.lastMouseY m + dy p)] s.

Definition touchSample (sinTime sinPulse : string -> Q) s (p : DragSample)
    : ModelLoader.t :=
  ModelLoader.update (frameDelta p) sinTime sinPulse (touchBy p s).

Definition touchSamples (sinTime sinPulse : string -> Q)
    (samples : list DragSample) s : ModelLoader.t :=
  fold_left (touchSample sinTime sinPulse) samples s.

(** The moves of a drag handled by [MouseInteraction]: the object after
    the pointer moved by each [(deltaX, deltaY)] in turn. *)
Definition rotateBy (speed : Q) (moves : list (Q * Q)) (o : Object3D.t)
    : Object3D.t :=
  fold_left (fun o1 d => MouseInteraction.rotateObject speed (fst d) (snd d) o1)
    moves o.

(** The drag state of a [MouseInteraction] object is coherent: the
    interaction flag follows the drag flag, and a model is targeted exactly
    while a drag is in progress. *)
Definition drag_coherent (mi : MouseInteraction.t) : Prop :=
  MouseInteraction.isInteracting mi = MouseInteraction.isDragging mi /\
  if MouseInteraction.isDragging mi
  then ModelLoader.truthy_id (MouseInteraction.activeModel mi) = true
  else MouseInteraction.activeModel mi = None.

(** The model that [MouseInteraction] drags is the active model. *)
Definition drags_active g : Prop :=
  MouseInteraction.isDragging (Gallery3D.mouseInteraction g) = true ->
  MouseInteraction.activeModel (Gallery3D.mouseInteraction g)
  = ModelLoader.activeModelId (Gallery3D.modelLoader g).

(** The camera auto-rotation is switched off. *)
Definition autoRotate_off (c : Controls.t) : Prop :=
  Controls.isAutoRotating c = false /\ Controls.orbit_autoRotate c = false /\
  Controls.orbit_autoRotateSpeed c = 0.

(** What [loadModels] reports for the items from index [i] on when
    [loaded] items were visited before: the progress after a model that
    loads, the error message after one that fails. *)
Fixpoint loadReport (envOf : Z -> ModelLoader.LoadEnv) (i : Z)
    (items : list GalleryItem.t) (total : Z) : list Gallery3D.UiEffect :=
  match items with
  | [] => []
  | item :: rest =>
      (match ModelLoader.outcome (envOf i) with
       | Some _ => Gallery3D.UpdateProgress (inject_Z (i + 1) / inject_Z total * 100)
       | None =>
           Gallery3D.ShowError
             ("Failed to load 3D model: " ++ GalleryItem.title item)
       end)
      :: loadReport envOf (i + 1) rest total
  end.

(** Among [items], loaded from index [i] on, an item with the id [id] is
    one whose load succeeds. *)
Definition loaded_at (envOf : Z -> ModelLoader.LoadEnv) (i : Z)
    (items : list GalleryItem.t) (id : string) : Prop :=
  exists (k : nat) item,
    items !! k = Some item /\ GalleryItem.id item = id /\
    is_Some (ModelLoader.outcome (envOf (i + Z.of_nat k)%Z)).

(** An entry that intersects the viewport, with its centre at a distance
    [d] of the centre of the viewport such that [d * (innerHeight / 2)] is 2
    or more. *)
Definition off_centre (env : ScrollHandler.Env) (e : ScrollHandler.Entry) : Prop :=
  ScrollHandler.isIntersecting e = true /\
  0 <= ScrollHandler.intersectionRatio e /\
  2 <= Qabs (ScrollHandler.top e + ScrollHandler.height e / 2
             - ScrollHandler.innerHeight env / 2)
       * (ScrollHandler.innerHeight env / 2).




(** The horizontal position of a model is left as it is. *)
Definition same_place (st st' : ModelState.t) : Prop :=
  ModelState.targetX st' = ModelState.targetX st /\
  ModelState.currentX st' = ModelState.currentX st /\
  (fun o => Vector3.x (Object3D.position o)) <$> ModelState.modelObject st'
  = (fun o => Vector3.x (Object3D.position o)) <$> ModelState.modelObject st.

(** The scene-graph object of a loaded model stands where its state says:
    [position.x] is [currentX]. *)
Definition in_step (st : ModelState.t) : Prop :=
  forall o, ModelState.modelObject st = Some o ->
            Vector3.x (Object3D.position o) = ModelState.currentX st.

Definition all_in_step s : Prop :=
  forall id st, ModelLoader.modelStates s !! id = Some st -> in_step st.

(** The target position of a model is left as it is. *)
Definition same_target (st st' : ModelState.t) : Prop :=
  ModelState.targetX st' = ModelState.targetX st.

(** Every model state of [l'] comes from a state of [l] under the same id,
    with the same target position. *)
Definition targets_kept (l l' : ModelLoader.t) : Prop :=
  forall id st',
    ModelLoader.modelStates l' !! id = Some st' ->
    exists st, ModelLoader.modelStates l !! id = Some st /\ same_target st st'.

(** The frames of the browser at the given times, in turn; [None] when a
    closure divides by a zero duration. *)
Definition framesAt (orbitControls_update : Controls.t -> Vector3.t)
    (times : list Z) (c : Controls.t) : option Controls.t :=
  fold_left (fun oc now =>
               match oc with
               | Some c1 => Controls.frame orbitControls_update now c1
               | None => None
               end)
    times (Some c).

(** The intensities of a spotlight are within their bounds: the animated
    intensity and its target between 0 and the original intensity, the
    intensity of the light (with its pulse) between 0 and 1.1 times the
    original one. *)
Definition light_within (d : SpotlightData.t) : Prop :=
  0 <= SpotlightData.currentIntensity d <= SpotlightData.originalIntensity d /\
  0 <= SpotlightData.targetIntensity d <= SpotlightData.originalIntensity d /\
  0 <= SpotLight.intensity (SpotlightData.light d)
    <= 1.1 * SpotlightData.originalIntensity d.

Definition lights_within s : Prop :=
  0 <= SpotlightConfig.intensity (ModelLoader.spotlightConfig s) /\
  forall id d, ModelLoader.spotlights s !! id = Some d -> light_within d.

(** A frame with a lerp factor [delta * 3] within [0, 1] and a pulse
    [Math.sin(..)] within [-1, 1]. *)
Definition frame_gentle (e : Gallery3D.Event) : Prop :=
  match e with
  | Gallery3D.Frame delta _ _ sinPulse =>
      0 <= delta /\ delta * 3 <= 1 /\ forall id, -1 <= sinPulse id <= 1
  | _ => True
  end.

(** The configured intensity, where there is one, is not negative. *)
Definition intensity_not_negative (cfg : option SpotlightSettings.t) : Prop :=
  forall c q, cfg = Some c -> SpotlightSettings.intensity c = Some q -> 0 <= q.

(** The index lies in the gallery. *)
Definition index_in_range g : Prop :=
  (0 <= Gallery3D.currentIndex g < Gallery3D.length_of g)%Z.

End FurtherVocabulary.

(** ** A small gallery used in the examples *)

Module Scenario.

Definition itemA : GalleryItem.t := GalleryItem.mk "a" "A" (Vector3.mk 1 1 1).
Definition itemB : GalleryItem.t := GalleryItem.mk "b" "B" (Vector3.mk 1 1 1).

(** Random draws that give base rotations [0]: [Math.random()] returns 0.5
    for the tilt and roll and 0 for the yaw. *)
Definition centred : ModelLoader.BaseRandoms :=
  ModelLoader.mkBaseRandoms 0.5 0 0.5 0.5 0 0.5.

Definition gltf : Gltf.t := Gltf.mk Vector3.zero Vector3.zero false.

(** Desktop window, every model loads. *)
Definition allLoad (i : Z) : ModelLoader.LoadEnv :=
  ModelLoader.mkLoadEnv centred 0.5 1024 (Some gltf).

(** Desktop window, the model of index 1 fails to load. *)
Definition secondFails (i : Z) : ModelLoader.LoadEnv :=
  ModelLoader.mkLoadEnv centred 0.5 1024 (if (i =? 1)%Z then None else Some gltf).

Definition gallery : Gallery3D.t :=
  Gallery3D.init [itemA; itemB] 0.5 5 None allLoad.

Definition galleryWithFailure : Gallery3D.t :=
  Gallery3D.init [itemA; itemB] 0.5 5 None secondFails.

(** A configuration whose second item is called after a method that
    every object inherits. *)
Definition itemToString : GalleryItem.t :=
  GalleryItem.mk "toString" "T" (Vector3.mk 1 1 1).

Definition galleryInherited : Gallery3D.t :=
  Gallery3D.init [itemA; itemToString] 0.5 5 None allLoad.

(** A configuration whose first item has the empty string as its id. *)
Definition itemNameless : GalleryItem.t :=
  GalleryItem.mk EmptyString "N" (Vector3.mk 1 1 1).

Definition galleryNameless : Gallery3D.t :=
  Gallery3D.init [itemNameless; itemB] 0.5 5 None allLoad.

(** An [OrbitControls.update()] that leaves the camera where it is. *)
Definition still : Controls.t -> Vector3.t := Controls.camera_position.

Definition zeroSin (id : string) : Q := 0.

(** A loaded model fading in: opacity 0, target 1. *)
Definition fadingIn : ModelState.t :=
  ModelState.mk (Some (Object3D.mk Vector3.zero Vector3.zero true 0))
    1 0 true 0 0 (Vector3.mk 1 1 1) false
    (ModelManualRotation.mk 0 0 0 0 0) (ModelAutoRotation.mk 0 0 0 0 0).

(** A loaded model fading out: opacity 1, target 0. *)
Definition fadingOut : ModelState.t :=
  ModelState.mk (Some (Object3D.mk Vector3.zero Vector3.zero true 1))
    0 1 true 0 0 (Vector3.mk 1 1 1) false
    (ModelManualRotation.mk 0 0 0 0 0) (ModelAutoRotation.mk 0 0 0 0 0).

(** A frame environment: the model is not the active one, no drag. *)
Definition idle (k : nat) : bool * bool * Q := (false, false, 0).

(** [n] pointer moves, each 100 pixels further down than the one before,
    each followed by a frame at 60 frames per second. *)
Fixpoint dragDown (n : nat) (clientY : Q) : list Gallery3D.Event :=
  match n with
  | O => []
  | S k =>
      Gallery3D.MouseMove 0 clientY (Some "a")
      :: Gallery3D.Frame (1 # 60) 0 zeroSin zeroSin
      :: dragDown k (clientY + 100)
  end.

(** A drag on the active model "a" of the sample gallery, one move of 100
    pixels to the right: the velocity stands at the clamp. *)
Definition draggedLoader : ModelLoader.t :=
  ModelLoader.onMouseMove 100 0
    (ModelLoader.onMouseDown 0 0 0 (Gallery3D.modelLoader gallery)).


Definition pressedLoader : ModelLoader.t :=
  ModelLoader.onMouseDown 0 0 0 (Gallery3D.modelLoader gallery).

(** The drag above, released: the velocity still stands at the clamp. *)
Definition releasedLoader : ModelLoader.t := ModelLoader.onMouseUp draggedLoader.

(** Two touch samples of 100 and 200 pixels to the right, a frame after
    each. *)
Definition twoTouches : list DragSample :=
  [mkDragSample 100 0 (1 # 60); mkDragSample 200 0 (1 # 60)].

(** A settings object that only sets the intensity, to 0. *)
Definition dark : SpotlightSettings.t :=
  SpotlightSettings.mk None (Some 0) None None None None None None.

(** A model object at the origin, not rotated. *)
Definition upright : Object3D.t := Object3D.mk Vector3.zero Vector3.zero true 1.

(** The scroll handler of the sample gallery, in a desktop window where
    every item has its element. *)
Definition scroller : ScrollHandler.t := ScrollHandler.constructor [itemA; itemB].

Definition desktop : ScrollHandler.Env :=
  ScrollHandler.mkEnv (fun _ => true) true false 1024 768.

(** The observer reports the second item with ratio 1 (and no
    intersection flag). *)
Definition secondInView : list ScrollHandler.Entry :=
  [ScrollHandler.mkEntry "b" 1 false 0 100].

(** The observer reports the second item fully in view, intersecting, its
    box 100 pixels high at the top of the viewport. *)
Definition secondAtTop : list ScrollHandler.Entry :=
  [ScrollHandler.mkEntry "b" 1 true 0 100].

End Scenario.

(** * Properties *)

(** ** Camera transitions *)

Section CameraTransitions.

Variable orbitControls_update : Controls.t -> Vector3.t.

Abbreviation step := (Controls.step orbitControls_update).
Abbreviation reachable := (Controls.reachable orbitControls_update).

Lemma animateCameraTo_busy tp tl dur now c :
  Controls.isAnimatingCamera c = true ->
  Controls.animateCameraTo tp tl dur now c = c.
Proof. intros Hb. unfold Controls.animateCameraTo. now rewrite Hb. Qed.

Lemma animateCameraTo_inv tp tl dur now c :
  camera_inv c -> camera_inv (Controls.animateCameraTo tp tl dur now c).
Proof.
  intros Hinv. unfold Controls.animateCameraTo.
  destruct (Controls.isAnimatingCamera c) eqn:Hb; [exact Hinv|].
  destruct Hinv as [Hnil | [Hflag _]]; [|congruence].
  right. simpl. rewrite Hnil. split; [reflexivity|]. eexists. reflexivity.
Qed.

Lemma animate_inv a now c c' :
  Controls.frameCallbacks c = [] ->
  Controls.isAnimatingCamera c = true ->
  Controls.animate orbitControls_update a now c = Some c' ->
  camera_inv c'.
Proof.
  intros Hnil Hflag. unfold Controls.animate.
  destruct (Controls.progress_of _ _) as [p|]; [|discriminate].
  destruct (JS.Qltb p 1); intros [= <-]; simpl.
  - right. rewrite Hnil. split; [exact Hflag|]. eexists. reflexivity.
  - left. exact Hnil.
Qed.

Lemma frame_inv now c c' :
  camera_inv c -> Controls.frame orbitControls_update now c = Some c' ->
  camera_inv c'.
Proof.
  intros [Hnil | [Hflag [a Ha]]]; unfold Controls.frame.
  - rewrite Hnil. simpl. intros [= <-]. left. reflexivity.
  - rewrite Ha. simpl.
    destruct (Controls.animate _ a now _) as [c1|] eqn:Hc1; [|discriminate].
    intros [= <-]. eapply animate_inv; [| |exact Hc1]; simpl; auto.
Qed.

Lemma camera_inv_ext c c' :
  Controls.frameCallbacks c' = Controls.frameCallbacks c ->
  Controls.isAnimatingCamera c' = Controls.isAnimatingCamera c ->
  camera_inv c -> camera_inv c'.
Proof. unfold camera_inv. intros -> ->. tauto. Qed.

Lemma resetView_inv now c :
  camera_inv c -> camera_inv (Controls.resetView orbitControls_update now c).
Proof.
  intros Hinv. unfold Controls.resetView.
  eapply camera_inv_ext; [| |apply animateCameraTo_inv; exact Hinv];
    reflexivity.
Qed.

Lemma resetView_orbit_inv mp w now c :
  camera_inv c ->
  camera_inv (Controls.resetView_orbit orbitControls_update mp w now c).
Proof.
  intros Hinv. unfold Controls.resetView_orbit.
  eapply camera_inv_ext; [| |apply animateCameraTo_inv; exact Hinv];
    reflexivity.
Qed.

Lemma setCameraState_inv p tg zm c :
  camera_inv c ->
  camera_inv (Controls.setCameraState orbitControls_update p tg zm c).
Proof.
  intros Hinv. eapply camera_inv_ext; [| |exact Hinv];
    unfold Controls.setCameraState; destruct p, tg; reflexivity.
Qed.

Lemma update_inv s c :
  camera_inv c -> camera_inv (Controls.update orbitControls_update s c).
Proof.
  intros Hinv. eapply camera_inv_ext; [| |exact Hinv];
    unfold Controls.update; destruct (_ && _); reflexivity.
Qed.

Lemma step_inv c c' : camera_inv c -> step c c' -> camera_inv c'.
Proof.
  intros Hinv Hstep. destruct Hstep.
  - apply animateCameraTo_inv; exact Hinv.
  - eapply frame_inv; eassumption.
  - apply resetView_inv; exact Hinv.
  - apply animateCameraTo_inv; exact Hinv.
  - apply resetView_orbit_inv; exact Hinv.
  - apply animateCameraTo_inv; exact Hinv.
  - exact Hinv.
  - exact Hinv.
  - apply setCameraState_inv; exact Hinv.
  - apply update_inv; exact Hinv.
Qed.

Lemma reachable_inv c : reachable c -> camera_inv c.
Proof.
  induction 1 as [camera | camera | c c' _ IH Hstep].
  - left. reflexivity.
  - left. reflexivity.
  - eapply step_inv; eassumption.
Qed.

(** C1.  In every reachable state of the camera rig with a transition in
    flight, [animateCameraTo] (whatever destination, look-at, duration and
    call time it is given) returns the state it received: the in-flight
    closure keeps its destination position, destination look-at, start
    time and duration, and no second closure is registered. *)
Theorem C1_animateCameraTo_in_flight_noop :
  forall c tp tl dur now,
    reachable c -> Controls.inFlight c ->
    Controls.animateCameraTo tp tl dur now c = c.
Proof.
  intros c tp tl dur now Hr Hfl.
  apply animateCameraTo_busy.
  destruct (reachable_inv c Hr) as [Hnil | [Hflag _]]; [|exact Hflag].
  contradiction.
Qed.

End CameraTransitions.

(** ** Activation requests *)

Section Activation.

Lemma switchToItem_discarded now idx g :
  idx = Gallery3D.currentIndex g \/ (idx < 0)%Z \/
  (Gallery3D.length_of g <= idx)%Z ->
  Gallery3D.switchToItem now idx g = g.
Proof.
  intros H. unfold Gallery3D.switchToItem.
  destruct (idx =? Gallery3D.currentIndex g)%Z eqn:E1; [reflexivity|].
  destruct (0 <=? idx)%Z eqn:E2; [|reflexivity].
  destruct (idx <? Gallery3D.length_of g)%Z eqn:E3; [|reflexivity].
  exfalso. apply Z.eqb_neq in E1. apply Z.leb_le in E2. apply Z.ltb_lt in E3.
  destruct H as [H | [H | H]]; [congruence | lia | lia].
Qed.

Lemma navigateToItem_discarded hasElement now idx g :
  idx = Gallery3D.currentIndex g \/ (idx < 0)%Z \/
  (Gallery3D.length_of g <= idx)%Z ->
  Gallery3D.navigateToItem hasElement now idx g = g.
Proof.
  intros H. unfold Gallery3D.navigateToItem.
  destruct (0 <=? idx)%Z eqn:E2; [|reflexivity].
  destruct (idx <? Gallery3D.length_of g)%Z eqn:E3; [|reflexivity].
  destruct (idx =? Gallery3D.currentIndex g)%Z eqn:E1; [reflexivity|].
  exfalso. apply Z.eqb_neq in E1. apply Z.leb_le in E2. apply Z.ltb_lt in E3.
  destruct H as [H | [H | H]]; [congruence | lia | lia].
Qed.

(** C5.  An activation request for the current index, or for an index
    outside the configured items, returns the gallery state it received,
    whichever entry point carries it ([switchToItem], [onItemChange] of the
    scroll handler, [navigateToItem]): the current index, the model
    states, the spotlights, the camera rig, the list of emitted user
    interface notifications and the pending timers are the same, and the
    functions are total (no error outcome). *)
Theorem C5_same_or_out_of_range_activation_discarded :
  forall hasElement now idx g,
    idx = Gallery3D.currentIndex g \/ (idx < 0)%Z \/
    (Gallery3D.length_of g <= idx)%Z ->
    Gallery3D.switchToItem now idx g = g /\
    Gallery3D.onItemChange now idx g = g /\
    Gallery3D.navigateToItem hasElement now idx g = g.
Proof.
  intros hasElement now idx g H. repeat split.
  - apply switchToItem_discarded; exact H.
  - apply switchToItem_discarded; exact H.
  - apply navigateToItem_discarded; exact H.
Qed.

End Activation.

(** ** Spotlight configuration *)

Section SpotlightConfiguration.

Lemma or_else_zero q d : q == 0 -> JS.or_else (Some q) d = d.
Proof.
  intros Hq. unfold JS.or_else, JS.truthy.
  apply Qeq_bool_iff in Hq. now rewrite Hq.
Qed.

Lemma updateSpotlightConfig_lookup config s id :
  ModelLoader.spotlights (ModelLoader.updateSpotlightConfig config s) !! id =
  (fun d => SpotlightData.set_light d
              (ModelLoader.reconfigureLight config (SpotlightData.light d)))
    <$> (ModelLoader.spotlights s !! id).
Proof. unfold ModelLoader.updateSpotlightConfig. simpl. apply lookup_fmap. Qed.

(** C10.  [updateSpotlightConfig] keeps every existing light, and a
    configuration field whose value is 0 (intensity, distance, angle,
    penumbra or decay) leaves that property of each of them at the value
    it had: the [||] fallback takes the light's current value. *)
Theorem C10_zero_setting_not_applied :
  forall config s id d,
    ModelLoader.spotlights s !! id = Some d ->
    exists d',
      ModelLoader.spotlights (ModelLoader.updateSpotlightConfig config s) !! id
        = Some d' /\
      (forall q, SpotlightSettings.intensity config = Some q -> q == 0 ->
         SpotLight.intensity (SpotlightData.light d')
         = SpotLight.intensity (SpotlightData.light d)) /\
      (forall q, SpotlightSettings.distance config = Some q -> q == 0 ->
         SpotLight.distance (SpotlightData.light d')
         = SpotLight.distance (SpotlightData.light d)) /\
      (forall q, SpotlightSettings.angle config = Some q -> q == 0 ->
         SpotLight.angle (SpotlightData.light d')
         = SpotLight.angle (SpotlightData.light d)) /\
      (forall q, SpotlightSettings.penumbra config = Some q -> q == 0 ->
         SpotLight.penumbra (SpotlightData.light d')
         = SpotLight.penumbra (SpotlightData.light d)) /\
      (forall q, SpotlightSettings.decay config = Some q -> q == 0 ->
         SpotLight.decay (SpotlightData.light d')
         = SpotLight.decay (SpotlightData.light d)).
Proof.
  intros config s id d Hd.
  eexists. split.
  - rewrite updateSpotlightConfig_lookup, Hd. reflexivity.
  - simpl. repeat split; intros q Hq Hz; rewrite Hq; apply or_else_zero, Hz.
Qed.

End SpotlightConfiguration.

(** ** What a frame does to the fade of a model *)

Section FrameFacts.

Implicit Types (s : ModelLoader.t) (st : ModelState.t).

Lemma same_fade_refl st : same_fade st st.
Proof. split; reflexivity. Qed.

Lemma same_fade_trans st1 st2 st3 :
  same_fade st1 st2 -> same_fade st2 st3 -> same_fade st1 st3.
Proof. intros [A B] [C D]. split; congruence. Qed.

Lemma alter_same_fade (f : ModelState.t -> ModelState.t) a
    (m : gmap string ModelState.t) id st' :
  (forall st, same_fade st (f st)) ->
  alter f a m !! id = Some st' ->
  exists st, m !! id = Some st /\ same_fade st st'.
Proof.
  intros Hf. destruct (decide (a = id)) as [->|Hne].
  - rewrite lookup_alter_eq. destruct (m !! id) as [st|]; [|discriminate].
    intros [= <-]. exists st. split; [reflexivity | apply Hf].
  - rewrite lookup_alter_ne by exact Hne. intros H. exists st'.
    split; [exact H | apply same_fade_refl].
Qed.

Lemma fmap_same_fade (f : ModelState.t -> ModelState.t)
    (m : gmap string ModelState.t) id st' :
  (forall st, same_fade st (f st)) ->
  (f <$> m) !! id = Some st' ->
  exists st, m !! id = Some st /\ same_fade st st'.
Proof.
  intros Hf. rewrite lookup_fmap. destruct (m !! id) as [st|]; [|discriminate].
  intros [= <-]. exists st. split; [reflexivity | apply Hf].
Qed.

Lemma applyManualRotation_same_fade m st :
  same_fade st (ModelLoader.applyManualRotation m st).
Proof.
  unfold ModelLoader.applyManualRotation.
  destruct (ModelState.modelObject st); split; reflexivity.
Qed.

Lemma applyAutoRotation_same_fade a delta st :
  same_fade st (ModelLoader.applyAutoRotation a delta st).
Proof.
  unfold ModelLoader.applyAutoRotation.
  destruct (ModelState.modelObject st); split; reflexivity.
Qed.

Lemma updateManualRotation_same_fade delta s id st' :
  ModelLoader.modelStates (ModelLoader.updateManualRotation delta s) !! id
    = Some st' ->
  exists st, ModelLoader.modelStates s !! id = Some st /\ same_fade st st'.
Proof.
  unfold ModelLoader.updateManualRotation. simpl.
  destruct (ManualRotation.rotateActiveOnly (ModelLoader.manualRotation s)).
  - destruct (ModelLoader.activeModelId s) as [a|]; simpl.
    + destruct (JS.truthy_string a); simpl.
      * apply alter_same_fade. apply applyManualRotation_same_fade.
      * intros H. exists st'. split; [exact H | apply same_fade_refl].
    + intros H. exists st'. split; [exact H | apply same_fade_refl].
  - simpl. apply fmap_same_fade. intros st.
    destruct (ModelState.visible st);
      [apply applyManualRotation_same_fade | apply same_fade_refl].
Qed.

Lemma updateAutoRotation_same_fade delta s id st' :
  ModelLoader.modelStates (ModelLoader.updateAutoRotation delta s) !! id
    = Some st' ->
  exists st, ModelLoader.modelStates s !! id = Some st /\ same_fade st st'.
Proof.
  unfold ModelLoader.updateAutoRotation.
  destruct (AutoRotation.rotateActiveOnly (ModelLoader.autoRotation s)).
  - destruct (ModelLoader.activeModelId s) as [a|]; simpl.
    + destruct (JS.truthy_string a); simpl.
      * apply alter_same_fade. apply applyAutoRotation_same_fade.
      * intros H. exists st'. split; [exact H | apply same_fade_refl].
    + intros H. exists st'. split; [exact H | apply same_fade_refl].
  - simpl. apply fmap_same_fade. intros st.
    destruct (ModelState.visible st);
      [apply applyAutoRotation_same_fade | apply same_fade_refl].
Qed.

Lemma updateManualRotation_active delta s :
  ModelLoader.activeModelId (ModelLoader.updateManualRotation delta s)
  = ModelLoader.activeModelId s.
Proof.
  unfold ModelLoader.updateManualRotation. simpl.
  destruct (ManualRotation.rotateActiveOnly _); [|reflexivity].
  destruct (ModelLoader.activeModelId s) as [a|] eqn:Ha; simpl; [|exact Ha].
  destruct (JS.truthy_string a); simpl; exact Ha.
Qed.

Lemma updateAutoRotation_active delta s :
  ModelLoader.activeModelId (ModelLoader.updateAutoRotation delta s)
  = ModelLoader.activeModelId s.
Proof.
  unfold ModelLoader.updateAutoRotation.
  destruct (AutoRotation.rotateActiveOnly _); [|reflexivity].
  destruct (ModelLoader.activeModelId s) as [a|] eqn:Ha; simpl; [|exact Ha].
  destruct (JS.truthy_string a); simpl; exact Ha.
Qed.

Lemma update_rotated delta sinTime sinPulse s :
  ModelLoader.update delta sinTime sinPulse s
  = ModelLoader.animateSpotlights delta sinPulse
      (ModelLoader.updateModels delta sinTime (rotated delta s)).
Proof. reflexivity. Qed.

Lemma rotated_same_fade delta s id st' :
  ModelLoader.modelStates (rotated delta s) !! id = Some st' ->
  exists st, ModelLoader.modelStates s !! id = Some st /\ same_fade st st'.
Proof.
  unfold rotated.
  set (s1 := if ManualRotation.enabled _ then _ else s).
  assert (H1 : forall st1, ModelLoader.modelStates s1 !! id = Some st1 ->
             exists st, ModelLoader.modelStates s !! id = Some st /\ same_fade st st1).
  { unfold s1. destruct (ManualRotation.enabled _).
    - intros st1. apply updateManualRotation_same_fade.
    - intros st1 H. exists st1. split; [exact H | apply same_fade_refl]. }
  destruct (_ && _).
  - intros H. apply updateAutoRotation_same_fade in H.
    destruct H as [st1 [Hst1 F1]]. destruct (H1 _ Hst1) as [st [Hst F]].
    exists st. split; [exact Hst | eapply same_fade_trans; eassumption].
  - apply H1.
Qed.

Lemma rotated_active delta s :
  ModelLoader.activeModelId (rotated delta s) = ModelLoader.activeModelId s.
Proof.
  unfold rotated.
  set (s1 := if ManualRotation.enabled _ then _ else s).
  assert (H1 : ModelLoader.activeModelId s1 = ModelLoader.activeModelId s).
  { unfold s1. destruct (ManualRotation.enabled _);
      [apply updateManualRotation_active | reflexivity]. }
  destruct (_ && _); [rewrite updateAutoRotation_active|]; exact H1.
Qed.

Lemma update_active delta sinTime sinPulse s :
  ModelLoader.activeModelId (ModelLoader.update delta sinTime sinPulse s)
  = ModelLoader.activeModelId s.
Proof. rewrite update_rotated. simpl. apply rotated_active. Qed.

Lemma update_lookup delta sinTime sinPulse s id :
  ModelLoader.modelStates (ModelLoader.update delta sinTime sinPulse s) !! id
  = ModelLoader.updateModel delta
      (bool_decide (ModelLoader.activeModelId (rotated delta s) = Some id))
      (ManualRotation.isDragging (ModelLoader.manualRotation (rotated delta s)))
      (sinTime id)
    <$> ModelLoader.modelStates (rotated delta s) !! id.
Proof.
  rewrite update_rotated. simpl. rewrite map_lookup_imap.
  destruct (ModelLoader.modelStates (rotated delta s) !! id); reflexivity.
Qed.

Lemma updateModel_target delta active dragging sinT st :
  ModelState.targetOpacity (ModelLoader.updateModel delta active dragging sinT st)
  = ModelState.targetOpacity st.
Proof.
  unfold ModelLoader.updateModel.
  destruct (ModelState.modelObject st); [|reflexivity].
  destruct (ModelLoader.fadeOpacity _ _ _ _) as [cur vis]. simpl.
  destruct (active && vis && negb dragging); reflexivity.
Qed.

Lemma updateModel_current delta active dragging sinT st o :
  ModelState.modelObject st = Some o ->
  ModelState.currentOpacity (ModelLoader.updateModel delta active dragging sinT st)
  = fst (ModelLoader.fadeOpacity delta (ModelState.currentOpacity st)
           (ModelState.targetOpacity st) (ModelState.visible st)).
Proof.
  intros Ho. unfold ModelLoader.updateModel. rewrite Ho.
  destruct (ModelLoader.fadeOpacity _ _ _ _) as [cur vis]. simpl.
  destruct (active && vis && negb dragging); reflexivity.
Qed.

Lemma updateModel_visible delta active dragging sinT st o :
  ModelState.modelObject st = Some o ->
  ModelState.visible (ModelLoader.updateModel delta active dragging sinT st)
  = snd (ModelLoader.fadeOpacity delta (ModelState.currentOpacity st)
           (ModelState.targetOpacity st) (ModelState.visible st)).
Proof.
  intros Ho. unfold ModelLoader.updateModel. rewrite Ho.
  destruct (ModelLoader.fadeOpacity _ _ _ _) as [cur vis]. simpl.
  destruct (active && vis && negb dragging); reflexivity.
Qed.

Lemma updateModel_unloaded delta active dragging sinT st :
  ModelState.modelObject st = None ->
  ModelLoader.updateModel delta active dragging sinT st = st.
Proof. intros Ho. unfold ModelLoader.updateModel. now rewrite Ho. Qed.

Lemma updateModel_loaded delta active dragging sinT st o :
  ModelState.modelObject st = Some o ->
  exists o',
    ModelState.modelObject (ModelLoader.updateModel delta active dragging sinT st)
    = Some o'.
Proof.
  intros Ho. unfold ModelLoader.updateModel. rewrite Ho.
  destruct (ModelLoader.fadeOpacity _ _ _ _) as [cur vis]. simpl.
  destruct (active && vis && negb dragging); simpl; eauto.
Qed.

(** A frame keeps every target opacity. *)
Lemma update_target delta sinTime sinPulse s id st' :
  ModelLoader.modelStates (ModelLoader.update delta sinTime sinPulse s) !! id
    = Some st' ->
  exists st, ModelLoader.modelStates s !! id = Some st /\
             ModelState.targetOpacity st' = ModelState.targetOpacity st.
Proof.
  rewrite update_lookup.
  destruct (ModelLoader.modelStates (rotated delta s) !! id) as [st2|] eqn:H2;
    [|discriminate].
  intros [= <-]. destruct (rotated_same_fade _ _ _ _ H2) as [st [Hst [Ht _]]].
  exists st. split; [exact Hst|]. rewrite updateModel_target. exact Ht.
Qed.

(** *** Pointer events and timers keep the fade *)

Lemma fade_kept_same l l' :
  ModelLoader.modelStates l' = ModelLoader.modelStates l ->
  ModelLoader.activeModelId l' = ModelLoader.activeModelId l ->
  fade_kept l l'.
Proof.
  intros Hs Ha. split; [exact Ha|]. intros id st'. rewrite Hs. intros H.
  exists st'. split; [exact H | apply same_fade_refl].
Qed.

Lemma pointer_states (f : ModelLoader.t -> ModelLoader.t) s :
  (exists m, f s = ModelLoader.set_manualRotation s m) \/ f s = s ->
  ModelLoader.modelStates (f s) = ModelLoader.modelStates s /\
  ModelLoader.activeModelId (f s) = ModelLoader.activeModelId s.
Proof. intros [[m ->] | ->]; split; reflexivity. Qed.

Lemma onMouseDown_shape button x y s :
  (exists m, ModelLoader.onMouseDown button x y s = ModelLoader.set_manualRotation s m)
  \/ ModelLoader.onMouseDown button x y s = s.
Proof. unfold ModelLoader.onMouseDown. destruct (_ || _); eauto. Qed.

Lemma onMouseMove_shape x y s :
  (exists m, ModelLoader.onMouseMove x y s = ModelLoader.set_manualRotation s m)
  \/ ModelLoader.onMouseMove x y s = s.
Proof. unfold ModelLoader.onMouseMove. destruct (_ || _); eauto. Qed.

Lemma onMouseUp_shape s :
  (exists m, ModelLoader.onMouseUp s = ModelLoader.set_manualRotation s m)
  \/ ModelLoader.onMouseUp s = s.
Proof. unfold ModelLoader.onMouseUp. destruct (negb _); eauto. Qed.

Lemma rotateActiveModel_same_fade deltaX deltaY mi
    (states : gmap string ModelState.t) id st' :
  MouseInteraction.rotateActiveModel deltaX deltaY mi states !! id = Some st' ->
  exists st, states !! id = Some st /\ same_fade st st'.
Proof.
  unfold MouseInteraction.rotateActiveModel.
  destruct (MouseInteraction.activeModel mi) as [a|];
    [|intros H; exists st'; split; [exact H | apply same_fade_refl]].
  destruct (JS.truthy_string a);
    [|intros H; exists st'; split; [exact H | apply same_fade_refl]].
  apply alter_same_fade. intros st.
  destruct (ModelState.modelObject st); split; reflexivity.
Qed.

Lemma interaction_onMouseMove_same_fade x y hit active mi
    (states : gmap string ModelState.t) id st' :
  snd (MouseInteraction.onMouseMove x y hit active mi states) !! id = Some st' ->
  exists st, states !! id = Some st /\ same_fade st st'.
Proof.
  unfold MouseInteraction.onMouseMove. destruct (_ && _); simpl.
  - apply rotateActiveModel_same_fade.
  - destruct hit; simpl; intros H; exists st'; (split; [exact H | apply same_fade_refl]).
Qed.

Lemma onModelInteract_modelLoader action now g :
  Gallery3D.modelLoader (Gallery3D.onModelInteract action now g)
  = Gallery3D.modelLoader g /\
  Gallery3D.galleryData (Gallery3D.onModelInteract action now g)
  = Gallery3D.galleryData g.
Proof. destruct action; split; reflexivity. Qed.

Lemma pointerDown_kept button x y hit g :
  Gallery3D.galleryData (Gallery3D.pointerDown button x y hit g)
  = Gallery3D.galleryData g /\
  fade_kept (Gallery3D.modelLoader g)
    (Gallery3D.modelLoader (Gallery3D.pointerDown button x y hit g)).
Proof.
  unfold Gallery3D.pointerDown.
  destruct (MouseInteraction.onMouseDown _ _ _ _ _ _) as [mi started].
  destruct (pointer_states _ _ (onMouseDown_shape button x y (Gallery3D.modelLoader g)))
    as [Hs Ha].
  destruct started; simpl; (split; [reflexivity | apply fade_kept_same; assumption]).
Qed.

Lemma pointerMove_kept x y hit g :
  Gallery3D.galleryData (Gallery3D.pointerMove x y hit g)
  = Gallery3D.galleryData g /\
  fade_kept (Gallery3D.modelLoader g)
    (Gallery3D.modelLoader (Gallery3D.pointerMove x y hit g)).
Proof.
  unfold Gallery3D.pointerMove.
  destruct (pointer_states _ _ (onMouseMove_shape x y (Gallery3D.modelLoader g)))
    as [Hs Ha].
  pose proof (interaction_onMouseMove_same_fade x y hit
                (ModelLoader.activeModelId
                   (ModelLoader.onMouseMove x y (Gallery3D.modelLoader g)))
                (Gallery3D.mouseInteraction g)
                (ModelLoader.modelStates
                   (ModelLoader.onMouseMove x y (Gallery3D.modelLoader g)))) as Hm.
  simpl.
  destruct (MouseInteraction.onMouseMove _ _ _ _ _ _) as [mi states].
  simpl in *. split; [reflexivity|]. split; [exact Ha|].
  intros id st' Hst'. destruct (Hm id st' Hst') as [st [Hst F]].
  exists st. rewrite <- Hs. split; assumption.
Qed.

Lemma pointerUp_kept now g :
  Gallery3D.galleryData (Gallery3D.pointerUp now g) = Gallery3D.galleryData g /\
  fade_kept (Gallery3D.modelLoader g)
    (Gallery3D.modelLoader (Gallery3D.pointerUp now g)).
Proof.
  unfold Gallery3D.pointerUp.
  destruct (MouseInteraction.onMouseUp _) as [mi ended].
  destruct (pointer_states _ _ (onMouseUp_shape (Gallery3D.modelLoader g)))
    as [Hs Ha].
  destruct ended; simpl; (split; [reflexivity | apply fade_kept_same; assumption]).
Qed.

Lemma timeout_kept g :
  Gallery3D.galleryData (Gallery3D.timeout g) = Gallery3D.galleryData g /\
  fade_kept (Gallery3D.modelLoader g) (Gallery3D.modelLoader (Gallery3D.timeout g)).
Proof.
  unfold Gallery3D.timeout, Gallery3D.resumeAutoRotate.
  destruct (Gallery3D.timers g); simpl;
    [|destruct (Controls.isAutoRotating _); simpl];
    (split; [reflexivity | apply fade_kept_same; reflexivity]).
Qed.

End FrameFacts.

(** ** What rotation leaves alone *)

(** The rotation code (manual, idle, and the drag of [MouseInteraction])
    writes the rotation of the scene-graph object and the idle-rotation
    record only.  A relation between model states that such writes respect
    holds between a state before and after that code ran. *)
Section RotationOnly.

Variable R : ModelState.t -> ModelState.t -> Prop.

Hypothesis R_refl : forall st, R st st.
Hypothesis R_trans : forall st1 st2 st3, R st1 st2 -> R st2 st3 -> R st1 st3.
Hypothesis R_rotation :
  forall st o r,
    ModelState.modelObject st = Some o ->
    R st (ModelState.set_modelObject st (Some (Object3D.set_rotation o r))).
Hypothesis R_idle : forall st ar, R st (ModelState.set_autoRotation st ar).

Lemma alter_related (f : ModelState.t -> ModelState.t) a
    (m : gmap string ModelState.t) id st' :
  (forall st, R st (f st)) ->
  alter f a m !! id = Some st' ->
  exists st, m !! id = Some st /\ R st st'.
Proof.
  intros Hf. destruct (decide (a = id)) as [->|Hne].
  - rewrite lookup_alter_eq. destruct (m !! id) as [st|]; [|discriminate].
    intros [= <-]. exists st. split; [reflexivity | apply Hf].
  - rewrite lookup_alter_ne by exact Hne. intros H. exists st'.
    split; [exact H | apply R_refl].
Qed.

Lemma fmap_related (f : ModelState.t -> ModelState.t)
    (m : gmap string ModelState.t) id st' :
  (forall st, R st (f st)) ->
  (f <$> m) !! id = Some st' ->
  exists st, m !! id = Some st /\ R st st'.
Proof.
  intros Hf. rewrite lookup_fmap. destruct (m !! id) as [st|]; [|discriminate].
  intros [= <-]. exists st. split; [reflexivity | apply Hf].
Qed.

Lemma applyManualRotation_related m st :
  R st (ModelLoader.applyManualRotation m st).
Proof.
  unfold ModelLoader.applyManualRotation.
  destruct (ModelState.modelObject st) as [o|] eqn:Ho; [|apply R_refl].
  apply R_rotation. exact Ho.
Qed.

Lemma applyAutoRotation_related a delta st :
  R st (ModelLoader.applyAutoRotation a delta st).
Proof.
  unfold ModelLoader.applyAutoRotation.
  destruct (ModelState.modelObject st) as [o|] eqn:Ho; [|apply R_refl].
  eapply R_trans; [apply R_idle|].
  apply (R_rotation (ModelState.set_autoRotation st _) o). exact Ho.
Qed.

Lemma updateManualRotation_related delta s id st' :
  ModelLoader.modelStates (ModelLoader.updateManualRotation delta s) !! id
    = Some st' ->
  exists st, ModelLoader.modelStates s !! id = Some st /\ R st st'.
Proof.
  unfold ModelLoader.updateManualRotation. simpl.
  destruct (ManualRotation.rotateActiveOnly (ModelLoader.manualRotation s)).
  - destruct (ModelLoader.activeModelId s) as [a|]; simpl.
    + destruct (JS.truthy_string a); simpl.
      * apply alter_related. apply applyManualRotation_related.
      * intros H. exists st'. split; [exact H | apply R_refl].
    + intros H. exists st'. split; [exact H | apply R_refl].
  - simpl. apply fmap_related. intros st.
    destruct (ModelState.visible st);
      [apply applyManualRotation_related | apply R_refl].
Qed.

Lemma updateAutoRotation_related delta s id st' :
  ModelLoader.modelStates (ModelLoader.updateAutoRotation delta s) !! id
    = Some st' ->
  exists st, ModelLoader.modelStates s !! id = Some st /\ R st st'.
Proof.
  unfold ModelLoader.updateAutoRotation.
  destruct (AutoRotation.rotateActiveOnly (ModelLoader.autoRotation s)).
  - destruct (ModelLoader.activeModelId s) as [a|]; simpl.
    + destruct (JS.truthy_string a); simpl.
      * apply alter_related. apply applyAutoRotation_related.
      * intros H. exists st'. split; [exact H | apply R_refl].
    + intros H. exists st'. split; [exact H | apply R_refl].
  - simpl. apply fmap_related. intros st.
    destruct (ModelState.visible st);
      [apply applyAutoRotation_related | apply R_refl].
Qed.

Lemma rotated_related delta s id st' :
  ModelLoader.modelStates (rotated delta s) !! id = Some st' ->
  exists st, ModelLoader.modelStates s !! id = Some st /\ R st st'.
Proof.
  unfold rotated.
  set (s1 := if ManualRotation.enabled _ then _ else s).
  assert (H1 : forall st1, ModelLoader.modelStates s1 !! id = Some st1 ->
             exists st, ModelLoader.modelStates s !! id = Some st /\ R st st1).
  { unfold s1. destruct (ManualRotation.enabled _).
    - intros st1. apply updateManualRotation_related.
    - intros st1 H. exists st1. split; [exact H | apply R_refl]. }
  destruct (_ && _).
  - intros H. apply updateAutoRotation_related in H.
    destruct H as [st1 [Hst1 F1]]. destruct (H1 _ Hst1) as [st [Hst F]].
    exists st. split; [exact Hst | eapply R_trans; eassumption].
  - apply H1.
Qed.

(** The same, from the state before to the state after. *)
Lemma alter_onward (f : ModelState.t -> ModelState.t) a
    (m : gmap string ModelState.t) id st :
  (forall st1, R st1 (f st1)) ->
  m !! id = Some st ->
  exists st', alter f a m !! id = Some st' /\ R st st'.
Proof.
  intros Hf Hst. destruct (decide (a = id)) as [->|Hne].
  - rewrite lookup_alter_eq, Hst. exists (f st). split; [reflexivity|apply Hf].
  - rewrite lookup_alter_ne by exact Hne. exists st.
    split; [exact Hst|apply R_refl].
Qed.

Lemma fmap_onward (f : ModelState.t -> ModelState.t)
    (m : gmap string ModelState.t) id st :
  (forall st1, R st1 (f st1)) ->
  m !! id = Some st ->
  exists st', (f <$> m) !! id = Some st' /\ R st st'.
Proof.
  intros Hf Hst. rewrite lookup_fmap, Hst. exists (f st).
  split; [reflexivity|apply Hf].
Qed.

Lemma updateManualRotation_onward delta s id st :
  ModelLoader.modelStates s !! id = Some st ->
  exists st',
    ModelLoader.modelStates (ModelLoader.updateManualRotation delta s) !! id
      = Some st' /\ R st st'.
Proof.
  unfold ModelLoader.updateManualRotation. simpl.
  destruct (ManualRotation.rotateActiveOnly (ModelLoader.manualRotation s)).
  - destruct (ModelLoader.activeModelId s) as [a|]; simpl.
    + destruct (JS.truthy_string a); simpl.
      * apply alter_onward. apply applyManualRotation_related.
      * intros H. exists st. split; [exact H | apply R_refl].
    + intros H. exists st. split; [exact H | apply R_refl].
  - simpl. apply fmap_onward. intros st1.
    destruct (ModelState.visible st1);
      [apply applyManualRotation_related | apply R_refl].
Qed.

Lemma updateAutoRotation_onward delta s id st :
  ModelLoader.modelStates s !! id = Some st ->
  exists st',
    ModelLoader.modelStates (ModelLoader.updateAutoRotation delta s) !! id
      = Some st' /\ R st st'.
Proof.
  unfold ModelLoader.updateAutoRotation.
  destruct (AutoRotation.rotateActiveOnly (ModelLoader.autoRotation s)).
  - destruct (ModelLoader.activeModelId s) as [a|]; simpl.
    + destruct (JS.truthy_string a); simpl.
      * apply alter_onward. apply applyAutoRotation_related.
      * intros H. exists st. split; [exact H | apply R_refl].
    + intros H. exists st. split; [exact H | apply R_refl].
  - simpl. apply fmap_onward. intros st1.
    destruct (ModelState.visible st1);
      [apply applyAutoRotation_related | apply R_refl].
Qed.

Lemma rotated_onward delta s id st :
  ModelLoader.modelStates s !! id = Some st ->
  exists st', ModelLoader.modelStates (rotated delta s) !! id = Some st' /\ R st st'.
Proof.
  intros Hst. unfold rotated.
  set (s1 := if ManualRotation.enabled _ then _ else s).
  assert (H1 : exists st1, ModelLoader.modelStates s1 !! id = Some st1 /\ R st st1).
  { unfold s1. destruct (ManualRotation.enabled _).
    - apply updateManualRotation_onward. exact Hst.
    - exists st. split; [exact Hst | apply R_refl]. }
  destruct H1 as (st1 & Hst1 & F1).
  destruct (_ && _).
  - destruct (updateAutoRotation_onward delta s1 id st1 Hst1) as (st2 & Hst2 & F2).
    exists st2. split; [exact Hst2 | eapply R_trans; eassumption].
  - exists st1. split; assumption.
Qed.

Lemma interaction_onward x y hit active mi
    (states : gmap string ModelState.t) id st :
  states !! id = Some st ->
  exists st',
    snd (MouseInteraction.onMouseMove x y hit active mi states) !! id = Some st' /\
    R st st'.
Proof.
  intros Hst. unfold MouseInteraction.onMouseMove. destruct (_ && _); simpl.
  - unfold MouseInteraction.rotateActiveModel.
    destruct (MouseInteraction.activeModel _) as [a|];
      [|exists st; split; [exact Hst | apply R_refl]].
    destruct (JS.truthy_string a);
      [|exists st; split; [exact Hst | apply R_refl]].
    apply alter_onward; [|exact Hst]. intros st1.
    destruct (ModelState.modelObject st1) as [o|] eqn:Ho; [|apply R_refl].
    apply R_rotation. exact Ho.
  - destruct hit; simpl; exists st; (split; [exact Hst | apply R_refl]).
Qed.

Lemma interaction_related x y hit active mi
    (states : gmap string ModelState.t) id st' :
  snd (MouseInteraction.onMouseMove x y hit active mi states) !! id = Some st' ->
  exists st, states !! id = Some st /\ R st st'.
Proof.
  unfold MouseInteraction.onMouseMove. destruct (_ && _); simpl.
  - unfold MouseInteraction.rotateActiveModel.
    destruct (MouseInteraction.activeModel _) as [a|];
      [|intros H; exists st'; split; [exact H | apply R_refl]].
    destruct (JS.truthy_string a);
      [|intros H; exists st'; split; [exact H | apply R_refl]].
    apply alter_related. intros st.
    destruct (ModelState.modelObject st) as [o|] eqn:Ho; [|apply R_refl].
    apply R_rotation. exact Ho.
  - destruct hit; simpl; intros H; exists st'; (split; [exact H | apply R_refl]).
Qed.

End RotationOnly.

(** ** When a frame runs to its end *)

Section FrameCompletes.

Implicit Types (s : ModelLoader.t).

Lemma rotated_keys delta s id :
  is_Some (ModelLoader.modelStates (rotated delta s) !! id) ->
  is_Some (ModelLoader.modelStates s !! id).
Proof.
  intros [st' H].
  destruct (rotated_related (fun _ _ => True) (fun _ => I) (fun _ _ _ _ _ => I)
              (fun _ _ _ _ => I) (fun _ _ => I) delta s id st' H)
    as (st & Hst & _).
  exists st. exact Hst.
Qed.

Lemma rotated_loaded delta s id st :
  ModelLoader.modelStates s !! id = Some st ->
  is_Some (ModelState.modelObject st) ->
  exists st', ModelLoader.modelStates (rotated delta s) !! id = Some st' /\
              is_Some (ModelState.modelObject st').
Proof.
  intros Hst Ho.
  destruct (rotated_onward
              (fun a b => is_Some (ModelState.modelObject a) ->
                          is_Some (ModelState.modelObject b))
              (fun _ H => H) (fun _ _ _ H1 H2 H => H2 (H1 H))
              (fun _ _ _ _ _ => ltac:(eexists; reflexivity))
              (fun _ _ H => H) delta s id st Hst)
    as (st' & Hst' & Hl).
  exists st'. split; [exact Hst'|apply Hl, Ho].
Qed.

Lemma update_keys delta sinTime sinPulse s id :
  is_Some (ModelLoader.modelStates
             (ModelLoader.update delta sinTime sinPulse s) !! id) ->
  is_Some (ModelLoader.modelStates s !! id).
Proof.
  rewrite update_lookup. intros [st' H]. apply (rotated_keys delta).
  destruct (ModelLoader.modelStates (rotated delta s) !! id); [eauto|discriminate].
Qed.

Lemma tryUpdate_rotated delta sinTime sinPulse s :
  ModelLoader.tryUpdate delta sinTime sinPulse s
  = if ModelLoader.updateThrows (rotated delta s) then None
    else Some (ModelLoader.update delta sinTime sinPulse s).
Proof. reflexivity. Qed.

Lemma plain_keys_decide s :
  plain_keysb s = true -> plain_keys s.
Proof.
  intros H id [st Hst]. apply bool_decide_eq_true_1 in H. exact (H id st Hst).
Qed.

(** With ids that name no member of [Object.prototype] the frame returns. *)
Lemma tryUpdate_plain delta sinTime sinPulse s :
  plain_keys s ->
  ModelLoader.tryUpdate delta sinTime sinPulse s
  = Some (ModelLoader.update delta sinTime sinPulse s).
Proof.
  intros Hp. rewrite tryUpdate_rotated.
  unfold ModelLoader.updateThrows. rewrite bool_decide_eq_false_2; [reflexivity|].
  intros (id & st & Hst & _ & Hthrow).
  unfold ModelLoader.updateSpotlightThrows in Hthrow.
  rewrite (Hp id) in Hthrow; [discriminate|].
  apply (rotated_keys delta). eauto.
Qed.

(** An id that names such a member, on a loaded model, makes it throw. *)
Lemma tryUpdate_throws delta sinTime sinPulse s id st :
  ModelLoader.modelStates s !! id = Some st ->
  is_Some (ModelState.modelObject st) ->
  JS.inherited id = true ->
  ModelLoader.tryUpdate delta sinTime sinPulse s = None.
Proof.
  intros Hst Ho Hin. rewrite tryUpdate_rotated.
  unfold ModelLoader.updateThrows. rewrite bool_decide_eq_true_2; [reflexivity|].
  assert (Hr : exists st', ModelLoader.modelStates (rotated delta s) !! id = Some st' /\
                           is_Some (ModelState.modelObject st')).
  { clear Hin. revert Hst Ho. apply rotated_loaded. }
  destruct Hr as (st' & Hst' & Ho'). exists id, st'. split; [exact Hst'|].
  split; [exact Ho'|exact Hin].
Qed.

Lemma update_plain delta sinTime sinPulse s :
  plain_keys s -> plain_keys (ModelLoader.update delta sinTime sinPulse s).
Proof. intros Hp id Hid. apply Hp. eapply update_keys. exact Hid. Qed.

Lemma framesAtStep_plain delta env n s :
  plain_keys s ->
  exists s', framesAtStep delta env n s = Some s' /\ plain_keys s'.
Proof.
  intros Hp. induction n as [|n (s' & Hs' & Hp')]; simpl.
  - exists s. split; [reflexivity|exact Hp].
  - rewrite Hs', (tryUpdate_plain _ _ _ _ Hp'). eexists. split; [reflexivity|].
    apply update_plain. exact Hp'.
Qed.

Lemma updateModel_object delta active dragging sinT st o :
  ModelState.modelObject st = Some o ->
  exists o',
    ModelState.modelObject (ModelLoader.updateModel delta active dragging sinT st)
      = Some o' /\
    Object3D.rotation o' = Object3D.rotation o /\
    Object3D.visible o'
      = ModelState.visible (ModelLoader.updateModel delta active dragging sinT st) /\
    Object3D.opacity o'
      = ModelState.currentOpacity
          (ModelLoader.updateModel delta active dragging sinT st) /\
    Vector3.x (Object3D.position o')
      = ModelState.currentX (ModelLoader.updateModel delta active dragging sinT st) /\
    Vector3.x (Object3D.position o')
      = Vector3.x (ModelLoader.slidPosition delta st o) /\
    Vector3.z (Object3D.position o') = Vector3.z (Object3D.position o).
Proof.
  intros Ho. unfold ModelLoader.updateModel. rewrite Ho.
  destruct (ModelLoader.fadeOpacity _ _ _ _) as [cur vis].
  unfold ModelLoader.updateModelAppearance. simpl.
  destruct (active && vis && negb dragging); simpl;
    eexists; (split; [reflexivity|]); simpl; repeat split; reflexivity.
Qed.

(** After a frame the scene graph agrees with the state of a loaded
    model. *)
Lemma update_in_sync delta sinTime sinPulse s id st o :
  ModelLoader.modelStates (ModelLoader.update delta sinTime sinPulse s) !! id
    = Some st ->
  ModelState.modelObject st = Some o ->
  Object3D.visible o = ModelState.visible st /\
  Object3D.opacity o = ModelState.currentOpacity st /\
  Vector3.x (Object3D.position o) = ModelState.currentX st.
Proof.
  rewrite update_lookup.
  destruct (ModelLoader.modelStates (rotated delta s) !! id) as [st0|];
    simpl; [|discriminate].
  intros [= <-] Ho.
  destruct (ModelState.modelObject st0) as [o0|] eqn:Ho0.
  - destruct (updateModel_object delta
                (bool_decide (ModelLoader.activeModelId (rotated delta s) = Some id))
                (ManualRotation.isDragging (ModelLoader.manualRotation (rotated delta s)))
                (sinTime id) st0 o0 Ho0)
      as (o' & Ho' & _ & Hv & Hop & Hx & _).
    rewrite Ho' in Ho. injection Ho as <-. repeat split; assumption.
  - rewrite updateModel_unloaded in Ho by exact Ho0. congruence.
Qed.

End FrameCompletes.

(** ** The single active model *)

Section SingleActive.

Variable orbitControls_update : Controls.t -> Vector3.t.

Implicit Types (s : ModelLoader.t) (g : Gallery3D.t).

Lemma others_faded_single s :
  others_faded s -> at_most_one_opaque_target (ModelLoader.modelStates s).
Proof.
  intros Hf id1 id2 st1 st2 H1 H2 T1 T2.
  destruct (decide (ModelLoader.activeModelId s = Some id1)) as [E1|N1].
  - destruct (decide (ModelLoader.activeModelId s = Some id2)) as [E2|N2].
    + congruence.
    + rewrite (Hf _ _ H2 N2) in T2. discriminate T2.
  - rewrite (Hf _ _ H1 N1) in T1. discriminate T1.
Qed.

Lemma showModel_active modelId index s :
  ModelLoader.activeModelId (ModelLoader.showModel modelId index s)
  = Some modelId.
Proof. reflexivity. Qed.

Lemma showModel_states modelId index s :
  ModelLoader.modelStates (ModelLoader.showModel modelId index s)
  = alter ModelLoader.showState modelId (hidden_states s).
Proof. reflexivity. Qed.

Lemma showState_target st :
  ModelState.targetOpacity (ModelLoader.showState st) = 1.
Proof.
  unfold ModelLoader.showState. simpl.
  destruct (ModelState.modelObject st); reflexivity.
Qed.

Lemma showModel_new_target modelId index s st :
  ModelLoader.modelStates (ModelLoader.showModel modelId index s) !! modelId
    = Some st ->
  ModelState.targetOpacity st = 1.
Proof.
  rewrite showModel_states, lookup_alter_eq.
  destruct (hidden_states s !! modelId); [|discriminate].
  intros [= <-]. apply showState_target.
Qed.

Lemma showModel_old_target modelId index s a st :
  ModelLoader.activeModelId s = Some a -> JS.truthy_string a = true ->
  a <> modelId ->
  ModelLoader.modelStates (ModelLoader.showModel modelId index s) !! a
    = Some st ->
  ModelState.targetOpacity st = 0.
Proof.
  intros Ha Ht Hne.
  rewrite showModel_states, lookup_alter_ne by congruence.
  unfold hidden_states. rewrite Ha, Ht, lookup_alter_eq.
  destruct (ModelLoader.modelStates s !! a); [|discriminate].
  intros [= <-]. reflexivity.
Qed.

Lemma showModel_others_faded modelId index s :
  others_faded s -> active_truthy s ->
  others_faded (ModelLoader.showModel modelId index s).
Proof.
  intros Hf Ht id st. rewrite showModel_active, showModel_states.
  intros Hst Hne. rewrite lookup_alter_ne in Hst by congruence.
  unfold hidden_states in Hst.
  destruct (ModelLoader.activeModelId s) as [a|] eqn:Ha.
  - rewrite (Ht a Ha) in Hst.
    destruct (decide (a = id)) as [->|Hai].
    + rewrite lookup_alter_eq in Hst.
      destruct (ModelLoader.modelStates s !! id); [|discriminate].
      injection Hst as <-. reflexivity.
    + rewrite lookup_alter_ne in Hst by exact Hai.
      apply (Hf _ _ Hst). rewrite Ha. congruence.
  - apply (Hf _ _ Hst). rewrite Ha. discriminate.
Qed.

(** *** The state after [loadModels] *)

Lemma positionModel_target w ry off index o st :
  ModelState.targetOpacity (snd (ModelLoader.positionModel w ry off index o st))
  = ModelState.targetOpacity st.
Proof. reflexivity. Qed.

Lemma processModel_lookup w ry gltf item index s id st :
  ModelLoader.modelStates (ModelLoader.processModel w ry gltf item index s) !! id
    = Some st ->
  exists st0, ModelLoader.modelStates s !! id = Some st0 /\
              ModelState.targetOpacity st = ModelState.targetOpacity st0.
Proof.
  unfold ModelLoader.processModel.
  destruct (ModelLoader.modelStates s !! GalleryItem.id item) as [sti|] eqn:Hi.
  - destruct (index =? 0)%Z; simpl;
      (destruct (decide (GalleryItem.id item = id)) as [<-|Hne];
       [ rewrite lookup_insert_eq; intros [= <-]; exists sti; split;
         [exact Hi | destruct (Gltf.animated gltf); reflexivity]
       | rewrite lookup_insert_ne by exact Hne; intros Hst; exists st; split;
         [exact Hst | reflexivity] ]).
  - intros Hst. exists st. split; [exact Hst | reflexivity].
Qed.

Lemma loadModel_only_first env item index s id0 :
  (index = 0%Z -> GalleryItem.id item = id0) ->
  only_first_opaque id0 s ->
  only_first_opaque id0 (fst (ModelLoader.loadModel env item index s)).
Proof.
  intros Hfirst Hs.
  assert (Hins : only_first_opaque id0
            (ModelLoader.set_modelStates s
               (<[GalleryItem.id item :=
                    ModelLoader.initialModelState item index
                      (ModelLoader.randoms env)]> (ModelLoader.modelStates s)))).
  { intros id st. simpl.
    destruct (decide (GalleryItem.id item = id)) as [<-|Hne].
    - rewrite lookup_insert_eq. intros [= <-] Hid0. simpl.
      destruct (index =? 0)%Z eqn:E; [|reflexivity].
      apply Z.eqb_eq in E. elim Hid0. auto.
    - rewrite lookup_insert_ne by exact Hne. apply Hs. }
  unfold ModelLoader.loadModel.
  destruct (ModelLoader.outcome env) as [gltf|]; simpl; [|exact Hins].
  intros id st Hst Hid0.
  destruct (processModel_lookup _ _ _ _ _ _ _ _ Hst) as [st0 [H0 ->]].
  exact (Hins _ _ H0 Hid0).
Qed.

Lemma loadFrom_galleryData envOf items i loaded total g :
  Gallery3D.galleryData (Gallery3D.loadFrom envOf i items loaded total g)
  = Gallery3D.galleryData g.
Proof.
  revert i loaded g. induction items as [|item rest IH]; intros i loaded g.
  - reflexivity.
  - simpl. destruct (ModelLoader.loadModel (envOf i) item i _) as [l ok].
    rewrite IH. destruct ok; reflexivity.
Qed.

Lemma loadFrom_only_first envOf id0 items i loaded total g :
  (0 <= i)%Z ->
  (i = 0%Z -> forall item, head items = Some item -> GalleryItem.id item = id0) ->
  only_first_opaque id0 (Gallery3D.modelLoader g) ->
  only_first_opaque id0
    (Gallery3D.modelLoader (Gallery3D.loadFrom envOf i items loaded total g)).
Proof.
  revert i loaded g. induction items as [|item rest IH];
    intros i loaded g Hi Hhead Hg.
  - exact Hg.
  - simpl.
    pose proof (loadModel_only_first (envOf i) item i (Gallery3D.modelLoader g) id0)
      as Hl.
    destruct (ModelLoader.loadModel (envOf i) item i _) as [l ok].
    apply IH.
    + lia.
    + intros E. lia.
    + assert (Hl' : only_first_opaque id0 l).
      { apply Hl; [|exact Hg]. intros E. apply (Hhead E). reflexivity. }
      destruct ok; exact Hl'.
Qed.

Lemma showModel_first_others_faded id0 s :
  only_first_opaque id0 s ->
  others_faded (ModelLoader.showModel id0 0 s).
Proof.
  intros Hs id st. rewrite showModel_active, showModel_states.
  intros Hst Hne. rewrite lookup_alter_ne in Hst by congruence.
  assert (Hid : id <> id0) by congruence.
  unfold hidden_states in Hst.
  destruct (ModelLoader.activeModelId s) as [a|]; [|exact (Hs _ _ Hst Hid)].
  destruct (JS.truthy_string a); [|exact (Hs _ _ Hst Hid)].
  destruct (decide (a = id)) as [->|Hai].
  - rewrite lookup_alter_eq in Hst.
    destruct (ModelLoader.modelStates s !! id); [|discriminate].
    injection Hst as <-. reflexivity.
  - rewrite lookup_alter_ne in Hst by exact Hai. exact (Hs _ _ Hst Hid).
Qed.


Lemma calculateSceneLayout_states n s :
  ModelLoader.modelStates (ModelLoader.calculateSceneLayout n s)
  = ModelLoader.modelStates s.
Proof.
  unfold ModelLoader.calculateSceneLayout.
  repeat (destruct (_ <=? _)%Z); reflexivity.
Qed.

Lemma calculateSceneLayout_active n s :
  ModelLoader.activeModelId (ModelLoader.calculateSceneLayout n s)
  = ModelLoader.activeModelId s.
Proof.
  unfold ModelLoader.calculateSceneLayout.
  repeat (destruct (_ <=? _)%Z); reflexivity.
Qed.

Lemma loadModels_inv envOf g :
  ModelLoader.modelStates (Gallery3D.modelLoader g) = ∅ ->
  ModelLoader.activeModelId (Gallery3D.modelLoader g) = None ->
  ids_truthy (Gallery3D.galleryData g) ->
  gallery_inv (Gallery3D.galleryData g) (Gallery3D.loadModels envOf g).
Proof.
  intros Hempty Hnone Hids. unfold Gallery3D.loadModels.
  set (g1 := Gallery3D.set_modelLoader g _).
  change (Gallery3D.galleryData g1) with (Gallery3D.galleryData g).
  set (g2 := Gallery3D.loadFrom envOf 0 (Gallery3D.galleryData g) 0 _ g1).
  assert (Hdata : Gallery3D.galleryData g2 = Gallery3D.galleryData g).
  { unfold g2. rewrite loadFrom_galleryData. reflexivity. }
  assert (Hstart : forall id0, only_first_opaque id0 (Gallery3D.modelLoader g1)).
  { intros id0 id st. unfold g1. simpl.
    rewrite calculateSceneLayout_states, Hempty, lookup_empty. discriminate. }
  rewrite Hdata.
  destruct (Gallery3D.galleryData g) as [|item0 rest] eqn:Hitems.
  - split.
    + exact Hdata.
    + intros id st Hst _. unfold g2, g1 in Hst. simpl in Hst.
      rewrite calculateSceneLayout_states, Hempty, lookup_empty in Hst.
      discriminate.
    + intros a Ha. unfold g2, g1 in Ha. simpl in Ha.
      rewrite calculateSceneLayout_active, Hnone in Ha. discriminate.
  - split.
    + simpl. exact Hdata.
    + simpl. apply showModel_first_others_faded.
      unfold g2. apply loadFrom_only_first.
      * lia.
      * intros _ item. simpl. intros [= <-]. reflexivity.
      * apply Hstart.
    + simpl. intros a. rewrite showModel_active. intros [= <-].
      exact (Forall_inv Hids).
Qed.

Lemma init_inv items autoSpeed dist cfg envOf :
  ids_truthy items ->
  gallery_inv items (Gallery3D.init items autoSpeed dist cfg envOf).
Proof.
  intros Hids. unfold Gallery3D.init.
  match goal with |- gallery_inv _ (Gallery3D.loadModels _ ?g0) =>
    apply (loadModels_inv envOf g0) end.
  - destruct cfg; reflexivity.
  - destruct cfg; reflexivity.
  - exact Hids.
Qed.

Lemma item_at_In g idx item :
  Gallery3D.item_at g idx = Some item -> In item (Gallery3D.galleryData g).
Proof.
  unfold Gallery3D.item_at. destruct (idx <? 0)%Z; [discriminate|].
  intros H. apply list_elem_of_In. eapply list_elem_of_lookup_2. exact H.
Qed.

Lemma switchToItem_inv items now idx g :
  ids_truthy items -> gallery_inv items g ->
  gallery_inv items (Gallery3D.switchToItem now idx g).
Proof.
  intros Hids [Hdata Hf Ht]. unfold Gallery3D.switchToItem.
  destruct (_ && _); [|split; assumption].
  destruct (Gallery3D.item_at g idx) as [item|] eqn:Hitem; [|split; assumption].
  split; simpl.
  - exact Hdata.
  - apply showModel_others_faded; assumption.
  - intros a. rewrite showModel_active. intros [= <-].
    apply item_at_In in Hitem. rewrite Hdata in Hitem.
    unfold ids_truthy in Hids. rewrite List.Forall_forall in Hids.
    apply Hids. exact Hitem.
Qed.

Lemma fade_kept_inv items g g' :
  Gallery3D.galleryData g' = Gallery3D.galleryData g /\
  fade_kept (Gallery3D.modelLoader g) (Gallery3D.modelLoader g') ->
  gallery_inv items g -> gallery_inv items g'.
Proof.
  intros [Hd [Ha Hk]] [Hdata Hf Ht]. split.
  - rewrite Hd. exact Hdata.
  - intros id st' Hst'. rewrite Ha. intros Hne.
    destruct (Hk _ _ Hst') as [st [Hst [-> _]]]. exact (Hf _ _ Hst Hne).
  - intros a. rewrite Ha. apply Ht.
Qed.

Lemma gallery_animate_inv items delta sin2t sinTime sinPulse g :
  gallery_inv items g ->
  gallery_inv items
    (Gallery3D.animate orbitControls_update delta sin2t sinTime sinPulse g).
Proof.
  intros [Hdata Hf Ht]. unfold Gallery3D.animate. split; simpl.
  - exact Hdata.
  - intros id st' Hst'. rewrite update_active. intros Hne.
    destruct (update_target _ _ _ _ _ _ Hst') as [st [Hst ->]].
    exact (Hf _ _ Hst Hne).
  - intros a. rewrite update_active. apply Ht.
Qed.

Lemma handle_inv items g e :
  ids_truthy items -> gallery_inv items g ->
  gallery_inv items (Gallery3D.handle orbitControls_update g e).
Proof.
  intros Hids Hg. destruct e; simpl.
  - apply switchToItem_inv; assumption.
  - apply gallery_animate_inv; assumption.
  - eapply fade_kept_inv; [apply pointerDown_kept | exact Hg].
  - eapply fade_kept_inv; [apply pointerMove_kept | exact Hg].
  - eapply fade_kept_inv; [apply pointerUp_kept | exact Hg].
  - eapply fade_kept_inv; [apply timeout_kept | exact Hg].
Qed.

Lemma run_inv items events g :
  ids_truthy items -> gallery_inv items g ->
  gallery_inv items (Gallery3D.run orbitControls_update events g).
Proof.
  intros Hids. revert g. induction events as [|e events IH]; intros g Hg.
  - exact Hg.
  - simpl. apply IH. apply handle_inv; assumption.
Qed.

Lemma switchToItem_loader now idx g item :
  Gallery3D.item_at g idx = Some item -> idx <> Gallery3D.currentIndex g ->
  Gallery3D.modelLoader (Gallery3D.switchToItem now idx g)
  = ModelLoader.showModel (GalleryItem.id item) idx (Gallery3D.modelLoader g).
Proof.
  intros Hitem Hne. unfold Gallery3D.switchToItem.
  assert (Hrange : (0 <= idx < Gallery3D.length_of g)%Z).
  { unfold Gallery3D.item_at in Hitem.
    destruct (idx <? 0)%Z eqn:E; [discriminate|]. apply Z.ltb_ge in E.
    apply lookup_lt_Some in Hitem. unfold Gallery3D.length_of. lia. }
  destruct (idx =? Gallery3D.currentIndex g)%Z eqn:E1;
    [apply Z.eqb_eq in E1; contradiction|].
  destruct (0 <=? idx)%Z eqn:E2; [|apply Z.leb_gt in E2; lia].
  destruct (idx <? Gallery3D.length_of g)%Z eqn:E3; [|apply Z.ltb_ge in E3; lia].
  simpl. rewrite Hitem. reflexivity.
Qed.

End SingleActive.

(** ** Activation of a model that failed to load *)

Section FailedLoad.

Implicit Types (s : ModelLoader.t) (g : Gallery3D.t).

Lemma hideState_modelObject st :
  ModelState.modelObject (ModelLoader.hideState st) = ModelState.modelObject st.
Proof. reflexivity. Qed.

Lemma hidden_states_lookup s id st :
  ModelLoader.modelStates s !! id = Some st ->
  exists st0, hidden_states s !! id = Some st0 /\
              ModelState.modelObject st0 = ModelState.modelObject st.
Proof.
  intros Hst. unfold hidden_states.
  destruct (ModelLoader.activeModelId s) as [a|]; [|eauto].
  destruct (JS.truthy_string a); [|eauto].
  destruct (decide (a = id)) as [->|Hne].
  - rewrite lookup_alter_eq, Hst. simpl. eauto.
  - rewrite lookup_alter_ne by exact Hne. eauto.
Qed.

Lemma switchToItem_currentIndex now idx g item :
  Gallery3D.item_at g idx = Some item -> idx <> Gallery3D.currentIndex g ->
  Gallery3D.currentIndex (Gallery3D.switchToItem now idx g) = idx.
Proof.
  intros Hitem Hne. unfold Gallery3D.switchToItem.
  assert (Hrange : (0 <= idx < Gallery3D.length_of g)%Z).
  { unfold Gallery3D.item_at in Hitem.
    destruct (idx <? 0)%Z eqn:E; [discriminate|]. apply Z.ltb_ge in E.
    apply lookup_lt_Some in Hitem. unfold Gallery3D.length_of. lia. }
  destruct (idx =? Gallery3D.currentIndex g)%Z eqn:E1;
    [apply Z.eqb_eq in E1; contradiction|].
  destruct (0 <=? idx)%Z eqn:E2; [|apply Z.leb_gt in E2; lia].
  destruct (idx <? Gallery3D.length_of g)%Z eqn:E3; [|apply Z.ltb_ge in E3; lia].
  simpl. rewrite Hitem. reflexivity.
Qed.

(** C2, as the code has it.  An activation request for an index whose model
    failed to load (its state has no scene-graph object) is carried out like
    any other request for a configured index other than the current one: the
    current index becomes that index, the active model id becomes its id, and
    its state gets target opacity 1 and the visible flag, still without a
    scene-graph object.  [showModel] only skips the write to the missing
    object. *)
Theorem C2_failed_model_activation_takes_effect :
  forall now idx g item st,
    Gallery3D.item_at g idx = Some item ->
    idx <> Gallery3D.currentIndex g ->
    ModelLoader.modelStates (Gallery3D.modelLoader g) !! GalleryItem.id item
      = Some st ->
    ModelState.modelObject st = None ->
    let g' := Gallery3D.switchToItem now idx g in
    Gallery3D.currentIndex g' = idx /\
    ModelLoader.activeModelId (Gallery3D.modelLoader g')
      = Some (GalleryItem.id item) /\
    exists st',
      ModelLoader.modelStates (Gallery3D.modelLoader g') !! GalleryItem.id item
        = Some st' /\
      ModelState.targetOpacity st' = 1 /\
      ModelState.visible st' = true /\
      ModelState.modelObject st' = None.
Proof.
  intros now idx g item st Hitem Hne Hst Hnone g'. unfold g'.
  split; [apply (switchToItem_currentIndex now idx g item Hitem Hne)|].
  rewrite (switchToItem_loader now idx g item Hitem Hne).
  split; [apply showModel_active|].
  destruct (hidden_states_lookup _ _ _ Hst) as [st0 [H0 Hobj]].
  rewrite Hnone in Hobj.
  exists (ModelLoader.showState st0).
  rewrite showModel_states, lookup_alter_eq, H0. simpl.
  unfold ModelLoader.showState. simpl. rewrite Hobj. simpl. auto.
Qed.

End FailedLoad.

(** ** The cross-fade *)

Section Fade.

Variable orbitControls_update : Controls.t -> Vector3.t.

Implicit Types (s : ModelLoader.t) (st : ModelState.t) (g : Gallery3D.t).

Lemma Qltb_cases x y :
  (JS.Qltb x y = true /\ x < y) \/ (JS.Qltb x y = false /\ y <= x).
Proof.
  unfold JS.Qltb. destruct (Qle_bool y x) eqn:E.
  - right. split; [reflexivity|]. apply Qle_bool_iff. exact E.
  - left. split; [reflexivity|]. apply Qnot_le_lt. intros H.
    apply Qle_bool_iff in H. congruence.
Qed.

Lemma lerp_range lo hi x y t :
  0 <= t -> t <= 1 -> lo <= x <= hi -> lo <= y <= hi ->
  lo <= MathUtils.lerp x y t <= hi.
Proof. intros Ht0 Ht1 [Hx0 Hx1] [Hy0 Hy1]. unfold MathUtils.lerp. split; nra. Qed.

Lemma fadeOpacity_unit delta current target vis :
  0 <= delta -> delta * 3 <= 1 -> in_unit current -> in_unit target ->
  in_unit (fst (ModelLoader.fadeOpacity delta current target vis)).
Proof.
  intros Hd0 Hd1 Hc Ht. unfold ModelLoader.fadeOpacity.
  assert (Hl : in_unit (MathUtils.lerp current target (delta * 3))).
  { apply lerp_range; [lra | exact Hd1 | exact Hc | exact Ht]. }
  destruct (_ && _); [simpl; unfold in_unit; lra|].
  destruct (JS.Qltb 0 target); exact Hl.
Qed.

Lemma update_in_unit delta sinTime sinPulse s :
  0 <= delta -> delta * 3 <= 1 ->
  opacities_in_unit s ->
  opacities_in_unit (ModelLoader.update delta sinTime sinPulse s).
Proof.
  intros Hd0 Hd1 Hs id st'. rewrite update_lookup.
  destruct (ModelLoader.modelStates (rotated delta s) !! id) as [st2|] eqn:H2;
    [|discriminate].
  intros [= <-]. destruct (rotated_same_fade _ _ _ _ H2) as [st [Hst [Ht Hc]]].
  destruct (Hs _ _ Hst) as [Hcur Htgt]. rewrite <- Hc in Hcur. rewrite <- Ht in Htgt.
  rewrite updateModel_target. split; [|exact Htgt].
  destruct (ModelState.modelObject st2) as [o|] eqn:Ho.
  - rewrite (updateModel_current _ _ _ _ _ o Ho).
    apply fadeOpacity_unit; assumption.
  - rewrite updateModel_unloaded by exact Ho. exact Hcur.
Qed.

Lemma showState_current st :
  ModelState.currentOpacity (ModelLoader.showState st) = ModelState.currentOpacity st.
Proof.
  unfold ModelLoader.showState. simpl.
  destruct (ModelState.modelObject st); reflexivity.
Qed.

Lemma unit_0 : in_unit 0.
Proof. unfold in_unit. lra. Qed.

Lemma unit_1 : in_unit 1.
Proof. unfold in_unit. lra. Qed.

Lemma hidden_states_in_unit s id st :
  opacities_in_unit s -> hidden_states s !! id = Some st ->
  in_unit (ModelState.currentOpacity st) /\ in_unit (ModelState.targetOpacity st).
Proof.
  intros Hs. unfold hidden_states.
  destruct (ModelLoader.activeModelId s) as [a|]; [|apply Hs].
  destruct (JS.truthy_string a); [|apply Hs].
  destruct (decide (a = id)) as [->|Hne].
  - rewrite lookup_alter_eq.
    destruct (ModelLoader.modelStates s !! id) as [st0|] eqn:H0; [|discriminate].
    intros [= <-]. simpl. split; [apply (Hs _ _ H0) | apply unit_0].
  - rewrite lookup_alter_ne by exact Hne. apply Hs.
Qed.

Lemma showModel_in_unit modelId index s :
  opacities_in_unit s -> opacities_in_unit (ModelLoader.showModel modelId index s).
Proof.
  intros Hs id st. rewrite showModel_states.
  destruct (decide (modelId = id)) as [->|Hne].
  - rewrite lookup_alter_eq.
    destruct (hidden_states s !! id) as [st0|] eqn:H0; [|discriminate].
    intros [= <-]. rewrite showState_current, showState_target.
    split; [apply (hidden_states_in_unit _ _ _ Hs H0) | apply unit_1].
  - rewrite lookup_alter_ne by exact Hne. apply hidden_states_in_unit. exact Hs.
Qed.

Lemma initialModelState_in_unit item index r :
  in_unit (ModelState.currentOpacity (ModelLoader.initialModelState item index r)) /\
  in_unit (ModelState.targetOpacity (ModelLoader.initialModelState item index r)).
Proof. simpl. destruct (index =? 0)%Z; split; (apply unit_0 || apply unit_1). Qed.

Lemma processModel_same_fade w ry gltf item index s id st' :
  ModelLoader.modelStates (ModelLoader.processModel w ry gltf item index s) !! id
    = Some st' ->
  exists st, ModelLoader.modelStates s !! id = Some st /\ same_fade st st'.
Proof.
  unfold ModelLoader.processModel.
  destruct (ModelLoader.modelStates s !! GalleryItem.id item) as [sti|] eqn:Hi.
  - destruct (index =? 0)%Z; simpl;
      (destruct (decide (GalleryItem.id item = id)) as [<-|Hne];
       [ rewrite lookup_insert_eq; intros [= <-]; exists sti; split;
         [exact Hi | destruct (Gltf.animated gltf); split; reflexivity]
       | rewrite lookup_insert_ne by exact Hne; intros Hst; exists st'; split;
         [exact Hst | apply same_fade_refl] ]).
  - intros Hst. exists st'. split; [exact Hst | apply same_fade_refl].
Qed.

Lemma loadModel_in_unit env item index s :
  opacities_in_unit s ->
  opacities_in_unit (fst (ModelLoader.loadModel env item index s)).
Proof.
  intros Hs.
  assert (Hins : opacities_in_unit
            (ModelLoader.set_modelStates s
               (<[GalleryItem.id item :=
                    ModelLoader.initialModelState item index
                      (ModelLoader.randoms env)]> (ModelLoader.modelStates s)))).
  { intros id st. simpl.
    destruct (decide (GalleryItem.id item = id)) as [<-|Hne].
    - rewrite lookup_insert_eq. intros [= <-]. apply initialModelState_in_unit.
    - rewrite lookup_insert_ne by exact Hne. apply Hs. }
  unfold ModelLoader.loadModel.
  destruct (ModelLoader.outcome env) as [gltf|]; simpl; [|exact Hins].
  intros id st' Hst'.
  destruct (processModel_same_fade _ _ _ _ _ _ _ _ Hst') as [st [Hst [Ht Hc]]].
  rewrite Ht, Hc. exact (Hins _ _ Hst).
Qed.

Lemma loadFrom_in_unit envOf items i loaded total g :
  opacities_in_unit (Gallery3D.modelLoader g) ->
  opacities_in_unit
    (Gallery3D.modelLoader (Gallery3D.loadFrom envOf i items loaded total g)).
Proof.
  revert i loaded g. induction items as [|item rest IH]; intros i loaded g Hg.
  - exact Hg.
  - simpl.
    pose proof (loadModel_in_unit (envOf i) item i (Gallery3D.modelLoader g) Hg) as Hl.
    destruct (ModelLoader.loadModel (envOf i) item i _) as [l ok].
    apply IH. destruct ok; exact Hl.
Qed.

Lemma init_in_unit items autoSpeed dist cfg envOf :
  opacities_in_unit
    (Gallery3D.modelLoader (Gallery3D.init items autoSpeed dist cfg envOf)).
Proof.
  unfold Gallery3D.init, Gallery3D.loadModels.
  match goal with
  | |- context [Gallery3D.loadFrom envOf 0 ?l 0 ?n ?g1] =>
      assert (H2 : opacities_in_unit
                (Gallery3D.modelLoader (Gallery3D.loadFrom envOf 0 l 0 n g1)));
      [ apply loadFrom_in_unit; intros id st; simpl;
        rewrite calculateSceneLayout_states;
        destruct cfg; simpl; rewrite lookup_empty; discriminate
      | destruct (Gallery3D.galleryData (Gallery3D.loadFrom envOf 0 l 0 n g1));
        [exact H2 | simpl; apply showModel_in_unit; exact H2] ]
  end.
Qed.

Lemma fade_kept_in_unit g g' :
  Gallery3D.galleryData g' = Gallery3D.galleryData g /\
  fade_kept (Gallery3D.modelLoader g) (Gallery3D.modelLoader g') ->
  opacities_in_unit (Gallery3D.modelLoader g) ->
  opacities_in_unit (Gallery3D.modelLoader g').
Proof.
  intros [_ [_ Hk]] Hg id st' Hst'.
  destruct (Hk _ _ Hst') as [st [Hst [-> ->]]]. exact (Hg _ _ Hst).
Qed.

Lemma handle_in_unit g e :
  frame_within_third e ->
  opacities_in_unit (Gallery3D.modelLoader g) ->
  opacities_in_unit
    (Gallery3D.modelLoader (Gallery3D.handle orbitControls_update g e)).
Proof.
  intros He Hg. destruct e; simpl.
  - unfold Gallery3D.switchToItem. destruct (_ && _); [|exact Hg].
    destruct (Gallery3D.item_at g index); [|exact Hg].
    simpl. apply showModel_in_unit. exact Hg.
  - destruct He as [Hd0 Hd1]. apply update_in_unit; assumption.
  - eapply fade_kept_in_unit; [apply pointerDown_kept | exact Hg].
  - eapply fade_kept_in_unit; [apply pointerMove_kept | exact Hg].
  - eapply fade_kept_in_unit; [apply pointerUp_kept | exact Hg].
  - eapply fade_kept_in_unit; [apply timeout_kept | exact Hg].
Qed.

(** C8, as the code has it.  From initialisation on, through activations,
    pointer events and frames, the current and the target opacity of every
    model state stay in [0, 1], provided every frame has a time delta with
    [0 <= delta] and [delta * 3 <= 1]: the interpolation factor is
    [delta * 3] and nothing clamps it. *)
Theorem C8_opacities_stay_in_unit_interval :
  forall items autoSpeed dist cfg envOf events id st,
    Forall frame_within_third events ->
    ModelLoader.modelStates
      (Gallery3D.modelLoader
         (Gallery3D.run orbitControls_update events
            (Gallery3D.init items autoSpeed dist cfg envOf))) !! id = Some st ->
    0 <= ModelState.currentOpacity st <= 1 /\
    0 <= ModelState.targetOpacity st <= 1.
Proof.
  intros items autoSpeed dist cfg envOf events id st Hev.
  assert (H : forall g,
             opacities_in_unit (Gallery3D.modelLoader g) ->
             opacities_in_unit
               (Gallery3D.modelLoader (Gallery3D.run orbitControls_update events g))).
  { induction Hev as [|e events He _ IH]; intros g Hg; [exact Hg|].
    simpl. apply IH. apply handle_in_unit; assumption. }
  apply (H _ (init_in_unit items autoSpeed dist cfg envOf)).
Qed.

End Fade.

(** ** Convergence of the fade *)

Section Convergence.

Implicit Types (st : ModelState.t).

Lemma fadeFrames_target delta env n st :
  ModelState.targetOpacity (fadeFrames delta env n st) = ModelState.targetOpacity st.
Proof.
  induction n as [|n IH]; [reflexivity|]. simpl.
  destruct (env n) as [[a d] sn]. rewrite updateModel_target. exact IH.
Qed.

Lemma fadeFrames_loaded delta env n st o :
  ModelState.modelObject st = Some o ->
  exists o', ModelState.modelObject (fadeFrames delta env n st) = Some o'.
Proof.
  intros Ho. induction n as [|n [o' IH]]; [eauto|]. simpl.
  destruct (env n) as [[a d] sn]. eapply updateModel_loaded. exact IH.
Qed.

(** One application of the opacity part of the loop body: the result lies
    between the target and the previous value, and the distance to the
    target shrinks at least by the factor [1 - t]. *)
Lemma fadeOpacity_step delta c T vis :
  0 < delta -> delta * 3 <= 1 ->
  let c' := fst (ModelLoader.fadeOpacity delta c T vis) in
  (T <= c -> T <= c' <= c /\ c' - T <= (1 - delta * 3) * (c - T)) /\
  (c <= T -> c <= c' <= T /\ T - c' <= (1 - delta * 3) * (T - c)).
Proof.
  intros Hd0 Hd1. unfold ModelLoader.fadeOpacity, MathUtils.lerp.
  set (t := delta * 3). assert (Ht0 : 0 < t) by (unfold t; lra).
  fold t in Hd1.
  destruct (JS.Qltb _ 0.01 && Qeq_bool T 0) eqn:E.
  - apply andb_prop in E. destruct E as [_ E]. apply Qeq_bool_iff in E. simpl.
    split; intros H; split; nra.
  - assert (Hl : fst (if JS.Qltb 0 T
                      then ((1 - t) * c + t * T, true)
                      else ((1 - t) * c + t * T, vis))
                 = (1 - t) * c + t * T) by (destruct (JS.Qltb 0 T); reflexivity).
    rewrite Hl. split; intros H; split; nra.
Qed.

Lemma fadeFrames_step delta env n st o :
  ModelState.modelObject st = Some o ->
  0 < delta -> delta * 3 <= 1 ->
  let T := ModelState.targetOpacity st in
  let c := ModelState.currentOpacity (fadeFrames delta env n st) in
  let c' := ModelState.currentOpacity (fadeFrames delta env (S n) st) in
  (T <= c -> T <= c' <= c /\ c' - T <= (1 - delta * 3) * (c - T)) /\
  (c <= T -> c <= c' <= T /\ T - c' <= (1 - delta * 3) * (T - c)).
Proof.
  intros Ho Hd0 Hd1. simpl.
  destruct (fadeFrames_loaded delta env n st o Ho) as [o' Ho'].
  destruct (env n) as [[a d] sn].
  rewrite (updateModel_current _ _ _ _ _ o' Ho'), fadeFrames_target.
  apply fadeOpacity_step; assumption.
Qed.

(** The distance to the target after [n] frames, times [1 + n t], is at most
    the distance at the start. *)
Lemma fadeFrames_gap delta env n st o :
  ModelState.modelObject st = Some o ->
  0 < delta -> delta * 3 <= 1 ->
  exists B,
    0 <= B /\
    - B <= ModelState.currentOpacity (fadeFrames delta env n st)
           - ModelState.targetOpacity st <= B /\
    B * (1 + inject_Z (Z.of_nat n) * (delta * 3))
      <= Qabs (ModelState.currentOpacity st - ModelState.targetOpacity st).
Proof.
  intros Ho Hd0 Hd1. induction n as [|n [B [HB [Hgap Hbound]]]].
  - exists (Qabs (ModelState.currentOpacity st - ModelState.targetOpacity st)).
    simpl fadeFrames.
    set (x := ModelState.currentOpacity st - ModelState.targetOpacity st).
    pose proof (Qabs_nonneg x) as H0. pose proof (Qle_Qabs x) as H1.
    pose proof (Qle_Qabs (- x)) as H2. rewrite Qabs_opp in H2.
    split; [exact H0|]. split; [split; lra|].
    change (inject_Z (Z.of_nat 0)) with 0. lra.
  - exists ((1 - delta * 3) * B).
    pose proof (fadeFrames_step delta env n st o Ho Hd0 Hd1) as [Hup Hdown].
    set (T := ModelState.targetOpacity st) in *.
    set (c := ModelState.currentOpacity (fadeFrames delta env n st)) in *.
    set (c' := ModelState.currentOpacity (fadeFrames delta env (S n) st)) in *.
    set (G := Qabs (ModelState.currentOpacity st - T)) in *.
    assert (Hn : 0 <= inject_Z (Z.of_nat n)).
    { change 0 with (inject_Z 0). rewrite <- Zle_Qle. lia. }
    assert (HS : inject_Z (Z.of_nat (S n)) == inject_Z (Z.of_nat n) + 1).
    { rewrite Nat2Z.inj_succ. unfold Z.succ. rewrite inject_Z_plus. reflexivity. }
    set (k := inject_Z (Z.of_nat n)) in *.
    set (t := delta * 3) in *.
    assert (Ht0 : 0 < t) by (unfold t; lra).
    split; [nra|]. split.
    + destruct (Qlt_le_dec c T) as [Hlt | Hge].
      * destruct (Hdown (Qlt_le_weak _ _ Hlt)) as [[A1 A2] A3]. split; nra.
      * destruct (Hup Hge) as [[A1 A2] A3]. split; nra.
    + rewrite HS.
      assert (Hprod : (1 - t) * B * (1 + (k + 1) * t) <= B * (1 + k * t)).
      { assert (0 <= B * ((k + 1) * (t * t))) by
          (apply Qmult_le_0_compat; [exact HB|];
           apply Qmult_le_0_compat; [lra|]; apply Qmult_le_0_compat; lra).
        lra. }
      lra.
Qed.

Lemma fadeBound_enough st (delta eps : Q) n :
  0 < delta -> 0 < eps -> (fadeBound st delta eps <= n)%nat ->
  Qabs (ModelState.currentOpacity st - ModelState.targetOpacity st)
    <= inject_Z (Z.of_nat n) * (delta * 3) * eps.
Proof.
  intros Hd He Hn. unfold fadeBound in Hn.
  set (G := Qabs (ModelState.currentOpacity st - ModelState.targetOpacity st)) in *.
  set (d := eps * (delta * 3)) in *.
  assert (Hd0 : 0 < d) by (unfold d; nra).
  assert (Hq : G / d <= inject_Z (Z.of_nat n)).
  { eapply Qle_trans; [apply Qle_ceiling|]. rewrite <- Zle_Qle. lia. }
  assert (HG : G == G / d * d) by (field; lra).
  assert (Hm : G / d * d <= inject_Z (Z.of_nat n) * d)
    by (apply Qmult_le_compat_r; [exact Hq | lra]).
  unfold d in *. lra.
Qed.

(** The loop body iterated on one model state with a scene-graph object,
    for a fixed time step with [0 < delta] and [delta * 3 <= 1]: after
    [fadeBound] iterations, and ever after, the current opacity is within
    [eps] of the target; from one iteration to the next the opacity moves
    toward the target without passing it; and with target 0 an iteration
    never leaves an opacity under 0.01 other than exactly 0, with the state
    marked invisible. *)
Lemma fadeFrames_converge :
  forall st delta env eps o,
    ModelState.modelObject st = Some o ->
    0 < delta -> delta * 3 <= 1 -> 0 < eps ->
    let T := ModelState.targetOpacity st in
    let c := fun n => ModelState.currentOpacity (fadeFrames delta env n st) in
    (forall n, (fadeBound st delta eps <= n)%nat -> T - eps < c n < T + eps) /\
    (forall n, (T <= c n -> T <= c (S n) <= c n) /\
               (c n <= T -> c n <= c (S n) <= T)) /\
    (forall n, T == 0 -> c (S n) < 0.01 ->
       c (S n) = 0 /\
       ModelState.visible (fadeFrames delta env (S n) st) = false /\
       exists o', ModelState.modelObject (fadeFrames delta env (S n) st) = Some o' /\
                  Object3D.visible o' = false /\ Object3D.opacity o' = 0).
Proof.
  intros st delta env eps o Ho Hd0 Hd1 He T c. split; [|split].
  - intros n Hn0.
    destruct (fadeFrames_gap delta env n st o Ho Hd0 Hd1) as [B [HB [[G1 G2] Hb]]].
    pose proof (fadeBound_enough st delta eps n Hd0 He Hn0) as Hn.
    fold T in G1, G2, Hb, Hn. fold (c n) in G1, G2.
    assert (Hk : 0 <= inject_Z (Z.of_nat n)).
    { change 0 with (inject_Z 0). rewrite <- Zle_Qle. lia. }
    set (k := inject_Z (Z.of_nat n)) in *. set (t := delta * 3) in *.
    assert (HBe : B < eps).
    { assert (0 <= k * t) by (apply Qmult_le_0_compat; unfold t; lra).
      apply Qnot_le_lt. intros Hle.
      assert (eps * (1 + k * t) <= B * (1 + k * t))
        by (apply Qmult_le_compat_r; lra).
      lra. }
    split; lra.
  - intros n.
    destruct (fadeFrames_step delta env n st o Ho Hd0 Hd1) as [Hup Hdown].
    split; intros H; [apply (Hup H) | apply (Hdown H)].
  - intros n HT. unfold c. simpl.
    destruct (fadeFrames_loaded delta env n st o Ho) as [o' Ho'].
    destruct (env n) as [[a d] sn].
    unfold ModelLoader.updateModel. rewrite Ho', fadeFrames_target.
    fold T. fold (c n).
    unfold ModelLoader.fadeOpacity, MathUtils.lerp.
    apply Qeq_bool_iff in HT. rewrite HT, andb_true_r.
    destruct (Qltb_cases ((1 - delta * 3) * c n + delta * 3 * T) 0.01)
      as [[-> _] | [-> Hge]].
    + simpl. rewrite !andb_false_r. simpl. intros _.
      split; [reflexivity|]. split; [reflexivity|].
      eexists. split; [reflexivity|]. split; reflexivity.
    + destruct (JS.Qltb 0 T); simpl;
        destruct (a && _ && negb d); simpl; intros Hc; exfalso; lra.
Qed.

(** *** The frames of the loader *)

Lemma same_look_refl st : same_look st st.
Proof. repeat split; trivial. Qed.

Lemma same_look_trans st1 st2 st3 :
  same_look st1 st2 -> same_look st2 st3 -> same_look st1 st3.
Proof.
  intros (A1 & A2 & A3 & A4) (B1 & B2 & B3 & B4).
  split; [congruence|]. split; [congruence|]. split; [congruence|].
  rewrite B4. exact A4.
Qed.

Lemma same_look_rotation st o r :
  ModelState.modelObject st = Some o ->
  same_look st (ModelState.set_modelObject st (Some (Object3D.set_rotation o r))).
Proof.
  intros Ho. split; [reflexivity|]. split; [reflexivity|]. split; [reflexivity|].
  simpl. rewrite Ho. split; intros _; eexists; reflexivity.
Qed.

Lemma same_look_idle st ar : same_look st (ModelState.set_autoRotation st ar).
Proof. repeat split; trivial. Qed.

(** The fade of a model does not depend on whether the model is the active
    one, on a drag, nor on anything but what [same_look] compares. *)
Lemma updateModel_same_look delta a1 d1 x1 a2 d2 x2 st1 st2 :
  same_look st1 st2 ->
  same_look (ModelLoader.updateModel delta a1 d1 x1 st1)
    (ModelLoader.updateModel delta a2 d2 x2 st2).
Proof.
  intros (HT & HC & HV & HL).
  destruct (ModelState.modelObject st1) as [o1|] eqn:Ho1;
    destruct (ModelState.modelObject st2) as [o2|] eqn:Ho2.
  - destruct (updateModel_loaded delta a1 d1 x1 st1 o1 Ho1) as [o1' Ho1'].
    destruct (updateModel_loaded delta a2 d2 x2 st2 o2 Ho2) as [o2' Ho2'].
    unfold same_look.
    rewrite !updateModel_target,
      (updateModel_current _ _ _ _ _ _ Ho1), (updateModel_current _ _ _ _ _ _ Ho2),
      (updateModel_visible _ _ _ _ _ _ Ho1), (updateModel_visible _ _ _ _ _ _ Ho2),
      HT, HC, HV, Ho1', Ho2'.
    repeat split; trivial; intros _; eexists; reflexivity.
  - exfalso. destruct (proj2 HL (ex_intro _ o1 eq_refl)) as [x Hx]. discriminate Hx.
  - exfalso. destruct (proj1 HL (ex_intro _ o2 eq_refl)) as [x Hx]. discriminate Hx.
  - rewrite !updateModel_unloaded by assumption.
    unfold same_look. rewrite Ho1, Ho2. repeat split; trivial.
Qed.

(** The state of the model [id] after [n] frames of the loader: the frames
    return, and the fade of the model is the one of [fadeFrames]. *)
Lemma framesAtStep_fade delta env n s id st :
  plain_keys s ->
  ModelLoader.modelStates s !! id = Some st ->
  exists s' st',
    framesAtStep delta env n s = Some s' /\ plain_keys s' /\
    ModelLoader.modelStates s' !! id = Some st' /\
    same_look (fadeFrames delta (fun _ => (false, false, 0)) n st) st'.
Proof.
  intros Hp Hst. induction n as [|n (s' & st' & Hs' & Hp' & Hst' & Hl)].
  - exists s, st. split; [reflexivity|]. split; [exact Hp|].
    split; [exact Hst|apply same_look_refl].
  - simpl. rewrite Hs', (tryUpdate_plain _ _ _ _ Hp').
    destruct (rotated_onward same_look same_look_refl same_look_trans
                same_look_rotation same_look_idle delta s' id st' Hst')
      as (st_r & Hst_r & Hr).
    eexists. eexists. split; [reflexivity|].
    split; [apply update_plain; exact Hp'|].
    split; [rewrite update_lookup, Hst_r; reflexivity|].
    apply updateModel_same_look. eapply same_look_trans; eassumption.
Qed.

(** C7, as the code has it.  Take a loader whose model ids name no member
    of [Object.prototype], a model of it with a scene-graph object, and a
    fixed time step with [0 < delta] and [delta * 3 <= 1].  Every frame
    returns; after [fadeBound] frames, and ever after, the current opacity
    of the model is within [eps] of the target; from one frame to the next
    the opacity moves toward the target without passing it; and with target
    0 a frame never leaves an opacity under 0.01 other than exactly 0, with
    the state marked invisible and the object hidden at opacity 0. *)
Theorem C7_fade_converges_for_small_steps :
  forall s delta env eps id st o,
    plain_keys s ->
    ModelLoader.modelStates s !! id = Some st ->
    ModelState.modelObject st = Some o ->
    0 < delta -> delta * 3 <= 1 -> 0 < eps ->
    let T := ModelState.targetOpacity st in
    (forall n, exists s' st',
       framesAtStep delta env n s = Some s' /\
       ModelLoader.modelStates s' !! id = Some st' /\
       ModelState.targetOpacity st' = T /\
       ((fadeBound st delta eps <= n)%nat ->
        T - eps < ModelState.currentOpacity st' < T + eps)) /\
    (forall n s1 s2 st1 st2,
       framesAtStep delta env n s = Some s1 ->
       framesAtStep delta env (S n) s = Some s2 ->
       ModelLoader.modelStates s1 !! id = Some st1 ->
       ModelLoader.modelStates s2 !! id = Some st2 ->
       let c1 := ModelState.currentOpacity st1 in
       let c2 := ModelState.currentOpacity st2 in
       (T <= c1 -> T <= c2 <= c1) /\
       (c1 <= T -> c1 <= c2 <= T) /\
       (T == 0 -> c2 < 0.01 ->
        c2 = 0 /\ ModelState.visible st2 = false /\
        exists o', ModelState.modelObject st2 = Some o' /\
                   Object3D.visible o' = false /\ Object3D.opacity o' = 0)).
Proof.
  intros s delta env eps id st o Hp Hst Ho Hd0 Hd1 He T.
  pose proof (fadeFrames_converge st delta (fun _ => (false, false, 0)) eps o
                Ho Hd0 Hd1 He) as (Hnear & Hmono & Hsnap).
  split.
  - intros n.
    destruct (framesAtStep_fade delta env n s id st Hp Hst)
      as (s' & st' & Hs' & _ & Hst' & (LT & LC & _)).
    exists s', st'. split; [exact Hs'|]. split; [exact Hst'|].
    split; [rewrite LT; apply fadeFrames_target|].
    intros Hn. rewrite LC. apply Hnear. exact Hn.
  - intros n s1 s2 st1 st2 Hs1 Hs2 Hst1 Hst2 c1 c2.
    destruct (framesAtStep_fade delta env n s id st Hp Hst)
      as (s1' & st1' & Hs1' & Hp1 & Hst1' & (_ & LC1 & _)).
    rewrite Hs1 in Hs1'. injection Hs1' as <-.
    rewrite Hst1 in Hst1'. injection Hst1' as <-.
    destruct (framesAtStep_fade delta env (S n) s id st Hp Hst)
      as (s2' & st2' & Hs2' & _ & Hst2' & (_ & LC2 & LV2 & _)).
    rewrite Hs2 in Hs2'. injection Hs2' as <-.
    rewrite Hst2 in Hst2'. injection Hst2' as <-.
    unfold c1, c2. rewrite LC1, LC2.
    destruct (Hmono n) as [Hup Hdown].
    split; [exact Hup|]. split; [exact Hdown|].
    intros HT Hlow. destruct (Hsnap n HT Hlow) as (Hzero & Hvis & _).
    assert (Hs2u : s2 = ModelLoader.update delta (fst (env n)) (snd (env n)) s1).
    { simpl in Hs2. rewrite Hs1, (tryUpdate_plain _ _ _ _ Hp1) in Hs2.
      injection Hs2 as <-. reflexivity. }
    assert (Hl2 : is_Some (ModelState.modelObject st2)).
    { destruct (framesAtStep_fade delta env (S n) s id st Hp Hst)
        as (s2' & st2' & Hs2' & _ & Hst2' & (_ & _ & _ & LL)).
      rewrite Hs2 in Hs2'. injection Hs2' as <-.
      rewrite Hst2 in Hst2'. injection Hst2' as <-.
      apply LL.
      destruct (fadeFrames_loaded delta (fun _ => (false, false, 0)) (S n) st o Ho)
        as [o' Ho']. eexists; exact Ho'. }
    destruct Hl2 as [o2 Ho2]. subst s2.
    destruct (update_in_sync _ _ _ _ _ _ _ Hst2 Ho2) as (Sv & So & _).
    split; [exact Hzero|]. split; [rewrite LV2; exact Hvis|].
    exists o2. split; [exact Ho2|].
    split; [rewrite Sv, LV2; exact Hvis|rewrite So, LC2; exact Hzero].
Qed.

End Convergence.

(** ** Pointer-driven rotation *)

Section ManualRotationFacts.

Implicit Types (s : ModelLoader.t) (m : ManualRotation.t).

Lemma updateManualRotation_manual delta s :
  ModelLoader.manualRotation (ModelLoader.updateManualRotation delta s)
  = advanceManual delta (ModelLoader.manualRotation s).
Proof.
  unfold ModelLoader.updateManualRotation. simpl.
  destruct (ManualRotation.rotateActiveOnly _); [|reflexivity].
  destruct (ModelLoader.activeModelId s) as [a|]; simpl; [|reflexivity].
  destruct (JS.truthy_string a); reflexivity.
Qed.

Lemma updateAutoRotation_manual delta s :
  ModelLoader.manualRotation (ModelLoader.updateAutoRotation delta s)
  = ModelLoader.manualRotation s.
Proof.
  unfold ModelLoader.updateAutoRotation.
  destruct (AutoRotation.rotateActiveOnly _); [|reflexivity].
  destruct (ModelLoader.activeModelId s) as [a|]; simpl; [|reflexivity].
  destruct (JS.truthy_string a); reflexivity.
Qed.

Lemma update_manual delta sinTime sinPulse s :
  ModelLoader.manualRotation (ModelLoader.update delta sinTime sinPulse s)
  = if ManualRotation.enabled (ModelLoader.manualRotation s)
    then advanceManual delta (ModelLoader.manualRotation s)
    else ModelLoader.manualRotation s.
Proof.
  rewrite update_rotated. simpl. unfold rotated.
  destruct (ManualRotation.enabled (ModelLoader.manualRotation s)).
  - destruct (_ && _);
      [rewrite updateAutoRotation_manual|]; apply updateManualRotation_manual.
  - destruct (_ && _); [rewrite updateAutoRotation_manual|]; reflexivity.
Qed.

Lemma Math_min_cases a b :
  (a <= b /\ JS.Math_min a b = a) \/ (b < a /\ JS.Math_min a b = b).
Proof.
  unfold JS.Math_min. destruct (Qle_bool a b) eqn:E.
  - left. split; [apply Qle_bool_iff; exact E | reflexivity].
  - right. split; [|reflexivity]. apply Qnot_le_lt. intros H.
    apply Qle_bool_iff in H. congruence.
Qed.

Lemma Math_max_cases a b :
  (a <= b /\ JS.Math_max a b = b) \/ (b < a /\ JS.Math_max a b = a).
Proof.
  unfold JS.Math_max. destruct (Qle_bool a b) eqn:E.
  - left. split; [apply Qle_bool_iff; exact E | reflexivity].
  - right. split; [|reflexivity]. apply Qnot_le_lt. intros H.
    apply Qle_bool_iff in H. congruence.
Qed.


Lemma clampVelocity_bounds m v :
  0 <= ManualRotation.maxSpeed m ->
  - ManualRotation.maxSpeed m <= ModelLoader.clampVelocity m v
    <= ManualRotation.maxSpeed m.
Proof.
  intros H0. unfold ModelLoader.clampVelocity.
  destruct (Math_min_cases (ManualRotation.maxSpeed m) v) as [[A ->] | [A ->]];
    match goal with |- _ <= JS.Math_max ?a ?b <= _ =>
      destruct (Math_max_cases a b) as [[B ->] | [B ->]] end;
    split; lra.
Qed.




End ManualRotationFacts.

(** ** Idle rotation and the drag *)

Section IdleRotation.

Implicit Types (s : ModelLoader.t) (st : ModelState.t).

Lemma same_idle_refl st : same_idle st st.
Proof. split; [reflexivity | tauto]. Qed.

Lemma applyManualRotation_same_idle m st :
  same_idle st (ModelLoader.applyManualRotation m st).
Proof.
  unfold ModelLoader.applyManualRotation.
  destruct (ModelState.modelObject st) eqn:E; split; simpl;
    try reflexivity; rewrite ?E; split; congruence.
Qed.

Lemma updateModel_autoRotation delta active dragging sinT st :
  ModelState.autoRotation (ModelLoader.updateModel delta active dragging sinT st)
  = ModelState.autoRotation st.
Proof.
  unfold ModelLoader.updateModel.
  destruct (ModelState.modelObject st); [|reflexivity].
  destruct (ModelLoader.fadeOpacity _ _ _ _) as [cur vis]. simpl.
  destruct (active && vis && negb dragging); reflexivity.
Qed.

(** The model states after [updateManualRotation], entry by entry. *)
Lemma updateManualRotation_lookup delta s id :
  exists h,
    (forall st, same_idle st (h st)) /\
    ModelLoader.modelStates (ModelLoader.updateManualRotation delta s) !! id
    = h <$> ModelLoader.modelStates s !! id.
Proof.
  unfold ModelLoader.updateManualRotation. simpl.
  set (m3 := ManualRotation.set_currentRotation _ _ _).
  assert (Hid : exists h : ModelState.t -> ModelState.t,
            (forall st, same_idle st (h st)) /\
            ModelLoader.modelStates s !! id = h <$> ModelLoader.modelStates s !! id).
  { exists (fun st => st). split; [apply same_idle_refl|].
    destruct (ModelLoader.modelStates s !! id); reflexivity. }
  destruct (ManualRotation.rotateActiveOnly _).
  - destruct (ModelLoader.activeModelId s) as [a|]; simpl; [|exact Hid].
    destruct (JS.truthy_string a); simpl; [|exact Hid].
    destruct (decide (a = id)) as [->|Hne].
    + exists (ModelLoader.applyManualRotation m3).
      split; [apply applyManualRotation_same_idle | apply lookup_alter_eq].
    + rewrite lookup_alter_ne by exact Hne. exact Hid.
  - simpl. exists (fun st => if ModelState.visible st
                            then ModelLoader.applyManualRotation m3 st else st).
    split; [|apply lookup_fmap].
    intros st. destruct (ModelState.visible st);
      [apply applyManualRotation_same_idle | apply same_idle_refl].
Qed.

Lemma advanceManual_isDragging delta m :
  ManualRotation.isDragging (advanceManual delta m) = ManualRotation.isDragging m.
Proof. reflexivity. Qed.

(** While a drag is in progress the loop over the models starts from the
    state that manual rotation alone has produced. *)
Lemma rotated_dragging delta s :
  ManualRotation.isDragging (ModelLoader.manualRotation s) = true ->
  rotated delta s
  = if ManualRotation.enabled (ModelLoader.manualRotation s)
    then ModelLoader.updateManualRotation delta s else s.
Proof.
  intros Hdrag. unfold rotated.
  destruct (ManualRotation.enabled (ModelLoader.manualRotation s)).
  - rewrite updateManualRotation_manual, advanceManual_isDragging, Hdrag.
    now rewrite andb_false_r.
  - rewrite Hdrag. now rewrite andb_false_r.
Qed.

Lemma updateManualRotation_set_autoRotation delta s a :
  ModelLoader.updateManualRotation delta (ModelLoader.set_autoRotation s a)
  = ModelLoader.set_autoRotation (ModelLoader.updateManualRotation delta s) a.
Proof.
  unfold ModelLoader.updateManualRotation. simpl.
  destruct (ManualRotation.rotateActiveOnly _); [|reflexivity].
  destruct (ModelLoader.activeModelId s) as [i|]; simpl; [|reflexivity].
  destruct (JS.truthy_string i); reflexivity.
Qed.

Lemma updateManualRotation_autoRotation delta s :
  ModelLoader.autoRotation (ModelLoader.updateManualRotation delta s)
  = ModelLoader.autoRotation s.
Proof.
  unfold ModelLoader.updateManualRotation. simpl.
  destruct (ManualRotation.rotateActiveOnly _); [|reflexivity].
  destruct (ModelLoader.activeModelId s) as [i|]; simpl; [|reflexivity].
  destruct (JS.truthy_string i); reflexivity.
Qed.

Lemma update_dragging_without_idle delta sinTime sinPulse s :
  ManualRotation.isDragging (ModelLoader.manualRotation s) = true ->
  ModelLoader.update delta sinTime sinPulse s
  = ModelLoader.set_autoRotation
      (ModelLoader.update delta sinTime sinPulse (ModelLoader.disableAutoRotation s))
      (ModelLoader.autoRotation s).
Proof.
  intros Hdrag. rewrite !update_rotated.
  rewrite (rotated_dragging delta s Hdrag).
  rewrite (rotated_dragging delta (ModelLoader.disableAutoRotation s)) by exact Hdrag.
  unfold ModelLoader.disableAutoRotation. simpl ModelLoader.manualRotation.
  destruct (ManualRotation.enabled (ModelLoader.manualRotation s)).
  - rewrite updateManualRotation_set_autoRotation.
    rewrite <- (updateManualRotation_autoRotation delta s).
    destruct (ModelLoader.updateManualRotation delta s). reflexivity.
  - clear Hdrag. destruct s. reflexivity.
Qed.

Lemma update_dragging_autoRotation delta sinTime sinPulse s id st' :
  ManualRotation.isDragging (ModelLoader.manualRotation s) = true ->
  ModelLoader.modelStates (ModelLoader.update delta sinTime sinPulse s) !! id
    = Some st' ->
  exists st, ModelLoader.modelStates s !! id = Some st /\
             ModelState.autoRotation st' = ModelState.autoRotation st.
Proof.
  intros Hdrag. rewrite update_lookup, (rotated_dragging delta s Hdrag).
  destruct (ManualRotation.enabled (ModelLoader.manualRotation s)).
  - destruct (updateManualRotation_lookup delta s id) as [h [Hh ->]].
    destruct (ModelLoader.modelStates s !! id) as [st|]; [|discriminate].
    intros [= <-]. exists st. split; [reflexivity|].
    rewrite updateModel_autoRotation. apply Hh.
  - destruct (ModelLoader.modelStates s !! id) as [st|]; [|discriminate].
    intros [= <-]. exists st. split; [reflexivity|].
    apply updateModel_autoRotation.
Qed.

Lemma updateAutoRotation_states_active delta s a :
  AutoRotation.rotateActiveOnly (ModelLoader.autoRotation s) = true ->
  ModelLoader.activeModelId s = Some a -> JS.truthy_string a = true ->
  ModelLoader.modelStates (ModelLoader.updateAutoRotation delta s)
  = alter (ModelLoader.applyAutoRotation (ModelLoader.autoRotation s) delta) a
      (ModelLoader.modelStates s).
Proof.
  intros Honly Ha Ht. unfold ModelLoader.updateAutoRotation.
  rewrite Honly, Ha, Ht. reflexivity.
Qed.

(** The first frame after the pointer is released. *)
Lemma update_released_autoRotation delta sinTime sinPulse s a st o :
  ManualRotation.enabled (ModelLoader.manualRotation s) = true ->
  AutoRotation.enabled (ModelLoader.autoRotation s) = true ->
  AutoRotation.rotateActiveOnly (ModelLoader.autoRotation s) = true ->
  ModelLoader.activeModelId s = Some a -> JS.truthy_string a = true ->
  ModelLoader.modelStates s !! a = Some st ->
  ModelState.modelObject st = Some o ->
  exists st',
    ModelLoader.modelStates
      (ModelLoader.update delta sinTime sinPulse (ModelLoader.onMouseUp s)) !! a
      = Some st' /\
    ModelAutoRotation.currentRotationY (ModelState.autoRotation st')
    = ModelAutoRotation.currentRotationY (ModelState.autoRotation st)
      + AutoRotation.speed (ModelLoader.autoRotation s)
        * AutoRotation.direction (ModelLoader.autoRotation s) * delta.
Proof.
  intros Hen Hauto Honly Ha Htruthy Hst Ho.
  rewrite update_lookup. unfold ModelLoader.onMouseUp. rewrite Hen. simpl negb.
  cbv iota.
  set (s0 := ModelLoader.set_manualRotation s _).
  assert (Hrot : rotated delta s0
                 = ModelLoader.updateAutoRotation delta
                     (ModelLoader.updateManualRotation delta s0)).
  { unfold rotated. unfold s0 at 1. simpl ModelLoader.manualRotation.
    simpl ManualRotation.enabled. rewrite Hen.
    rewrite updateManualRotation_manual, advanceManual_isDragging.
    rewrite updateManualRotation_autoRotation.
    simpl ModelLoader.autoRotation. rewrite Hauto. reflexivity. }
  rewrite Hrot.
  destruct (updateManualRotation_lookup delta s0 a) as [h [Hh Hl]].
  change (ModelLoader.modelStates s0) with (ModelLoader.modelStates s) in Hl.
  rewrite Hst in Hl. simpl in Hl.
  destruct (Hh st) as [Hauto_st Hobj].
  destruct (ModelState.modelObject (h st)) as [o1|] eqn:Ho1;
    [|exfalso; destruct Hobj as [Hobj _]; specialize (Hobj eq_refl); congruence].
  assert (Hau : ModelLoader.autoRotation (ModelLoader.updateManualRotation delta s0)
                = ModelLoader.autoRotation s).
  { rewrite updateManualRotation_autoRotation. reflexivity. }
  assert (Hact : ModelLoader.activeModelId (ModelLoader.updateManualRotation delta s0)
                 = Some a).
  { rewrite updateManualRotation_active. exact Ha. }
  rewrite (updateAutoRotation_states_active delta _ a) by congruence.
  rewrite lookup_alter_eq, Hl, Hau. simpl.
  eexists. split; [reflexivity|].
  rewrite updateModel_autoRotation.
  unfold ModelLoader.applyAutoRotation. rewrite Ho1. simpl.
  rewrite Hauto_st. reflexivity.
Qed.

(** C6, as the code has it.  Take a frame during a drag: it is the frame the
    loader would compute with idle rotation switched off, and no model's
    idle-rotation record changes.  Release the pointer: the very next frame
    advances the idle rotation of the active loaded model by
    [speed * direction * delta], whatever the residual velocity and however
    short the time since the release.  The only gate is [isDragging]. *)
Theorem C6_idle_rotation_gated_by_isDragging_only :
  forall delta sinTime sinPulse s a st o,
    ManualRotation.enabled (ModelLoader.manualRotation s) = true ->
    ManualRotation.isDragging (ModelLoader.manualRotation s) = true ->
    AutoRotation.enabled (ModelLoader.autoRotation s) = true ->
    AutoRotation.rotateActiveOnly (ModelLoader.autoRotation s) = true ->
    ModelLoader.activeModelId s = Some a -> JS.truthy_string a = true ->
    ModelLoader.modelStates s !! a = Some st ->
    ModelState.modelObject st = Some o ->
    (ModelLoader.update delta sinTime sinPulse s
     = ModelLoader.set_autoRotation
         (ModelLoader.update delta sinTime sinPulse
            (ModelLoader.disableAutoRotation s))
         (ModelLoader.autoRotation s)) /\
    (forall id st',
       ModelLoader.modelStates (ModelLoader.update delta sinTime sinPulse s) !! id
         = Some st' ->
       exists st0, ModelLoader.modelStates s !! id = Some st0 /\
                   ModelState.autoRotation st' = ModelState.autoRotation st0) /\
    (exists st',
       ModelLoader.modelStates
         (ModelLoader.update delta sinTime sinPulse (ModelLoader.onMouseUp s)) !! a
         = Some st' /\
       ModelAutoRotation.currentRotationY (ModelState.autoRotation st')
       = ModelAutoRotation.currentRotationY (ModelState.autoRotation st)
         + AutoRotation.speed (ModelLoader.autoRotation s)
           * AutoRotation.direction (ModelLoader.autoRotation s) * delta).
Proof.
  intros delta sinTime sinPulse s a st o Hen Hdrag Hauto Honly Ha Htruthy Hst Ho.
  split; [apply update_dragging_without_idle; exact Hdrag|].
  split; [intros id st'; apply update_dragging_autoRotation; exact Hdrag|].
  eapply update_released_autoRotation; eassumption.
Qed.

(** The two-second timer that [endInteraction] starts in [Gallery3D] acts on
    the auto-rotate speed of the camera controls only; the loader, and with
    it the idle rotation of the models, is not touched. *)
Lemma onModelInteract_loader action now g :
  Gallery3D.modelLoader (Gallery3D.onModelInteract action now g)
  = Gallery3D.modelLoader g /\
  Gallery3D.modelLoader (Gallery3D.resumeAutoRotate g) = Gallery3D.modelLoader g.
Proof.
  split.
  - destruct action; reflexivity.
  - unfold Gallery3D.resumeAutoRotate.
    destruct (Controls.isAutoRotating _); reflexivity.
Qed.

End IdleRotation.

(** ** The tilt clamp *)

Section Tilt.

Lemma third_of_pi_positive : 0 < JS.Math_PI / 3.
Proof. reflexivity. Qed.

(** The drag path of [MouseInteraction]: whatever the deltas, the tilt it
    writes lies within a third of pi on either side, and the yaw is the old
    yaw plus the scaled horizontal delta. *)
Lemma rotateObject_tilt_clamped speed deltaX deltaY o :
  let o' := MouseInteraction.rotateObject speed deltaX deltaY o in
  - (JS.Math_PI / 3) <= Vector3.x (Object3D.rotation o') <= JS.Math_PI / 3 /\
  Vector3.y (Object3D.rotation o')
  = Vector3.y (Object3D.rotation o) + deltaX * speed.
Proof.
  pose proof third_of_pi_positive as Hpi.
  unfold MouseInteraction.rotateObject. simpl. split; [|reflexivity].
  assert (E : - JS.Math_PI / 3 == - (JS.Math_PI / 3)) by reflexivity.
  match goal with |- _ <= JS.Math_max ?a (JS.Math_min ?b ?v) <= _ =>
    destruct (Math_min_cases b v) as [[A ->] | [A ->]];
    match goal with |- _ <= JS.Math_max ?c ?d <= _ =>
      destruct (Math_max_cases c d) as [[B ->] | [B ->]] end
  end; split; lra.
Qed.

Lemma rotateActiveModel_tilt_clamped deltaX deltaY m states a st' o' :
  MouseInteraction.activeModel m = Some a -> JS.truthy_string a = true ->
  MouseInteraction.rotateActiveModel deltaX deltaY m states !! a = Some st' ->
  ModelState.modelObject st' = Some o' ->
  - (JS.Math_PI / 3) <= Vector3.x (Object3D.rotation o') <= JS.Math_PI / 3.
Proof.
  intros Ha Ht. unfold MouseInteraction.rotateActiveModel. rewrite Ha, Ht.
  rewrite lookup_alter_eq. destruct (states !! a) as [st|]; [|discriminate].
  simpl. destruct (ModelState.modelObject st) as [o|] eqn:Ho.
  - intros [= <-]. simpl. intros [= <-].
    apply (rotateObject_tilt_clamped (MouseInteraction.rotationSpeed m) deltaX deltaY o).
  - intros [= <-]. rewrite Ho. discriminate.
Qed.

(** C4, on the drag path of [ModelLoader].  Both models of the sample
    gallery loaded, model "a" active with base tilt 0: press the button on
    the model at (0, 0), then thirty pointer moves, each 100 pixels further
    down, each followed by a frame at 60 frames per second.  At each move
    [MouseInteraction.rotateActiveModel] clamps the tilt it writes, and the
    frame that follows overwrites it with the base tilt plus the manual
    rotation of the loader, which nothing clamps: the accumulated target
    tilt is 30 * 0.0475 = 1.425 and the tilt of the model after the last
    frame exceeds a third of pi. *)
Theorem C4_modelLoader_tilt_exceeds_sixty_degrees :
  let g := Gallery3D.run Scenario.still
             (Gallery3D.MouseDown 0 0 0 (Some "a") :: Scenario.dragDown 30 100)
             Scenario.gallery in
  ManualRotation.targetRotationX
    (ModelLoader.manualRotation (Gallery3D.modelLoader g)) == 1.425 /\
  exists st o,
    ModelLoader.modelStates (Gallery3D.modelLoader g) !! "a" = Some st /\
    ModelState.modelObject st = Some o /\
    JS.Math_PI / 3 < Vector3.x (Object3D.rotation o).
Proof.
  split.
  - vm_compute. reflexivity.
  - eexists. eexists. split; [vm_compute; reflexivity|].
    split; [reflexivity|]. vm_compute. reflexivity.
Qed.

End Tilt.

(** * The properties at concrete inputs *)

Section Examples.

(** A camera transition started from the orbit variant's constructor is in
    flight; a second request changes nothing. *)
Lemma C1_witness :
  let c := Controls.animateCameraTo (Vector3.mk 1 2 3) Vector3.zero (Some 1000) 0
             (Controls.constructor_orbit (Vector3.mk 0 0 5)) in
  Controls.reachable Scenario.still c /\ Controls.inFlight c /\
  Controls.animateCameraTo (Vector3.mk 9 9 9) (Vector3.mk 1 0 0) None 400 c = c.
Proof.
  assert (Hr : Controls.reachable Scenario.still
                 (Controls.animateCameraTo (Vector3.mk 1 2 3) Vector3.zero
                    (Some 1000) 0 (Controls.constructor_orbit (Vector3.mk 0 0 5)))).
  { eapply Controls.reachable_step;
      [apply Controls.reachable_constructor_orbit
      | apply Controls.step_animateCameraTo]. }
  assert (Hf : Controls.inFlight
                 (Controls.animateCameraTo (Vector3.mk 1 2 3) Vector3.zero
                    (Some 1000) 0 (Controls.constructor_orbit (Vector3.mk 0 0 5)))).
  { unfold Controls.inFlight. simpl. discriminate. }
  split; [exact Hr|]. split; [exact Hf|].
  apply (C1_animateCameraTo_in_flight_noop Scenario.still _ _ _ _ _ Hr Hf).
Defined.

(** The model of index 1 failed to load, and a request for index 1 makes it
    the active model all the same. *)
Lemma C2_failed_model_becomes_active :
  let g := Scenario.galleryWithFailure in
  let g' := Gallery3D.switchToItem 0 1 g in
  (exists st, ModelLoader.modelStates (Gallery3D.modelLoader g) !! "b" = Some st /\
              ModelState.modelObject st = None) /\
  g' <> g /\
  Gallery3D.currentIndex g' = 1%Z /\
  ModelLoader.activeModelId (Gallery3D.modelLoader g') = Some "b" /\
  exists st', ModelLoader.modelStates (Gallery3D.modelLoader g') !! "b" = Some st' /\
              ModelState.targetOpacity st' = 1.
Proof.
  split; [eexists; split; [vm_compute; reflexivity | reflexivity]|].
  split; [intros E; apply (f_equal Gallery3D.currentIndex) in E;
          vm_compute in E; discriminate E|].
  split; [vm_compute; reflexivity|].
  split; [vm_compute; reflexivity|].
  eexists; split; [vm_compute; reflexivity | reflexivity].
Qed.

Lemma C2_witness :
  let g := Scenario.galleryWithFailure in
  Gallery3D.currentIndex (Gallery3D.switchToItem 0 1 g) = 1%Z /\
  ModelLoader.activeModelId
    (Gallery3D.modelLoader (Gallery3D.switchToItem 0 1 g)) = Some "b".
Proof.
  assert (Hst : exists st,
             ModelLoader.modelStates (Gallery3D.modelLoader Scenario.galleryWithFailure)
               !! GalleryItem.id Scenario.itemB = Some st /\
             ModelState.modelObject st = None).
  { eexists. split; [vm_compute; reflexivity | reflexivity]. }
  destruct Hst as [st [Hst Hnone]].
  assert (Hitem : Gallery3D.item_at Scenario.galleryWithFailure 1 = Some Scenario.itemB)
    by (vm_compute; reflexivity).
  assert (Hne : 1%Z <> Gallery3D.currentIndex Scenario.galleryWithFailure)
    by (vm_compute; discriminate).
  pose proof (C2_failed_model_activation_takes_effect 0 1
                Scenario.galleryWithFailure Scenario.itemB st Hitem Hne Hst Hnone)
    as [H1 [H2 _]].
  split; [exact H1 | exact H2].
Defined.

Lemma C5_witness :
  (Gallery3D.length_of Scenario.gallery <= 7)%Z /\
  Gallery3D.switchToItem 0 7 Scenario.gallery = Scenario.gallery.
Proof.
  assert (H : (Gallery3D.length_of Scenario.gallery <= 7)%Z)
    by (vm_compute; discriminate).
  split; [exact H|].
  exact (proj1 (C5_same_or_out_of_range_activation_discarded
                  (fun _ => true) 0 7 Scenario.gallery (or_intror (or_intror H)))).
Defined.

(** The pointer is released with the velocity still at the clamp, and the
    frame that follows at once (1/60 s) already advances the idle rotation
    of the model. *)
Lemma C6_idle_resumes_on_release :
  let s := ModelLoader.onMouseUp Scenario.draggedLoader in
  let s' := ModelLoader.update (1 # 60) Scenario.zeroSin Scenario.zeroSin s in
  ManualRotation.isDragging (ModelLoader.manualRotation s) = false /\
  ManualRotation.velocityX (ModelLoader.manualRotation s)
    == ManualRotation.maxSpeed (ModelLoader.manualRotation s) /\
  exists st st',
    ModelLoader.modelStates s !! "a" = Some st /\
    ModelLoader.modelStates s' !! "a" = Some st' /\
    ModelAutoRotation.currentRotationY (ModelState.autoRotation st) == 0 /\
    ModelAutoRotation.currentRotationY (ModelState.autoRotation st') == - (1 # 120) /\
    ~ ModelAutoRotation.currentRotationY (ModelState.autoRotation st')
      == ModelAutoRotation.currentRotationY (ModelState.autoRotation st).
Proof.
  split; [vm_compute; reflexivity|].
  split; [vm_compute; reflexivity|].
  eexists. eexists.
  split; [vm_compute; reflexivity|].
  split; [vm_compute; reflexivity|].
  split; [vm_compute; reflexivity|].
  split; [vm_compute; reflexivity|].
  vm_compute. discriminate.
Qed.

Lemma C6_witness :
  exists st',
    ModelLoader.modelStates
      (ModelLoader.update (1 # 60) Scenario.zeroSin Scenario.zeroSin
         (ModelLoader.onMouseUp Scenario.draggedLoader)) !! "a" = Some st' /\
    ModelAutoRotation.currentRotationY (ModelState.autoRotation st')
    == - (1 # 120).
Proof.
  assert (Hst : exists st o,
             ModelLoader.modelStates Scenario.draggedLoader !! "a" = Some st /\
             ModelState.modelObject st = Some o /\
             ModelAutoRotation.currentRotationY (ModelState.autoRotation st) = 0).
  { eexists. eexists. split; [vm_compute; reflexivity|].
    split; reflexivity. }
  destruct Hst as [st [o [Hst [Ho Hzero]]]].
  destruct (C6_idle_rotation_gated_by_isDragging_only (1 # 60)
              Scenario.zeroSin Scenario.zeroSin Scenario.draggedLoader "a" st o
              eq_refl eq_refl eq_refl eq_refl eq_refl eq_refl Hst Ho)
    as [_ [_ [st' [Hst' Hy]]]].
  exists st'. split; [exact Hst'|]. rewrite Hy, Hzero. reflexivity.
Defined.

(** With a time step of one second the factor of the interpolation is 3:
    the opacity of a model fading in jumps past its target, further at every
    frame, and never comes within 0.01 of it. *)
Lemma C7_unit_step_never_settles :
  ~ fade_settles Scenario.fadingIn 1 Scenario.idle 0.01.
Proof.
  assert (Hfar : forall n,
            let c := ModelState.currentOpacity
                       (fadeFrames 1 Scenario.idle n Scenario.fadingIn) in
            c - 1 <= -1 \/ 1 <= c - 1).
  { induction n as [|n IH].
    - left. simpl. lra.
    - destruct (fadeFrames_loaded 1 Scenario.idle n Scenario.fadingIn _ eq_refl)
        as [o' Ho'].
      simpl. rewrite (updateModel_current _ _ _ _ _ o' Ho'), fadeFrames_target.
      simpl in IH. unfold ModelLoader.fadeOpacity, MathUtils.lerp.
      change (ModelState.targetOpacity Scenario.fadingIn) with 1.
      change (Qeq_bool 1 0) with false. rewrite andb_false_r.
      change (JS.Qltb 0 1) with true. simpl fst.
      destruct IH as [IH | IH]; [right | left]; lra. }
  intros [N HN]. specialize (HN N (le_n N)). specialize (Hfar N).
  change (ModelState.targetOpacity Scenario.fadingIn) with 1 in HN.
  simpl in Hfar. destruct Hfar; lra.
Qed.

(** With a loaded model whose id is "toString" the frame throws: the
    lookup of the spotlight helper finds [Object.prototype.toString]. *)
Lemma frame_throws_on_inherited_id :
  (exists st,
     ModelLoader.modelStates (Gallery3D.modelLoader Scenario.galleryInherited)
       !! "toString" = Some st /\
     is_Some (ModelState.modelObject st)) /\
  ModelLoader.tryUpdate (1 # 60) Scenario.zeroSin Scenario.zeroSin
    (Gallery3D.modelLoader Scenario.galleryInherited) = None.
Proof.
  assert (H : exists st,
     ModelLoader.modelStates (Gallery3D.modelLoader Scenario.galleryInherited)
       !! "toString" = Some st /\
     is_Some (ModelState.modelObject st)).
  { eexists. split; [vm_compute; reflexivity|eexists; reflexivity]. }
  split; [exact H|]. destruct H as (st & Hst & Ho).
  exact (tryUpdate_throws _ _ _ _ "toString" st Hst Ho eq_refl).
Qed.

(** The model "a" of the sample gallery fades out after the second model
    was activated: 40 frames of a sixtieth of a second bring its opacity
    under 0.5. *)
Lemma C7_witness :
  let s := Gallery3D.modelLoader (Gallery3D.switchToItem 0 1 Scenario.gallery) in
  exists s' st',
    framesAtStep (1 # 60) (fun _ => (Scenario.zeroSin, Scenario.zeroSin)) 40 s
      = Some s' /\
    ModelLoader.modelStates s' !! "a" = Some st' /\
    - 0.5 < ModelState.currentOpacity st' < 0.5.
Proof.
  cbv zeta.
  assert (Hp : plain_keys
                 (Gallery3D.modelLoader (Gallery3D.switchToItem 0 1 Scenario.gallery)))
    by (apply plain_keys_decide; vm_compute; reflexivity).
  assert (Hst : exists st o,
             ModelLoader.modelStates
               (Gallery3D.modelLoader (Gallery3D.switchToItem 0 1 Scenario.gallery))
               !! "a" = Some st /\
             ModelState.modelObject st = Some o /\
             ModelState.targetOpacity st = 0 /\
             (fadeBound st (1 # 60) 0.5 <= 40)%nat).
  { eexists. eexists. split; [vm_compute; reflexivity|].
    split; [reflexivity|]. split; [reflexivity|].
    apply Nat.leb_le. vm_compute. reflexivity. }
  destruct Hst as (st & o & Hst & Ho & HT & Hb).
  assert (H1 : 0 < 1 # 60) by reflexivity.
  assert (H2 : (1 # 60) * 3 <= 1) by (vm_compute; discriminate).
  assert (H3 : 0 < 0.5) by reflexivity.
  destruct (proj1 (C7_fade_converges_for_small_steps _ (1 # 60)
                     (fun _ => (Scenario.zeroSin, Scenario.zeroSin)) 0.5 "a" st o
                     Hp Hst Ho H1 H2 H3) 40%nat)
    as (s' & st' & Hs' & Hst' & _ & Hnear).
  exists s', st'. split; [exact Hs'|]. split; [exact Hst'|].
  specialize (Hnear Hb). rewrite HT in Hnear. lra.
Defined.

(** Item 1 is activated and the next frame comes a full second later: its
    opacity is 3. *)
Lemma C8_long_frame_overshoots :
  let g := Gallery3D.run Scenario.still
             [Gallery3D.Activate 0 1;
              Gallery3D.Frame 1 0 Scenario.zeroSin Scenario.zeroSin]
             Scenario.gallery in
  0 <= 1 /\
  exists st,
    ModelLoader.modelStates (Gallery3D.modelLoader g) !! "b" = Some st /\
    ModelState.currentOpacity st == 3 /\
    ~ ModelState.currentOpacity st <= 1.
Proof.
  split; [vm_compute; discriminate|].
  eexists. split; [vm_compute; reflexivity|].
  split; [vm_compute; reflexivity|].
  vm_compute. intros H. apply H. reflexivity.
Qed.

Lemma C8_witness :
  exists st,
    ModelLoader.modelStates
      (Gallery3D.modelLoader
         (Gallery3D.run Scenario.still
            [Gallery3D.Activate 0 1;
             Gallery3D.Frame (1 # 60) 0 Scenario.zeroSin Scenario.zeroSin]
            Scenario.gallery)) !! "b" = Some st /\
    0 <= ModelState.currentOpacity st <= 1 /\
    0 <= ModelState.targetOpacity st <= 1.
Proof.
  assert (Hst : exists st,
             ModelLoader.modelStates
               (Gallery3D.modelLoader
                  (Gallery3D.run Scenario.still
                     [Gallery3D.Activate 0 1;
                      Gallery3D.Frame (1 # 60) 0 Scenario.zeroSin Scenario.zeroSin]
                     Scenario.gallery)) !! "b" = Some st).
  { eexists. vm_compute. reflexivity. }
  destruct Hst as [st Hst]. exists st. split; [exact Hst|].
  apply (C8_opacities_stay_in_unit_interval Scenario.still
           [Scenario.itemA; Scenario.itemB] 0.5 5 None Scenario.allLoad
           [Gallery3D.Activate 0 1;
            Gallery3D.Frame (1 # 60) 0 Scenario.zeroSin Scenario.zeroSin] "b" st);
    [|exact Hst].
  repeat constructor; vm_compute; discriminate.
Defined.



(** An intensity of 0 in the settings leaves the intensity of the light of
    model "a" at 2. *)
Lemma C10_witness :
  exists d',
    ModelLoader.spotlights
      (ModelLoader.updateSpotlightConfig
         (SpotlightSettings.mk None (Some 0) None None None None None None)
         (Gallery3D.modelLoader Scenario.gallery)) !! "a" = Some d' /\
    SpotLight.intensity (SpotlightData.light d') = 2.
Proof.
  assert (Hd : exists d,
             ModelLoader.spotlights (Gallery3D.modelLoader Scenario.gallery) !! "a"
               = Some d /\ SpotLight.intensity (SpotlightData.light d) = 2).
  { eexists. split; [vm_compute; reflexivity | reflexivity]. }
  destruct Hd as [d [Hd H2]].
  destruct (C10_zero_setting_not_applied
              (SpotlightSettings.mk None (Some 0) None None None None None None)
              (Gallery3D.modelLoader Scenario.gallery) "a" d Hd)
    as [d' [Hd' [Hint _]]].
  exists d'. split; [exact Hd'|].
  rewrite (Hint 0 eq_refl (Qeq_refl 0)). exact H2.
Defined.

End Examples.


(** * Further properties of the code *)

(** ** The easing curve and the end of a camera transition *)

Section CameraMotion.

Variable orbitControls_update : Controls.t -> Vector3.t.

Lemma cube_expand (x : Q) : x ^ 3 == x * x * x.
Proof. simpl. ring. Qed.

Lemma easeInOutCubic_low p :
  p < 0.5 -> Controls.easeInOutCubic p = 4 * p * p * p.
Proof.
  intros H. unfold Controls.easeInOutCubic.
  destruct (Qltb_cases p 0.5) as [[-> _]|[_ H']]; [reflexivity|lra].
Qed.

Lemma easeInOutCubic_high p :
  0.5 <= p ->
  Controls.easeInOutCubic p
  == 1 - (2 - 2 * p) * (2 - 2 * p) * (2 - 2 * p) * (1 # 2).
Proof.
  intros H. unfold Controls.easeInOutCubic.
  destruct (Qltb_cases p 0.5) as [[_ H']|[-> _]]; [lra|].
  rewrite cube_expand. field.
Qed.

Lemma cube_monotone (a b : Q) : 0 <= a -> a <= b -> a * a * a <= b * b * b.
Proof.
  intros Ha Hab.
  assert (H1 : a * a <= b * b) by nra.
  assert (H2 : 0 <= a * a) by nra.
  nra.
Qed.

(** X1. [easeInOutCubic] maps 0 to 0 and 1 to 1, and on the interval
    [0, 1] it is monotone with values in [0, 1]: a larger progress never
    gives a smaller eased value, across the switch of formula at 0.5 as
    well. *)
Theorem X1_easeInOutCubic_monotone_on_unit_interval :
  forall p q,
    0 <= p -> p <= q -> q <= 1 ->
    Controls.easeInOutCubic 0 == 0 /\ Controls.easeInOutCubic 1 == 1 /\
    0 <= Controls.easeInOutCubic p /\
    Controls.easeInOutCubic p <= Controls.easeInOutCubic q /\
    Controls.easeInOutCubic q <= 1.
Proof.
  intros p q Hp Hpq Hq.
  split; [reflexivity|]. split; [reflexivity|].
  assert (Hc0 : forall a, 0 <= a -> 0 <= a * a * a).
  { intros a Ha. pose proof (cube_monotone 0 a ltac:(lra) Ha). lra. }
  assert (Hc1 : forall a, 0 <= a -> a <= 1 -> a * a * a <= 1).
  { intros a Ha Ha1. pose proof (cube_monotone a 1 Ha Ha1). lra. }
  destruct (Qlt_le_dec p 0.5) as [Hp5|Hp5];
    destruct (Qlt_le_dec q 0.5) as [Hq5|Hq5].
  - rewrite (easeInOutCubic_low p Hp5), (easeInOutCubic_low q Hq5).
    pose proof (cube_monotone p q Hp Hpq). pose proof (Hc0 p Hp).
    pose proof (cube_monotone q 0.5 ltac:(lra) ltac:(lra)).
    repeat split; lra.
  - rewrite (easeInOutCubic_low p Hp5), (easeInOutCubic_high q Hq5).
    pose proof (Hc0 p Hp). pose proof (cube_monotone p 0.5 Hp ltac:(lra)).
    pose proof (Hc0 (2 - 2 * q) ltac:(lra)).
    pose proof (Hc1 (2 - 2 * q) ltac:(lra) ltac:(lra)).
    repeat split; lra.
  - lra.
  - rewrite (easeInOutCubic_high p Hp5), (easeInOutCubic_high q Hq5).
    pose proof (cube_monotone (2 - 2 * q) (2 - 2 * p) ltac:(lra) ltac:(lra)).
    pose proof (Hc0 (2 - 2 * q) ltac:(lra)).
    pose proof (Hc1 (2 - 2 * p) ltac:(lra) ltac:(lra)).
    repeat split; lra.
Qed.

Lemma progress_of_complete elapsed dur :
  0 < dur -> dur <= elapsed ->
  exists p, Controls.progress_of elapsed dur = Some p /\ p == 1.
Proof.
  intros Hdur Hel. unfold Controls.progress_of.
  destruct (Qeq_bool dur 0) eqn:Hz.
  { apply Qeq_bool_iff in Hz. lra. }
  assert (H1 : 1 <= elapsed / dur).
  { apply Qle_shift_div_l; lra. }
  destruct (Math_min_cases (elapsed / dur) 1) as [[Hle ->]|[_ ->]].
  - exists (elapsed / dur). split; [reflexivity|lra].
  - exists 1. split; reflexivity.
Qed.

Lemma easeInOutCubic_one p : p == 1 -> Controls.easeInOutCubic p == 1.
Proof.
  intros Hp. rewrite easeInOutCubic_high by lra.
  assert (Ha : 2 - 2 * p == 0) by lra.
  rewrite Ha. ring.
Qed.

Lemma lerpVectors_same v1 v2 alpha beta :
  alpha == beta ->
  same_vector (Vector3.lerpVectors v1 v2 alpha) (Vector3.lerpVectors v1 v2 beta).
Proof.
  intros Ha. unfold same_vector, Vector3.lerpVectors. simpl.
  rewrite Ha. repeat split; reflexivity.
Qed.

Lemma progress_of_early elapsed dur :
  0 < dur -> elapsed < dur ->
  exists p, Controls.progress_of elapsed dur = Some p /\ p < 1.
Proof.
  intros Hdur Hel. unfold Controls.progress_of.
  destruct (Qeq_bool dur 0) eqn:Hz.
  { apply Qeq_bool_iff in Hz. lra. }
  assert (H1 : elapsed / dur < 1).
  { apply Qlt_shift_div_r; lra. }
  destruct (Math_min_cases (elapsed / dur) 1) as [[Hle ->]|[Hgt ->]].
  - exists (elapsed / dur). split; [reflexivity|exact H1].
  - exfalso. lra.
Qed.

(** A frame that comes before the end of the transition runs the closure,
    which registers itself again. *)
Lemma frame_early a now c :
  Controls.isAnimatingCamera c = true ->
  Controls.frameCallbacks c = [a] ->
  0 < Controls.duration a ->
  inject_Z (now - Controls.startTime a) < Controls.duration a ->
  exists c',
    Controls.frame orbitControls_update now c = Some c' /\
    Controls.isAnimatingCamera c' = true /\
    Controls.frameCallbacks c' = [a].
Proof.
  intros Hflag Hcb Hdur Hel. unfold Controls.frame. rewrite Hcb. simpl.
  unfold Controls.animate.
  destruct (progress_of_early _ _ Hdur Hel) as (p & -> & Hp).
  assert (Hlt : JS.Qltb p 1 = true).
  { destruct (Qltb_cases p 1) as [[H _]|[_ H]]; [exact H|lra]. }
  rewrite Hlt. simpl. eexists. split; [reflexivity|]. simpl.
  split; [exact Hflag|reflexivity].
Qed.

(** The first frame at or after the end runs the closure for the last
    time. *)
Lemma frame_late a now c :
  Controls.frameCallbacks c = [a] ->
  0 < Controls.duration a ->
  Controls.duration a <= inject_Z (now - Controls.startTime a) ->
  exists c' c0,
    Controls.frame orbitControls_update now c = Some c' /\
    Controls.camera_position c' = orbitControls_update c0 /\
    same_vector (Controls.camera_position c0)
      (Vector3.lerpVectors (Controls.startPosition a) (Controls.targetPosition a) 1) /\
    same_vector (Controls.orbit_target c')
      (Vector3.lerpVectors (Controls.startLookAt a) (Controls.targetLookAt a) 1) /\
    Controls.isAnimatingCamera c' = false /\
    Controls.frameCallbacks c' = [].
Proof.
  intros Hcb Hdur Hlate. unfold Controls.frame. rewrite Hcb. simpl.
  unfold Controls.animate.
  destruct (progress_of_complete _ _ Hdur Hlate) as (p & -> & Hp).
  assert (Hlt : JS.Qltb p 1 = false).
  { destruct (Qltb_cases p 1) as [[_ H]|[H _]]; [lra|exact H]. }
  rewrite Hlt. simpl.
  pose proof (easeInOutCubic_one p Hp) as He.
  eexists. eexists. split; [reflexivity|]. simpl.
  split; [reflexivity|]. simpl.
  split; [apply lerpVectors_same; exact He|].
  split; [apply lerpVectors_same; exact He|].
  split; reflexivity.
Qed.

Lemma framesAt_thrown times :
  fold_left (fun oc now =>
               match oc with
               | Some c1 => Controls.frame orbitControls_update now c1
               | None => None
               end) times None = None.
Proof. induction times as [|t times IH]; [reflexivity|exact IH]. Qed.

Lemma framesAt_early a times c :
  Controls.isAnimatingCamera c = true ->
  Controls.frameCallbacks c = [a] ->
  0 < Controls.duration a ->
  Forall (fun t => inject_Z (t - Controls.startTime a) < Controls.duration a)
    times ->
  exists c',
    framesAt orbitControls_update times c = Some c' /\
    Controls.isAnimatingCamera c' = true /\
    Controls.frameCallbacks c' = [a].
Proof.
  intros Hflag Hcb Hdur Hall. revert c Hflag Hcb.
  induction Hall as [|t times Ht _ IH]; intros c Hflag Hcb.
  - exists c. split; [reflexivity|]. split; assumption.
  - destruct (frame_early a t c Hflag Hcb Hdur Ht) as (c1 & Hf & Hflag1 & Hcb1).
    destruct (IH c1 Hflag1 Hcb1) as (c' & Hfs & Hflag' & Hcb').
    exists c'. split; [|split; assumption].
    unfold framesAt in *. simpl. rewrite Hf. exact Hfs.
Qed.

(** X2. A camera transition started while no other one runs lasts as long
    as it was asked to.  Through every frame that comes before [duration]
    milliseconds have passed, the busy flag stays set and the closure stays
    registered with the values it captured at the start (so a further
    [animateCameraTo] is refused).  The first frame that comes [duration]
    milliseconds or more after the start ends it: the progress is 1, the
    camera is put at [lerpVectors(start, destination, 1)] (before
    [OrbitControls.update()] has its say on the camera) and the orbit target
    likewise, the busy flag is cleared and nothing is registered for the
    next frame. *)
Theorem X2_transition_lasts_its_duration :
  forall tp tl dur now0 times now c,
    Controls.isAnimatingCamera c = false ->
    Controls.frameCallbacks c = [] ->
    0 < JS.default_arg dur 1500 ->
    Forall (fun t => inject_Z (t - now0) < JS.default_arg dur 1500) times ->
    JS.default_arg dur 1500 <= inject_Z (now - now0) ->
    let a := Controls.mkAnimation (Controls.camera_position c) tp
               (Controls.orbit_target c) tl now0 (JS.default_arg dur 1500) in
    exists c1 c2 c0,
      framesAt orbitControls_update times
        (Controls.animateCameraTo tp tl dur now0 c) = Some c1 /\
      Controls.isAnimatingCamera c1 = true /\
      Controls.frameCallbacks c1 = [a] /\
      Controls.frame orbitControls_update now c1 = Some c2 /\
      Controls.camera_position c2 = orbitControls_update c0 /\
      same_vector (Controls.camera_position c0)
        (Vector3.lerpVectors (Controls.camera_position c) tp 1) /\
      same_vector (Controls.orbit_target c2)
        (Vector3.lerpVectors (Controls.orbit_target c) tl 1) /\
      Controls.isAnimatingCamera c2 = false /\
      Controls.frameCallbacks c2 = [].
Proof.
  intros tp tl dur now0 times now c Hflag Hnil Hpos Hearly Hlate a.
  assert (Hstart : Controls.isAnimatingCamera
                     (Controls.animateCameraTo tp tl dur now0 c) = true /\
                   Controls.frameCallbacks
                     (Controls.animateCameraTo tp tl dur now0 c) = [a]).
  { unfold Controls.animateCameraTo. rewrite Hflag. simpl. rewrite Hnil.
    split; reflexivity. }
  destruct Hstart as [Hflag0 Hcb0].
  destruct (framesAt_early a times _ Hflag0 Hcb0 Hpos Hearly)
    as (c1 & Hc1 & Hflag1 & Hcb1).
  destruct (frame_late a now c1 Hcb1 Hpos Hlate)
    as (c2 & c0 & Hf & Hcam & Hp & Ht & Hflag2 & Hcb2).
  exists c1, c2, c0. repeat (split; [assumption|]). assumption.
Qed.

Lemma stuck_step c c' :
  Controls.isAnimatingCamera c = true /\ Controls.frameCallbacks c = [] ->
  Controls.step orbitControls_update c c' ->
  Controls.isAnimatingCamera c' = true /\ Controls.frameCallbacks c' = [].
Proof.
  intros [Hflag Hnil] Hstep.
  destruct Hstep as [tp tl dur now c|now c c' Hf|now c|i now c|mp w now c
                    |mp w n now c|speed c|c|p tg zm c|s c].
  - rewrite animateCameraTo_busy by exact Hflag. now split.
  - unfold Controls.frame in Hf. rewrite Hnil in Hf. simpl in Hf.
    injection Hf as <-. simpl. now split.
  - unfold Controls.resetView. rewrite animateCameraTo_busy by exact Hflag.
    simpl. now split.
  - unfold Controls.updateCameraForModel.
    rewrite animateCameraTo_busy by exact Hflag. now split.
  - unfold Controls.resetView_orbit.
    rewrite animateCameraTo_busy by exact Hflag. simpl. now split.
  - unfold Controls.updateCameraForModel_orbit.
    rewrite animateCameraTo_busy by exact Hflag. now split.
  - simpl. now split.
  - simpl. now split.
  - unfold Controls.setCameraState. destruct p, tg; simpl; now split.
  - unfold Controls.update. simpl. rewrite Hflag.
    rewrite andb_false_r. simpl. now split.
Qed.

(** X3. In the first variant of the class the constructor sets
    [isAnimatingCamera = true] and nothing clears it: whatever methods are
    called afterwards and whatever frames run, the flag stays set and no
    [animate] closure is ever registered, so no camera transition ever
    starts (every [animateCameraTo] returns at its first line). *)
Theorem X3_first_constructor_never_starts_a_transition :
  forall camera c,
    rtc (Controls.step orbitControls_update) (Controls.constructor camera) c ->
    Controls.isAnimatingCamera c = true /\ Controls.frameCallbacks c = [] /\
    forall tp tl dur now, Controls.animateCameraTo tp tl dur now c = c.
Proof.
  intros camera c Hrtc.
  assert (Hinv : Controls.isAnimatingCamera c = true /\
                 Controls.frameCallbacks c = []).
  { remember (Controls.constructor camera) as c0 eqn:Hc0.
    assert (H0 : Controls.isAnimatingCamera c0 = true /\
                 Controls.frameCallbacks c0 = []) by (subst c0; now split).
    clear Hc0. induction Hrtc as [|x y z Hxy _ IH]; [exact H0|].
    apply IH. eapply stuck_step; eassumption. }
  destruct Hinv as [Hflag Hnil]. repeat split; try assumption.
  intros. apply animateCameraTo_busy. exact Hflag.
Qed.

End CameraMotion.

(** ** What every event keeps: the parts of the gallery after an event *)

Section GalleryParts.

Variable orbitControls_update : Controls.t -> Vector3.t.

Implicit Types (s : ModelLoader.t) (g : Gallery3D.t).

Lemma switchToItem_cases now idx g :
  Gallery3D.switchToItem now idx g = g \/
  exists item,
    Gallery3D.item_at g idx = Some item /\
    Gallery3D.switchToItem now idx g
    = Gallery3D.mk (Gallery3D.galleryData g) (Gallery3D.autoRotateSpeed g) idx
        (ModelLoader.showModel (GalleryItem.id item) idx (Gallery3D.modelLoader g))
        (Controls.updateCameraForModel idx now (Gallery3D.controls g))
        (MouseInteraction.reset (Gallery3D.mouseInteraction g))
        (Gallery3D.ui g ++ [Gallery3D.UpdateProgressDots idx;
                            Gallery3D.UpdateModelInfo (GalleryItem.title item);
                            Gallery3D.UpdateInteractionArea idx])
        (Gallery3D.timers g).
Proof.
  unfold Gallery3D.switchToItem.
  destruct (_ && _); [|left; reflexivity].
  destruct (Gallery3D.item_at g idx) as [item|]; [|left; reflexivity].
  right. exists item. split; reflexivity.
Qed.

Lemma pointer_loader_parts (f : ModelLoader.t -> ModelLoader.t) s :
  (exists m, f s = ModelLoader.set_manualRotation s m) \/ f s = s ->
  ModelLoader.spotlights (f s) = ModelLoader.spotlights s /\
  ModelLoader.spotlightConfig (f s) = ModelLoader.spotlightConfig s /\
  ModelLoader.autoRotation (f s) = ModelLoader.autoRotation s.
Proof. intros [[m ->]| ->]; repeat split; reflexivity. Qed.

Lemma pointerDown_parts button x y hit g :
  let l := ModelLoader.onMouseDown button x y (Gallery3D.modelLoader g) in
  let r := MouseInteraction.onMouseDown button x y hit
             (ModelLoader.activeModelId l) (Gallery3D.mouseInteraction g) in
  let g' := Gallery3D.pointerDown button x y hit g in
  Gallery3D.modelLoader g' = l /\
  Gallery3D.mouseInteraction g' = fst r /\
  Gallery3D.controls g'
  = (if snd r then Controls.setAutoRotateSpeed 0 (Gallery3D.controls g)
     else Gallery3D.controls g) /\
  Gallery3D.galleryData g' = Gallery3D.galleryData g /\
  Gallery3D.currentIndex g' = Gallery3D.currentIndex g.
Proof.
  simpl. unfold Gallery3D.pointerDown. simpl.
  destruct (MouseInteraction.onMouseDown _ _ _ _ _ _) as [mi started].
  destruct started; simpl; repeat split; reflexivity.
Qed.

Lemma pointerMove_parts x y hit g :
  let l := ModelLoader.onMouseMove x y (Gallery3D.modelLoader g) in
  let r := MouseInteraction.onMouseMove x y hit (ModelLoader.activeModelId l)
             (Gallery3D.mouseInteraction g) (ModelLoader.modelStates l) in
  let g' := Gallery3D.pointerMove x y hit g in
  Gallery3D.modelLoader g' = ModelLoader.set_modelStates l (snd r) /\
  Gallery3D.mouseInteraction g' = fst r /\
  Gallery3D.controls g' = Gallery3D.controls g /\
  Gallery3D.galleryData g' = Gallery3D.galleryData g /\
  Gallery3D.currentIndex g' = Gallery3D.currentIndex g.
Proof.
  simpl. unfold Gallery3D.pointerMove. simpl.
  destruct (MouseInteraction.onMouseMove _ _ _ _ _ _) as [mi states].
  simpl. repeat split; reflexivity.
Qed.

Lemma pointerUp_parts now g :
  let g' := Gallery3D.pointerUp now g in
  Gallery3D.modelLoader g' = ModelLoader.onMouseUp (Gallery3D.modelLoader g) /\
  Gallery3D.mouseInteraction g'
  = fst (MouseInteraction.onMouseUp (Gallery3D.mouseInteraction g)) /\
  Gallery3D.controls g' = Gallery3D.controls g /\
  Gallery3D.galleryData g' = Gallery3D.galleryData g /\
  Gallery3D.currentIndex g' = Gallery3D.currentIndex g.
Proof.
  simpl. unfold Gallery3D.pointerUp. simpl.
  destruct (MouseInteraction.onMouseUp _) as [mi ended].
  destruct ended; simpl; repeat split; reflexivity.
Qed.

Lemma timeout_parts g :
  let g' := Gallery3D.timeout g in
  Gallery3D.modelLoader g' = Gallery3D.modelLoader g /\
  Gallery3D.mouseInteraction g' = Gallery3D.mouseInteraction g /\
  (Gallery3D.controls g' = Gallery3D.controls g \/
   Controls.isAutoRotating (Gallery3D.controls g) = true) /\
  Gallery3D.galleryData g' = Gallery3D.galleryData g /\
  Gallery3D.currentIndex g' = Gallery3D.currentIndex g.
Proof.
  simpl. unfold Gallery3D.timeout, Gallery3D.resumeAutoRotate.
  destruct (Gallery3D.timers g); simpl.
  { repeat split; try reflexivity. left; reflexivity. }
  destruct (Controls.isAutoRotating (Gallery3D.controls g)) eqn:Hr; simpl;
    repeat split; try reflexivity; [right|left]; reflexivity.
Qed.

(** The state before the models load. *)
Lemma loadFrom_parts envOf items i loaded total g :
  let g' := Gallery3D.loadFrom envOf i items loaded total g in
  Gallery3D.mouseInteraction g' = Gallery3D.mouseInteraction g /\
  Gallery3D.controls g' = Gallery3D.controls g /\
  Gallery3D.currentIndex g' = Gallery3D.currentIndex g /\
  Gallery3D.timers g' = Gallery3D.timers g.
Proof.
  simpl. revert i loaded g.
  induction items as [|item rest IH]; intros i loaded g; simpl.
  { repeat split; reflexivity. }
  destruct (ModelLoader.loadModel _ _ _ _) as [l ok].
  destruct (IH (i + 1)%Z (loaded + 1)%Z
              (if ok
               then Gallery3D.emit (Gallery3D.set_modelLoader g l)
                      [Gallery3D.UpdateProgress
                         (inject_Z (loaded + 1) / inject_Z total * 100)]
               else Gallery3D.emit (Gallery3D.set_modelLoader g l)
                      [Gallery3D.ShowError
                         ("Failed to load 3D model: " ++ GalleryItem.title item)]))
    as (H1 & H2 & H3 & H4).
  rewrite H1, H2, H3, H4. destruct ok; repeat split; reflexivity.
Qed.

Lemma init_parts items autoSpeed dist cfg envOf :
  let g := Gallery3D.init items autoSpeed dist cfg envOf in
  Gallery3D.galleryData g = items /\
  Gallery3D.mouseInteraction g = MouseInteraction.constructor /\
  Gallery3D.controls g = Controls.constructor (Vector3.mk 0 0 dist) /\
  Gallery3D.currentIndex g = 0%Z /\
  Gallery3D.timers g = [].
Proof.
  simpl. unfold Gallery3D.init, Gallery3D.loadModels.
  set (g0 := Gallery3D.mk items _ _ _ _ _ _ _).
  set (g1 := Gallery3D.set_modelLoader g0 _).
  change (Gallery3D.galleryData g1) with items.
  set (g2 := Gallery3D.loadFrom envOf 0 items 0 (Gallery3D.length_of g0) g1).
  assert (Hd : Gallery3D.galleryData g2 = items).
  { unfold g2. rewrite loadFrom_galleryData. reflexivity. }
  destruct (loadFrom_parts envOf items 0 0 (Gallery3D.length_of g0) g1)
    as (H1 & H2 & H3 & H4).
  fold g2 in H1, H2, H3, H4. clearbody g2. rewrite Hd.
  destruct items as [|item0 rest]; simpl; rewrite ?Hd, ?H1, ?H2, ?H3, ?H4;
    repeat split; reflexivity.
Qed.

End GalleryParts.

(** ** One opaque target at a time *)

Section SingleActiveTarget.

Variable orbitControls_update : Controls.t -> Vector3.t.

Implicit Types (s : ModelLoader.t) (g : Gallery3D.t).

(** *** Every item has a model state *)

Lemma processModel_keeps w ry gltf item index s id :
  is_Some (ModelLoader.modelStates s !! id) ->
  is_Some (ModelLoader.modelStates
             (ModelLoader.processModel w ry gltf item index s) !! id).
Proof.
  unfold ModelLoader.processModel. intros Hs.
  destruct (ModelLoader.modelStates s !! GalleryItem.id item) as [st0|];
    [|exact Hs].
  destruct (ModelLoader.positionModel _ _ _ _ _ _) as [model1 st2].
  destruct (decide (id = GalleryItem.id item)) as [->|Hne].
  - destruct (index =? 0)%Z; simpl; rewrite lookup_insert_eq; eexists; reflexivity.
  - destruct (index =? 0)%Z; simpl; rewrite lookup_insert_ne by congruence;
      exact Hs.
Qed.

Lemma showModel_keeps modelId index s id :
  is_Some (ModelLoader.modelStates s !! id) ->
  is_Some (ModelLoader.modelStates (ModelLoader.showModel modelId index s) !! id).
Proof.
  intros Hs. rewrite showModel_states.
  assert (Hh : is_Some (hidden_states s !! id)).
  { unfold hidden_states. destruct (ModelLoader.activeModelId s) as [a|]; [|exact Hs].
    destruct (JS.truthy_string a); [|exact Hs].
    destruct (decide (a = id)) as [->|Hne];
      [rewrite lookup_alter_eq|rewrite lookup_alter_ne by exact Hne; exact Hs].
    destruct Hs as [st ->]. eexists; reflexivity. }
  destruct (decide (modelId = id)) as [->|Hne];
    [rewrite lookup_alter_eq|rewrite lookup_alter_ne by exact Hne; exact Hh].
  destruct Hh as [st ->]. eexists; reflexivity.
Qed.

Lemma loadModel_stores env item index s :
  let l := fst (ModelLoader.loadModel env item index s) in
  is_Some (ModelLoader.modelStates l !! GalleryItem.id item) /\
  forall id, is_Some (ModelLoader.modelStates s !! id) ->
             is_Some (ModelLoader.modelStates l !! id).
Proof.
  simpl. unfold ModelLoader.loadModel.
  set (s1 := ModelLoader.set_modelStates s _).
  assert (K1 : is_Some (ModelLoader.modelStates s1 !! GalleryItem.id item)).
  { unfold s1. simpl. rewrite lookup_insert_eq. eexists; reflexivity. }
  assert (K2 : forall id, is_Some (ModelLoader.modelStates s !! id) ->
                          is_Some (ModelLoader.modelStates s1 !! id)).
  { intros id Hid. unfold s1. simpl.
    destruct (decide (id = GalleryItem.id item)) as [->|Hne];
      [exact K1|rewrite lookup_insert_ne by congruence; exact Hid]. }
  destruct (ModelLoader.outcome env) as [gltf|]; simpl.
  - split; [apply processModel_keeps; exact K1|].
    intros id Hid. apply processModel_keeps, K2, Hid.
  - split; [exact K1|exact K2].
Qed.

Lemma loadFrom_stores envOf items i loaded total g :
  let l := Gallery3D.modelLoader (Gallery3D.loadFrom envOf i items loaded total g) in
  every_item_has_state items l /\
  forall id, is_Some (ModelLoader.modelStates (Gallery3D.modelLoader g) !! id) ->
             is_Some (ModelLoader.modelStates l !! id).
Proof.
  simpl. revert i loaded g.
  induction items as [|item rest IH]; intros i loaded g; simpl.
  { split; [intros item []|trivial]. }
  destruct (loadModel_stores (envOf i) item i (Gallery3D.modelLoader g)) as (A1 & A2).
  destruct (ModelLoader.loadModel (envOf i) item i (Gallery3D.modelLoader g))
    as [l ok]. simpl in A1, A2.
  set (g2 := if ok then _ else _).
  assert (Hl : Gallery3D.modelLoader g2 = l) by (unfold g2; destruct ok; reflexivity).
  destruct (IH (i + 1)%Z (loaded + 1)%Z g2) as (B1 & B2).
  rewrite Hl in B2. split.
  - intros it [<-|Hin]; [apply B2, A1|apply B1, Hin].
  - intros id Hid. apply B2, A2, Hid.
Qed.

Lemma init_has_states items autoSpeed dist cfg envOf :
  let l := Gallery3D.modelLoader (Gallery3D.init items autoSpeed dist cfg envOf) in
  every_item_has_state items l /\ active_has_state l /\
  forall item0 rest, items = item0 :: rest ->
    ModelLoader.activeModelId l = Some (GalleryItem.id item0) /\
    forall st, ModelLoader.modelStates l !! GalleryItem.id item0 = Some st ->
               ModelState.targetOpacity st = 1.
Proof.
  simpl. unfold Gallery3D.init, Gallery3D.loadModels.
  set (g0 := Gallery3D.mk items _ _ _ _ _ _ _).
  set (g1 := Gallery3D.set_modelLoader g0 _).
  change (Gallery3D.galleryData g1) with items.
  set (g2 := Gallery3D.loadFrom envOf 0 items 0 (Gallery3D.length_of g0) g1).
  assert (Hd : Gallery3D.galleryData g2 = items).
  { unfold g2. rewrite loadFrom_galleryData. reflexivity. }
  destruct (loadFrom_stores envOf items 0 0 (Gallery3D.length_of g0) g1)
    as (Hall & _). fold g2 in Hall.
  rewrite Hd. destruct items as [|item0 rest].
  - split; [intros item []|]. split; [|intros ? ? [=]].
    unfold g2, g1, g0. simpl. intros a.
    rewrite calculateSceneLayout_active. destruct cfg; discriminate.
  - simpl.
    assert (H0 : is_Some
                   (ModelLoader.modelStates
                      (ModelLoader.showModel (GalleryItem.id item0) 0
                         (Gallery3D.modelLoader g2)) !! GalleryItem.id item0)).
    { apply showModel_keeps. apply Hall. left. reflexivity. }
    split; [intros item Hin; apply showModel_keeps, Hall, Hin|].
    split.
    + intros a. rewrite showModel_active. intros [= <-]. exact H0.
    + intros ? ? [= <- _]. split; [reflexivity|].
      intros st.
      exact (showModel_new_target (GalleryItem.id item0) 0
               (Gallery3D.modelLoader g2) st).
Qed.

Lemma update_onward_keys delta sinTime sinPulse s id :
  is_Some (ModelLoader.modelStates s !! id) ->
  is_Some (ModelLoader.modelStates
             (ModelLoader.update delta sinTime sinPulse s) !! id).
Proof.
  intros [st Hst]. rewrite update_lookup.
  destruct (rotated_onward (fun _ _ => True) (fun _ => I) (fun _ _ _ _ _ => I)
              (fun _ _ _ _ => I) (fun _ _ => I) delta s id st Hst)
    as (st' & -> & _).
  eexists; reflexivity.
Qed.

Lemma has_states_kept items (l l' : ModelLoader.t) :
  ModelLoader.activeModelId l' = ModelLoader.activeModelId l ->
  (forall id, is_Some (ModelLoader.modelStates l !! id) ->
              is_Some (ModelLoader.modelStates l' !! id)) ->
  every_item_has_state items l /\ active_has_state l ->
  every_item_has_state items l' /\ active_has_state l'.
Proof.
  intros Ha Hk [He Hact]. split.
  - intros item Hin. apply Hk, He, Hin.
  - intros a Hl'. rewrite Ha in Hl'. apply Hk, Hact, Hl'.
Qed.

Lemma handle_has_states items g e :
  Gallery3D.galleryData g = items ->
  every_item_has_state items (Gallery3D.modelLoader g) /\
  active_has_state (Gallery3D.modelLoader g) ->
  every_item_has_state items
    (Gallery3D.modelLoader (Gallery3D.handle orbitControls_update g e)) /\
  active_has_state
    (Gallery3D.modelLoader (Gallery3D.handle orbitControls_update g e)).
Proof.
  intros Hdata Hinv.
  destruct e as [now idx|delta sin2t sinTime sinPulse
                |button x y hit|x y hit|now|]; simpl.
  - destruct (switchToItem_cases now idx g) as [->|(item & Hitem & ->)];
      [exact Hinv|]. simpl. destruct Hinv as [He _].
    assert (Hin : In item items)
      by (rewrite <- Hdata; eapply item_at_In; exact Hitem).
    split; [intros it Hit; apply showModel_keeps, He, Hit|].
    intros a. rewrite showModel_active. intros [= <-].
    apply showModel_keeps, He, Hin.
  - revert Hinv. apply has_states_kept.
    + exact (update_active delta sinTime sinPulse (Gallery3D.modelLoader g)).
    + intros id. apply update_onward_keys.
  - destruct (pointerDown_parts button x y hit g) as (-> & _).
    destruct (pointer_states _ _
                (onMouseDown_shape button x y (Gallery3D.modelLoader g)))
      as [Hs Ha].
    revert Hinv. apply has_states_kept; [exact Ha|]. intros id. rewrite Hs. trivial.
  - destruct (pointerMove_parts x y hit g) as (-> & _).
    destruct (pointer_states _ _
                (onMouseMove_shape x y (Gallery3D.modelLoader g)))
      as [Hs Ha].
    revert Hinv. apply has_states_kept; [exact Ha|]. simpl.
    intros id [st Hst]. rewrite <- Hs in Hst.
    destruct (interaction_onward (fun _ _ => True) (fun _ => I)
                (fun _ _ _ _ => I) x y hit
                (ModelLoader.activeModelId
                   (ModelLoader.onMouseMove x y (Gallery3D.modelLoader g)))
                (Gallery3D.mouseInteraction g) _ id st Hst)
      as (st' & Hst' & _).
    eexists. exact Hst'.
  - destruct (pointerUp_parts now g) as (-> & _).
    destruct (pointer_states _ _ (onMouseUp_shape (Gallery3D.modelLoader g)))
      as [Hs Ha].
    revert Hinv. apply has_states_kept; [exact Ha|]. intros id. rewrite Hs. trivial.
  - destruct (timeout_parts g) as (-> & _). exact Hinv.
Qed.

Lemma run_has_states items events g :
  gallery_inv items g ->
  every_item_has_state items (Gallery3D.modelLoader g) /\
  active_has_state (Gallery3D.modelLoader g) ->
  ids_truthy items ->
  let g' := Gallery3D.run orbitControls_update events g in
  every_item_has_state items (Gallery3D.modelLoader g') /\
  active_has_state (Gallery3D.modelLoader g').
Proof.
  simpl. intros Hg Hs Hids. revert g Hg Hs. unfold Gallery3D.run.
  induction events as [|e events IH]; intros g Hg Hs; simpl; [exact Hs|].
  apply IH.
  - apply handle_inv; assumption.
  - apply handle_has_states; [apply (inv_data _ _ Hg)|exact Hs].
Qed.

(** C3.  Start from the state [init] leaves once the models are loaded and
    let anything happen: activation calls, animation frames, pointer
    events.  With item identifiers that are non-empty strings, the first
    item is the active one after [init], with a state at target opacity 1;
    at every moment at most one model state has target opacity 1; and an
    activation that takes effect leaves the newly active model with a state
    at target opacity 1 and the previously active one, when it is another
    model, with a state at target opacity 0 (the old target is cleared
    first, so a request for the same identifier ends at 1), again with at
    most one target at 1.  The result does not depend on which models
    loaded. *)
Theorem C3_single_active_target :
  forall items autoSpeed dist cfg envOf events,
    ids_truthy items ->
    let g0 := Gallery3D.init items autoSpeed dist cfg envOf in
    let g := Gallery3D.run orbitControls_update events g0 in
    (forall item0 rest, items = item0 :: rest ->
       ModelLoader.activeModelId (Gallery3D.modelLoader g0)
         = Some (GalleryItem.id item0) /\
       exists st,
         ModelLoader.modelStates (Gallery3D.modelLoader g0) !! GalleryItem.id item0
           = Some st /\
         ModelState.targetOpacity st = 1) /\
    at_most_one_opaque_target (ModelLoader.modelStates (Gallery3D.modelLoader g)) /\
    (forall now idx item,
       Gallery3D.item_at g idx = Some item ->
       idx <> Gallery3D.currentIndex g ->
       let l' := Gallery3D.modelLoader (Gallery3D.switchToItem now idx g) in
       (exists st, ModelLoader.modelStates l' !! GalleryItem.id item = Some st /\
                   ModelState.targetOpacity st = 1) /\
       (forall a,
          ModelLoader.activeModelId (Gallery3D.modelLoader g) = Some a ->
          a <> GalleryItem.id item ->
          exists st, ModelLoader.modelStates l' !! a = Some st /\
                     ModelState.targetOpacity st = 0) /\
       at_most_one_opaque_target (ModelLoader.modelStates l')).
Proof.
  intros items autoSpeed dist cfg envOf events Hids g0 g.
  pose proof (init_inv items autoSpeed dist cfg envOf Hids) as Hinv0.
  fold g0 in Hinv0.
  destruct (init_has_states items autoSpeed dist cfg envOf) as (He0 & Ha0 & Hfirst).
  fold g0 in He0, Ha0, Hfirst.
  assert (Hinv : gallery_inv items g).
  { apply run_inv; assumption. }
  destruct (run_has_states items events g0 Hinv0 (conj He0 Ha0) Hids) as [He Ha].
  fold g in He, Ha.
  split; [|split].
  - intros item0 rest Hitems.
    destruct (Hfirst item0 rest Hitems) as [Hact Hone].
    split; [exact Hact|].
    destruct (Ha0 _ Hact) as [st Hst]. exists st. split; [exact Hst|].
    exact (Hone st Hst).
  - apply others_faded_single. apply (inv_faded _ _ Hinv).
  - intros now idx item Hitem Hne l'. unfold l'.
    assert (Hin : In item items).
    { rewrite <- (inv_data _ _ Hinv). eapply item_at_In. exact Hitem. }
    rewrite (switchToItem_loader now idx g item Hitem Hne).
    split; [|split].
    + destruct (showModel_keeps (GalleryItem.id item) idx (Gallery3D.modelLoader g)
                  (GalleryItem.id item) (He item Hin)) as [st Hst].
      exists st. split; [exact Hst|]. eapply showModel_new_target. exact Hst.
    + intros a Hact Hai.
      destruct (showModel_keeps (GalleryItem.id item) idx (Gallery3D.modelLoader g)
                  a (Ha a Hact)) as [st Hst].
      exists st. split; [exact Hst|].
      eapply showModel_old_target; [exact Hact| |exact Hai|exact Hst].
      apply (inv_truthy _ _ Hinv). exact Hact.
    + rewrite <- (switchToItem_loader now idx g item Hitem Hne).
      apply others_faded_single.
      apply (inv_faded _ _ (switchToItem_inv items now idx g Hids Hinv)).
Qed.

End SingleActiveTarget.

(** The first item has the empty string as its id and both models load:
    once the second item is activated, the states of both models have
    target opacity 1.  [showModel] tests [this.activeModelId && ...] before
    it fades the old model out, and the empty string is falsy. *)
Lemma C3_empty_id_leaves_two_opaque_targets :
  let g0 := Scenario.galleryNameless in
  let g := Gallery3D.switchToItem 0 1 g0 in
  ModelLoader.activeModelId (Gallery3D.modelLoader g0) = Some EmptyString /\
  (exists st0 st1,
     ModelLoader.modelStates (Gallery3D.modelLoader g) !! EmptyString = Some st0 /\
     ModelLoader.modelStates (Gallery3D.modelLoader g) !! "b" = Some st1 /\
     is_Some (ModelState.modelObject st0) /\ is_Some (ModelState.modelObject st1) /\
     ModelState.targetOpacity st0 = 1 /\ ModelState.targetOpacity st1 = 1) /\
  ~ at_most_one_opaque_target (ModelLoader.modelStates (Gallery3D.modelLoader g)).
Proof.
  cbv zeta.
  assert (H : exists st0 st1,
     ModelLoader.modelStates
       (Gallery3D.modelLoader (Gallery3D.switchToItem 0 1 Scenario.galleryNameless))
       !! EmptyString = Some st0 /\
     ModelLoader.modelStates
       (Gallery3D.modelLoader (Gallery3D.switchToItem 0 1 Scenario.galleryNameless))
       !! "b" = Some st1 /\
     is_Some (ModelState.modelObject st0) /\ is_Some (ModelState.modelObject st1) /\
     ModelState.targetOpacity st0 = 1 /\ ModelState.targetOpacity st1 = 1).
  { eexists. eexists. split; [vm_compute; reflexivity|].
    split; [vm_compute; reflexivity|].
    split; [eexists; reflexivity|]. split; [eexists; reflexivity|].
    split; reflexivity. }
  split; [vm_compute; reflexivity|]. split; [exact H|].
  destruct H as (st0 & st1 & H0 & H1 & _ & _ & T0 & T1).
  intros Hone.
  pose proof (Hone EmptyString "b" st0 st1 H0 H1) as E.
  rewrite T0, T1 in E. specialize (E (Qeq_refl 1) (Qeq_refl 1)). discriminate E.
Qed.

(** The sample gallery on its second model after a frame: a request for
    the first model leaves the state of "a" at target opacity 1 and the
    state of "b" at 0. *)
Lemma C3_witness :
  let g := Gallery3D.run Scenario.still
             [Gallery3D.Activate 0 1;
              Gallery3D.Frame (1 # 60) 0 Scenario.zeroSin Scenario.zeroSin]
             Scenario.gallery in
  let l' := Gallery3D.modelLoader (Gallery3D.switchToItem 500 0 g) in
  ids_truthy [Scenario.itemA; Scenario.itemB] /\
  at_most_one_opaque_target (ModelLoader.modelStates (Gallery3D.modelLoader g)) /\
  (exists st, ModelLoader.modelStates l' !! "a" = Some st /\
              ModelState.targetOpacity st = 1) /\
  (exists st, ModelLoader.modelStates l' !! "b" = Some st /\
              ModelState.targetOpacity st = 0) /\
  at_most_one_opaque_target (ModelLoader.modelStates l').
Proof.
  cbv zeta.
  assert (Hids : ids_truthy [Scenario.itemA; Scenario.itemB])
    by (repeat constructor).
  destruct (C3_single_active_target Scenario.still
              [Scenario.itemA; Scenario.itemB] 0.5 5 None Scenario.allLoad
              [Gallery3D.Activate 0 1;
               Gallery3D.Frame (1 # 60) 0 Scenario.zeroSin Scenario.zeroSin] Hids)
    as (_ & Hone & Hswitch).
  assert (Hitem : Gallery3D.item_at
                    (Gallery3D.run Scenario.still
                       [Gallery3D.Activate 0 1;
                        Gallery3D.Frame (1 # 60) 0 Scenario.zeroSin Scenario.zeroSin]
                       (Gallery3D.init [Scenario.itemA; Scenario.itemB] 0.5 5 None
                          Scenario.allLoad)) 0
                  = Some Scenario.itemA) by (vm_compute; reflexivity).
  assert (Hne : 0%Z <> Gallery3D.currentIndex
                    (Gallery3D.run Scenario.still
                       [Gallery3D.Activate 0 1;
                        Gallery3D.Frame (1 # 60) 0 Scenario.zeroSin Scenario.zeroSin]
                       (Gallery3D.init [Scenario.itemA; Scenario.itemB] 0.5 5 None
                          Scenario.allLoad))) by (vm_compute; discriminate).
  destruct (Hswitch 500%Z 0%Z Scenario.itemA Hitem Hne) as (Hnew & Hold & Hone').
  split; [exact Hids|]. split; [exact Hone|]. split; [exact Hnew|].
  split; [|exact Hone'].
  apply (Hold "b"); [vm_compute; reflexivity|discriminate].
Defined.

(** ** Invariants of the gallery over every sequence of events *)

Section GalleryInvariants.

Variable orbitControls_update : Controls.t -> Vector3.t.

Implicit Types (s : ModelLoader.t) (g : Gallery3D.t).

(** *** The camera auto-rotation after an interaction *)

Lemma animateCameraTo_autoRotate_off tp tl dur now c :
  autoRotate_off c -> autoRotate_off (Controls.animateCameraTo tp tl dur now c).
Proof.
  unfold Controls.animateCameraTo.
  destruct (Controls.isAnimatingCamera c); [trivial|].
  intros (H1 & H2 & H3). repeat split; assumption.
Qed.

Lemma update_autoRotate_off sin2t c :
  autoRotate_off c ->
  autoRotate_off (Controls.update orbitControls_update sin2t c).
Proof.
  intros (H1 & H2 & H3). unfold Controls.update. simpl.
  destruct (_ && _); repeat split; assumption.
Qed.

Lemma handle_autoRotate_off g e :
  autoRotate_off (Gallery3D.controls g) ->
  autoRotate_off (Gallery3D.controls (Gallery3D.handle orbitControls_update g e)).
Proof.
  intros Hoff. destruct e as [now idx|delta sin2t sinTime sinPulse
                             |button x y hit|x y hit|now|]; simpl.
  - destruct (switchToItem_cases now idx g) as [->|(item & _ & ->)];
      [exact Hoff|]. simpl.
    apply animateCameraTo_autoRotate_off. exact Hoff.
  - apply update_autoRotate_off. exact Hoff.
  - destruct (pointerDown_parts button x y hit g) as (_ & _ & -> & _).
    destruct (snd _); [|exact Hoff]. repeat split; reflexivity.
  - destruct (pointerMove_parts x y hit g) as (_ & _ & -> & _). exact Hoff.
  - destruct (pointerUp_parts now g) as (_ & _ & -> & _). exact Hoff.
  - destruct (timeout_parts g) as (_ & _ & [-> |Hr] & _); [exact Hoff|].
    destruct Hoff as (H1 & _). congruence.
Qed.

(** X5. Once a drag on the model has started ([onModelInteract] with
    ['startInteraction'] sets the auto-rotate speed to 0, which also clears
    [isAutoRotating]), the camera auto-rotation stays off through every later
    frame, pointer event, activation and timer: the timer that
    [endInteraction] arms tests [isAutoRotating] before it restores the
    speed, so it never restores it. *)
Theorem X5_interaction_switches_camera_autorotation_off_for_good :
  forall events now g,
    autoRotate_off
      (Gallery3D.controls
         (Gallery3D.run orbitControls_update events
            (Gallery3D.onModelInteract Gallery3D.startInteraction now g))).
Proof.
  intros events now g.
  set (g0 := Gallery3D.onModelInteract Gallery3D.startInteraction now g).
  assert (H0 : autoRotate_off (Gallery3D.controls g0))
    by (repeat split; reflexivity).
  clearbody g0. revert g0 H0. unfold Gallery3D.run.
  induction events as [|e events IH]; intros g0 H0; simpl; [exact H0|].
  apply IH. apply handle_autoRotate_off. exact H0.
Qed.

(** *** The spotlights *)

Lemma showModel_spotlights modelId index s :
  ModelLoader.spotlights (ModelLoader.showModel modelId index s)
  = alter (fun d => SpotlightData.set_targetIntensity d
                      (SpotlightData.originalIntensity d)) modelId
      ((fun d => SpotlightData.set_targetIntensity d 0)
         <$> ModelLoader.spotlights s).
Proof. reflexivity. Qed.


Lemma updateManualRotation_spotlights delta s :
  ModelLoader.spotlights (ModelLoader.updateManualRotation delta s)
  = ModelLoader.spotlights s /\
  ModelLoader.spotlightConfig (ModelLoader.updateManualRotation delta s)
  = ModelLoader.spotlightConfig s.
Proof.
  unfold ModelLoader.updateManualRotation. simpl.
  destruct (ManualRotation.rotateActiveOnly _); [|split; reflexivity].
  destruct (ModelLoader.activeModelId s) as [a|]; simpl; [|split; reflexivity].
  destruct (JS.truthy_string a); split; reflexivity.
Qed.

Lemma updateAutoRotation_spotlights delta s :
  ModelLoader.spotlights (ModelLoader.updateAutoRotation delta s)
  = ModelLoader.spotlights s /\
  ModelLoader.spotlightConfig (ModelLoader.updateAutoRotation delta s)
  = ModelLoader.spotlightConfig s.
Proof.
  unfold ModelLoader.updateAutoRotation.
  destruct (AutoRotation.rotateActiveOnly _); [|split; reflexivity].
  destruct (ModelLoader.activeModelId s) as [a|]; simpl; [|split; reflexivity].
  destruct (JS.truthy_string a); split; reflexivity.
Qed.

Lemma rotated_spotlights delta s :
  ModelLoader.spotlights (rotated delta s) = ModelLoader.spotlights s /\
  ModelLoader.spotlightConfig (rotated delta s) = ModelLoader.spotlightConfig s.
Proof.
  unfold rotated.
  set (s1 := if ManualRotation.enabled _ then _ else s).
  assert (H1 : ModelLoader.spotlights s1 = ModelLoader.spotlights s /\
               ModelLoader.spotlightConfig s1 = ModelLoader.spotlightConfig s).
  { unfold s1. destruct (ManualRotation.enabled _);
      [apply updateManualRotation_spotlights | split; reflexivity]. }
  destruct (_ && _); [|exact H1].
  destruct (updateAutoRotation_spotlights delta s1) as [-> ->]. exact H1.
Qed.

(** The spotlight of [id] after a frame. *)
Lemma update_spotlights_lookup delta sinTime sinPulse s id :
  ModelLoader.spotlights (ModelLoader.update delta sinTime sinPulse s) !! id
  = (fun d => ModelLoader.animateSpotlight delta (sinPulse id)
                (ModelLoader.followModel delta (ModelLoader.spotlightConfig s)
                   (ModelLoader.modelStates (rotated delta s)) id d))
    <$> ModelLoader.spotlights s !! id.
Proof.
  rewrite update_rotated. simpl. rewrite !map_lookup_imap.
  destruct (rotated_spotlights delta s) as [-> ->].
  destruct (ModelLoader.spotlights s !! id); reflexivity.
Qed.

Lemma followModel_intensities delta cfg states id d :
  let d' := ModelLoader.followModel delta cfg states id d in
  SpotlightData.targetIntensity d' = SpotlightData.targetIntensity d /\
  SpotlightData.originalIntensity d' = SpotlightData.originalIntensity d /\
  SpotlightData.currentIntensity d' = SpotlightData.currentIntensity d.
Proof.
  simpl. unfold ModelLoader.followModel.
  destruct (states !! id) as [st|]; [|repeat split; reflexivity].
  destruct (ModelState.modelObject st); repeat split; reflexivity.
Qed.





Lemma loadFrom_nil_spotlights cfg :
  ModelLoader.spotlights
    (match cfg with
     | Some c => ModelLoader.updateSpotlightConfig c ModelLoader.constructor
     | None => ModelLoader.constructor
     end) = ∅.
Proof. destruct cfg; reflexivity. Qed.



End GalleryInvariants.

Section GalleryInvariantsOfTheIndex.

Variable orbitControls_update : Controls.t -> Vector3.t.

Implicit Types (s : ModelLoader.t) (g : Gallery3D.t).

(** *** The current index and the active model *)

Lemma item_at_range g idx item :
  Gallery3D.item_at g idx = Some item ->
  (0 <= idx < Gallery3D.length_of g)%Z.
Proof.
  unfold Gallery3D.item_at, Gallery3D.length_of.
  destruct (idx <? 0)%Z eqn:Hneg; [discriminate|].
  intros H. apply lookup_lt_Some in H. apply Z.ltb_ge in Hneg. lia.
Qed.

Lemma shows_current_ext g g' :
  Gallery3D.galleryData g' = Gallery3D.galleryData g ->
  Gallery3D.currentIndex g' = Gallery3D.currentIndex g ->
  ModelLoader.activeModelId (Gallery3D.modelLoader g')
  = ModelLoader.activeModelId (Gallery3D.modelLoader g) ->
  shows_current g -> shows_current g'.
Proof.
  intros Hd Hi Ha (item & Hitem & Hact). exists item.
  unfold Gallery3D.item_at in *. rewrite Hd, Hi, Ha. split; assumption.
Qed.

Lemma handle_shows_current g e :
  shows_current g -> shows_current (Gallery3D.handle orbitControls_update g e).
Proof.
  intros Hinv. destruct e as [now idx|delta sin2t sinTime sinPulse
                             |button x y hit|x y hit|now|]; simpl.
  - destruct (switchToItem_cases now idx g) as [->|(item & Hitem & ->)];
      [exact Hinv|].
    exists item. split; [exact Hitem|]. reflexivity.
  - revert Hinv. apply shows_current_ext; try reflexivity.
    exact (update_active delta sinTime sinPulse (Gallery3D.modelLoader g)).
  - destruct (pointerDown_parts button x y hit g) as (Hl & _ & _ & Hd & Hi).
    revert Hinv. apply shows_current_ext; [exact Hd|exact Hi|].
    rewrite Hl. apply (pointer_states _ _ (onMouseDown_shape button x y _)).
  - destruct (pointerMove_parts x y hit g) as (Hl & _ & _ & Hd & Hi).
    revert Hinv. apply shows_current_ext; [exact Hd|exact Hi|].
    rewrite Hl. simpl. apply (pointer_states _ _ (onMouseMove_shape x y _)).
  - destruct (pointerUp_parts now g) as (Hl & _ & _ & Hd & Hi).
    revert Hinv. apply shows_current_ext; [exact Hd|exact Hi|].
    rewrite Hl. apply (pointer_states _ _ (onMouseUp_shape _)).
  - destruct (timeout_parts g) as (Hl & _ & _ & Hd & Hi).
    revert Hinv. apply shows_current_ext; [exact Hd|exact Hi|].
    rewrite Hl. reflexivity.
Qed.

Lemma init_shows_current item0 rest autoSpeed dist cfg envOf :
  shows_current (Gallery3D.init (item0 :: rest) autoSpeed dist cfg envOf).
Proof.
  destruct (init_parts (item0 :: rest) autoSpeed dist cfg envOf)
    as (Hd & _ & _ & Hi & _).
  exists item0. unfold Gallery3D.item_at. rewrite Hd, Hi. simpl.
  split; [reflexivity|].
  unfold Gallery3D.init, Gallery3D.loadModels.
  set (g0 := Gallery3D.mk (item0 :: rest) _ _ _ _ _ _ _).
  set (g1 := Gallery3D.set_modelLoader g0 _).
  change (Gallery3D.galleryData g1) with (item0 :: rest).
  set (g2 := Gallery3D.loadFrom envOf 0 (item0 :: rest) 0 (Gallery3D.length_of g0) g1).
  assert (Hd2 : Gallery3D.galleryData g2 = item0 :: rest).
  { unfold g2. rewrite loadFrom_galleryData. reflexivity. }
  rewrite Hd2. reflexivity.
Qed.

(** X7. In a gallery with at least one item, at any time after [init] and
    whatever events came, the current index lies within the gallery and the
    active model of the loader is the model of the item at the current
    index: the index and the active model never drift apart. *)
Theorem X7_active_model_is_the_current_item :
  forall item0 rest autoSpeed dist cfg envOf events,
    let g := Gallery3D.run orbitControls_update events
               (Gallery3D.init (item0 :: rest) autoSpeed dist cfg envOf) in
    shows_current g /\ index_in_range g.
Proof.
  intros item0 rest autoSpeed dist cfg envOf events. simpl.
  assert (H : shows_current
                (Gallery3D.run orbitControls_update events
                   (Gallery3D.init (item0 :: rest) autoSpeed dist cfg envOf))).
  { pose proof (init_shows_current item0 rest autoSpeed dist cfg envOf) as H0.
    revert H0.
    generalize (Gallery3D.init (item0 :: rest) autoSpeed dist cfg envOf).
    unfold Gallery3D.run.
    induction events as [|e events IH]; intros g0 H0; simpl; [exact H0|].
    apply IH. apply handle_shows_current. exact H0. }
  split; [exact H|].
  destruct H as (item & Hitem & _). eapply item_at_range. exact Hitem.
Qed.

(** *** The drag of [MouseInteraction] *)

Lemma onMouseDown_coherent button x y hit active mi :
  drag_coherent mi ->
  let mi' := fst (MouseInteraction.onMouseDown button x y hit active mi) in
  drag_coherent mi' /\
  (MouseInteraction.isDragging mi' = true ->
   MouseInteraction.activeModel mi' = active \/
   (MouseInteraction.isDragging mi = true /\
    MouseInteraction.activeModel mi' = MouseInteraction.activeModel mi)).
Proof.
  intros Hc. simpl. unfold MouseInteraction.onMouseDown.
  destruct (negb _); simpl.
  { split; [exact Hc|]. intros H. right. split; [exact H|reflexivity]. }
  destruct hit as [id|]; simpl.
  2:{ split; [exact Hc|]. intros H. right. split; [exact H|reflexivity]. }
  destruct (JS.truthy_string id) eqn:Ht; simpl.
  2:{ split; [exact Hc|]. intros H. right. split; [exact H|reflexivity]. }
  destruct (bool_decide (Some id = active)) eqn:Hb; simpl.
  - apply bool_decide_eq_true in Hb. split.
    + split; [reflexivity|]. simpl. exact Ht.
    + intros _. left. exact Hb.
  - split; [exact Hc|]. intros H. right. split; [exact H|reflexivity].
Qed.

Lemma onMouseMove_flags x y hit active mi states :
  let mi' := fst (MouseInteraction.onMouseMove x y hit active mi states) in
  MouseInteraction.isDragging mi' = MouseInteraction.isDragging mi /\
  MouseInteraction.isInteracting mi' = MouseInteraction.isInteracting mi /\
  MouseInteraction.activeModel mi' = MouseInteraction.activeModel mi.
Proof.
  simpl. unfold MouseInteraction.onMouseMove. simpl.
  destruct (_ && _); simpl; [repeat split; reflexivity|].
  destruct hit; simpl; repeat split; reflexivity.
Qed.

Lemma coherent_ext mi mi' :
  MouseInteraction.isDragging mi' = MouseInteraction.isDragging mi ->
  MouseInteraction.isInteracting mi' = MouseInteraction.isInteracting mi ->
  MouseInteraction.activeModel mi' = MouseInteraction.activeModel mi ->
  drag_coherent mi -> drag_coherent mi'.
Proof. unfold drag_coherent. intros -> -> ->. trivial. Qed.

Lemma onMouseUp_coherent mi :
  drag_coherent mi -> drag_coherent (fst (MouseInteraction.onMouseUp mi)).
Proof.
  intros Hc. unfold MouseInteraction.onMouseUp.
  destruct (MouseInteraction.isDragging mi) eqn:Hd; simpl; [|exact Hc].
  split; reflexivity.
Qed.

Lemma reset_coherent mi : drag_coherent (MouseInteraction.reset mi).
Proof. split; reflexivity. Qed.


Lemma handle_drag g e :
  drag_coherent (Gallery3D.mouseInteraction g) /\ drags_active g ->
  drag_coherent
    (Gallery3D.mouseInteraction (Gallery3D.handle orbitControls_update g e)) /\
  drags_active (Gallery3D.handle orbitControls_update g e).
Proof.
  intros [Hc Ha]. destruct e as [now idx|delta sin2t sinTime sinPulse
                                |button x y hit|x y hit|now|]; simpl.
  - destruct (switchToItem_cases now idx g) as [->|(item & _ & ->)];
      [split; assumption|]. simpl.
    split; [apply reset_coherent|]. intros H. discriminate H.
  - split; [exact Hc|]. unfold drags_active.
    change (MouseInteraction.isDragging (Gallery3D.mouseInteraction g) = true ->
            MouseInteraction.activeModel (Gallery3D.mouseInteraction g)
            = ModelLoader.activeModelId
                (ModelLoader.update delta sinTime sinPulse (Gallery3D.modelLoader g))).
    rewrite update_active. exact Ha.
  - destruct (pointerDown_parts button x y hit g) as (Hl & Hm & _).
    unfold drags_active. rewrite Hl, Hm.
    destruct (pointer_states _ _
                (onMouseDown_shape button x y (Gallery3D.modelLoader g)))
      as [_ Hact].
    destruct (onMouseDown_coherent button x y hit
                (ModelLoader.activeModelId
                   (ModelLoader.onMouseDown button x y (Gallery3D.modelLoader g)))
                (Gallery3D.mouseInteraction g) Hc) as [Hc' Hd'].
    split; [exact Hc'|]. intros Hdrag.
    destruct (Hd' Hdrag) as [E|[Hold E]]; [exact E|].
    rewrite E, Hact. apply Ha. exact Hold.
  - destruct (pointerMove_parts x y hit g) as (Hl & Hm & _).
    unfold drags_active. rewrite Hl, Hm. simpl.
    destruct (pointer_states _ _
                (onMouseMove_shape x y (Gallery3D.modelLoader g)))
      as [_ Hact].
    destruct (onMouseMove_flags x y hit
                (ModelLoader.activeModelId
                   (ModelLoader.onMouseMove x y (Gallery3D.modelLoader g)))
                (Gallery3D.mouseInteraction g)
                (ModelLoader.modelStates
                   (ModelLoader.onMouseMove x y (Gallery3D.modelLoader g))))
      as (F1 & F2 & F3).
    split; [exact (coherent_ext _ _ F1 F2 F3 Hc)|].
    rewrite F1, F3, Hact. exact Ha.
  - destruct (pointerUp_parts now g) as (Hl & Hm & _).
    unfold drags_active. rewrite Hl, Hm.
    split; [apply onMouseUp_coherent; exact Hc|].
    unfold MouseInteraction.onMouseUp.
    destruct (MouseInteraction.isDragging (Gallery3D.mouseInteraction g)) eqn:Hd;
      simpl; [discriminate|].
    rewrite Hd. discriminate.
  - destruct (timeout_parts g) as (Hl & Hm & _).
    unfold drags_active. rewrite Hl, Hm. split; assumption.
Qed.

(** X8. At any time after [init], whatever events came, the model that
    [MouseInteraction] drags is the active model of the loader: a drag can
    only start on the active model, and a drag that is in progress when
    another item is activated is dropped, never carried over to a model
    that is not the active one. *)
Theorem X8_mouse_interaction_drags_only_the_active_model :
  forall items autoSpeed dist cfg envOf events,
    drags_active
      (Gallery3D.run orbitControls_update events
         (Gallery3D.init items autoSpeed dist cfg envOf)).
Proof.
  intros items autoSpeed dist cfg envOf events.
  apply (proj2 (A := drag_coherent
                       (Gallery3D.mouseInteraction
                          (Gallery3D.run orbitControls_update events
                             (Gallery3D.init items autoSpeed dist cfg envOf))))).
  assert (H0 : drag_coherent
                 (Gallery3D.mouseInteraction
                    (Gallery3D.init items autoSpeed dist cfg envOf)) /\
               drags_active (Gallery3D.init items autoSpeed dist cfg envOf)).
  { destruct (init_parts items autoSpeed dist cfg envOf) as (_ & Hm & _).
    unfold drags_active. rewrite Hm. split; [split; reflexivity|].
    intros H. discriminate H. }
  revert H0. generalize (Gallery3D.init items autoSpeed dist cfg envOf).
  unfold Gallery3D.run.
  induction events as [|e events IH]; intros g0 H0; simpl; [exact H0|].
  apply IH. apply handle_drag. exact H0.
Qed.

End GalleryInvariantsOfTheIndex.

(** ** Pointer-driven rotation: the velocity, the coasting, the touch path *)

Section PointerRotation.

Variable orbitControls_update : Controls.t -> Vector3.t.

Implicit Types (s : ModelLoader.t) (g : Gallery3D.t) (m : ManualRotation.t).

Lemma calculateSceneLayout_manual n s :
  ModelLoader.manualRotation (ModelLoader.calculateSceneLayout n s)
  = ModelLoader.manualRotation s.
Proof.
  unfold ModelLoader.calculateSceneLayout.
  repeat (destruct (_ <=? _)%Z; [reflexivity|]). reflexivity.
Qed.

Lemma processModel_manual w ry gltf item index s :
  ModelLoader.manualRotation (ModelLoader.processModel w ry gltf item index s)
  = ModelLoader.manualRotation s.
Proof.
  unfold ModelLoader.processModel.
  destruct (ModelLoader.modelStates s !! GalleryItem.id item); [|reflexivity].
  destruct (ModelLoader.positionModel _ _ _ _ _ _) as [model1 st2].
  destruct (index =? 0)%Z; reflexivity.
Qed.

Lemma loadModel_manual env item index s :
  ModelLoader.manualRotation (fst (ModelLoader.loadModel env item index s))
  = ModelLoader.manualRotation s.
Proof.
  unfold ModelLoader.loadModel.
  destruct (ModelLoader.outcome env); simpl; [|reflexivity].
  rewrite processModel_manual. reflexivity.
Qed.

Lemma loadFrom_manual envOf items i loaded total g :
  ModelLoader.manualRotation
    (Gallery3D.modelLoader (Gallery3D.loadFrom envOf i items loaded total g))
  = ModelLoader.manualRotation (Gallery3D.modelLoader g).
Proof.
  revert i loaded g.
  induction items as [|item rest IH]; intros i loaded g; simpl; [reflexivity|].
  pose proof (loadModel_manual (envOf i) item i (Gallery3D.modelLoader g)) as Hm.
  destruct (ModelLoader.loadModel _ _ _ _) as [l ok]. simpl in Hm.
  rewrite IH. destruct ok; simpl; exact Hm.
Qed.

Lemma init_manual items autoSpeed dist cfg envOf :
  ModelLoader.manualRotation
    (Gallery3D.modelLoader (Gallery3D.init items autoSpeed dist cfg envOf))
  = ModelLoader.manualRotation ModelLoader.constructor.
Proof.
  unfold Gallery3D.init, Gallery3D.loadModels.
  set (g0 := Gallery3D.mk items _ _ _ _ _ _ _).
  set (g1 := Gallery3D.set_modelLoader g0 _).
  change (Gallery3D.galleryData g1) with items.
  pose proof (loadFrom_manual envOf items 0 0 (Gallery3D.length_of g0) g1) as Hm.
  set (g2 := Gallery3D.loadFrom envOf 0 items 0 (Gallery3D.length_of g0) g1) in *.
  assert (H1 : ModelLoader.manualRotation (Gallery3D.modelLoader g1)
               = ModelLoader.manualRotation ModelLoader.constructor).
  { unfold g1, g0. simpl. rewrite calculateSceneLayout_manual.
    destruct cfg; reflexivity. }
  rewrite H1 in Hm. clearbody g2.
  destruct (Gallery3D.galleryData g2); simpl; exact Hm.
Qed.

Lemma advanceManual_clamped delta m :
  clamped_drag m -> clamped_drag (advanceManual delta m).
Proof.
  intros (Hd & Ht & [Hx Hy]). unfold clamped_drag, velocity_within.
  simpl. rewrite Hd. repeat split; try assumption; lra.
Qed.

Lemma onMouseMove_clamped x y s :
  clamped_drag (ModelLoader.manualRotation s) ->
  clamped_drag (ModelLoader.manualRotation (ModelLoader.onMouseMove x y s)).
Proof.
  intros (Hd & Ht & Hv). unfold ModelLoader.onMouseMove.
  destruct (_ || _); [split; [exact Hd|split; [exact Ht|exact Hv]]|].
  unfold clamped_drag, velocity_within. simpl.
  split; [exact Hd|]. split; [exact Ht|].
  set (m1 := ManualRotation.set_velocity _ _ _).
  assert (Hm1 : ManualRotation.maxSpeed m1 = 0.05) by exact Ht.
  pose proof (clampVelocity_bounds m1 (ManualRotation.velocityX m1)) as Bx.
  pose proof (clampVelocity_bounds m1 (ManualRotation.velocityY m1)) as By.
  rewrite Hm1 in Bx, By. split; [apply Bx|apply By]; lra.
Qed.

Lemma handle_clamped g e :
  clamped_drag (ModelLoader.manualRotation (Gallery3D.modelLoader g)) ->
  clamped_drag
    (ModelLoader.manualRotation
       (Gallery3D.modelLoader (Gallery3D.handle orbitControls_update g e))).
Proof.
  intros Hinv. destruct e as [now idx|delta sin2t sinTime sinPulse
                             |button x y hit|x y hit|now|]; simpl.
  - destruct (switchToItem_cases now idx g) as [->|(item & _ & ->)];
      exact Hinv.
  - change (clamped_drag
              (ModelLoader.manualRotation
                 (ModelLoader.update delta sinTime sinPulse (Gallery3D.modelLoader g)))).
    rewrite update_manual.
    destruct (ManualRotation.enabled _); [|exact Hinv].
    apply advanceManual_clamped. exact Hinv.
  - destruct (pointerDown_parts button x y hit g) as (-> & _).
    unfold ModelLoader.onMouseDown. destruct (_ || _); [exact Hinv|].
    destruct Hinv as (Hd & Ht & _). unfold clamped_drag, velocity_within. simpl.
    repeat split; try assumption; lra.
  - destruct (pointerMove_parts x y hit g) as (-> & _). simpl.
    apply onMouseMove_clamped. exact Hinv.
  - destruct (pointerUp_parts now g) as (-> & _).
    unfold ModelLoader.onMouseUp. destruct (negb _); exact Hinv.
  - destruct (timeout_parts g) as (-> & _). exact Hinv.
Qed.

(** X9. With mouse input, at any time after [init] and whatever events
    came, both components of the rotation velocity lie within the clamp
    [maxSpeed] = 0.05 of the constructor: a pointer move clamps the velocity
    it stores, a frame only dampens it, so no frame adds more than 0.05
    radians to a target rotation. *)
Theorem X9_mouse_velocity_stays_within_the_clamp :
  forall items autoSpeed dist cfg envOf events,
    let m := ModelLoader.manualRotation
               (Gallery3D.modelLoader
                  (Gallery3D.run orbitControls_update events
                     (Gallery3D.init items autoSpeed dist cfg envOf))) in
    Qabs (ManualRotation.velocityX m) <= 0.05 /\
    Qabs (ManualRotation.velocityY m) <= 0.05 /\
    ManualRotation.maxSpeed m = 0.05.
Proof.
  intros items autoSpeed dist cfg envOf events. simpl.
  assert (H : clamped_drag
                (ModelLoader.manualRotation
                   (Gallery3D.modelLoader
                      (Gallery3D.run orbitControls_update events
                         (Gallery3D.init items autoSpeed dist cfg envOf))))).
  { assert (H0 : clamped_drag
                   (ModelLoader.manualRotation
                      (Gallery3D.modelLoader
                         (Gallery3D.init items autoSpeed dist cfg envOf)))).
    { rewrite init_manual. unfold clamped_drag, velocity_within. simpl.
      repeat split; try reflexivity; lra. }
    revert H0. generalize (Gallery3D.init items autoSpeed dist cfg envOf).
    unfold Gallery3D.run.
    induction events as [|e events IH]; intros g0 H0; simpl; [exact H0|].
    apply IH. apply handle_clamped. exact H0. }
  destruct H as (_ & Ht & [Hx Hy]).
  split; [apply Qabs_Qle_condition; exact Hx|].
  split; [apply Qabs_Qle_condition; exact Hy|exact Ht].
Qed.

(** *** Coasting after the last pointer move *)

(** What a run of frames without pointer input keeps, relative to the
    state [m0] it started from; [k] is the factor left of the velocity. *)
Lemma frames_coast sinTime sinPulse deltas s m0 k :
  let m := ModelLoader.manualRotation s in
  let d := ManualRotation.dampening m0 in
  ManualRotation.enabled m = true -> ManualRotation.dampening m = d ->
  0 <= d -> d <= 1 -> 0 <= k -> k <= 1 ->
  ManualRotation.velocityX m == ManualRotation.velocityX m0 * k ->
  ManualRotation.velocityY m == ManualRotation.velocityY m0 * k ->
  (1 - d) * (ManualRotation.targetRotationY m - ManualRotation.targetRotationY m0)
    == d * ManualRotation.velocityX m0 * (1 - k) ->
  (1 - d) * (ManualRotation.targetRotationX m - ManualRotation.targetRotationX m0)
    == d * ManualRotation.velocityY m0 * (1 - k) ->
  let m' := ModelLoader.manualRotation (frames sinTime sinPulse deltas s) in
  exists k',
    0 <= k' /\ k' <= 1 /\
    ManualRotation.velocityX m' == ManualRotation.velocityX m0 * k' /\
    ManualRotation.velocityY m' == ManualRotation.velocityY m0 * k' /\
    (1 - d) * (ManualRotation.targetRotationY m' - ManualRotation.targetRotationY m0)
      == d * ManualRotation.velocityX m0 * (1 - k') /\
    (1 - d) * (ManualRotation.targetRotationX m' - ManualRotation.targetRotationX m0)
      == d * ManualRotation.velocityY m0 * (1 - k').
Proof.
  simpl. revert s k. unfold frames.
  induction deltas as [|delta deltas IH]; intros s k He Hd H0 H1 Hk0 Hk1 Hvx Hvy Hty Htx.
  { simpl. exists k. repeat split; assumption. }
  simpl fold_left.
  set (s1 := ModelLoader.update delta sinTime sinPulse s).
  assert (Hm1 : ModelLoader.manualRotation s1
                = advanceManual delta (ModelLoader.manualRotation s)).
  { unfold s1. rewrite update_manual, He. reflexivity. }
  apply (IH s1 (k * ManualRotation.dampening m0)); rewrite ?Hm1; simpl;
    try assumption; rewrite ?Hd.
  - nra.
  - nra.
  - rewrite Hvx. ring.
  - rewrite Hvy. ring.
  - rewrite Hvx.
    set (d := ManualRotation.dampening m0) in *.
    set (v := ManualRotation.velocityX m0) in *.
    transitivity ((1 - d) * (ManualRotation.targetRotationY (ModelLoader.manualRotation s)
                             - ManualRotation.targetRotationY m0)
                  + (1 - d) * (v * k * d)); [ring|].
    rewrite Hty. ring.
  - rewrite Hvy.
    set (d := ManualRotation.dampening m0) in *.
    set (v := ManualRotation.velocityY m0) in *.
    transitivity ((1 - d) * (ManualRotation.targetRotationX (ModelLoader.manualRotation s)
                             - ManualRotation.targetRotationX m0)
                  + (1 - d) * (v * k * d)); [ring|].
    rewrite Htx. ring.
Qed.

Lemma coast_bound (d k v x : Q) :
  0 <= d -> d <= 1 -> 0 <= k -> k <= 1 ->
  (1 - d) * x == d * v * (1 - k) ->
  (1 - d) * Qabs x <= d * Qabs v.
Proof.
  intros H0 H1 Hk0 Hk1 E.
  assert (Hc : 0 <= d * (1 - k)) by nra.
  assert (Hc' : d * (1 - k) <= d) by nra.
  assert (E1 : (1 - d) * Qabs x == Qabs ((1 - d) * x)).
  { rewrite Qabs_Qmult. rewrite (Qabs_pos (1 - d)) by lra. reflexivity. }
  rewrite E1, E.
  assert (E2 : d * v * (1 - k) == d * (1 - k) * v) by ring.
  rewrite E2, Qabs_Qmult, (Qabs_pos (d * (1 - k))) by exact Hc.
  apply Qmult_le_compat_r; [exact Hc'|apply Qabs_nonneg].
Qed.

(** X10. Coasting is bounded.  Over any number of frames without pointer
    input (manual rotation enabled, dampening [d] between 0 and 1), the
    target rotation moves on by at most [d / (1 - d)] times the velocity at
    the start, on each axis, and the velocity never grows again: with the
    constructor's dampening 0.95 a release at velocity [v] turns the target
    by at most [19 * v] more, whatever the frame rate. *)
Theorem X10_coasting_is_bounded_by_the_release_velocity :
  forall sinTime sinPulse deltas s,
    let m := ModelLoader.manualRotation s in
    let m' := ModelLoader.manualRotation (frames sinTime sinPulse deltas s) in
    let d := ManualRotation.dampening m in
    ManualRotation.enabled m = true -> 0 <= d -> d <= 1 ->
    (1 - d) * Qabs (ManualRotation.targetRotationY m'
                    - ManualRotation.targetRotationY m)
      <= d * Qabs (ManualRotation.velocityX m) /\
    (1 - d) * Qabs (ManualRotation.targetRotationX m'
                    - ManualRotation.targetRotationX m)
      <= d * Qabs (ManualRotation.velocityY m) /\
    Qabs (ManualRotation.velocityX m') <= Qabs (ManualRotation.velocityX m) /\
    Qabs (ManualRotation.velocityY m') <= Qabs (ManualRotation.velocityY m).
Proof.
  intros sinTime sinPulse deltas s. simpl. intros He H0 H1.
  destruct (frames_coast sinTime sinPulse deltas s (ModelLoader.manualRotation s) 1)
    as (k & Hk0 & Hk1 & Hvx & Hvy & Hty & Htx);
    try assumption; try reflexivity; try lra; try ring.
  split; [exact (coast_bound _ k _ _ H0 H1 Hk0 Hk1 Hty)|].
  split; [exact (coast_bound _ k _ _ H0 H1 Hk0 Hk1 Htx)|].
  assert (Hshrink : forall v v', v' == v * k -> Qabs v' <= Qabs v).
  { intros v v' E. rewrite E, Qabs_Qmult, (Qabs_pos k) by exact Hk0.
    assert (Hn := Qabs_nonneg v). nra. }
  split; apply Hshrink; assumption.
Qed.

(** *** The touch path *)

Lemma touchSample_target sinTime sinPulse s p :
  let m := ModelLoader.manualRotation s in
  ManualRotation.enabled m = true -> ManualRotation.isDragging m = true ->
  let m' := ModelLoader.manualRotation (touchSample sinTime sinPulse s p) in
  ManualRotation.enabled m' = true /\ ManualRotation.isDragging m' = true /\
  ManualRotation.sensitivity m' = ManualRotation.sensitivity m /\
  ManualRotation.dampening m' = ManualRotation.dampening m /\
  ManualRotation.velocityX m'
  == dx p * ManualRotation.sensitivity m * ManualRotation.dampening m /\
  ManualRotation.targetRotationY m'
  == ManualRotation.targetRotationY m
     + ManualRotation.dampening m * ManualRotation.sensitivity m * dx p.
Proof.
  cbv zeta. intros He Ha. unfold touchSample, touchBy.
  rewrite update_manual. unfold ModelLoader.onTouchMove.
  rewrite He, Ha. simpl. rewrite He. simpl.
  repeat split; try assumption; try reflexivity; ring.
Qed.

(** X11. The touch path has no clamp.  During a touch drag, samples each
    followed by one frame advance the accumulated target rotation by the
    dampening times the sensitivity times the sum of the raw horizontal
    deltas, however large they are ([onTouchMove] stores [delta *
    sensitivity] as it is, where [onMouseMove] clamps it to [maxSpeed]). *)
Theorem X11_touch_drag_accumulates_the_raw_deltas :
  forall sinTime sinPulse samples s,
    let m := ModelLoader.manualRotation s in
    ManualRotation.enabled m = true ->
    ManualRotation.isDragging m = true ->
    ManualRotation.targetRotationY
      (ModelLoader.manualRotation (touchSamples sinTime sinPulse samples s))
    == ManualRotation.targetRotationY m
       + ManualRotation.dampening m * ManualRotation.sensitivity m
         * sumQ (map dx samples).
Proof.
  intros sinTime sinPulse samples. unfold touchSamples.
  induction samples as [|p samples IH]; intros s; simpl; intros He Ha.
  { ring. }
  destruct (touchSample_target sinTime sinPulse s p He Ha)
    as (He' & Ha' & Hs' & Hd' & _ & Hy').
  rewrite (IH _ He' Ha'), Hy', Hs', Hd'. ring.
Qed.

End PointerRotation.

(** ** What a frame leaves behind *)

Section AfterAFrame.

Implicit Types (s : ModelLoader.t) (st : ModelState.t).

(** X12. With model ids that name no member of [Object.prototype] a
    frame returns, and after it the scene graph agrees with the state of
    each loaded model: the object is visible exactly when [state.visible]
    says so, the opacity of its materials is [currentOpacity], and it
    stands at [currentX]. *)
Theorem X12_frame_leaves_scene_graph_in_sync :
  forall delta sinTime sinPulse s,
    plain_keys s ->
    exists s',
      ModelLoader.tryUpdate delta sinTime sinPulse s = Some s' /\
      forall id st o,
        ModelLoader.modelStates s' !! id = Some st ->
        ModelState.modelObject st = Some o ->
        Object3D.visible o = ModelState.visible st /\
        Object3D.opacity o = ModelState.currentOpacity st /\
        Vector3.x (Object3D.position o) = ModelState.currentX st.
Proof.
  intros delta sinTime sinPulse s Hp.
  exists (ModelLoader.update delta sinTime sinPulse s).
  split; [apply tryUpdate_plain; exact Hp|].
  intros id st o. apply update_in_sync.
Qed.

(** After a frame that returns the spotlight of a loaded model stands
    where the model stands. *)
Lemma update_spotlight_follows :
  forall delta sinTime sinPulse s id st o d,
    let s' := ModelLoader.update delta sinTime sinPulse s in
    ModelLoader.modelStates s' !! id = Some st ->
    ModelState.modelObject st = Some o ->
    ModelLoader.spotlights s' !! id = Some d ->
    SpotLight.position (SpotlightData.light d)
    = Vector3.mk (ModelState.currentX st)
        (SpotlightConfig.height (ModelLoader.spotlightConfig s))
        (Vector3.z (Object3D.position o) + 5) /\
    Vector3.x (SpotlightData.target d)
    = ModelState.currentX st
      + Vector3.x (SpotlightConfig.targetOffset (ModelLoader.spotlightConfig s)) /\
    Vector3.z (SpotlightData.target d)
    = Vector3.z (Object3D.position o)
      + Vector3.z (SpotlightConfig.targetOffset (ModelLoader.spotlightConfig s)).
Proof.
  intros delta sinTime sinPulse s id st o d. cbv zeta.
  rewrite update_lookup, update_spotlights_lookup.
  destruct (ModelLoader.modelStates (rotated delta s) !! id) as [st0|] eqn:Hst0;
    simpl; [|discriminate].
  intros [= <-] Ho.
  destruct (ModelLoader.spotlights s !! id) as [d0|]; simpl; [|discriminate].
  intros [= <-].
  destruct (ModelState.modelObject st0) as [o0|] eqn:Ho0.
  2:{ rewrite updateModel_unloaded in Ho by exact Ho0. congruence. }
  destruct (updateModel_object delta
              (bool_decide (ModelLoader.activeModelId (rotated delta s) = Some id))
              (ManualRotation.isDragging (ModelLoader.manualRotation (rotated delta s)))
              (sinTime id) st0 o0 Ho0)
    as (o' & Ho' & _ & _ & _ & Hx & Hslid & Hz).
  rewrite Ho' in Ho. injection Ho as <-.
  unfold ModelLoader.followModel. rewrite Hst0, Ho0.
  unfold ModelLoader.animateSpotlight. simpl.
  rewrite <- Hx, Hslid, Hz.
  destruct (JS.Qltb 0 _); simpl; repeat split; reflexivity.
Qed.

(** X13. With model ids that name no member of [Object.prototype] a
    frame returns, and after it the spotlight of a loaded model stands
    where the model stands: at the model's [currentX], at the configured
    height, 5 units in front of the model, and it is aimed at the model's
    [currentX] and depth shifted by the configured target offset. *)
Theorem X13_spotlight_follows_its_model :
  forall delta sinTime sinPulse s,
    plain_keys s ->
    exists s',
      ModelLoader.tryUpdate delta sinTime sinPulse s = Some s' /\
      forall id st o d,
        ModelLoader.modelStates s' !! id = Some st ->
        ModelState.modelObject st = Some o ->
        ModelLoader.spotlights s' !! id = Some d ->
        SpotLight.position (SpotlightData.light d)
        = Vector3.mk (ModelState.currentX st)
            (SpotlightConfig.height (ModelLoader.spotlightConfig s))
            (Vector3.z (Object3D.position o) + 5) /\
        Vector3.x (SpotlightData.target d)
        = ModelState.currentX st
          + Vector3.x (SpotlightConfig.targetOffset (ModelLoader.spotlightConfig s)) /\
        Vector3.z (SpotlightData.target d)
        = Vector3.z (Object3D.position o)
          + Vector3.z (SpotlightConfig.targetOffset (ModelLoader.spotlightConfig s)).
Proof.
  intros delta sinTime sinPulse s Hp.
  exists (ModelLoader.update delta sinTime sinPulse s).
  split; [apply tryUpdate_plain; exact Hp|].
  intros id st o d. apply update_spotlight_follows.
Qed.




(** *** The idle rotation *)

Lemma updateAutoRotation_settings delta s :
  ModelLoader.autoRotation (ModelLoader.updateAutoRotation delta s)
  = ModelLoader.autoRotation s.
Proof.
  unfold ModelLoader.updateAutoRotation.
  destruct (AutoRotation.rotateActiveOnly _); [|reflexivity].
  destruct (ModelLoader.activeModelId s) as [a|]; simpl; [|reflexivity].
  destruct (JS.truthy_string a); reflexivity.
Qed.

Lemma update_settings delta sinTime sinPulse s :
  ModelLoader.autoRotation (ModelLoader.update delta sinTime sinPulse s)
  = ModelLoader.autoRotation s /\
  ManualRotation.isDragging
    (ModelLoader.manualRotation (ModelLoader.update delta sinTime sinPulse s))
  = ManualRotation.isDragging (ModelLoader.manualRotation s).
Proof.
  split.
  - rewrite update_rotated. simpl. unfold rotated.
    set (s1 := if ManualRotation.enabled _ then _ else s).
    assert (H1 : ModelLoader.autoRotation s1 = ModelLoader.autoRotation s).
    { unfold s1. destruct (ManualRotation.enabled _);
        [apply updateManualRotation_autoRotation|reflexivity]. }
    destruct (_ && _); [rewrite updateAutoRotation_settings|]; exact H1.
  - rewrite update_manual. destruct (ManualRotation.enabled _);
      [apply advanceManual_isDragging|reflexivity].
Qed.

(** One frame while no drag is in progress. *)
Lemma update_idle delta sinTime sinPulse s a st o :
  ManualRotation.isDragging (ModelLoader.manualRotation s) = false ->
  AutoRotation.enabled (ModelLoader.autoRotation s) = true ->
  AutoRotation.rotateActiveOnly (ModelLoader.autoRotation s) = true ->
  ModelLoader.activeModelId s = Some a -> JS.truthy_string a = true ->
  ModelLoader.modelStates s !! a = Some st ->
  ModelState.modelObject st = Some o ->
  exists st' o',
    ModelLoader.modelStates (ModelLoader.update delta sinTime sinPulse s) !! a
      = Some st' /\
    ModelState.modelObject st' = Some o' /\
    ModelState.autoRotation st'
    = ModelAutoRotation.set_currentRotationY (ModelState.autoRotation st)
        (ModelAutoRotation.currentRotationY (ModelState.autoRotation st)
         + AutoRotation.speed (ModelLoader.autoRotation s)
           * AutoRotation.direction (ModelLoader.autoRotation s) * delta) /\
    Object3D.rotation o'
    = Vector3.mk
        (ModelAutoRotation.baseRotationX (ModelState.autoRotation st))
        (ModelAutoRotation.baseRotationY (ModelState.autoRotation st)
         + (ModelAutoRotation.currentRotationY (ModelState.autoRotation st)
            + AutoRotation.speed (ModelLoader.autoRotation s)
              * AutoRotation.direction (ModelLoader.autoRotation s) * delta))
        (ModelAutoRotation.baseRotationZ (ModelState.autoRotation st)).
Proof.
  intros Hdrag Hauto Honly Ha Htruthy Hst Ho.
  rewrite update_lookup.
  set (s1 := if ManualRotation.enabled (ModelLoader.manualRotation s)
             then ModelLoader.updateManualRotation delta s else s).
  assert (Hs1 : exists h : ModelState.t -> ModelState.t,
             (forall st0, same_idle st0 (h st0)) /\
             ModelLoader.modelStates s1 !! a = Some (h st)).
  { unfold s1. destruct (ManualRotation.enabled _).
    - destruct (updateManualRotation_lookup delta s a) as [h [Hh Hl]].
      exists h. split; [exact Hh|]. rewrite Hl, Hst. reflexivity.
    - exists (fun st0 => st0). split; [apply same_idle_refl|exact Hst]. }
  assert (Hau1 : ModelLoader.autoRotation s1 = ModelLoader.autoRotation s).
  { unfold s1. destruct (ManualRotation.enabled _);
      [apply updateManualRotation_autoRotation|reflexivity]. }
  assert (Hact1 : ModelLoader.activeModelId s1 = Some a).
  { unfold s1. destruct (ManualRotation.enabled _);
      [rewrite updateManualRotation_active|]; exact Ha. }
  assert (Hdrag1 : ManualRotation.isDragging (ModelLoader.manualRotation s1) = false).
  { unfold s1. destruct (ManualRotation.enabled _);
      [rewrite updateManualRotation_manual, advanceManual_isDragging|]; exact Hdrag. }
  assert (Hrot : rotated delta s = ModelLoader.updateAutoRotation delta s1).
  { unfold rotated. fold s1. rewrite Hau1, Hauto, Hdrag1. reflexivity. }
  rewrite Hrot.
  destruct Hs1 as (h & Hh & Hl).
  destruct (Hh st) as [Hauto_st Hobj].
  destruct (ModelState.modelObject (h st)) as [o1|] eqn:Ho1;
    [|exfalso; destruct Hobj as [Hobj _]; specialize (Hobj eq_refl); congruence].
  rewrite (updateAutoRotation_states_active delta s1 a) by congruence.
  rewrite lookup_alter_eq, Hl, Hau1. simpl.
  set (st2 := ModelLoader.applyAutoRotation (ModelLoader.autoRotation s) delta (h st)).
  assert (Hst2 : exists o2, ModelState.modelObject st2 = Some o2 /\
             ModelState.autoRotation st2
             = ModelAutoRotation.set_currentRotationY (ModelState.autoRotation st)
                 (ModelAutoRotation.currentRotationY (ModelState.autoRotation st)
                  + AutoRotation.speed (ModelLoader.autoRotation s)
                    * AutoRotation.direction (ModelLoader.autoRotation s) * delta) /\
             Object3D.rotation o2
             = Vector3.mk
                 (ModelAutoRotation.baseRotationX (ModelState.autoRotation st))
                 (ModelAutoRotation.baseRotationY (ModelState.autoRotation st)
                  + (ModelAutoRotation.currentRotationY (ModelState.autoRotation st)
                     + AutoRotation.speed (ModelLoader.autoRotation s)
                       * AutoRotation.direction (ModelLoader.autoRotation s) * delta))
                 (ModelAutoRotation.baseRotationZ (ModelState.autoRotation st))).
  { unfold st2, ModelLoader.applyAutoRotation. rewrite Ho1. simpl.
    rewrite Hauto_st. eexists. split; [reflexivity|]. split; reflexivity. }
  destruct Hst2 as (o2 & Ho2 & Har2 & Hrot2).
  match goal with
  | |- context [ModelLoader.updateModel delta ?act ?drg ?sn st2] =>
      destruct (updateModel_object delta act drg sn st2 o2 Ho2)
        as (o' & Ho' & Hr' & _)
  end.
  eexists. exists o'. split; [reflexivity|]. split; [exact Ho'|].
  split; [rewrite updateModel_autoRotation; exact Har2|].
  rewrite Hr'. exact Hrot2.
Qed.

(** X15. The idle rotation depends on the elapsed time only.  Over any
    run of frames with no drag in progress (auto-rotation enabled, on the
    active model only) the idle angle of the active loaded model advances by
    [speed * direction] times the sum of the time steps, however the time
    is cut into frames. *)
Theorem X15_idle_rotation_advances_with_elapsed_time :
  forall sinTime sinPulse deltas s a st o,
    ManualRotation.isDragging (ModelLoader.manualRotation s) = false ->
    AutoRotation.enabled (ModelLoader.autoRotation s) = true ->
    AutoRotation.rotateActiveOnly (ModelLoader.autoRotation s) = true ->
    ModelLoader.activeModelId s = Some a -> JS.truthy_string a = true ->
    ModelLoader.modelStates s !! a = Some st ->
    ModelState.modelObject st = Some o ->
    exists st',
      ModelLoader.modelStates (frames sinTime sinPulse deltas s) !! a = Some st' /\
      ModelAutoRotation.currentRotationY (ModelState.autoRotation st')
      == ModelAutoRotation.currentRotationY (ModelState.autoRotation st)
         + AutoRotation.speed (ModelLoader.autoRotation s)
           * AutoRotation.direction (ModelLoader.autoRotation s) * sumQ deltas.
Proof.
  intros sinTime sinPulse deltas. unfold frames.
  induction deltas as [|delta deltas IH];
    intros s a st o Hdrag Hauto Honly Ha Htruthy Hst Ho.
  { simpl. exists st. split; [exact Hst|ring]. }
  simpl fold_left.
  destruct (update_idle delta sinTime sinPulse s a st o Hdrag Hauto Honly Ha
              Htruthy Hst Ho) as (st1 & o1 & Hst1 & Ho1 & Har1 & _).
  destruct (update_settings delta sinTime sinPulse s) as [Hset Hd1].
  destruct (IH (ModelLoader.update delta sinTime sinPulse s) a st1 o1)
    as (st' & Hst' & Hy); try (rewrite ?Hset, ?Hd1; assumption).
  { rewrite update_active. exact Ha. }
  exists st'. split; [exact Hst'|].
  rewrite Hy, Hset, Har1. simpl. ring.
Qed.

(** X16. While no drag is in progress the active model is shown in its
    idle pose: after such a frame its rotation is the idle base rotation
    with the idle angle added to the yaw.  The rotation that a drag gave the
    model (base rotation of the manual kind plus the accumulated manual
    rotation, tilt included) is dropped by the first frame after the
    release. *)
Theorem X16_first_idle_frame_drops_the_manual_rotation :
  forall delta sinTime sinPulse s a st o,
    ManualRotation.isDragging (ModelLoader.manualRotation s) = false ->
    AutoRotation.enabled (ModelLoader.autoRotation s) = true ->
    AutoRotation.rotateActiveOnly (ModelLoader.autoRotation s) = true ->
    ModelLoader.activeModelId s = Some a -> JS.truthy_string a = true ->
    ModelLoader.modelStates s !! a = Some st ->
    ModelState.modelObject st = Some o ->
    exists st' o',
      ModelLoader.modelStates (ModelLoader.update delta sinTime sinPulse s) !! a
        = Some st' /\
      ModelState.modelObject st' = Some o' /\
      Vector3.x (Object3D.rotation o')
      = ModelAutoRotation.baseRotationX (ModelState.autoRotation st) /\
      Vector3.y (Object3D.rotation o')
      = ModelAutoRotation.baseRotationY (ModelState.autoRotation st)
        + ModelAutoRotation.currentRotationY (ModelState.autoRotation st') /\
      Vector3.z (Object3D.rotation o')
      = ModelAutoRotation.baseRotationZ (ModelState.autoRotation st).
Proof.
  intros delta sinTime sinPulse s a st o Hdrag Hauto Honly Ha Htruthy Hst Ho.
  destruct (update_idle delta sinTime sinPulse s a st o Hdrag Hauto Honly Ha
              Htruthy Hst Ho) as (st' & o' & Hst' & Ho' & Har & Hrot).
  exists st', o'. split; [exact Hst'|]. split; [exact Ho'|].
  rewrite Hrot, Har. simpl. repeat split; reflexivity.
Qed.

End AfterAFrame.

(** ** Spotlight configuration, colours and layout *)

Section LightsAndLayout.

Implicit Types (s : ModelLoader.t).

Lemma mergeConfig_idempotent cfg config :
  ModelLoader.mergeConfig (ModelLoader.mergeConfig cfg config) config
  = ModelLoader.mergeConfig cfg config.
Proof.
  unfold ModelLoader.mergeConfig. simpl.
  destruct config as [c i d a p e h t].
  destruct c, i, d, a, p, e, h, t; reflexivity.
Qed.

Lemma or_else_idempotent v x : JS.or_else v (JS.or_else v x) = JS.or_else v x.
Proof.
  unfold JS.or_else. destruct v as [q|]; [|reflexivity].
  destruct (JS.truthy q); reflexivity.
Qed.

Lemma reconfigureLight_idempotent config l :
  ModelLoader.reconfigureLight config (ModelLoader.reconfigureLight config l)
  = ModelLoader.reconfigureLight config l.
Proof.
  unfold ModelLoader.reconfigureLight. simpl.
  rewrite !or_else_idempotent. f_equal.
  destruct (SpotlightSettings.color config) as [c|]; [|reflexivity].
  destruct (JS.truthy c); reflexivity.
Qed.

Lemma reconfigureLight_empty l :
  ModelLoader.reconfigureLight SpotlightSettings.empty l = l.
Proof. destruct l. reflexivity. Qed.

(** X17. [updateSpotlightConfig] is idempotent (a second call with the
    same settings changes nothing more), and a call with no setting at all
    changes nothing: not the stored configuration, not a light. *)
Theorem X17_updateSpotlightConfig_idempotent_and_neutral_on_empty :
  forall config s,
    ModelLoader.updateSpotlightConfig config
      (ModelLoader.updateSpotlightConfig config s)
    = ModelLoader.updateSpotlightConfig config s /\
    ModelLoader.updateSpotlightConfig SpotlightSettings.empty s = s.
Proof.
  intros config s. split.
  - unfold ModelLoader.updateSpotlightConfig. simpl.
    unfold ModelLoader.set_spotlights. simpl.
    rewrite mergeConfig_idempotent. f_equal.
    rewrite <- map_fmap_compose. apply map_fmap_ext.
    intros id d _. simpl. unfold SpotlightData.set_light. simpl.
    rewrite reconfigureLight_idempotent. reflexivity.
  - destruct s as [ms a off n mult sp cfg mr ar].
    unfold ModelLoader.updateSpotlightConfig, ModelLoader.set_spotlights. simpl.
    f_equal.
    + rewrite <- (map_fmap_id sp) at 2. apply map_fmap_ext.
      intros id d _. destruct d. unfold SpotlightData.set_light. simpl.
      rewrite reconfigureLight_empty. reflexivity.
    + destruct cfg. reflexivity.
Qed.

(** X18. A setting of the configuration reaches the lights created
    afterwards as it is, the value 0 included: a light created after
    [updateSpotlightConfig] with [intensity: q] has [originalIntensity = q];
    the light of the first model shines at [q] from the start, with
    [currentIntensity] and [targetIntensity] at [q], and for any other index
    the three are 0 (an existing light, by contrast, ignores a 0). *)
Theorem X18_configured_intensity_reaches_lights_created_later :
  forall config q position modelId index s,
    SpotlightSettings.intensity config = Some q ->
    exists d,
      ModelLoader.spotlights
        (ModelLoader.createSpotlightForModel position modelId index
           (ModelLoader.updateSpotlightConfig config s)) !! modelId = Some d /\
      SpotlightData.originalIntensity d = q /\
      (index = 0%Z ->
       SpotLight.intensity (SpotlightData.light d) = q /\
       SpotlightData.currentIntensity d = q /\
       SpotlightData.targetIntensity d = q) /\
      (index <> 0%Z ->
       SpotLight.intensity (SpotlightData.light d) = 0 /\
       SpotlightData.currentIntensity d = 0 /\
       SpotlightData.targetIntensity d = 0).
Proof.
  intros config q position modelId index s Hq.
  unfold ModelLoader.createSpotlightForModel. simpl.
  rewrite lookup_insert_eq. eexists. split; [reflexivity|]. simpl.
  rewrite Hq. simpl. split; [reflexivity|]. split.
  - intros ->. simpl. repeat split; reflexivity.
  - intros Hne. apply Z.eqb_neq in Hne. rewrite Hne. repeat split; reflexivity.
Qed.

(** *** The hue of a spotlight *)

(** [(index * 0.15) % 1] for an index that is not negative. *)
Lemma hueOf_nonnegative_index (index : Z) :
  (0 <= index)%Z ->
  ModelLoader.hueOf index
  = inject_Z index * 0.15 - inject_Z (Qfloor (inject_Z index * 0.15)).
Proof.
  intros H. unfold ModelLoader.hueOf.
  assert (Hv : 0 <= inject_Z index * 0.15).
  { assert (0 <= inject_Z index) by (change 0 with (inject_Z 0); rewrite <- Zle_Qle; exact H).
    lra. }
  destruct (Qltb_cases (inject_Z index * 0.15) 0) as [[_ Hlt]|[-> _]];
    [lra|reflexivity].
Qed.

(** [(index * 0.15) % 1] for a negative index: the remainder has the sign
    of the dividend. *)
Lemma hueOf_negative_index (index : Z) :
  (index < 0)%Z ->
  ModelLoader.hueOf index
  = inject_Z index * 0.15 - inject_Z (Qceiling (inject_Z index * 0.15)).
Proof.
  intros H. unfold ModelLoader.hueOf.
  assert (Hv : inject_Z index * 0.15 < 0).
  { assert (inject_Z index < 0) by (change 0 with (inject_Z 0); rewrite <- Zlt_Qlt; exact H).
    lra. }
  destruct (Qltb_cases (inject_Z index * 0.15) 0) as [[-> _]|[_ Hge]];
    [reflexivity|lra].
Qed.

(** X19. The hue of a spotlight, [(index * 0.15) % 1], is a hue that
    [setHSL] takes as it is when the index of the model is 0 or more, as
    every index the gallery passes is: it lies in the interval from 0
    (included) to 1 (excluded), and the first model gets the hue 0.  For a
    negative index the remainder is negative or 0, above -1. *)
Theorem X19_spotlight_hue_in_range :
  forall index,
    ((0 <= index)%Z ->
     0 <= ModelLoader.hueOf index /\ ModelLoader.hueOf index < 1) /\
    ((index < 0)%Z ->
     -1 < ModelLoader.hueOf index /\ ModelLoader.hueOf index <= 0) /\
    ModelLoader.hueOf 0 == 0.
Proof.
  intros index. split; [|split].
  - intros H. rewrite (hueOf_nonnegative_index index H).
    pose proof (Qfloor_le (inject_Z index * 0.15)) as Hlo.
    pose proof (Qlt_floor (inject_Z index * 0.15)) as Hhi.
    rewrite inject_Z_plus in Hhi. change (inject_Z 1) with 1 in Hhi.
    split; lra.
  - intros H. rewrite (hueOf_negative_index index H).
    pose proof (Qle_ceiling (inject_Z index * 0.15)) as Hhi.
    pose proof (Qceiling_lt (inject_Z index * 0.15)) as Hlo.
    unfold Z.sub in Hlo. rewrite inject_Z_plus in Hlo.
    change (inject_Z (- (1))) with (- (1)) in Hlo.
    split; lra.
  - reflexivity.
Qed.

(** *** The layout *)

(** The more models the gallery has, the closer to the centre and the
    smaller they are laid out, never the other way round: the offset and
    the scale multiplier chosen by [calculateSceneLayout] do not increase
    with the number of models, and stay within [4, 6] and [0.7, 1]. *)
Lemma calculateSceneLayout_tightens :
  forall n1 n2 s1 s2,
    (n1 <= n2)%Z ->
    let l1 := ModelLoader.calculateSceneLayout n1 s1 in
    let l2 := ModelLoader.calculateSceneLayout n2 s2 in
    ModelLoader.modelXOffset l2 <= ModelLoader.modelXOffset l1 /\
    ModelLoader.scaleMultiplier l2 <= ModelLoader.scaleMultiplier l1 /\
    4 <= ModelLoader.modelXOffset l2 /\ ModelLoader.modelXOffset l1 <= 6 /\
    0.7 <= ModelLoader.scaleMultiplier l2 /\ ModelLoader.scaleMultiplier l1 <= 1 /\
    ModelLoader.totalModels l1 = n1.
Proof.
  intros n1 n2 s1 s2 H. simpl. unfold ModelLoader.calculateSceneLayout.
  destruct (n1 <=? 3)%Z eqn:A1; destruct (n1 <=? 6)%Z eqn:A2;
    destruct (n1 <=? 10)%Z eqn:A3;
    destruct (n2 <=? 3)%Z eqn:B1; destruct (n2 <=? 6)%Z eqn:B2;
    destruct (n2 <=? 10)%Z eqn:B3; simpl;
    try (exfalso; lia); repeat split; try reflexivity; try lra.
Qed.

(** The camera and the model agree on where a model stands:
    [getModelPosition(index)] is the [targetX] (and [currentX], and
    [position.x]) that [positionModel] gives the model of that index for
    the same window width and offset; on a wide window neighbours stand on
    opposite sides ([getModelPosition(index + 1)] is the negated
    [getModelPosition(index)]), on a narrow one everything is at 0. *)
Lemma getModelPosition_positionModel :
  forall innerWidth randomY index model st s,
    let placed :=
      ModelLoader.positionModel innerWidth randomY (ModelLoader.modelXOffset s)
        index model st in
    ModelState.targetX (snd placed) = ModelLoader.getModelPosition innerWidth index s /\
    ModelState.currentX (snd placed) = ModelLoader.getModelPosition innerWidth index s /\
    Vector3.x (Object3D.position (fst placed))
    = ModelLoader.getModelPosition innerWidth index s /\
    ModelLoader.getModelPosition innerWidth (index + 1) s
    == - ModelLoader.getModelPosition innerWidth index s /\
    (ModelLoader.isMobile innerWidth = true ->
     ModelLoader.getModelPosition innerWidth index s = 0).
Proof.
  intros innerWidth randomY index model st s. simpl.
  unfold ModelLoader.positionModel, ModelLoader.getModelPosition. simpl.
  split; [reflexivity|]. split; [reflexivity|]. split; [reflexivity|].
  split.
  - unfold ModelLoader.isContentOnLeft.
    replace (index + 1)%Z with (Z.succ index) by lia. rewrite Z.even_succ.
    rewrite <- Z.negb_even.
    destruct (ModelLoader.isMobile innerWidth); [reflexivity|].
    destruct (Z.even index); simpl; ring.
  - intros ->. reflexivity.
Qed.

(** *** The setters *)

(** The setters keep the settings in their range whatever they are
    given, and store a value of the range as it is: sensitivity within
    [0.001, 0.1], dampening within [0.8, 0.99] (so that the coasting bound
    applies after every call), idle speed within [0, 5]. *)
Lemma setters_clamp :
  forall v s,
    let sens := ManualRotation.sensitivity
                  (ModelLoader.manualRotation (ModelLoader.setRotationSensitivity v s)) in
    let damp := ManualRotation.dampening
                  (ModelLoader.manualRotation (ModelLoader.setRotationDampening v s)) in
    let speed := AutoRotation.speed
                   (ModelLoader.autoRotation (ModelLoader.setAutoRotationSpeed v s)) in
    (0.001 <= sens <= 0.1 /\ (0.001 <= v <= 0.1 -> sens == v)) /\
    (0.8 <= damp <= 0.99 /\ (0.8 <= v <= 0.99 -> damp == v)) /\
    (0 <= speed <= 5 /\ (0 <= v <= 5 -> speed == v)).
Proof.
  intros v s. simpl.
  assert (Hclamp : forall lo hi, lo <= hi ->
            lo <= JS.Math_max lo (JS.Math_min hi v) <= hi /\
            (lo <= v <= hi -> JS.Math_max lo (JS.Math_min hi v) == v)).
  { intros lo hi Hlh.
    destruct (Math_min_cases hi v) as [[H1 ->]|[H1 ->]];
      [destruct (Math_max_cases lo hi) as [[H2 ->]|[H2 ->]]
      |destruct (Math_max_cases lo v) as [[H2 ->]|[H2 ->]]];
      (split; [lra|intros [H3 H4]; lra]). }
  split; [apply Hclamp; lra|]. split; apply Hclamp; lra.
Qed.

End LightsAndLayout.

(** ** MouseInteraction on its own: the drag and the touch handlers *)

Section Interaction.

Lemma rotateBy_yaw speed moves o :
  Vector3.y (Object3D.rotation (rotateBy speed moves o))
  == Vector3.y (Object3D.rotation o) + speed * sumQ (map fst moves) /\
  Vector3.z (Object3D.rotation (rotateBy speed moves o))
  = Vector3.z (Object3D.rotation o).
Proof.
  unfold rotateBy. revert o.
  induction moves as [|[ddx ddy] moves IH]; intros o; simpl.
  { split; [ring|reflexivity]. }
  destruct (IH (MouseInteraction.rotateObject speed ddx ddy o)) as [Hy Hz].
  split; [rewrite Hy; simpl; ring|rewrite Hz; reflexivity].
Qed.

(** X23. A drag handled by [MouseInteraction]: after any non-empty
    sequence of pointer moves the tilt of the model lies within 60 degrees
    either way ([Math.PI / 3]), the yaw is the initial yaw plus the rotation
    speed times the sum of the horizontal deltas (no clamp on that axis),
    and the roll is untouched. *)
Theorem X23_mouse_interaction_drag_clamps_tilt_and_sums_yaw :
  forall speed moves o,
    moves <> [] ->
    let o' := rotateBy speed moves o in
    - (JS.Math_PI / 3) <= Vector3.x (Object3D.rotation o') <= JS.Math_PI / 3 /\
    Vector3.y (Object3D.rotation o')
    == Vector3.y (Object3D.rotation o) + speed * sumQ (map fst moves) /\
    Vector3.z (Object3D.rotation o') = Vector3.z (Object3D.rotation o).
Proof.
  intros speed moves o Hne. simpl.
  split; [|apply rotateBy_yaw].
  destruct (exists_last Hne) as (front & [ddx ddy] & ->).
  unfold rotateBy. rewrite fold_left_app. simpl.
  apply (rotateObject_tilt_clamped speed ddx ddy).
Qed.

Lemma handle_coherent ms i :
  drag_coherent (fst ms) -> drag_coherent (fst (MouseInteraction.handle ms i)).
Proof.
  destruct ms as [m states]. simpl. intros Hc.
  destruct i as [button x y hit active|x y hit active| |touches dist hit active
                |touches dist|remaining| |]; simpl.
  - apply onMouseDown_coherent. exact Hc.
  - destruct (onMouseMove_flags x y hit active m states) as (F1 & F2 & F3).
    exact (coherent_ext _ _ F1 F2 F3 Hc).
  - apply onMouseUp_coherent. exact Hc.
  - unfold MouseInteraction.onTouchStart.
    destruct touches as [|[tx ty] [|t2 [|t3 rest]]]; simpl; try exact Hc.
    destruct hit as [id|]; simpl; [|exact Hc].
    destruct (JS.truthy_string id) eqn:Ht; simpl; [|exact Hc].
    destruct (bool_decide (Some id = active)); simpl; [|exact Hc].
    split; [reflexivity|exact Ht].
  - unfold MouseInteraction.onTouchMove.
    destruct touches as [|[tx ty] [|t2 [|t3 rest]]]; simpl; try exact Hc.
    destruct (MouseInteraction.isDragging m) eqn:Hd; simpl; [|exact Hc].
    unfold drag_coherent in *. simpl. rewrite Hd in *. exact Hc.
  - destruct remaining; simpl; [split; reflexivity|exact Hc].
  - apply reset_coherent.
  - split; reflexivity.
Qed.

(** X24. Whatever the canvas sends to a [MouseInteraction] object (mouse
    and touch events in any order, with one finger or several, [reset()],
    [disableInteraction()]), its drag state stays coherent:
    [isInteracting] equals [isDragging], a model is targeted exactly while
    a drag is in progress, and a targeted model has a non-empty id. *)
Theorem X24_mouse_interaction_state_stays_coherent :
  forall inputs states,
    drag_coherent
      (fst (fold_left MouseInteraction.handle inputs
              (MouseInteraction.constructor, states))).
Proof.
  intros inputs states.
  assert (H0 : drag_coherent (fst (MouseInteraction.constructor, states)))
    by (split; reflexivity).
  revert H0. generalize (MouseInteraction.constructor, states).
  induction inputs as [|i inputs IH]; intros ms H0; simpl; [exact H0|].
  apply IH. apply handle_coherent. exact H0.
Qed.

End Interaction.

(** ** Loading *)

Section Loading.

Implicit Types (s : ModelLoader.t) (g : Gallery3D.t).

Lemma loadFrom_ui envOf items i total g :
  Gallery3D.ui (Gallery3D.loadFrom envOf i items i total g)
  = Gallery3D.ui g ++ loadReport envOf i items total.
Proof.
  revert i g. induction items as [|item rest IH]; intros i g; simpl.
  { rewrite app_nil_r. reflexivity. }
  destruct (ModelLoader.loadModel (envOf i) item i (Gallery3D.modelLoader g))
    as [l ok] eqn:Hload.
  assert (Hok : ok = match ModelLoader.outcome (envOf i) with
                     | Some _ => true | None => false end).
  { unfold ModelLoader.loadModel in Hload.
    destruct (ModelLoader.outcome (envOf i)); injection Hload as _ <-; reflexivity. }
  rewrite IH. destruct (ModelLoader.outcome (envOf i)); subst ok; simpl;
    rewrite <- app_assoc; reflexivity.
Qed.

Lemma loadReport_app envOf i front back total :
  loadReport envOf i (front ++ back) total
  = loadReport envOf i front total
    ++ loadReport envOf (i + Z.of_nat (length front)) back total.
Proof.
  revert i. induction front as [|item front IH]; intros i; simpl.
  { rewrite Z.add_0_r. reflexivity. }
  rewrite IH. do 3 f_equal. lia.
Qed.

Lemma loadReport_progress envOf items i total q :
  (0 <= i)%Z -> (i + Z.of_nat (length items) <= total)%Z ->
  In (Gallery3D.UpdateProgress q) (loadReport envOf i items total) ->
  0 < q /\ q <= 100.
Proof.
  revert i. induction items as [|item rest IH]; intros i Hi Hlen; simpl.
  { intros []. }
  simpl in Hlen. intros [Hq|Hin].
  - destruct (ModelLoader.outcome (envOf i)); [|discriminate Hq].
    injection Hq as <-.
    assert (H1 : 0 < inject_Z (i + 1))
      by (change 0 with (inject_Z 0); rewrite <- Zlt_Qlt; lia).
    assert (H2 : inject_Z (i + 1) <= inject_Z total)
      by (rewrite <- Zle_Qle; lia).
    assert (H3 : 0 < inject_Z total) by lra.
    assert (H4 : 0 < inject_Z (i + 1) / inject_Z total)
      by (apply Qlt_shift_div_l; lra).
    assert (H5 : inject_Z (i + 1) / inject_Z total <= 1)
      by (apply Qle_shift_div_r; lra).
    split; lra.
  - apply (IH (i + 1)%Z); [lia|lia|exact Hin].
Qed.

Lemma clampPercentage_neutral q :
  0 <= q -> q <= 100 -> UIManager.clampPercentage q == q.
Proof.
  intros H0 H1. unfold UIManager.clampPercentage.
  destruct (Math_min_cases 100 q) as [[A ->]|[A ->]];
    [destruct (Math_max_cases 0 100) as [[B ->]|[B ->]]
    |destruct (Math_max_cases 0 q) as [[B ->]|[B ->]]]; lra.
Qed.

(** X25. What [loadModels] reports, in order: for the item of index [k],
    the progress [(k + 1) / total * 100] if its model loads, an error
    message with its title if it fails.  A failed model counts as loaded
    for the progress, so when the last model loads the bar reaches 100
    percent whatever happened to the others.  Every progress reported lies
    above 0 and at most at 100, so [UIManager.updateProgress] shows it
    unclamped. *)
Theorem X25_load_report_counts_failures_as_progress :
  forall items autoSpeed dist cfg envOf,
    let g := Gallery3D.init items autoSpeed dist cfg envOf in
    Gallery3D.ui g = loadReport envOf 0 items (Z.of_nat (length items)) /\
    (forall front item gltf,
       items = front ++ [item] ->
       ModelLoader.outcome (envOf (Z.of_nat (length front))) = Some gltf ->
       exists q,
         last (Gallery3D.ui g) = Some (Gallery3D.UpdateProgress q) /\
         q == 100) /\
    (forall q,
       In (Gallery3D.UpdateProgress q) (Gallery3D.ui g) ->
       0 < q /\ q <= 100 /\ UIManager.clampPercentage q == q).
Proof.
  intros items autoSpeed dist cfg envOf. cbv zeta.
  assert (Hui : Gallery3D.ui (Gallery3D.init items autoSpeed dist cfg envOf)
                = loadReport envOf 0 items (Z.of_nat (length items))).
  { unfold Gallery3D.init, Gallery3D.loadModels.
    set (g0 := Gallery3D.mk items _ _ _ _ _ _ _).
    set (g1 := Gallery3D.set_modelLoader g0 _).
    change (Gallery3D.galleryData g1) with items.
    pose proof (loadFrom_ui envOf items 0 (Gallery3D.length_of g0) g1) as H.
    set (g2 := Gallery3D.loadFrom envOf 0 items 0 (Gallery3D.length_of g0) g1) in *.
    clearbody g2. destruct (Gallery3D.galleryData g2); simpl; exact H. }
  split; [exact Hui|]. split.
  - intros front item gltf -> Hload. rewrite Hui, loadReport_app. simpl.
    rewrite !Z.add_0_l, Hload, last_snoc. eexists. split; [reflexivity|].
    rewrite length_app. simpl.
    replace (Z.of_nat (length front + 1)) with (Z.of_nat (length front) + 1)%Z by lia.
    assert (Hpos : 0 < inject_Z (Z.of_nat (length front) + 1)).
    { change 0 with (inject_Z 0). rewrite <- Zlt_Qlt. lia. }
    field. lra.
  - intros q Hin. rewrite Hui in Hin.
    destruct (loadReport_progress envOf items 0 (Z.of_nat (length items)) q)
      as [H0 H1]; [lia|lia|exact Hin|].
    split; [exact H0|]. split; [exact H1|].
    apply clampPercentage_neutral; lra.
Qed.

(** *** The model states after loading *)

Lemma processModel_states w ry gltf item index s id st :
  ModelLoader.modelStates (ModelLoader.processModel w ry gltf item index s) !! id
    = Some st ->
  id = GalleryItem.id item \/ ModelLoader.modelStates s !! id = Some st.
Proof.
  unfold ModelLoader.processModel.
  destruct (ModelLoader.modelStates s !! GalleryItem.id item) as [st0|];
    [|right; assumption].
  destruct (ModelLoader.positionModel _ _ _ _ _ _) as [model1 st2].
  destruct (decide (id = GalleryItem.id item)) as [->|Hne]; [left; reflexivity|].
  intros H. right.
  destruct (index =? 0)%Z; simpl in H;
    rewrite lookup_insert_ne in H by congruence; exact H.
Qed.

Lemma processModel_spotlights w ry gltf item index s id d :
  ModelLoader.spotlights (ModelLoader.processModel w ry gltf item index s) !! id
    = Some d ->
  id = GalleryItem.id item \/ ModelLoader.spotlights s !! id = Some d.
Proof.
  unfold ModelLoader.processModel.
  destruct (ModelLoader.modelStates s !! GalleryItem.id item) as [st0|];
    [|right; assumption].
  destruct (ModelLoader.positionModel _ _ _ _ _ _) as [model1 st2].
  destruct (decide (id = GalleryItem.id item)) as [->|Hne]; [left; reflexivity|].
  intros H. right.
  destruct (index =? 0)%Z; simpl in H;
    rewrite lookup_insert_ne in H by congruence; exact H.
Qed.

(** One [loadModel]: the states and lights it leaves. *)
Lemma loadModel_after env item index s :
  let l := fst (ModelLoader.loadModel env item index s) in
  is_Some (ModelLoader.modelStates l !! GalleryItem.id item) /\
  (forall id, is_Some (ModelLoader.modelStates s !! id) ->
              is_Some (ModelLoader.modelStates l !! id)) /\
  (forall id st,
     ModelLoader.modelStates l !! id = Some st ->
     is_Some (ModelState.modelObject st) ->
     (id = GalleryItem.id item /\ is_Some (ModelLoader.outcome env)) \/
     ModelLoader.modelStates s !! id = Some st) /\
  (forall id d,
     ModelLoader.spotlights l !! id = Some d ->
     (id = GalleryItem.id item /\ is_Some (ModelLoader.outcome env)) \/
     ModelLoader.spotlights s !! id = Some d).
Proof.
  simpl. unfold ModelLoader.loadModel.
  set (s1 := ModelLoader.set_modelStates s _).
  assert (K1 : is_Some (ModelLoader.modelStates s1 !! GalleryItem.id item)).
  { unfold s1. simpl. rewrite lookup_insert_eq. eexists; reflexivity. }
  assert (K2 : forall id, is_Some (ModelLoader.modelStates s !! id) ->
                          is_Some (ModelLoader.modelStates s1 !! id)).
  { intros id Hid. unfold s1. simpl.
    destruct (decide (id = GalleryItem.id item)) as [->|Hne];
      [exact K1|rewrite lookup_insert_ne by congruence; exact Hid]. }
  assert (K3 : forall id st, ModelLoader.modelStates s1 !! id = Some st ->
                 is_Some (ModelState.modelObject st) ->
                 ModelLoader.modelStates s !! id = Some st).
  { intros id st. unfold s1. simpl.
    destruct (decide (id = GalleryItem.id item)) as [->|Hne].
    - rewrite lookup_insert_eq. intros [= <-] [o Ho]. discriminate Ho.
    - rewrite lookup_insert_ne by congruence. trivial. }
  destruct (ModelLoader.outcome env) as [gltf|]; simpl.
  - split; [apply processModel_keeps; exact K1|].
    split; [intros id Hid; apply processModel_keeps, K2, Hid|].
    split.
    + intros id st Hst Ho.
      destruct (processModel_states _ _ _ _ _ _ _ _ Hst) as [->|Hst1].
      * left. split; [reflexivity|eexists; reflexivity].
      * right. apply K3; assumption.
    + intros id d Hd.
      destruct (processModel_spotlights _ _ _ _ _ _ _ _ Hd) as [->|Hd1].
      * left. split; [reflexivity|eexists; reflexivity].
      * right. exact Hd1.
  - split; [exact K1|]. split; [exact K2|]. split.
    + intros id st Hst Ho. right. apply K3; assumption.
    + intros id d Hd. right. exact Hd.
Qed.

Lemma loaded_at_cons envOf i item rest id :
  loaded_at envOf (i + 1) rest id -> loaded_at envOf i (item :: rest) id.
Proof.
  intros (k & it & Hk & Hid & Hok). exists (S k), it.
  split; [exact Hk|]. split; [exact Hid|].
  replace (i + Z.of_nat (S k))%Z with (i + 1 + Z.of_nat k)%Z by lia. exact Hok.
Qed.

Lemma loaded_at_head envOf i item rest :
  is_Some (ModelLoader.outcome (envOf i)) ->
  loaded_at envOf i (item :: rest) (GalleryItem.id item).
Proof.
  intros Hok. exists O, item. split; [reflexivity|]. split; [reflexivity|].
  replace (i + Z.of_nat 0)%Z with i by lia. exact Hok.
Qed.

Lemma loadFrom_after envOf items i loaded total g :
  let l := Gallery3D.modelLoader (Gallery3D.loadFrom envOf i items loaded total g) in
  (forall item, In item items ->
     is_Some (ModelLoader.modelStates l !! GalleryItem.id item)) /\
  (forall id, is_Some (ModelLoader.modelStates (Gallery3D.modelLoader g) !! id) ->
              is_Some (ModelLoader.modelStates l !! id)) /\
  (forall id st,
     ModelLoader.modelStates l !! id = Some st ->
     is_Some (ModelState.modelObject st) ->
     loaded_at envOf i items id \/
     ModelLoader.modelStates (Gallery3D.modelLoader g) !! id = Some st) /\
  (forall id d,
     ModelLoader.spotlights l !! id = Some d ->
     loaded_at envOf i items id \/
     ModelLoader.spotlights (Gallery3D.modelLoader g) !! id = Some d).
Proof.
  simpl. revert i loaded g.
  induction items as [|item rest IH]; intros i loaded g; simpl.
  { split; [intros item []|]. split; [trivial|]. split; intros; right; assumption. }
  destruct (loadModel_after (envOf i) item i (Gallery3D.modelLoader g))
    as (A1 & A2 & A3 & A4).
  destruct (ModelLoader.loadModel (envOf i) item i (Gallery3D.modelLoader g))
    as [l ok]. simpl in A1, A2, A3, A4.
  set (g2 := if ok then _ else _).
  assert (Hl : Gallery3D.modelLoader g2 = l) by (unfold g2; destruct ok; reflexivity).
  destruct (IH (i + 1)%Z (loaded + 1)%Z g2) as (B1 & B2 & B3 & B4).
  rewrite Hl in B2, B3, B4.
  split; [|split; [|split]].
  - intros it [<-|Hin]; [apply B2, A1|apply B1, Hin].
  - intros id Hid. apply B2, A2, Hid.
  - intros id st Hst Ho.
    destruct (B3 id st Hst Ho) as [Hl1|Hst1]; [left; apply loaded_at_cons, Hl1|].
    destruct (A3 id st Hst1 Ho) as [[-> Hok]|Hst0];
      [left; apply loaded_at_head, Hok|right; exact Hst0].
  - intros id d Hd.
    destruct (B4 id d Hd) as [Hl1|Hd1]; [left; apply loaded_at_cons, Hl1|].
    destruct (A4 id d Hd1) as [[-> Hok]|Hd0];
      [left; apply loaded_at_head, Hok|right; exact Hd0].
Qed.

Lemma showModel_lookup_back modelId index s id st' :
  ModelLoader.modelStates (ModelLoader.showModel modelId index s) !! id
    = Some st' ->
  exists st, ModelLoader.modelStates s !! id = Some st /\
             (is_Some (ModelState.modelObject st') ->
              is_Some (ModelState.modelObject st)).
Proof.
  rewrite showModel_states.
  assert (Hshow : forall st, is_Some (ModelState.modelObject (ModelLoader.showState st)) ->
                             is_Some (ModelState.modelObject st)).
  { intros st. unfold ModelLoader.showState. simpl.
    destruct (ModelState.modelObject st) eqn:E; simpl; intros H;
      [eexists; reflexivity|]. simpl in H. rewrite E in H. exact H. }
  assert (Hhid : forall st0, hidden_states s !! id = Some st0 ->
            exists st, ModelLoader.modelStates s !! id = Some st /\
              (is_Some (ModelState.modelObject st0) ->
               is_Some (ModelState.modelObject st))).
  { intros st0. unfold hidden_states.
    destruct (ModelLoader.activeModelId s) as [a|];
      [|intros H; exists st0; split; [exact H|trivial]].
    destruct (JS.truthy_string a);
      [|intros H; exists st0; split; [exact H|trivial]].
    destruct (decide (a = id)) as [->|Hne].
    - rewrite lookup_alter_eq.
      destruct (ModelLoader.modelStates s !! id) as [st|]; simpl; [|discriminate].
      intros [= <-]. exists st. split; [reflexivity|trivial].
    - rewrite lookup_alter_ne by exact Hne.
      intros H; exists st0; split; [exact H|trivial]. }
  destruct (decide (modelId = id)) as [->|Hne].
  - rewrite lookup_alter_eq.
    destruct (hidden_states s !! id) as [st0|] eqn:H0; simpl; [|discriminate].
    intros [= <-]. destruct (Hhid st0 eq_refl) as (st & Hst & Hobj).
    exists st. split; [exact Hst|]. intros H. apply Hobj, Hshow, H.
  - rewrite lookup_alter_ne by exact Hne. apply Hhid.
Qed.

Lemma showModel_spotlight_back modelId index s id d' :
  ModelLoader.spotlights (ModelLoader.showModel modelId index s) !! id = Some d' ->
  is_Some (ModelLoader.spotlights s !! id).
Proof.
  rewrite showModel_spotlights.
  destruct (decide (modelId = id)) as [->|Hne];
    [rewrite lookup_alter_eq|rewrite lookup_alter_ne by exact Hne];
    rewrite lookup_fmap;
    destruct (ModelLoader.spotlights s !! id); simpl;
    solve [discriminate | intros _; eexists; reflexivity].
Qed.

(** X26. After [init] every item of the configuration has a model
    state, whether its model loaded or not; a state has a scene-graph
    object only if the load of an item with that id succeeded, and a
    spotlight exists only for such an id.  A model that failed to load (and
    shares its id with no other item) is thus left with a state without
    object and without light. *)
Theorem X26_failed_loads_leave_a_state_without_object_or_light :
  forall items autoSpeed dist cfg envOf,
    let l := Gallery3D.modelLoader (Gallery3D.init items autoSpeed dist cfg envOf) in
    (forall item, In item items ->
       is_Some (ModelLoader.modelStates l !! GalleryItem.id item)) /\
    (forall id st,
       ModelLoader.modelStates l !! id = Some st ->
       is_Some (ModelState.modelObject st) -> loaded_at envOf 0 items id) /\
    (forall id d,
       ModelLoader.spotlights l !! id = Some d -> loaded_at envOf 0 items id).
Proof.
  intros items autoSpeed dist cfg envOf. cbv zeta.
  unfold Gallery3D.init, Gallery3D.loadModels.
  set (g0 := Gallery3D.mk items _ _ _ _ _ _ _).
  set (g1 := Gallery3D.set_modelLoader g0 _).
  change (Gallery3D.galleryData g1) with items.
  destruct (loadFrom_after envOf items 0 0 (Gallery3D.length_of g0) g1)
    as (B1 & _ & B3 & B4).
  assert (E1 : ModelLoader.modelStates (Gallery3D.modelLoader g1) = ∅).
  { unfold g1, g0. simpl. rewrite calculateSceneLayout_states.
    destruct cfg; reflexivity. }
  assert (E2 : ModelLoader.spotlights (Gallery3D.modelLoader g1) = ∅).
  { unfold g1, g0. simpl. unfold ModelLoader.calculateSceneLayout.
    repeat (destruct (_ <=? _)%Z); destruct cfg; reflexivity. }
  assert (C3 : forall id st,
             ModelLoader.modelStates
               (Gallery3D.modelLoader
                  (Gallery3D.loadFrom envOf 0 items 0 (Gallery3D.length_of g0) g1))
               !! id = Some st ->
             is_Some (ModelState.modelObject st) -> loaded_at envOf 0 items id).
  { intros id st Hst Ho. destruct (B3 id st Hst Ho) as [H|H]; [exact H|].
    rewrite E1, lookup_empty in H. discriminate H. }
  assert (C4 : forall id d,
             ModelLoader.spotlights
               (Gallery3D.modelLoader
                  (Gallery3D.loadFrom envOf 0 items 0 (Gallery3D.length_of g0) g1))
               !! id = Some d -> loaded_at envOf 0 items id).
  { intros id d Hd. destruct (B4 id d Hd) as [H|H]; [exact H|].
    rewrite E2, lookup_empty in H. discriminate H. }
  pose proof (loadFrom_galleryData envOf items 0 0 (Gallery3D.length_of g0) g1) as Hd.
  change (Gallery3D.galleryData g1) with items in Hd.
  set (g2 := Gallery3D.loadFrom envOf 0 items 0 (Gallery3D.length_of g0) g1) in *.
  clearbody g2. rewrite Hd. clear B3 B4.
  destruct items as [|item0 rest];
    cbn [Gallery3D.modelLoader Gallery3D.set_currentIndex Gallery3D.set_modelLoader].
  { split; [intros item []|]. split; [exact C3|exact C4]. }
  split; [|split].
  - intros item Hin. apply showModel_keeps, B1, Hin.
  - intros id st Hst Ho.
    destruct (showModel_lookup_back _ _ _ _ _ Hst) as (st0 & Hst0 & Hobj).
    apply (C3 id st0 Hst0), Hobj, Ho.
  - intros id d Hsp.
    destruct (showModel_spotlight_back _ _ _ _ _ Hsp) as [d0 Hd0].
    apply (C4 id d0 Hd0).
Qed.

End Loading.

(** ** Keyboard, scroll handler and messages *)

Section Navigation.

Variable orbitControls_update : Controls.t -> Vector3.t.

Implicit Types (g : Gallery3D.t) (sh : ScrollHandler.t).

Lemma switchToItem_index now idx g :
  Gallery3D.galleryData (Gallery3D.switchToItem now idx g) = Gallery3D.galleryData g /\
  (Gallery3D.switchToItem now idx g = g \/
   (Gallery3D.currentIndex (Gallery3D.switchToItem now idx g) = idx /\
    (0 <= idx < Gallery3D.length_of g)%Z)).
Proof.
  destruct (switchToItem_cases now idx g) as [->|(item & Hitem & ->)].
  - split; [reflexivity|left; reflexivity].
  - split; [reflexivity|]. right. split; [reflexivity|].
    eapply item_at_range. exact Hitem.
Qed.

Lemma navigateToItem_index hasElement now idx g :
  let g' := Gallery3D.navigateToItem hasElement now idx g in
  Gallery3D.galleryData g' = Gallery3D.galleryData g /\
  (Gallery3D.currentIndex g' = Gallery3D.currentIndex g \/
   (Gallery3D.currentIndex g' = idx /\ (0 <= idx < Gallery3D.length_of g)%Z)).
Proof.
  simpl. unfold Gallery3D.navigateToItem.
  destruct (_ && _); [|split; [reflexivity|left; reflexivity]].
  destruct (Gallery3D.item_at g idx) as [item|];
    [|split; [reflexivity|left; reflexivity]].
  destruct (hasElement _); [|split; [reflexivity|left; reflexivity]].
  set (g1 := Gallery3D.emit g _).
  destruct (switchToItem_index now idx g1) as [Hd [->|[Hi Hr]]].
  - split; [reflexivity|left; reflexivity].
  - split; [exact Hd|]. right. split; [exact Hi|exact Hr].
Qed.

(** X27. The keyboard never takes the gallery out of its range and never
    wraps around: after any key the current index still lies within the
    gallery and differs from the one before by at most one; [ArrowUp] on the
    first item and [ArrowDown] on the last one change nothing at all. *)
Theorem X27_arrow_keys_stay_in_range_without_wrapping :
  forall hasElement now key g,
    index_in_range g ->
    let g' := fst (Gallery3D.onKeyDown orbitControls_update hasElement now key g) in
    index_in_range g' /\
    Gallery3D.galleryData g' = Gallery3D.galleryData g /\
    (Gallery3D.currentIndex g - 1 <= Gallery3D.currentIndex g'
       <= Gallery3D.currentIndex g + 1)%Z /\
    (key = Gallery3D.ArrowUp -> Gallery3D.currentIndex g = 0%Z -> g' = g) /\
    (key = Gallery3D.ArrowDown ->
     Gallery3D.currentIndex g = (Gallery3D.length_of g - 1)%Z -> g' = g).
Proof.
  intros hasElement now key g Hr. cbv zeta. unfold index_in_range in *.
  destruct key; cbn [fst Gallery3D.onKeyDown].
  - destruct (navigateToItem_index hasElement now (Gallery3D.currentIndex g - 1) g)
      as [Hd Hi]. cbv zeta in Hd, Hi.
    unfold Gallery3D.length_of in *. rewrite Hd.
    split; [destruct Hi as [->|[-> ?]]; lia|]. split; [reflexivity|].
    split; [destruct Hi as [->|[-> ?]]; lia|].
    split; [|discriminate].
    intros _ H0. apply navigateToItem_discarded. right. left. lia.
  - destruct (navigateToItem_index hasElement now (Gallery3D.currentIndex g + 1) g)
      as [Hd Hi]. cbv zeta in Hd, Hi.
    unfold Gallery3D.length_of in *. rewrite Hd.
    split; [destruct Hi as [->|[-> ?]]; lia|]. split; [reflexivity|].
    split; [destruct Hi as [->|[-> ?]]; lia|].
    split; [discriminate|].
    intros _ H0. apply navigateToItem_discarded. right. right.
    unfold Gallery3D.length_of. lia.
  - simpl. unfold Gallery3D.length_of in *. simpl.
    split; [exact Hr|]. split; [reflexivity|]. split; [lia|].
    split; discriminate.
  - simpl. unfold Gallery3D.length_of in *. simpl.
    split; [exact Hr|]. split; [reflexivity|]. split; [lia|].
    split; discriminate.
  - split; [exact Hr|]. split; [reflexivity|]. split; [lia|].
    split; discriminate.
Qed.

(** *** The scroll handler *)

Lemma findIndexFrom_range i data id :
  ScrollHandler.findIndexFrom i data id = (-1)%Z \/
  (i <= ScrollHandler.findIndexFrom i data id < i + Z.of_nat (length data))%Z.
Proof.
  revert i. induction data as [|item rest IH]; intros i; simpl; [left; reflexivity|].
  destruct (bool_decide _); [right; lia|].
  destruct (IH (i + 1)%Z) as [->|H]; [left; reflexivity|right; lia].
Qed.

Lemma visit_keeps env sh acc entry :
  ScrollHandler.galleryData (fst (fst acc)) = ScrollHandler.galleryData sh /\
  ScrollHandler.currentIndex (fst (fst acc)) = ScrollHandler.currentIndex sh /\
  (forall i, snd (fst acc) = Some i -> (0 <= i < ScrollHandler.length_of sh)%Z) ->
  let acc' := ScrollHandler.visit env sh acc entry in
  ScrollHandler.galleryData (fst (fst acc')) = ScrollHandler.galleryData sh /\
  ScrollHandler.currentIndex (fst (fst acc')) = ScrollHandler.currentIndex sh /\
  (forall i, snd (fst acc') = Some i -> (0 <= i < ScrollHandler.length_of sh)%Z).
Proof.
  destruct acc as [[sh0 most0] v0]. simpl. intros (Hd & Hc & Hm).
  destruct (ScrollHandler.findIndex sh (ScrollHandler.targetId entry) =? -1)%Z eqn:Hf.
  { simpl. split; [exact Hd|]. split; [exact Hc|exact Hm]. }
  destruct (JS.Qltb v0 _); simpl; (split; [exact Hd|]); (split; [exact Hc|]);
    [|exact Hm].
  intros i [= <-]. apply Z.eqb_neq in Hf.
  unfold ScrollHandler.findIndex, ScrollHandler.length_of in *.
  destruct (findIndexFrom_range 0 (ScrollHandler.galleryData sh)
              (ScrollHandler.targetId entry)) as [E|E]; [congruence|lia].
Qed.

Lemma visit_fold env sh entries acc :
  ScrollHandler.galleryData (fst (fst acc)) = ScrollHandler.galleryData sh /\
  ScrollHandler.currentIndex (fst (fst acc)) = ScrollHandler.currentIndex sh /\
  (forall i, snd (fst acc) = Some i -> (0 <= i < ScrollHandler.length_of sh)%Z) ->
  let acc' := fold_left (ScrollHandler.visit env sh) entries acc in
  ScrollHandler.galleryData (fst (fst acc')) = ScrollHandler.galleryData sh /\
  ScrollHandler.currentIndex (fst (fst acc')) = ScrollHandler.currentIndex sh /\
  (forall i, snd (fst acc') = Some i -> (0 <= i < ScrollHandler.length_of sh)%Z).
Proof.
  revert acc. induction entries as [|entry entries IH]; intros acc H0.
  { exact H0. }
  simpl fold_left. apply IH. apply visit_keeps. exact H0.
Qed.

Lemma scroll_item_at sh idx :
  (0 <= idx < ScrollHandler.length_of sh)%Z ->
  exists item, ScrollHandler.item_at sh idx = Some item.
Proof.
  unfold ScrollHandler.item_at, ScrollHandler.length_of. intros H.
  destruct (idx <? 0)%Z eqn:Hneg; [apply Z.ltb_lt in Hneg; lia|].
  destruct (lookup_lt_is_Some_2 (ScrollHandler.galleryData sh) (Z.to_nat idx))
    as [item Hitem]; [lia|].
  exists item. exact Hitem.
Qed.

Lemma setActiveItem_ok env now idx sh g :
  ScrollHandler.galleryData sh = Gallery3D.galleryData g ->
  (0 <= ScrollHandler.currentIndex sh < ScrollHandler.length_of sh)%Z ->
  (0 <= idx < ScrollHandler.length_of sh)%Z ->
  exists sh' g',
    ScrollHandler.setActiveItem env now idx (sh, g) = Some (sh', g') /\
    ScrollHandler.currentIndex sh' = idx /\
    ScrollHandler.galleryData sh' = ScrollHandler.galleryData sh /\
    Gallery3D.galleryData g' = Gallery3D.galleryData g /\
    (idx <> ScrollHandler.currentIndex sh -> Gallery3D.currentIndex g' = idx).
Proof.
  intros Hd Hc Hi. unfold ScrollHandler.setActiveItem.
  destruct (idx =? ScrollHandler.currentIndex sh)%Z eqn:He.
  { apply Z.eqb_eq in He. exists sh, g. repeat split; congruence. }
  apply Z.eqb_neq in He.
  destruct (scroll_item_at sh _ Hc) as [prev ->].
  destruct (scroll_item_at sh _ Hi) as [item Hitem]. rewrite Hitem.
  assert (Hle : (0 <=? ScrollHandler.currentIndex sh)%Z = true)
    by (apply Z.leb_le; lia).
  rewrite Hle. eexists. eexists. split; [reflexivity|]. simpl.
  split; [reflexivity|]. split; [reflexivity|].
  unfold Gallery3D.onItemChange.
  destruct (switchToItem_index now idx g) as [Hdata Hidx].
  split; [exact Hdata|]. intros _.
  destruct (Z.eq_dec idx (Gallery3D.currentIndex g)) as [E|N].
  - rewrite switchToItem_discarded by (left; exact E). symmetry. exact E.
  - apply (switchToItem_currentIndex now idx g item); [|exact N].
    unfold ScrollHandler.item_at in Hitem. unfold Gallery3D.item_at.
    rewrite <- Hd. exact Hitem.
Qed.

(** X28. The intersection observer never throws and keeps the two indices
    together: when [handleIntersection] runs on a handler whose index lies
    in the gallery, it returns normally, the index of the handler still lies
    in the gallery, and whenever it changed that index the gallery shows
    the item of the same index afterwards. *)
Theorem X28_scroll_activation_resynchronises_the_gallery :
  forall env now entries sh g,
    ScrollHandler.galleryData sh = Gallery3D.galleryData g ->
    (0 <= ScrollHandler.currentIndex sh < ScrollHandler.length_of sh)%Z ->
    exists sh' g',
      ScrollHandler.handleIntersection env now entries (sh, g) = Some (sh', g') /\
      (0 <= ScrollHandler.currentIndex sh' < ScrollHandler.length_of sh')%Z /\
      ScrollHandler.galleryData sh' = Gallery3D.galleryData g' /\
      (ScrollHandler.currentIndex sh' <> ScrollHandler.currentIndex sh ->
       Gallery3D.currentIndex g' = ScrollHandler.currentIndex sh').
Proof.
  intros env now entries sh g Hd Hc. unfold ScrollHandler.handleIntersection.
  destruct (visit_fold env sh entries (sh, None, 0)) as (Hd1 & Hc1 & Hm).
  { simpl. split; [reflexivity|]. split; [reflexivity|discriminate]. }
  destruct (fold_left (ScrollHandler.visit env sh) entries (sh, None, 0))
    as [[sh1 most] v]. simpl in Hd1, Hc1, Hm.
  assert (Hlen : ScrollHandler.length_of sh1 = ScrollHandler.length_of sh)
    by (unfold ScrollHandler.length_of; rewrite Hd1; reflexivity).
  destruct most as [idx|].
  2:{ exists sh1, g. split; [reflexivity|]. rewrite Hlen, Hc1, Hd1.
      split; [exact Hc|]. split; [exact Hd|]. intros H. congruence. }
  destruct (negb (idx =? ScrollHandler.currentIndex sh1)%Z) eqn:Hneq.
  2:{ exists sh1, g. split; [reflexivity|]. rewrite Hlen, Hc1, Hd1.
      split; [exact Hc|]. split; [exact Hd|]. intros H. congruence. }
  destruct (setActiveItem_ok env now idx sh1 g) as (sh' & g' & -> & Hi & Hds & Hdg & Hsync).
  - congruence.
  - rewrite Hlen, Hc1. exact Hc.
  - rewrite Hlen. apply Hm. reflexivity.
  - exists sh', g'. split; [reflexivity|].
    assert (Hlen' : ScrollHandler.length_of sh' = ScrollHandler.length_of sh)
      by (unfold ScrollHandler.length_of; rewrite Hds, Hd1; reflexivity).
    rewrite Hlen', Hi. split; [apply Hm; reflexivity|].
    split; [congruence|]. intros Hne. apply Hsync. congruence.
Qed.

Lemma visit_off_centre env sh acc entry :
  off_centre env entry ->
  snd (fst acc) = None /\ 0 <= snd acc ->
  let acc' := ScrollHandler.visit env sh acc entry in
  snd (fst acc') = None /\ 0 <= snd acc'.
Proof.
  destruct acc as [[sh0 most0] v0]. cbn [fst snd].
  intros (Hi & Hr & Hfar) (Hm & Hv). cbv zeta. unfold ScrollHandler.visit.
  destruct (ScrollHandler.findIndex sh (ScrollHandler.targetId entry) =? -1)%Z.
  { split; assumption. }
  rewrite Hi. cbv zeta.
  set (far := Qabs _ * _) in *.
  set (r := ScrollHandler.intersectionRatio entry) in *.
  assert (Hvis : r * (1 + (1 - far)) <= 0).
  { assert (H1 : 1 + (1 - far) <= 0) by lra.
    set (b := 1 + (1 - far)) in *. nra. }
  destruct (Qltb_cases v0 (r * (1 + (1 - far)))) as [[_ Hlt]|[-> _]]; [lra|].
  split; assumption.
Qed.

(** X29. The centre boost of [handleIntersection] is computed as
    [1 - distance * maxDistance], so it is far below -1 for an entry that is
    not centred to a fraction of a pixel, and the visibility of such an entry
    is 0 or negative.  When every reported entry intersects the viewport
    with its centre at a distance [d] of the viewport centre such that
    [d * (innerHeight / 2) >= 2], the observer callback activates nothing:
    it returns normally, the gallery is untouched and the index of the
    handler stays. *)
Theorem X29_off_centre_entries_never_activate :
  forall env now entries sh g,
    Forall (off_centre env) entries ->
    exists sh',
      ScrollHandler.handleIntersection env now entries (sh, g) = Some (sh', g) /\
      ScrollHandler.currentIndex sh' = ScrollHandler.currentIndex sh /\
      ScrollHandler.galleryData sh' = ScrollHandler.galleryData sh.
Proof.
  intros env now entries sh g Hall. unfold ScrollHandler.handleIntersection.
  assert (Hfold : forall acc,
            snd (fst acc) = None /\ 0 <= snd acc ->
            snd (fst (fold_left (ScrollHandler.visit env sh) entries acc)) = None).
  { induction Hall as [|entry entries He _ IH]; intros acc H0; simpl.
    - apply H0.
    - apply IH. apply visit_off_centre; assumption. }
  destruct (visit_fold env sh entries (sh, None, 0)) as (Hd1 & Hc1 & _).
  { simpl. split; [reflexivity|]. split; [reflexivity|discriminate]. }
  specialize (Hfold (sh, None, 0)). simpl in Hfold.
  destruct (fold_left (ScrollHandler.visit env sh) entries (sh, None, 0))
    as [[sh1 most] v]. simpl in Hd1, Hc1, Hfold.
  rewrite Hfold by (split; [reflexivity|lra]).
  exists sh1. split; [reflexivity|]. split; assumption.
Qed.

(** X30. Step navigation stops at both ends, auto-scroll wraps around.
    On the first item [navigatePrevious] does nothing, on the last item
    [navigateNext] does nothing while a tick of the auto-scroll scrolls back
    to the first item; anywhere else they scroll to the neighbour.  None of
    them changes [currentIndex] by itself. *)
Theorem X30_step_navigation_clamps_and_auto_scroll_wraps :
  forall env sh,
    (0 <= ScrollHandler.currentIndex sh < ScrollHandler.length_of sh)%Z ->
    let i := ScrollHandler.currentIndex sh in
    let n := ScrollHandler.length_of sh in
    ScrollHandler.navigatePrevious env sh
    = (if (i =? 0)%Z then sh else ScrollHandler.scrollToItem env (i - 1) sh) /\
    ScrollHandler.navigateNext env sh
    = (if (i =? n - 1)%Z then sh else ScrollHandler.scrollToItem env (i + 1) sh) /\
    ScrollHandler.autoScrollTick env sh
    = ScrollHandler.scrollToItem env (if (i =? n - 1)%Z then 0 else i + 1)%Z sh /\
    ScrollHandler.currentIndex (ScrollHandler.navigatePrevious env sh) = i /\
    ScrollHandler.currentIndex (ScrollHandler.navigateNext env sh) = i /\
    ScrollHandler.currentIndex (ScrollHandler.autoScrollTick env sh) = i.
Proof.
  intros env sh Hr. cbv zeta.
  assert (Hkeep : forall idx,
            ScrollHandler.currentIndex (ScrollHandler.scrollToItem env idx sh)
            = ScrollHandler.currentIndex sh).
  { intros idx. unfold ScrollHandler.scrollToItem.
    destruct (_ && _); [|reflexivity].
    destruct (ScrollHandler.item_at sh idx); [|reflexivity].
    destruct (ScrollHandler.hasElement env _); reflexivity. }
  assert (Hprev : ScrollHandler.navigatePrevious env sh
                  = if (ScrollHandler.currentIndex sh =? 0)%Z then sh
                    else ScrollHandler.scrollToItem env
                           (ScrollHandler.currentIndex sh - 1) sh).
  { unfold ScrollHandler.navigatePrevious, ScrollHandler.getPreviousIndex.
    destruct (ScrollHandler.currentIndex sh =? 0)%Z eqn:E.
    - apply Z.eqb_eq in E. rewrite E. reflexivity.
    - apply Z.eqb_neq in E.
      rewrite Z.max_r by lia.
      assert (H : (ScrollHandler.currentIndex sh - 1
                   =? ScrollHandler.currentIndex sh)%Z = false)
        by (apply Z.eqb_neq; lia).
      rewrite H. reflexivity. }
  assert (Hnext : ScrollHandler.navigateNext env sh
                  = if (ScrollHandler.currentIndex sh
                        =? ScrollHandler.length_of sh - 1)%Z then sh
                    else ScrollHandler.scrollToItem env
                           (ScrollHandler.currentIndex sh + 1) sh).
  { unfold ScrollHandler.navigateNext, ScrollHandler.getNextIndex.
    destruct (ScrollHandler.currentIndex sh =? ScrollHandler.length_of sh - 1)%Z eqn:E.
    - apply Z.eqb_eq in E. rewrite Z.min_l by lia.
      assert (H : (ScrollHandler.length_of sh - 1
                   =? ScrollHandler.currentIndex sh)%Z = true)
        by (apply Z.eqb_eq; lia).
      rewrite H. reflexivity.
    - apply Z.eqb_neq in E. rewrite Z.min_r by lia.
      assert (H : (ScrollHandler.currentIndex sh + 1
                   =? ScrollHandler.currentIndex sh)%Z = false)
        by (apply Z.eqb_neq; lia).
      rewrite H. reflexivity. }
  assert (Htick : ScrollHandler.autoScrollTick env sh
                  = ScrollHandler.scrollToItem env
                      (if (ScrollHandler.currentIndex sh
                           =? ScrollHandler.length_of sh - 1)%Z
                       then 0 else ScrollHandler.currentIndex sh + 1)%Z sh).
  { unfold ScrollHandler.autoScrollTick.
    assert (H : (ScrollHandler.length_of sh =? 0)%Z = false)
      by (apply Z.eqb_neq; lia).
    rewrite H. f_equal.
    destruct (ScrollHandler.currentIndex sh =? ScrollHandler.length_of sh - 1)%Z eqn:E.
    - apply Z.eqb_eq in E.
      replace (ScrollHandler.currentIndex sh + 1)%Z with (ScrollHandler.length_of sh)
        by lia.
      apply Z.rem_same. lia.
    - apply Z.eqb_neq in E. apply Z.rem_small. lia. }
  split; [exact Hprev|]. split; [exact Hnext|]. split; [exact Htick|].
  rewrite Hprev, Hnext, Htick.
  split; [destruct (_ =? 0)%Z; [reflexivity|apply Hkeep]|].
  split; [destruct (_ =? _ - 1)%Z; [reflexivity|apply Hkeep]|apply Hkeep].
Qed.

End Navigation.

Section Messages.

Lemma submitted_app e1 e2 :
  UIManager.submitted (e1 ++ e2) = UIManager.submitted e1 ++ UIManager.submitted e2.
Proof. unfold UIManager.submitted. apply flat_map_app. Qed.

(** What the queue keeps, relative to the messages [sub] submitted so far. *)
Lemma handle_queue hasErrorMessage sub u e :
  UIManager.displayed u ++ UIManager.errorQueue u = sub /\
  UIManager.errors u = Z.of_nat (length (UIManager.displayed u)) /\
  (UIManager.isShowingError u = false -> UIManager.errorQueue u = []) ->
  let u' := UIManager.handle hasErrorMessage u e in
  UIManager.displayed u' ++ UIManager.errorQueue u'
  = sub ++ UIManager.submitted [e] /\
  UIManager.errors u' = Z.of_nat (length (UIManager.displayed u')) /\
  (UIManager.isShowingError u' = false -> UIManager.errorQueue u' = []).
Proof.
  intros (Hq & He & Hs). simpl.
  destruct e as [m| | |]; simpl.
  - unfold UIManager.showError.
    destruct (UIManager.isShowingError u) eqn:Hshow; simpl.
    + rewrite app_assoc, Hq. repeat split; [exact He|discriminate].
    + rewrite (Hs eq_refl) in *. rewrite app_nil_r in *. rewrite Hq.
      split; [reflexivity|]. split; [|discriminate].
      rewrite length_app, He, <- Hq. simpl. lia.
  - rewrite app_nil_r. repeat split; assumption.
  - unfold UIManager.autoHide. rewrite app_nil_r.
    destruct (UIManager.errorTimeout u); simpl; repeat split; assumption.
  - unfold UIManager.hideDone. rewrite app_nil_r.
    destruct (UIManager.hideCallbacks u) as [|n]; [repeat split; assumption|].
    destruct (UIManager.errorQueue u) as [|next rest] eqn:Hqueue; simpl.
    + rewrite app_nil_r in *. repeat split; try assumption.
    + unfold UIManager.showError. simpl.
      rewrite <- app_assoc. simpl. split; [exact Hq|].
      split; [|discriminate].
      rewrite length_app, He. simpl. lia.
Qed.

Lemma handle_stuck u e :
  UIManager.hideCallbacks u = O /\
  (UIManager.displayed u = [] \/
   (UIManager.isShowingError u = true /\ length (UIManager.displayed u) = 1%nat)) ->
  let u' := UIManager.handle false u e in
  UIManager.hideCallbacks u' = O /\
  (UIManager.displayed u' = [] \/
   (UIManager.isShowingError u' = true /\ length (UIManager.displayed u') = 1%nat)).
Proof.
  intros (Hc & Hd). simpl. destruct e as [m| | |]; simpl.
  - unfold UIManager.showError.
    destruct (UIManager.isShowingError u) eqn:Hshow; simpl.
    + split; [exact Hc|]. destruct Hd as [Hd|[_ Hd]]; [left|right; split]; auto.
    + split; [exact Hc|]. right. split; [reflexivity|].
      destruct Hd as [->|[Hd _]]; [reflexivity|congruence].
  - split; assumption.
  - unfold UIManager.autoHide.
    destruct (UIManager.errorTimeout u); simpl; split; assumption.
  - unfold UIManager.hideDone. rewrite Hc. split; assumption.
Qed.

(** X4. The message queue of the UI manager loses nothing and keeps the
    order: whatever messages are submitted and however the close button,
    the auto-hide timer and the 300 ms callbacks interleave, the messages put
    on display followed by the messages still queued are exactly the
    messages submitted, in the order of submission, and each displayed
    message was counted once.  When nothing is on display nothing waits.
    If the page lacks the [errorMessage] element, [hideError] never frees
    the display: at most one message is ever put on display. *)
Theorem X4_message_queue_is_first_in_first_out :
  forall hasErrorMessage events,
    let u := UIManager.run hasErrorMessage events UIManager.constructor in
    UIManager.displayed u ++ UIManager.errorQueue u = UIManager.submitted events /\
    UIManager.errors u = Z.of_nat (length (UIManager.displayed u)) /\
    (UIManager.isShowingError u = false -> UIManager.errorQueue u = []) /\
    (hasErrorMessage = false -> (length (UIManager.displayed u) <= 1)%nat).
Proof.
  intros hasErrorMessage events. cbv zeta.
  assert (H : forall sub u0,
            UIManager.displayed u0 ++ UIManager.errorQueue u0 = sub /\
            UIManager.errors u0 = Z.of_nat (length (UIManager.displayed u0)) /\
            (UIManager.isShowingError u0 = false -> UIManager.errorQueue u0 = []) ->
            let u := UIManager.run hasErrorMessage events u0 in
            UIManager.displayed u ++ UIManager.errorQueue u
            = sub ++ UIManager.submitted events /\
            UIManager.errors u = Z.of_nat (length (UIManager.displayed u)) /\
            (UIManager.isShowingError u = false -> UIManager.errorQueue u = [])).
  { unfold UIManager.run. induction events as [|e events IH]; intros sub u0 H0.
    - simpl. rewrite app_nil_r. exact H0.
    - simpl fold_left.
      pose proof (handle_queue hasErrorMessage sub u0 e H0) as H1.
      specialize (IH _ _ H1). cbv zeta in IH.
      change (e :: events) with ([e] ++ events).
      rewrite submitted_app, app_assoc. exact IH. }
  destruct (H [] UIManager.constructor) as (H1 & H2 & H3).
  { repeat split; reflexivity. }
  split; [exact H1|]. split; [exact H2|]. split; [exact H3|].
  intros ->.
  assert (S : forall u0,
            UIManager.hideCallbacks u0 = O /\
            (UIManager.displayed u0 = [] \/
             (UIManager.isShowingError u0 = true /\
              length (UIManager.displayed u0) = 1%nat)) ->
            (length (UIManager.displayed (UIManager.run false events u0)) <= 1)%nat).
  { unfold UIManager.run. clear. induction events as [|e events IH]; intros u0 H0.
    - simpl. destruct H0 as (_ & [->|[_ ->]]); simpl; lia.
    - simpl fold_left. apply IH. apply handle_stuck. exact H0. }
  apply S. split; [reflexivity|left; reflexivity].
Qed.

End Messages.

(** ** What pointer events and timers leave alone *)

Section PointerOnly.

Variable R : ModelState.t -> ModelState.t -> Prop.

Hypothesis R_refl : forall st, R st st.
Hypothesis R_rotation :
  forall st o r,
    ModelState.modelObject st = Some o ->
    R st (ModelState.set_modelObject st (Some (Object3D.set_rotation o r))).

(** The model states after an event that is not an activation nor a
    frame. *)
Lemma pointer_related g e id st' :
  (forall now idx, e <> Gallery3D.Activate now idx) ->
  (forall delta sin2t sinTime sinPulse,
     e <> Gallery3D.Frame delta sin2t sinTime sinPulse) ->
  forall upd,
    ModelLoader.modelStates (Gallery3D.modelLoader (Gallery3D.handle upd g e)) !! id
      = Some st' ->
    exists st,
      ModelLoader.modelStates (Gallery3D.modelLoader g) !! id = Some st /\
      R st st'.
Proof.
  intros Hact Hframe upd.
  destruct e as [now idx|delta sin2t sinTime sinPulse
                |button x y hit|x y hit|now|]; simpl.
  - exfalso. exact (Hact now idx eq_refl).
  - exfalso. exact (Hframe delta sin2t sinTime sinPulse eq_refl).
  - destruct (pointerDown_parts button x y hit g) as (-> & _).
    destruct (pointer_states _ _
                (onMouseDown_shape button x y (Gallery3D.modelLoader g)))
      as [-> _].
    intros H. exists st'. split; [exact H|apply R_refl].
  - destruct (pointerMove_parts x y hit g) as (-> & _). simpl.
    intros H. apply (interaction_related R R_refl R_rotation) in H.
    destruct (pointer_states _ _
                (onMouseMove_shape x y (Gallery3D.modelLoader g)))
      as [Hs _].
    rewrite Hs in H. exact H.
  - destruct (pointerUp_parts now g) as (-> & _).
    destruct (pointer_states _ _ (onMouseUp_shape (Gallery3D.modelLoader g)))
      as [-> _].
    intros H. exists st'. split; [exact H|apply R_refl].
  - destruct (timeout_parts g) as (-> & _).
    intros H. exists st'. split; [exact H|apply R_refl].
Qed.

End PointerOnly.

(** ** The active model is shown, and loaded models stand still *)

Section ShownAndSettled.

Variable orbitControls_update : Controls.t -> Vector3.t.

Implicit Types (s : ModelLoader.t) (g : Gallery3D.t) (st : ModelState.t).















(** *** Models stay where they were put *)

Lemma same_place_refl st : same_place st st.
Proof. repeat split. Qed.

Lemma same_place_rotation st o r :
  ModelState.modelObject st = Some o ->
  same_place st (ModelState.set_modelObject st (Some (Object3D.set_rotation o r))).
Proof.
  intros Ho. split; [reflexivity|]. split; [reflexivity|].
  simpl. rewrite Ho. reflexivity.
Qed.

Lemma same_place_trans st1 st2 st3 :
  same_place st1 st2 -> same_place st2 st3 -> same_place st1 st3.
Proof.
  intros (A1 & A2 & A3) (B1 & B2 & B3).
  split; [congruence|]. split; congruence.
Qed.

Lemma same_place_idle st ar : same_place st (ModelState.set_autoRotation st ar).
Proof. repeat split. Qed.

Lemma in_step_same st st' : same_place st st' -> in_step st -> in_step st'.
Proof.
  intros (A1 & A2 & A3) H o' Ho'. rewrite Ho' in A3.
  destruct (ModelState.modelObject st) as [o|] eqn:Ho; [|discriminate].
  simpl in A3. injection A3 as Hx. rewrite A2, Hx. exact (H o Ho).
Qed.

Lemma hideState_same_place st : same_place st (ModelLoader.hideState st).
Proof. repeat split. Qed.

Lemma showState_same_place st : same_place st (ModelLoader.showState st).
Proof.
  unfold ModelLoader.showState. simpl.
  destruct (ModelState.modelObject st) as [o|] eqn:Ho.
  - split; [reflexivity|]. split; [reflexivity|]. simpl. rewrite Ho. reflexivity.
  - split; [reflexivity|]. split; reflexivity.
Qed.

(** Every state after [showModel] comes from the state before under the
    same id, standing where it stood. *)
Lemma showModel_same_place modelId index s id st' :
  ModelLoader.modelStates (ModelLoader.showModel modelId index s) !! id = Some st' ->
  exists st, ModelLoader.modelStates s !! id = Some st /\ same_place st st'.
Proof.
  rewrite showModel_states. intros Hst'.
  apply (alter_related same_place same_place_refl) in Hst';
    [|apply showState_same_place].
  destruct Hst' as (st1 & Hst1 & Hshow).
  assert (Hhid : exists st, ModelLoader.modelStates s !! id = Some st /\
                            same_place st st1).
  { revert Hst1. unfold hidden_states.
    destruct (ModelLoader.activeModelId s) as [a|];
      [|intros Hst1; exists st1; split; [exact Hst1|apply same_place_refl]].
    destruct (JS.truthy_string a);
      [|intros Hst1; exists st1; split; [exact Hst1|apply same_place_refl]].
    apply (alter_related same_place same_place_refl).
    apply hideState_same_place. }
  destruct Hhid as (st & Hst & Hhide).
  exists st. split; [exact Hst|]. eapply same_place_trans; eassumption.
Qed.

Lemma updateModel_targetX delta active dragging sinT st :
  ModelState.targetX (ModelLoader.updateModel delta active dragging sinT st)
  = ModelState.targetX st.
Proof.
  unfold ModelLoader.updateModel.
  destruct (ModelState.modelObject st); [|reflexivity].
  destruct (ModelLoader.fadeOpacity _ _ _ _) as [cur vis]. simpl.
  destruct (active && vis && negb dragging); reflexivity.
Qed.

(** The loop body writes [position.x] from [currentX]. *)
Lemma updateModel_in_step delta active dragging sinT st :
  in_step st -> in_step (ModelLoader.updateModel delta active dragging sinT st).
Proof.
  intros H.
  destruct (ModelState.modelObject st) as [o|] eqn:Ho.
  2:{ rewrite updateModel_unloaded by exact Ho. exact H. }
  destruct (updateModel_object delta active dragging sinT st o Ho)
    as (o' & Ho' & _ & _ & _ & Hx & _).
  intros o2 Ho2. rewrite Ho' in Ho2. injection Ho2 as <-. exact Hx.
Qed.

(** Every state after a frame comes from the state before under the same
    id, with the same target position. *)
Lemma update_same_target delta sinTime sinPulse s id st' :
  ModelLoader.modelStates (ModelLoader.update delta sinTime sinPulse s) !! id
    = Some st' ->
  exists st, ModelLoader.modelStates s !! id = Some st /\ same_target st st' /\
             (in_step st -> in_step st').
Proof.
  rewrite update_lookup.
  destruct (ModelLoader.modelStates (rotated delta s) !! id) as [st2|] eqn:H2;
    [|discriminate].
  intros [= <-].
  destruct (rotated_related same_place same_place_refl same_place_trans
              same_place_rotation same_place_idle _ _ _ _ H2)
    as (st & Hst & Hsame).
  exists st. split; [exact Hst|]. split.
  - unfold same_target. rewrite updateModel_targetX. apply Hsame.
  - intros Hin. apply updateModel_in_step. exact (in_step_same _ _ Hsame Hin).
Qed.

(** What an event keeps of the horizontal positions. *)
Lemma handle_positions g e :
  let l := Gallery3D.modelLoader g in
  let l' := Gallery3D.modelLoader (Gallery3D.handle orbitControls_update g e) in
  targets_kept l l' /\ (all_in_step l -> all_in_step l').
Proof.
  cbv zeta.
  assert (Hplace :
    (forall id st',
       ModelLoader.modelStates
         (Gallery3D.modelLoader (Gallery3D.handle orbitControls_update g e)) !! id
         = Some st' ->
       exists st, ModelLoader.modelStates (Gallery3D.modelLoader g) !! id = Some st /\
                  same_place st st') ->
    targets_kept (Gallery3D.modelLoader g)
      (Gallery3D.modelLoader (Gallery3D.handle orbitControls_update g e)) /\
    (all_in_step (Gallery3D.modelLoader g) ->
     all_in_step (Gallery3D.modelLoader (Gallery3D.handle orbitControls_update g e)))).
  { intros Hk. split.
    - intros id st' Hst'. destruct (Hk id st' Hst') as (st & Hst & Hsame).
      exists st. split; [exact Hst|apply Hsame].
    - intros Hall id st' Hst'. destruct (Hk id st' Hst') as (st & Hst & Hsame).
      apply (in_step_same _ _ Hsame). exact (Hall id st Hst). }
  destruct e as [now idx|delta sin2t sinTime sinPulse
                |button x y hit|x y hit|now|];
    try (apply Hplace; intros id st' Hst';
         refine (pointer_related same_place same_place_refl same_place_rotation
                   g _ id st' _ _ orbitControls_update Hst');
         intros; discriminate).
  - apply Hplace. simpl.
    destruct (switchToItem_cases now idx g) as [->|(item & _ & ->)].
    + intros id st' Hst'. exists st'. split; [exact Hst'|apply same_place_refl].
    + intros id st'.
      exact (showModel_same_place (GalleryItem.id item) idx
               (Gallery3D.modelLoader g) id st').
  - simpl. split.
    + intros id st' Hst'.
      destruct (update_same_target _ _ _ _ _ _ Hst') as (st & Hst & Ht & _).
      exists st. split; assumption.
    + intros Hall id st' Hst'.
      destruct (update_same_target _ _ _ _ _ _ Hst') as (st & Hst & _ & Hin).
      apply Hin. exact (Hall id st Hst).
Qed.

Lemma processModel_in_step w ry gltf item index s :
  all_in_step s -> all_in_step (ModelLoader.processModel w ry gltf item index s).
Proof.
  intros H. unfold ModelLoader.processModel.
  destruct (ModelLoader.modelStates s !! GalleryItem.id item) as [sti|];
    [|exact H].
  intros id st'.
  destruct (index =? 0)%Z; simpl;
    (destruct (decide (GalleryItem.id item = id)) as [<-|Hne];
     [ rewrite lookup_insert_eq; intros [= <-] o Ho;
       destruct (Gltf.animated gltf); simpl in Ho; injection Ho as <-;
       reflexivity
     | rewrite lookup_insert_ne by exact Hne; apply H ]).
Qed.

Lemma loadModel_in_step env item index s :
  all_in_step s -> all_in_step (fst (ModelLoader.loadModel env item index s)).
Proof.
  intros Hs.
  assert (Hins : all_in_step
            (ModelLoader.set_modelStates s
               (<[GalleryItem.id item :=
                    ModelLoader.initialModelState item index
                      (ModelLoader.randoms env)]> (ModelLoader.modelStates s)))).
  { intros id st. simpl.
    destruct (decide (GalleryItem.id item = id)) as [<-|Hne].
    - rewrite lookup_insert_eq. intros [= <-] o Ho. discriminate Ho.
    - rewrite lookup_insert_ne by exact Hne. apply Hs. }
  unfold ModelLoader.loadModel.
  destruct (ModelLoader.outcome env) as [gltf|]; simpl; [|exact Hins].
  apply processModel_in_step. exact Hins.
Qed.

Lemma loadFrom_in_step envOf items i loaded total g :
  all_in_step (Gallery3D.modelLoader g) ->
  all_in_step
    (Gallery3D.modelLoader (Gallery3D.loadFrom envOf i items loaded total g)).
Proof.
  revert i loaded g. induction items as [|item rest IH]; intros i loaded g Hg.
  - exact Hg.
  - simpl.
    pose proof (loadModel_in_step (envOf i) item i (Gallery3D.modelLoader g) Hg)
      as Hl.
    destruct (ModelLoader.loadModel (envOf i) item i _) as [l ok].
    apply IH. destruct ok; exact Hl.
Qed.

Lemma init_in_step items autoSpeed dist cfg envOf :
  all_in_step
    (Gallery3D.modelLoader (Gallery3D.init items autoSpeed dist cfg envOf)).
Proof.
  unfold Gallery3D.init, Gallery3D.loadModels.
  match goal with
  | |- context [Gallery3D.loadFrom envOf 0 ?l 0 ?n ?g1] =>
      assert (H2 : all_in_step
                (Gallery3D.modelLoader (Gallery3D.loadFrom envOf 0 l 0 n g1)));
      [ apply loadFrom_in_step; intros id st; simpl;
        rewrite calculateSceneLayout_states;
        destruct cfg; simpl; rewrite lookup_empty; discriminate
      | destruct (Gallery3D.galleryData (Gallery3D.loadFrom envOf 0 l 0 n g1));
        [exact H2 | simpl] ]
  end.
  intros id st' Hst'.
  destruct (showModel_same_place _ _ _ _ _ Hst') as (st & Hst & Hsame).
  apply (in_step_same _ _ Hsame). exact (H2 id st Hst).
Qed.

Lemma run_positions events g0 :
  let g := Gallery3D.run orbitControls_update events g0 in
  targets_kept (Gallery3D.modelLoader g0) (Gallery3D.modelLoader g) /\
  (all_in_step (Gallery3D.modelLoader g0) -> all_in_step (Gallery3D.modelLoader g)).
Proof.
  cbv zeta. unfold Gallery3D.run. revert g0.
  induction events as [|e events IH]; intros g0; simpl.
  - split; [|trivial]. intros id st Hst. exists st. split; [exact Hst|reflexivity].
  - destruct (handle_positions g0 e) as [Hk Hin].
    destruct (IH (Gallery3D.handle orbitControls_update g0 e)) as [Hk' Hin'].
    split.
    + intros id st' Hst'. destruct (Hk' id st' Hst') as (st1 & Hst1 & T1).
      destruct (Hk id st1 Hst1) as (st0 & Hst0 & T0).
      exists st0. split; [exact Hst0|]. unfold same_target in *. congruence.
    + intros H0. apply Hin', Hin, H0.
Qed.

(** X21. Where a model stands is decided when it loads.  At any time
    after [init], whatever activations, frames, pointer events and timers
    came, the scene-graph object of every loaded model stands at the
    [currentX] of its state ([position.x] is never written from anything
    else), and the [targetX] of every model state is the one it had when
    [init] returned: none of these events moves the target. *)
Theorem X21_models_stay_where_they_were_put :
  forall items autoSpeed dist cfg envOf events,
    let g0 := Gallery3D.init items autoSpeed dist cfg envOf in
    let g := Gallery3D.run orbitControls_update events g0 in
    all_in_step (Gallery3D.modelLoader g) /\
    targets_kept (Gallery3D.modelLoader g0) (Gallery3D.modelLoader g).
Proof.
  intros items autoSpeed dist cfg envOf events. cbv zeta.
  destruct (run_positions events (Gallery3D.init items autoSpeed dist cfg envOf))
    as [Hk Hin].
  split; [|exact Hk]. apply Hin. apply init_in_step.
Qed.

End ShownAndSettled.

(** ** The spotlight intensities stay within their bounds *)

Section SpotlightBounds.

Variable orbitControls_update : Controls.t -> Vector3.t.

Implicit Types (s : ModelLoader.t) (g : Gallery3D.t) (d : SpotlightData.t).

Lemma processModel_lights w ry gltf item index s :
  lights_within s ->
  lights_within (ModelLoader.processModel w ry gltf item index s).
Proof.
  intros [Hc Hl].
  unfold ModelLoader.processModel, ModelLoader.createSpotlightForModel.
  destruct (ModelLoader.modelStates s !! GalleryItem.id item) as [sti|];
    [|split; assumption].
  destruct (index =? 0)%Z; simpl; (split; [exact Hc|]); intros id d;
    unfold ModelLoader.set_activeModelId, ModelLoader.set_modelStates,
      ModelLoader.set_spotlights;
    cbn [ModelLoader.spotlights];
    (destruct (decide (GalleryItem.id item = id)) as [<-|Hne];
     [ rewrite lookup_insert_eq; intros [= <-];
       unfold light_within; simpl; lra
     | rewrite lookup_insert_ne by exact Hne; apply Hl ]).
Qed.

Lemma loadModel_lights env item index s :
  lights_within s -> lights_within (fst (ModelLoader.loadModel env item index s)).
Proof.
  intros Hs. unfold ModelLoader.loadModel.
  destruct (ModelLoader.outcome env) as [gltf|]; simpl; [|exact Hs].
  apply processModel_lights. exact Hs.
Qed.

Lemma loadFrom_lights envOf items i loaded total g :
  lights_within (Gallery3D.modelLoader g) ->
  lights_within
    (Gallery3D.modelLoader (Gallery3D.loadFrom envOf i items loaded total g)).
Proof.
  revert i loaded g. induction items as [|item rest IH]; intros i loaded g Hg.
  - exact Hg.
  - simpl.
    pose proof (loadModel_lights (envOf i) item i (Gallery3D.modelLoader g) Hg)
      as Hl.
    destruct (ModelLoader.loadModel (envOf i) item i _) as [l ok].
    apply IH. destruct ok; exact Hl.
Qed.

Lemma calculateSceneLayout_lights n s :
  ModelLoader.spotlights (ModelLoader.calculateSceneLayout n s)
  = ModelLoader.spotlights s /\
  ModelLoader.spotlightConfig (ModelLoader.calculateSceneLayout n s)
  = ModelLoader.spotlightConfig s.
Proof.
  unfold ModelLoader.calculateSceneLayout.
  repeat (destruct (_ <=? _)%Z); split; reflexivity.
Qed.

Lemma showModel_lights modelId index s :
  lights_within s -> lights_within (ModelLoader.showModel modelId index s).
Proof.
  intros [Hc Hl]. split; [exact Hc|]. intros id d.
  rewrite showModel_spotlights.
  assert (Hoff : forall d1,
            ((fun d0 => SpotlightData.set_targetIntensity d0 0)
               <$> ModelLoader.spotlights s) !! id = Some d1 ->
            light_within d1).
  { intros d1. rewrite lookup_fmap.
    destruct (ModelLoader.spotlights s !! id) as [d0|] eqn:Hd0; [|discriminate].
    intros [= <-]. destruct (Hl id d0 Hd0) as (A & B & C).
    unfold light_within. simpl. lra. }
  destruct (decide (modelId = id)) as [->|Hne].
  - rewrite lookup_alter_eq.
    destruct (_ !! id) as [d1|] eqn:Hd1; [|discriminate].
    intros [= <-]. destruct (Hoff d1 eq_refl) as (A & B & C).
    unfold light_within. simpl. lra.
  - rewrite lookup_alter_ne by exact Hne. apply Hoff.
Qed.

Lemma followModel_light delta cfg states id d :
  SpotLight.intensity
    (SpotlightData.light (ModelLoader.followModel delta cfg states id d))
  = SpotLight.intensity (SpotlightData.light d).
Proof.
  unfold ModelLoader.followModel.
  destruct (states !! id) as [st|]; [|reflexivity].
  destruct (ModelState.modelObject st); reflexivity.
Qed.

Lemma animateSpotlight_within delta sinT d :
  0 <= delta -> delta * 3 <= 1 -> -1 <= sinT <= 1 ->
  light_within d -> light_within (ModelLoader.animateSpotlight delta sinT d).
Proof.
  intros H0 H1 Hs (A & B & C).
  assert (Ht : 0 <= delta * 3) by lra.
  pose proof (lerp_range 0 (SpotlightData.originalIntensity d)
                (SpotlightData.currentIntensity d)
                (SpotlightData.targetIntensity d) (delta * 3) Ht H1 A B) as L.
  unfold ModelLoader.animateSpotlight, light_within. simpl.
  set (cur := MathUtils.lerp _ _ _) in *.
  destruct (JS.Qltb 0 _); simpl; (split; [exact L|]); (split; [exact B|]).
  - split; nra.
  - lra.
Qed.

Lemma update_lights delta sinTime sinPulse s :
  0 <= delta -> delta * 3 <= 1 -> (forall id, -1 <= sinPulse id <= 1) ->
  lights_within s ->
  lights_within (ModelLoader.update delta sinTime sinPulse s).
Proof.
  intros H0 H1 Hs [Hc Hl]. split.
  - rewrite update_rotated. simpl.
    destruct (rotated_spotlights delta s) as [_ ->]. exact Hc.
  - intros id d'. rewrite update_spotlights_lookup.
    destruct (ModelLoader.spotlights s !! id) as [d|] eqn:Hd; [|discriminate].
    intros [= <-]. apply animateSpotlight_within; [exact H0|exact H1|apply Hs|].
    destruct (Hl id d Hd) as (A & B & C).
    destruct (followModel_intensities delta (ModelLoader.spotlightConfig s)
                (ModelLoader.modelStates (rotated delta s)) id d)
      as (E1 & E2 & E3).
    unfold light_within. simpl in E1, E2, E3.
    rewrite E1, E2, E3, followModel_light. split; [exact A|]. split; assumption.
Qed.

Lemma lights_same (l l' : ModelLoader.t) :
  ModelLoader.spotlights l' = ModelLoader.spotlights l /\
  ModelLoader.spotlightConfig l' = ModelLoader.spotlightConfig l /\
  ModelLoader.autoRotation l' = ModelLoader.autoRotation l ->
  lights_within l -> lights_within l'.
Proof. intros (E1 & E2 & _) [Hc Hl]. split; rewrite ?E1, ?E2; assumption. Qed.

Lemma handle_lights g e :
  frame_gentle e ->
  lights_within (Gallery3D.modelLoader g) ->
  lights_within (Gallery3D.modelLoader (Gallery3D.handle orbitControls_update g e)).
Proof.
  intros He Hinv. destruct e as [now idx|delta sin2t sinTime sinPulse
                                |button x y hit|x y hit|now|]; simpl.
  - destruct (switchToItem_cases now idx g) as [->|(item & _ & ->)];
      [exact Hinv|]. simpl. apply showModel_lights. exact Hinv.
  - destruct He as (H0 & H1 & Hs). apply update_lights; assumption.
  - destruct (pointerDown_parts button x y hit g) as (-> & _).
    revert Hinv. apply lights_same.
    apply (pointer_loader_parts _ _ (onMouseDown_shape button x y _)).
  - destruct (pointerMove_parts x y hit g) as (-> & _).
    revert Hinv. apply lights_same. simpl.
    apply (pointer_loader_parts _ _ (onMouseMove_shape x y _)).
  - destruct (pointerUp_parts now g) as (-> & _).
    revert Hinv. apply lights_same.
    apply (pointer_loader_parts _ _ (onMouseUp_shape _)).
  - destruct (timeout_parts g) as (-> & _). exact Hinv.
Qed.

Lemma init_lights items autoSpeed dist cfg envOf :
  intensity_not_negative cfg ->
  lights_within
    (Gallery3D.modelLoader (Gallery3D.init items autoSpeed dist cfg envOf)).
Proof.
  intros Hcfg. unfold Gallery3D.init, Gallery3D.loadModels.
  match goal with
  | |- context [Gallery3D.loadFrom envOf 0 ?l 0 ?n ?g1] =>
      assert (H2 : lights_within
                (Gallery3D.modelLoader (Gallery3D.loadFrom envOf 0 l 0 n g1)));
      [ apply loadFrom_lights
      | destruct (Gallery3D.galleryData (Gallery3D.loadFrom envOf 0 l 0 n g1));
        [exact H2 | simpl; apply showModel_lights; exact H2] ]
  end.
  simpl. split.
  - rewrite (proj2 (calculateSceneLayout_lights _ _)).
    destruct cfg as [c|]; simpl; [|lra].
    destruct (SpotlightSettings.intensity c) as [q|] eqn:Hq; simpl; [|lra].
    exact (Hcfg c q eq_refl Hq).
  - intros id d. rewrite (proj1 (calculateSceneLayout_lights _ _)).
    destruct cfg; simpl; rewrite ?lookup_fmap, lookup_empty; discriminate.
Qed.

(** X22. With a configured spotlight intensity that is not negative, and
    frames whose [delta * 3] lies in [0, 1] and whose pulse [Math.sin] lies
    in [-1, 1], the intensities of every spotlight stay within their bounds
    at any time after [init]: the animated intensity and its target between
    0 and the original intensity, and the intensity of the light itself
    between 0 and 1.1 times the original one (the pulse adds at most a
    tenth). *)
Theorem X22_spotlight_intensities_stay_within_their_bounds :
  forall items autoSpeed dist cfg envOf events,
    intensity_not_negative cfg ->
    Forall frame_gentle events ->
    lights_within
      (Gallery3D.modelLoader
         (Gallery3D.run orbitControls_update events
            (Gallery3D.init items autoSpeed dist cfg envOf))).
Proof.
  intros items autoSpeed dist cfg envOf events Hcfg.
  pose proof (init_lights items autoSpeed dist cfg envOf Hcfg) as H0.
  revert H0. generalize (Gallery3D.init items autoSpeed dist cfg envOf).
  unfold Gallery3D.run.
  induction events as [|e events IH]; intros g0 H0 HF; simpl; [exact H0|].
  inversion HF as [|e' events' He Hrest]; subst.
  apply IH; [|exact Hrest]. apply handle_lights; assumption.
Qed.

End SpotlightBounds.

(** ** The further properties at concrete inputs *)

Section FurtherExamples.

(** X1 at the progress values 1/4 and 3/4. *)
Lemma X1_witness :
  0 <= 0.25 /\ 0.25 <= 0.75 /\ 0.75 <= 1 /\
  Controls.easeInOutCubic 0.25 <= Controls.easeInOutCubic 0.75.
Proof.
  assert (H1 : 0 <= 0.25) by (vm_compute; discriminate).
  assert (H2 : 0.25 <= 0.75) by (vm_compute; discriminate).
  assert (H3 : 0.75 <= 1) by (vm_compute; discriminate).
  split; [exact H1|]. split; [exact H2|]. split; [exact H3|].
  exact (proj1 (proj2 (proj2 (proj2
           (X1_easeInOutCubic_monotone_on_unit_interval 0.25 0.75 H1 H2 H3))))).
Defined.

(** X2: a transition of one second started at time 0 on an idle orbit
    variant, frames at 16, 500 and 999 milliseconds, and the frame at
    1000. *)
Lemma X2_witness :
  exists c1 c2,
    framesAt Scenario.still [16; 500; 999]%Z
      (Controls.animateCameraTo (Vector3.mk 1 2 3) Vector3.zero (Some 1000) 0
         (Controls.constructor_orbit (Vector3.mk 0 0 5))) = Some c1 /\
    Controls.isAnimatingCamera c1 = true /\
    Controls.frame Scenario.still 1000 c1 = Some c2 /\
    Controls.isAnimatingCamera c2 = false /\
    Controls.frameCallbacks c2 = [].
Proof.
  assert (H1 : 0 < JS.default_arg (Some 1000) 1500) by reflexivity.
  assert (H2 : Forall (fun t => inject_Z (t - 0) < JS.default_arg (Some 1000) 1500)
                 [16; 500; 999]%Z)
    by (repeat constructor).
  assert (H3 : JS.default_arg (Some 1000) 1500 <= inject_Z (1000 - 0))
    by (vm_compute; discriminate).
  destruct (X2_transition_lasts_its_duration Scenario.still
              (Vector3.mk 1 2 3) Vector3.zero (Some 1000) 0 [16; 500; 999]%Z 1000
              (Controls.constructor_orbit (Vector3.mk 0 0 5))
              eq_refl eq_refl H1 H2 H3)
    as (c1 & c2 & c0 & Hfs & Hb1 & _ & Hf & _ & _ & _ & Hb & Hn).
  exists c1, c2. split; [exact Hfs|]. split; [exact Hb1|]. split; [exact Hf|].
  split; [exact Hb|exact Hn].
Defined.

(** X3: [resetView()] on a freshly built object of the first variant. *)
Lemma X3_witness :
  Controls.isAnimatingCamera
    (Controls.resetView Scenario.still 0 (Controls.constructor (Vector3.mk 0 0 5)))
  = true /\
  Controls.frameCallbacks
    (Controls.resetView Scenario.still 0 (Controls.constructor (Vector3.mk 0 0 5)))
  = [].
Proof.
  assert (Hr : rtc (Controls.step Scenario.still)
                 (Controls.constructor (Vector3.mk 0 0 5))
                 (Controls.resetView Scenario.still 0
                    (Controls.constructor (Vector3.mk 0 0 5)))).
  { apply rtc_once. apply Controls.step_resetView. }
  destruct (X3_first_constructor_never_starts_a_transition Scenario.still _ _ Hr)
    as (Hflag & Hnil & _).
  split; [exact Hflag|exact Hnil].
Defined.

(** X10: three frames after the release of the sample drag. *)
Lemma X10_witness :
  let m := ModelLoader.manualRotation Scenario.releasedLoader in
  let m' := ModelLoader.manualRotation
              (frames Scenario.zeroSin Scenario.zeroSin [1 # 60; 1 # 30; 1 # 60]
                 Scenario.releasedLoader) in
  ManualRotation.enabled m = true /\
  (1 - ManualRotation.dampening m)
    * Qabs (ManualRotation.targetRotationY m' - ManualRotation.targetRotationY m)
    <= ManualRotation.dampening m * Qabs (ManualRotation.velocityX m).
Proof.
  cbv zeta.
  assert (H0 : 0 <= ManualRotation.dampening
                      (ModelLoader.manualRotation Scenario.releasedLoader))
    by (vm_compute; discriminate).
  assert (H1 : ManualRotation.dampening
                 (ModelLoader.manualRotation Scenario.releasedLoader) <= 1)
    by (vm_compute; discriminate).
  split; [reflexivity|].
  exact (proj1 (X10_coasting_is_bounded_by_the_release_velocity
                  Scenario.zeroSin Scenario.zeroSin [1 # 60; 1 # 30; 1 # 60]
                  Scenario.releasedLoader eq_refl H0 H1)).
Defined.

(** X11: two touch samples of 100 and 200 pixels: 0.95 * 0.05 * 300. *)
Lemma X11_witness :
  ManualRotation.targetRotationY
    (ModelLoader.manualRotation
       (touchSamples Scenario.zeroSin Scenario.zeroSin Scenario.twoTouches
          Scenario.pressedLoader))
  == 14.25.
Proof.
  rewrite (X11_touch_drag_accumulates_the_raw_deltas Scenario.zeroSin
             Scenario.zeroSin Scenario.twoTouches Scenario.pressedLoader
             eq_refl eq_refl).
  vm_compute. reflexivity.
Defined.

(** X12: the first model of the sample gallery after a frame. *)
Lemma X12_witness :
  exists s' st o,
    ModelLoader.tryUpdate (1 # 60) Scenario.zeroSin Scenario.zeroSin
      (Gallery3D.modelLoader Scenario.gallery) = Some s' /\
    ModelLoader.modelStates s' !! "a" = Some st /\
    ModelState.modelObject st = Some o /\
    Object3D.visible o = ModelState.visible st /\
    Object3D.opacity o = ModelState.currentOpacity st /\
    Vector3.x (Object3D.position o) = ModelState.currentX st.
Proof.
  assert (Hp : plain_keys (Gallery3D.modelLoader Scenario.gallery))
    by (apply plain_keys_decide; vm_compute; reflexivity).
  destruct (X12_frame_leaves_scene_graph_in_sync (1 # 60) Scenario.zeroSin
              Scenario.zeroSin (Gallery3D.modelLoader Scenario.gallery) Hp)
    as (s' & Hs' & Hsync).
  assert (H : exists st o,
            ModelLoader.modelStates s' !! "a" = Some st /\
            ModelState.modelObject st = Some o).
  { vm_compute in Hs'. injection Hs' as <-.
    eexists. eexists. split; [vm_compute; reflexivity|reflexivity]. }
  destruct H as (st & o & Hst & Ho).
  exists s', st, o. split; [exact Hs'|]. split; [exact Hst|]. split; [exact Ho|].
  exact (Hsync "a" st o Hst Ho).
Defined.

(** X13: the spotlight of the first model of the sample gallery after a
    frame. *)
Lemma X13_witness :
  exists s' st o d,
    ModelLoader.tryUpdate (1 # 60) Scenario.zeroSin Scenario.zeroSin
      (Gallery3D.modelLoader Scenario.gallery) = Some s' /\
    ModelLoader.modelStates s' !! "a" = Some st /\
    ModelState.modelObject st = Some o /\
    ModelLoader.spotlights s' !! "a" = Some d /\
    Vector3.x (SpotLight.position (SpotlightData.light d)) = ModelState.currentX st.
Proof.
  assert (Hp : plain_keys (Gallery3D.modelLoader Scenario.gallery))
    by (apply plain_keys_decide; vm_compute; reflexivity).
  destruct (X13_spotlight_follows_its_model (1 # 60) Scenario.zeroSin
              Scenario.zeroSin (Gallery3D.modelLoader Scenario.gallery) Hp)
    as (s' & Hs' & Hfollow).
  assert (H : exists st o d,
            ModelLoader.modelStates s' !! "a" = Some st /\
            ModelState.modelObject st = Some o /\
            ModelLoader.spotlights s' !! "a" = Some d).
  { vm_compute in Hs'. injection Hs' as <-.
    eexists. eexists. eexists. split; [vm_compute; reflexivity|].
    split; [reflexivity|vm_compute; reflexivity]. }
  destruct H as (st & o & d & Hst & Ho & Hd).
  exists s', st, o, d. split; [exact Hs'|]. split; [exact Hst|].
  split; [exact Ho|]. split; [exact Hd|].
  destruct (Hfollow "a" st o d Hst Ho Hd) as (Hpos & _). rewrite Hpos. reflexivity.
Defined.


(** X15: after the release of the sample drag, frames of 1/60 s and
    1/30 s turn the idle angle by 0.5 * (-1) * (1/60 + 1/30). *)
Lemma X15_witness :
  exists st',
    ModelLoader.modelStates
      (frames Scenario.zeroSin Scenario.zeroSin [1 # 60; 1 # 30]
         Scenario.releasedLoader) !! "a" = Some st' /\
    ModelAutoRotation.currentRotationY (ModelState.autoRotation st') == - (1 # 40).
Proof.
  assert (Hst : exists st o,
             ModelLoader.modelStates Scenario.releasedLoader !! "a" = Some st /\
             ModelState.modelObject st = Some o /\
             ModelAutoRotation.currentRotationY (ModelState.autoRotation st) = 0).
  { eexists. eexists. split; [vm_compute; reflexivity|].
    split; reflexivity. }
  destruct Hst as (st & o & Hst & Ho & Hzero).
  destruct (X15_idle_rotation_advances_with_elapsed_time Scenario.zeroSin
              Scenario.zeroSin [1 # 60; 1 # 30] Scenario.releasedLoader "a" st o
              eq_refl eq_refl eq_refl eq_refl eq_refl Hst Ho)
    as (st' & Hst' & Hy).
  exists st'. split; [exact Hst'|]. rewrite Hy, Hzero. reflexivity.
Defined.

(** X16: the first frame after the release of the sample drag. *)
Lemma X16_witness :
  exists st st' o',
    ModelLoader.modelStates Scenario.releasedLoader !! "a" = Some st /\
    ModelLoader.modelStates
      (ModelLoader.update (1 # 60) Scenario.zeroSin Scenario.zeroSin
         Scenario.releasedLoader) !! "a" = Some st' /\
    ModelState.modelObject st' = Some o' /\
    Vector3.x (Object3D.rotation o')
    = ModelAutoRotation.baseRotationX (ModelState.autoRotation st).
Proof.
  assert (Hst : exists st o,
             ModelLoader.modelStates Scenario.releasedLoader !! "a" = Some st /\
             ModelState.modelObject st = Some o).
  { eexists. eexists. split; [vm_compute; reflexivity|reflexivity]. }
  destruct Hst as (st & o & Hst & Ho).
  destruct (X16_first_idle_frame_drops_the_manual_rotation (1 # 60)
              Scenario.zeroSin Scenario.zeroSin Scenario.releasedLoader "a" st o
              eq_refl eq_refl eq_refl eq_refl eq_refl Hst Ho)
    as (st' & o' & Hst' & Ho' & Hx & _).
  exists st, st', o'. split; [exact Hst|]. split; [exact Hst'|].
  split; [exact Ho'|exact Hx].
Defined.

(** X18: a light created after the intensity was configured to 0. *)
Lemma X18_witness :
  exists d,
    ModelLoader.spotlights
      (ModelLoader.createSpotlightForModel Vector3.zero "n" 0
         (ModelLoader.updateSpotlightConfig Scenario.dark ModelLoader.constructor))
      !! "n" = Some d /\
    SpotlightData.originalIntensity d = 0.
Proof.
  destruct (X18_configured_intensity_reaches_lights_created_later Scenario.dark 0
              Vector3.zero "n" 0 ModelLoader.constructor eq_refl)
    as (d & Hd & Ho & _).
  exists d. split; [exact Hd|exact Ho].
Defined.

(** X22: the sample gallery after a press on the canvas, a frame, the
    activation of the second model and another frame. *)
Lemma X22_witness :
  let events :=
    [Gallery3D.MouseDown 0 10 10 (Some "a");
     Gallery3D.Frame (1 # 60) 0 Scenario.zeroSin Scenario.zeroSin;
     Gallery3D.Activate 0 1;
     Gallery3D.Frame (1 # 30) 0 Scenario.zeroSin Scenario.zeroSin] in
  intensity_not_negative None /\
  Forall frame_gentle events /\
  lights_within
    (Gallery3D.modelLoader (Gallery3D.run Scenario.still events Scenario.gallery)).
Proof.
  cbv zeta.
  assert (Hc : intensity_not_negative None) by (intros c q Hc; discriminate Hc).
  assert (HF : Forall frame_gentle
                 [Gallery3D.MouseDown 0 10 10 (Some "a");
                  Gallery3D.Frame (1 # 60) 0 Scenario.zeroSin Scenario.zeroSin;
                  Gallery3D.Activate 0 1;
                  Gallery3D.Frame (1 # 30) 0 Scenario.zeroSin Scenario.zeroSin]).
  { constructor; [exact I|]. constructor.
    { simpl. split; [lra|]. split; [lra|]. intros id. unfold Scenario.zeroSin. lra. }
    constructor; [exact I|]. constructor; [|constructor].
    simpl. split; [lra|]. split; [lra|]. intros id. unfold Scenario.zeroSin. lra. }
  split; [exact Hc|]. split; [exact HF|].
  exact (X22_spotlight_intensities_stay_within_their_bounds Scenario.still
           [Scenario.itemA; Scenario.itemB] 0.5 5 None Scenario.allLoad _ Hc HF).
Defined.

(** X23: two moves of 500 pixels down each, 100 and 50 pixels to the
    right. *)
Lemma X23_witness :
  let o' := rotateBy 0.01 [(100, 500); (50, 500)] Scenario.upright in
  - (JS.Math_PI / 3) <= Vector3.x (Object3D.rotation o') <= JS.Math_PI / 3 /\
  Vector3.y (Object3D.rotation o') == 1.5.
Proof.
  cbv zeta.
  assert (Hne : [(100, 500); (50, 500)] <> @nil (Q * Q)) by discriminate.
  destruct (X23_mouse_interaction_drag_clamps_tilt_and_sums_yaw 0.01
              [(100, 500); (50, 500)] Scenario.upright Hne) as (Hx & Hy & _).
  split; [exact Hx|]. rewrite Hy. vm_compute. reflexivity.
Defined.

(** X27: [ArrowUp] on the first item of the sample gallery. *)
Lemma X27_witness :
  index_in_range Scenario.gallery /\
  fst (Gallery3D.onKeyDown Scenario.still (fun _ => true) 0 Gallery3D.ArrowUp
         Scenario.gallery) = Scenario.gallery.
Proof.
  assert (Hr : index_in_range Scenario.gallery).
  { unfold index_in_range. vm_compute. split; [discriminate|reflexivity]. }
  split; [exact Hr|].
  destruct (X27_arrow_keys_stay_in_range_without_wrapping Scenario.still
              (fun _ => true) 0 Gallery3D.ArrowUp Scenario.gallery Hr)
    as (_ & _ & _ & Hup & _).
  apply Hup; reflexivity.
Defined.

(** X28: the observer reports the second item of the sample gallery. *)
Lemma X28_witness :
  exists sh' g',
    ScrollHandler.handleIntersection Scenario.desktop 0 Scenario.secondInView
      (Scenario.scroller, Scenario.gallery) = Some (sh', g') /\
    (0 <= ScrollHandler.currentIndex sh' < ScrollHandler.length_of sh')%Z /\
    ScrollHandler.galleryData sh' = Gallery3D.galleryData g' /\
    (ScrollHandler.currentIndex sh' <> ScrollHandler.currentIndex Scenario.scroller ->
     Gallery3D.currentIndex g' = ScrollHandler.currentIndex sh').
Proof.
  assert (Hr : (0 <= ScrollHandler.currentIndex Scenario.scroller
                < ScrollHandler.length_of Scenario.scroller)%Z).
  { vm_compute. split; [discriminate|reflexivity]. }
  exact (X28_scroll_activation_resynchronises_the_gallery
           Scenario.desktop 0 Scenario.secondInView Scenario.scroller
           Scenario.gallery eq_refl Hr).
Defined.

(** X29: the second item fully in view at the top of a window 768 pixels
    high: its centre is 334 pixels above the centre of the viewport. *)
Lemma X29_witness :
  exists sh',
    ScrollHandler.handleIntersection Scenario.desktop 0 Scenario.secondAtTop
      (Scenario.scroller, Scenario.gallery) = Some (sh', Scenario.gallery) /\
    ScrollHandler.currentIndex sh' = ScrollHandler.currentIndex Scenario.scroller.
Proof.
  assert (H : Forall (off_centre Scenario.desktop) Scenario.secondAtTop).
  { constructor; [|constructor].
    unfold off_centre. split. { reflexivity. }
    split. { vm_compute. discriminate. } vm_compute. discriminate. }
  destruct (X29_off_centre_entries_never_activate Scenario.desktop 0
              Scenario.secondAtTop Scenario.scroller Scenario.gallery H)
    as (sh' & Hh & Hc & _).
  exists sh'. split; [exact Hh|exact Hc].
Defined.

(** X30: the scroll handler of the sample gallery on its first item. *)
Lemma X30_witness :
  ScrollHandler.navigatePrevious Scenario.desktop Scenario.scroller
  = Scenario.scroller /\
  ScrollHandler.navigateNext Scenario.desktop Scenario.scroller
  = ScrollHandler.scrollToItem Scenario.desktop 1 Scenario.scroller.
Proof.
  assert (Hr : (0 <= ScrollHandler.currentIndex Scenario.scroller
                < ScrollHandler.length_of Scenario.scroller)%Z).
  { vm_compute. split; [discriminate|reflexivity]. }
  destruct (X30_step_navigation_clamps_and_auto_scroll_wraps
              Scenario.desktop Scenario.scroller Hr) as (Hp & Hn & _).
  split; [exact Hp|exact Hn].
Defined.

End FurtherExamples.
